(* ===== verification/_CoqProject ===== *)
-Q . S2P
Prelude.v
GoInt.v
GoText.v
GoErr.v
Breaker.v
Endpoint.v
Wrr.v
Pool.v
PoolSpec.v
Provider.v
Retry.v
Redis.v
Limiter.v
LimiterSpec.v
LimiterWindow.v
Json.v
JsonSpec.v
GoTime.v
GoOs.v
Config.v
Types.v
TypesSpec.v
Auth.v
Store.v
HealthChecker.v
HealthLoop.v
PrefixCache.v
Http.v
Gateway.v
GatewaySpec.v
GatewayRuns.v
Scheduler.v
SchedulerSpec.v
SchedulerLive.v
Sse.v
OpenAICompat.v
SseSpec.v
OpenAI.v
Claude.v
ClaudeSpec.v
OpenAISpec.v
Adapters.v
AdaptersSpec.v
Proxy.v
ProxySpec.v
MockProvider.v
MockSpec.v
Main.v
MainSpec.v
System.v
Termination.v
