(* ===== verification/Prelude.v ===== *)
(** * Verification of the cloud gateway: root of the development

    The program is a gateway in front of language-model servers, written in Go. A client
    posts a chat request with an API key. The gateway ([internal/aigateway]) authenticates
    it, takes the most it could cost from the user's quota in Redis, asks a pool of upstream
    endpoints for one that can serve the model, calls it through the adapter of its provider,
    tries other endpoints when that fails in a way worth a retry, and gives back what was not
    used. Beside it runs an older streaming proxy ([pkg/proxy]) that queues the requests in
    a priority scheduler and counts the tokens of the answer as it passes. A health checker
    probes the endpoints, and a goroutine of [cmd/main.go] reloads them.

    ** How to read it

    Every [Definition] keeps the name of its Go function and the order of its conditions and
    returns. Methods that change an object take and return it; objects that Go shares by
    pointer live in a store (the pool's members and breakers). A method that runs under a
    mutex is one atomic step; where a lock is released in between, or several goroutines run,
    the interleaving is an explicit sequence of steps. Clock readings, network answers, what
    other goroutines do meanwhile and random choices of the runtime are arguments, so a
    theorem that quantifies over them holds for every environment. An error is a value:
    [T + error], or [option error] with [nil] as [None]. Integers are [Z] with the
    wrap-around of Go's 64-bit types written where the code can overflow; floating-point
    numbers are the IEEE-754 operations of [SpecFloat] where the code computes with them.

    ** The files

    What Go and its standard library provide:
    - [Prelude]: notations of the scope [gw_scope], the tactics, generic lemmas; [GoInt]:
      machine integers and durations; [GoText]: strings, UTF-8, [strings] and [strconv];
      [GoErr]: error chains, [errors.Is] and [errors.As]; [GoTime]: [time.ParseDuration];
      [GoOs]: the environment, [os.Expand]; [Http]: the response writer; [Json] and
      [JsonSpec]: [encoding/json] and its round trips; [Redis]: the commands of the server
      the limiter uses, with their laws and a concrete server that satisfies them.

    The endpoints:
    - [Breaker]: [internal/breaker/breaker.go], with the automaton it refines;
    - [Endpoint], [Config]: [internal/endpoint/endpoint.go] and [config.go];
    - [Wrr], [Pool], [PoolSpec]: [wrr.go] and [pool.go], over the store of shared objects;
    - [HealthChecker], [HealthLoop]: [internal/health/checker.go], the checks and the goroutine;
    - [Retry]: [internal/retry/retry.go].

    The providers:
    - [Provider]: [internal/provider/provider.go] (the registry) and [http.go];
    - [OpenAICompat], [Sse], [SseSpec]: [internal/provider/openaicompat/compat.go] and the lines
      of a stream;
    - [OpenAI], [OpenAISpec]: [internal/provider/openai] and [azure];
    - [Claude], [ClaudeSpec]: [internal/provider/claude];
    - [Adapters], [AdaptersSpec]: the three adapters as what the registry holds;
    - [MockProvider], [MockSpec]: [cmd/mockprovider/main.go], and the adapter against it.

    The requests:
    - [Types], [TypesSpec]: [internal/types/chat.go]; [Auth]: [internal/auth]; [Store]:
      [internal/store]; [PrefixCache]: [pkg/prefixcache/prefixcache.go];
    - [Limiter], [LimiterSpec], [LimiterWindow]: [pkg/limiter/limiter.go] and [lua/rate_limit_prededuct.lua];
    - [Gateway], [GatewaySpec], [GatewayRuns]: [internal/aigateway/gateway.go];
    - [Scheduler], [SchedulerSpec], [SchedulerLive]: [pkg/scheduler/scheduler.go];
    - [Proxy], [ProxySpec]: [pkg/proxy/proxy.go], with [sse.go] of that package in [Sse].

    The process:
    - [Main], [MainSpec]: [cmd/main.go], from the environment to the running system and the
      reload of its endpoints;
    - [System]: one request along gateway, adapter and mock provider;
    - [Termination]: the fuel of the recursive readers.

    ** What is shown

    - The whole path ([System.end_to_end]): a request that is granted and whose endpoint works
      is answered with the provider's text and usage, and costs exactly that usage.
    - Gateway: which requests reach an endpoint and what the others leave behind
      ([admission]); the calls of the forward loop ([forward_calls]); the bill
      ([request_billing]); the answer and its log record ([answered_and_logged]).
    - Pool and breakers: the breaker refines the closed, open and half-open automaton
      ([breaker_refines_spec]) and rejects within its cooldown; the pool stays well formed
      under every sequence of calls ([pool_reachable_wf]); [Pick] is sound under interference
      and complete without; traffic follows the weights ([weighted_share]); [Replace],
      [Report]; an endpoint is unhealthy exactly after two failed probes in a row
      ([health_hysteresis]), and stopping the checker ends its probes ([checker_stops]).
    - Quota: each pre-deduction is one transition of an account, on every failure of its two
      commands ([PreDeduct_spec]); the account stays within its bounds along every
      interleaving of clients ([limiter_bounds]); over every history of commands, with the
      window's key expiring on the server's clock, a window less the spread of the instants
      the gateways send holds at most the limit plus the colliding members ([window_bound];
      [window_slack] shows that the spread is lost indeed).
    - Scheduler and proxy: bounds on the running jobs and on what each job runs
      ([sched_bounds]); progress, as a measure that every step of the dispatcher and the
      workers lowers ([sched_progress]); what priority means ([high_first]);
      what [Submit] tells its caller ([submit_outcomes]); what a proxied request meets, streams
      and costs ([proxy_admission], [proxy_stream_count], [proxy_billing]).
    - Wire formats, for ASCII texts: requests, answers and streams read back as what was
      written ([request_roundtrip], [mock_answers_adapter]), streams are copied verbatim
      ([copy_stream_verbatim]) or translated without loss ([claude_stream_translated]);
      the outcome of a call for each outcome of its round trip, with its status and retry class
      ([adapter_outcomes]); the URLs and credentials of calls and probes
      ([probe_matches_adapter]); which bodies parse ([ParseChatRequest_spec]).
    - Keys, settings, process: cached lookups while other gateways fill the same cache
      ([cached_lookup_sound]), key lists, the prefix index ([prefix_index_spec]), the
      registry, the endpoint file in whatever order its models are visited
      ([config_loads]), a start that succeeds ([startup_sound]) and reloads that never break
      the pool ([refresh_keeps_serving]).

    Theorems about what the code does wrong are lemmas beside the component they concern:
    [duplicate_id_never_trips], [member_collision_exceeds_limit], [rotated_key_stale],
    [broken_stream_is_spliced], [missing_adapter_leaks_probe], [low_overtakes_high],
    [double_refund], [charged_without_answer], [overlapping_stops_panic], [window_slack],
    [shared_id_depends_on_order], [hit_below_ratio], [canceled_call_blames_endpoint].

    ** Bounds and fuel

    - JSON: twice the length of the text plus one; runes, quoting, [os.Expand] and the terms of
      a duration: the length of the text. [Termination.readers_terminate] shows that more
      fuel never changes an answer. Decimal printing: one more than the binary logarithm,
      which [JsonSpec] shows to be enough by reading the number back.
    - The forward loop runs at most [MaxAttempts] turns, the bound of the Go loop; that it
      ends and how is part of [forward_calls].
    - The scheduler, the proxy, the health checker's goroutine and the breaker's and
      limiter's histories are sequences of actions of any length: nothing bounds them.
    - The loops over lines, lists and members are structural.

    ** What the model takes as parameters

    Packages and services outside the repository, each a class, with the laws the code
    relies on in a class of its own: the Redis server ([Redis], [RedisLaws]), the string
    commands of the key cache ([KV], [KVLaws]), the radix tree ([RadixTree], [RadixLaws]), the
    YAML decoder ([Yaml]), SHA-256 ([KeyHash]), the Unicode tables ([Unicode], [Printable]),
    the text of some standard errors ([JsonError], [DurationError]), decimal conversion of
    [float32] ([Float32], [Float32Laws]), the re-encoding of a URL query ([UrlQuery],
    [UrlQueryLaws]), the client a registry's adapters call and the tokenizer (function
    arguments). MySQL's rows are arguments of the functions that read them. Each property that assumes laws is
    instantiated at concrete servers and tables.

    ** Not modelled

    - [net/http]'s server, mux and transport, and the inside of [httputil.ReverseProxy]: the
      model has the handlers and hooks that the repository gives them. A status code of
      1000 or more, with which [WriteHeader] panics, is outside.
    - Signals, graceful shutdown, process exit and the opening of databases in [cmd/main.go]
      and [store/mysql.go]: input and output without decisions of the program's own.
    - [Report] is one step, although it gives the pool's lock back before it touches the breaker;
      the reports that fall between two breaker calls of a [Pick] are in its [Gap]. The two
      flags a worker checks before it starts a job are read at once; both only ever rise.
    - Part of a write that fails is not delivered; Go may deliver a prefix of it.
    - Decoding the same slice field three times in one JSON object: Go may then show stale
      elements from the slice's spare capacity, here a repeated key decodes into what the
      list holds.
    - The text format of the logs: a log is the sequence of its records.
    - Manifests, scripts, dashboards and tests: no program code. *)

From Stdlib Require Import ZArith Lia.
From stdpp Require Import prelude gmap strings list.

Declare Scope gw_scope.
Delimit Scope gw_scope with gw.

(** ** Notations *)

(** Boolean order tests on [Z] in the reading order of the Go source. *)
Notation "x >=? y" := (Z.geb x y) (at level 70, no associativity) : gw_scope.
Notation "x >? y" := (Z.gtb x y) (at level 70, no associativity) : gw_scope.
Notation "x <? y" := (Z.ltb x y) (at level 70, no associativity) : gw_scope.
Notation "x <=? y" := (Z.leb x y) (at level 70, no associativity) : gw_scope.
Notation "x =? y" := (Z.eqb x y) (at level 70, no associativity) : gw_scope.
Open Scope gw_scope.

(** Equality test of Go strings ([==]). *)
Definition str_eqb (a b : string) : bool := bool_decide (a = b).
Infix "=s" := str_eqb (at level 70, no associativity) : gw_scope.

Lemma str_eqb_eq (a b : string) : str_eqb a b = true <-> a = b.
Proof. apply bool_decide_eq_true. Qed.

Lemma str_eqb_neq (a b : string) : str_eqb a b = false <-> a <> b.
Proof. apply bool_decide_eq_false. Qed.

Lemma str_eqb_refl (a : string) : str_eqb a a = true.
Proof. by apply str_eqb_eq. Qed.

(** ** Boolean reflection, shared by every component *)

Lemma geb_true (x y : Z) : (x >=? y) = true <-> (y <= x)%Z.
Proof. rewrite Z.geb_leb. apply Z.leb_le. Qed.

Lemma geb_false (x y : Z) : (x >=? y) = false <-> (x < y)%Z.
Proof. rewrite Z.geb_leb. apply Z.leb_gt. Qed.

Lemma gtb_true (x y : Z) : (x >? y) = true <-> (y < x)%Z.
Proof. rewrite Z.gtb_ltb. apply Z.ltb_lt. Qed.

Lemma gtb_false (x y : Z) : (x >? y) = false <-> (x <= y)%Z.
Proof. rewrite Z.gtb_ltb. apply Z.ltb_ge. Qed.

Create HintDb gobool.
#[export] Hint Rewrite geb_true geb_false gtb_true gtb_false Z.leb_le Z.leb_gt
  Z.ltb_lt Z.ltb_ge Z.eqb_eq Z.eqb_neq str_eqb_eq str_eqb_neq
  andb_true_iff andb_false_iff orb_true_iff orb_false_iff
  negb_true_iff negb_false_iff bool_decide_eq_true bool_decide_eq_false : gobool.

(** Turn every boolean test of the context and of the goal into its meaning. *)
Ltac breflect := autorewrite with gobool in *.

(** Case analysis on the conditions of the code, remembering each of them. *)
Ltac dcase :=
  match goal with
  | |- context [if ?b then _ else _] =>
      lazymatch type of b with
      | bool => destruct b eqn:?
      | _ => destruct b
      end
  | |- context [match ?x with _ => _ end] => destruct x eqn:?
  end.

(** The same on a hypothesis. *)
Ltac hcase H :=
  match type of H with
  | context [if ?b then _ else _] =>
      lazymatch type of b with
      | bool => destruct b eqn:?
      | _ => destruct b
      end
  | context [match ?x with _ => _ end] => destruct x eqn:?
  end.

Ltac bsolve := breflect; try tauto; try lia; try congruence.

(** ** A state monad

    The Go methods thread their receiver; [Stm S A] is one method body over the
    state [S] with result [A]. *)
Definition Stm (S A : Type) : Type := S -> A * S.

Definition sret {S A} (a : A) : Stm S A := fun s => (a, s).
Definition sbind {S A B} (m : Stm S A) (k : A -> Stm S B) : Stm S B :=
  fun s => let '(a, s') := m s in k a s'.
Definition sget {S} : Stm S S := fun s => (s, s).
Definition smodify {S} (f : S -> S) : Stm S unit := fun s => (tt, f s).

Notation "'let*' x ':=' m 'in' k" := (sbind m (fun x => k))
  (at level 200, x pattern, m at level 100, k at level 200) : gw_scope.

Lemma sbind_assoc {S A B C} (m : Stm S A) (f : A -> Stm S B) (g : B -> Stm S C) s :
  sbind (sbind m f) g s = sbind m (fun a => sbind (f a) g) s.
Proof. unfold sbind. by destruct (m s). Qed.

(** ** Lists of integers *)

Definition zsum (l : list Z) : Z := foldr Z.add 0%Z l.

Lemma zsum_app (l k : list Z) : zsum (l ++ k) = (zsum l + zsum k)%Z.
Proof. unfold zsum. induction l as [|x l IH]; simpl; [lia|rewrite IH; lia]. Qed.

Lemma zsum_nonneg (l : list Z) : Forall (fun x => 0 <= x)%Z l -> (0 <= zsum l)%Z.
Proof. induction 1; simpl; lia. Qed.

Lemma zsum_ge_elem (l : list Z) (x : Z) :
  Forall (fun x => 0 <= x)%Z l -> x ∈ l -> (x <= zsum l)%Z.
Proof.
  intros HF Hx. induction HF as [|y l Hy HF IH]; simpl; [by apply elem_of_nil in Hx|].
  apply elem_of_cons in Hx as [->|Hx]; pose proof (zsum_nonneg l HF); [lia|].
  specialize (IH Hx). lia.
Qed.

#[export] Instance zsum_perm : Proper ((≡ₚ) ==> (=)) zsum.
Proof. intros l k H. unfold zsum. induction H; simpl; lia. Qed.

Lemma filter_is_sublist {A} (P : A -> Prop) `{!forall x, Decision (P x)} (l : list A) :
  sublist (filter P l) l.
Proof.
  induction l as [|x l IH]; [constructor|]. rewrite filter_cons.
  case_decide; by constructor.
Qed.

Lemma filter_Forall_all {A} (P : A -> Prop) `{!forall x, Decision (P x)} (l : list A) :
  Forall P l -> filter P l = l.
Proof. induction 1; [done|]. rewrite filter_cons. rewrite decide_True by done. congruence. Qed.

Lemma filter_Forall_none {A} (P : A -> Prop) `{!forall x, Decision (P x)} (l : list A) :
  Forall (fun x => ~ P x) l -> filter P l = [].
Proof. induction 1; [done|]. rewrite filter_cons. by rewrite decide_False. Qed.

(** ** Traces

    Reflexive transitive closure with the new step on the right, the form in
    which safety invariants are proved by rule induction. *)
Section Trace.
Context {St : Type} (step : St -> St -> Prop).

Inductive steps (a : St) : St -> Prop :=
| steps_refl : steps a a
| steps_snoc b c : steps a b -> step b c -> steps a c.

Lemma steps_trans a b c : steps a b -> steps b c -> steps a c.
Proof. induction 2; [done|]. by eapply steps_snoc. Qed.

Lemma steps_one a b : step a b -> steps a b.
Proof. intros H. eapply steps_snoc; [apply steps_refl|done]. Qed.

Lemma steps_cons a b c : step a b -> steps b c -> steps a c.
Proof. intros H1 H2. eapply steps_trans; [by apply steps_one|done]. Qed.

(** An invariant that holds at the start and is kept by each step holds
    everywhere. *)
Lemma steps_invariant (I : St -> Prop) a b :
  I a -> (forall x y, I x -> step x y -> I y) -> steps a b -> I b.
Proof. intros Ha Hs. induction 1; eauto. Qed.
End Trace.

Create HintDb gw.
#[export] Hint Resolve steps_refl steps_one steps_snoc : gw.
