(* ===== verification/GoInt.v ===== *)
(** * Go's machine integers and durations

    [int] and [int64] are 64-bit two's complement, [uint64] wraps at [2^64];
    integers are kept as [Z] and every operation that can leave the range writes
    its wrap-around. A [time.Duration] is an [int64] count of nanoseconds and an
    instant read from the monotonic clock is a [Z] count of nanoseconds. *)

From Stdlib Require Import ZArith Lia.
From stdpp Require Import prelude.
From S2P Require Import Prelude.

Local Open Scope Z_scope.

Definition max_int64 : Z := 2 ^ 63 - 1.
Definition min_int64 : Z := - 2 ^ 63.

(** Reduction to the representable signed value. *)
Definition wrap64 (z : Z) : Z := (z + 2 ^ 63) mod 2 ^ 64 - 2 ^ 63.

(** Reduction to the representable unsigned value. *)
Definition wrapU64 (z : Z) : Z := z mod 2 ^ 64.

Definition in_int64 (z : Z) : Prop := min_int64 <= z <= max_int64.

(** [x << n] on [int64]; a count of 64 or more shifts every bit out. *)
Definition shl64 (x n : Z) : Z := wrap64 (Z.shiftl x n).

(** Integer division and remainder truncate towards zero. *)
Definition div64 (x y : Z) : Z := wrap64 (Z.quot x y).

Definition Nanosecond : Z := 1.
Definition Microsecond : Z := 1000.
Definition Millisecond : Z := 1000000.
Definition Second : Z := 1000000000.
Definition Minute : Z := 60 * Second.

(** [Duration.Milliseconds] and [Duration.Microseconds]. *)
Definition milliseconds (d : Z) : Z := Z.quot d Millisecond.
Definition microseconds (d : Z) : Z := Z.quot d Microsecond.

(** [t.Sub(u)] saturates at the ends of the [int64] range. *)
Definition time_sub (t u : Z) : Z := Z.max min_int64 (Z.min max_int64 (t - u)).

Lemma wrap64_small z : in_int64 z -> wrap64 z = z.
Proof.
  unfold in_int64, min_int64, max_int64, wrap64. intros H.
  rewrite Z.mod_small; lia.
Qed.

Lemma wrap64_range z : in_int64 (wrap64 z).
Proof.
  unfold in_int64, min_int64, max_int64, wrap64.
  pose proof (Z.mod_pos_bound (z + 2 ^ 63) (2 ^ 64) ltac:(lia)). lia.
Qed.

Lemma wrap64_idemp z : wrap64 (wrap64 z) = wrap64 z.
Proof. apply wrap64_small, wrap64_range. Qed.

(** Wrap-around is a congruence: it only changes a value by a multiple of
    [2^64]. *)
Lemma wrap64_mod z : wrap64 z mod 2 ^ 64 = z mod 2 ^ 64.
Proof.
  unfold wrap64. rewrite Zminus_mod_idemp_l. f_equal. lia.
Qed.

Lemma wrap64_add_l x y : wrap64 (wrap64 x + y) = wrap64 (x + y).
Proof.
  unfold wrap64 at 1 3.
  replace (wrap64 x + y + 2 ^ 63) with (wrap64 x + (y + 2 ^ 63)) by lia.
  rewrite <- Zplus_mod_idemp_l, wrap64_mod, Zplus_mod_idemp_l.
  f_equal. f_equal. lia.
Qed.

Lemma wrapU64_small z : 0 <= z < 2 ^ 64 -> wrapU64 z = z.
Proof. intros. unfold wrapU64. by apply Z.mod_small. Qed.

Lemma time_sub_ge t u d : 0 <= d <= max_int64 -> d <= time_sub t u <-> d <= t - u.
Proof. unfold time_sub, max_int64, min_int64. lia. Qed.

Lemma time_sub_lt t u d : 0 <= d <= max_int64 -> time_sub t u < d <-> t - u < d.
Proof. unfold time_sub, max_int64, min_int64. lia. Qed.

Create HintDb goint.
#[export] Hint Resolve wrap64_range wrap64_small : goint.

(** Removes wrap-arounds that the bounds of the context show to be no-ops. *)
Ltac unwrap64 :=
  repeat match goal with
  | |- context [wrap64 ?z] =>
      rewrite (wrap64_small z) by (unfold in_int64, min_int64, max_int64 in *; lia)
  | H : context [wrap64 ?z] |- _ =>
      rewrite (wrap64_small z) in H by (unfold in_int64, min_int64, max_int64 in *; lia)
  end.
