(* ===== verification/GoText.v ===== *)
(** * Go strings

    A Go string is a sequence of bytes, here a [string] of 8-bit characters. The
    functions of [strings], [bytes] and [unicode/utf8] that the gateway calls are
    defined on bytes, with UTF-8 decoding where the standard library decodes.
    The case tables of the [unicode] package beyond ASCII are data and stay a
    parameter, the class [Unicode]. *)

From Stdlib Require Import ZArith Lia Ascii.
From stdpp Require Import prelude list strings.
From S2P Require Import Prelude.

Local Open Scope Z_scope.

Definition byte_of (a : ascii) : Z := Z.of_N (N_of_ascii a).
Definition of_byte (z : Z) : ascii := ascii_of_N (Z.to_N z).

Lemma byte_of_range a : 0 <= byte_of a < 256.
Proof.
  unfold byte_of. pose proof (N_ascii_bounded a). lia.
Qed.

Definition chars (s : string) : list ascii := String.list_ascii_of_string s.
Definition unchars (l : list ascii) : string := String.string_of_list_ascii l.

Lemma unchars_chars s : unchars (chars s) = s.
Proof. apply String.string_of_list_ascii_of_string. Qed.

Lemma chars_unchars l : chars (unchars l) = l.
Proof. apply String.list_ascii_of_string_of_list_ascii. Qed.

(** [len(s)]. *)
Definition slen (s : string) : Z := Z.of_nat (String.length s).

(** ** UTF-8 *)

Definition RuneError : Z := 0xFFFD.

Definition cont (z : Z) : bool := (0x80 <=? z) && (z <=? 0xBF).
Definition between (lo hi z : Z) : bool := (lo <=? z) && (z <=? hi).

(** [utf8.DecodeRune] on a nonempty byte sequence: the rune and what follows; an
    ill-formed sequence gives [RuneError] and consumes one byte. The ranges of the
    second byte exclude overlong forms, surrogates and runes above U+10FFFF. *)
Definition decode_rune (a : ascii) (l : list ascii) : Z * list ascii :=
  let x := byte_of a in
  if x <? 0x80 then (x, l) else
  match l with
  | [] => (RuneError, l)
  | b :: l2 =>
    let y := byte_of b in
    if between 0xC2 0xDF x then
      if cont y then (Z.land x 0x1F * 64 + Z.land y 0x3F, l2) else (RuneError, l)
    else
    match l2 with
    | [] => (RuneError, l)
    | c :: l3 =>
      let z := byte_of c in
      if between 0xE0 0xEF x then
        let lo := if x =? 0xE0 then 0xA0 else 0x80 in
        let hi := if x =? 0xED then 0x9F else 0xBF in
        if between lo hi y && cont z then
          (Z.land x 0x0F * 4096 + Z.land y 0x3F * 64 + Z.land z 0x3F, l3)
        else (RuneError, l)
      else
      match l3 with
      | [] => (RuneError, l)
      | d :: l4 =>
        let w := byte_of d in
        if between 0xF0 0xF4 x then
          let lo := if x =? 0xF0 then 0x90 else 0x80 in
          let hi := if x =? 0xF4 then 0x8F else 0xBF in
          if between lo hi y && cont z && cont w then
            (Z.land x 0x07 * 262144 + Z.land y 0x3F * 4096
               + Z.land z 0x3F * 64 + Z.land w 0x3F, l4)
          else (RuneError, l)
        else (RuneError, l)
      end
    end
  end.

Fixpoint runes_fuel (n : nat) (l : list ascii) : list Z :=
  match n, l with
  | S n, a :: l => let '(r, l') := decode_rune a l in r :: runes_fuel n l'
  | _, _ => []
  end.

(** [[]rune(s)]; each rune takes a byte at least, so the length is enough fuel. *)
Definition runes (s : string) : list Z := runes_fuel (String.length s) (chars s).

(** [utf8.AppendRune]; surrogates and values out of range encode as
    [RuneError]. *)
Definition encode_rune (r : Z) : list ascii :=
  let r := if (r <? 0) || (0x10FFFF <? r) || between 0xD800 0xDFFF r
           then RuneError else r in
  if r <? 0x80 then [of_byte r]
  else if r <? 0x800 then
    [of_byte (0xC0 + Z.shiftr r 6); of_byte (0x80 + Z.land r 0x3F)]
  else if r <? 0x10000 then
    [of_byte (0xE0 + Z.shiftr r 12); of_byte (0x80 + Z.land (Z.shiftr r 6) 0x3F);
     of_byte (0x80 + Z.land r 0x3F)]
  else
    [of_byte (0xF0 + Z.shiftr r 18); of_byte (0x80 + Z.land (Z.shiftr r 12) 0x3F);
     of_byte (0x80 + Z.land (Z.shiftr r 6) 0x3F); of_byte (0x80 + Z.land r 0x3F)].

(** [string(runes)]. *)
Definition of_runes (l : list Z) : string := unchars (mjoin (encode_rune <$> l)).

(** ** White space *)

Definition ascii_space (z : Z) : bool := between 0x09 0x0D z || (z =? 0x20).

(** The white space of [unicode.IsSpace] that takes two or three bytes. *)
Definition space2 (x y : Z) : bool := (x =? 0xC2) && ((y =? 0x85) || (y =? 0xA0)).
Definition space3 (x y z : Z) : bool :=
  ((x =? 0xE1) && (y =? 0x9A) && (z =? 0x80)) ||
  ((x =? 0xE2) && (y =? 0x80) &&
     (between 0x80 0x8A z || (z =? 0xA8) || (z =? 0xA9) || (z =? 0xAF))) ||
  ((x =? 0xE2) && (y =? 0x81) && (z =? 0x9F)) ||
  ((x =? 0xE3) && (y =? 0x80) && (z =? 0x80)).

Fixpoint trim_left (l : list ascii) : list ascii :=
  match l with
  | [] => []
  | a :: l1 =>
    if ascii_space (byte_of a) then trim_left l1 else
    match l1 with
    | [] => l
    | b :: l2 =>
      if space2 (byte_of a) (byte_of b) then trim_left l2 else
      match l2 with
      | [] => l
      | c :: l3 =>
        if space3 (byte_of a) (byte_of b) (byte_of c) then trim_left l3 else l
      end
    end
  end.

(** The same from the end, on the reversed bytes. *)
Fixpoint trim_left_rev (l : list ascii) : list ascii :=
  match l with
  | [] => []
  | a :: l1 =>
    if ascii_space (byte_of a) then trim_left_rev l1 else
    match l1 with
    | [] => l
    | b :: l2 =>
      if space2 (byte_of b) (byte_of a) then trim_left_rev l2 else
      match l2 with
      | [] => l
      | c :: l3 =>
        if space3 (byte_of c) (byte_of b) (byte_of a) then trim_left_rev l3 else l
      end
    end
  end.

(** [strings.TrimSpace]. *)
Definition TrimSpace (s : string) : string :=
  unchars (rev (trim_left_rev (rev (trim_left (chars s))))).

(** [strings.TrimRight(s, c)] for a cutset of one ASCII character. *)
Fixpoint drop_while_eq (c : ascii) (l : list ascii) : list ascii :=
  match l with
  | a :: l1 => if bool_decide (a = c) then drop_while_eq c l1 else l
  | [] => []
  end.
Definition TrimRight1 (c : ascii) (s : string) : string :=
  unchars (rev (drop_while_eq c (rev (chars s)))).

(** ** Prefixes, suffixes, separators *)

(** [strings.CutPrefix]: what follows the prefix, if it is one. *)
Fixpoint cut_prefix (p s : string) : option string :=
  match p, s with
  | EmptyString, _ => Some s
  | String a p, String b s => if bool_decide (a = b) then cut_prefix p s else None
  | String _ _, EmptyString => None
  end.

Definition HasPrefix (s p : string) : bool := bool_decide (is_Some (cut_prefix p s)).
Definition HasSuffix (s p : string) : bool :=
  HasPrefix (unchars (rev (chars s))) (unchars (rev (chars p))).

(** [strings.Contains]. *)
Fixpoint Contains (s p : string) : bool :=
  HasPrefix s p ||
  match s with
  | EmptyString => false
  | String _ s' => Contains s' p
  end.

(** [strings.Cut] on a one-byte separator: before, after, found. *)
Fixpoint Cut1 (c : ascii) (s : string) : string * string * bool :=
  match s with
  | EmptyString => (EmptyString, EmptyString, false)
  | String a s' =>
      if bool_decide (a = c) then (EmptyString, s', true)
      else let '(x, y, ok) := Cut1 c s' in (String a x, y, ok)
  end.

(** [strings.Split] on a one-byte separator. *)
Fixpoint Split1 (c : ascii) (s : string) : list string :=
  match s with
  | EmptyString => [EmptyString]
  | String a s' =>
      if bool_decide (a = c) then EmptyString :: Split1 c s'
      else match Split1 c s' with
           | [] => [String a EmptyString]
           | x :: xs => String a x :: xs
           end
  end.

(** [strings.Join]. *)
Fixpoint Join (l : list string) (sep : string) : string :=
  match l with
  | [] => ""
  | [x] => x
  | x :: xs => x +:+ sep +:+ Join xs sep
  end.

(** [s[:n]] and [s[n:]]. *)
Definition sprefix (n : nat) (s : string) : string := unchars (take n (chars s)).
Definition ssuffix (n : nat) (s : string) : string := unchars (drop n (chars s)).

(** ** Case *)

(** The lower case of runes outside ASCII. *)
Class Unicode := unicode_lower : Z -> Z.

Definition ascii_lower (z : Z) : Z := if between 0x41 0x5A z then z + 32 else z.

Definition rune_lower `{Unicode} (r : Z) : Z :=
  if r <? 0x80 then ascii_lower r else unicode_lower r.

(** [strings.ToLower]. *)
Definition ToLower `{Unicode} (s : string) : string :=
  of_runes (rune_lower <$> runes s).

(** [strings.EqualFold(s, t)] for an ASCII [t]: besides the two cases of a letter,
    the Kelvin sign folds to [k] and the long s to [s]. *)
Definition fold_ascii (r : Z) : Z :=
  if r =? 0x212A then 0x6B else if r =? 0x17F then 0x73 else ascii_lower r.
Definition EqualFold_ascii (s t : string) : bool :=
  bool_decide (fold_ascii <$> runes s = fold_ascii <$> runes t).

(** ** Decimal printing ([%d]) *)

Definition digit (z : Z) : ascii := of_byte (0x30 + z).

Fixpoint digits_fuel (n : nat) (z : Z) (acc : list ascii) : list ascii :=
  match n with
  | O => acc
  | S n => if z <? 10 then digit z :: acc
           else digits_fuel n (z / 10) (digit (z mod 10) :: acc)
  end.

(** At most [log2 z + 1] decimal digits. *)
Definition nat_string (z : Z) : string :=
  unchars (digits_fuel (S (Z.to_nat (Z.log2 z))) z []).

Definition int_string (z : Z) : string :=
  if z <? 0 then "-" +:+ nat_string (- z) else nat_string z.

(** ** Facts *)

Lemma sapp_nil s : "" +:+ s = s.
Proof. reflexivity. Qed.

Lemma sapp_cons a s t : String a s +:+ t = String a (s +:+ t).
Proof. reflexivity. Qed.

Create HintDb sapp.
#[export] Hint Rewrite sapp_nil sapp_cons : sapp.

(** Induction on the first string of an append. *)
Ltac sapp_induct s :=
  induction s; autorewrite with sapp in *; simpl in *; try congruence.

Lemma app_empty_r s : s +:+ "" = s.
Proof. sapp_induct s. Qed.

Lemma app_assoc_s a b c : (a +:+ b) +:+ c = a +:+ (b +:+ c).
Proof. sapp_induct a. Qed.

Lemma app_inj_l a b c : a +:+ b = a +:+ c -> b = c.
Proof. sapp_induct a. intros [=]; auto. Qed.

Lemma slen_nonneg s : 0 <= slen s.
Proof. unfold slen. lia. Qed.

Lemma slen_zero s : slen s = 0 -> s = "".
Proof. unfold slen. destruct s; simpl; [done|lia]. Qed.

Lemma slen_app a b : slen (a +:+ b) = slen a + slen b.
Proof. unfold slen. sapp_induct a; lia. Qed.

Lemma cut_prefix_app p s : cut_prefix p (p +:+ s) = Some s.
Proof. sapp_induct p. by rewrite bool_decide_eq_true_2. Qed.

Lemma cut_prefix_Some p s r : cut_prefix p s = Some r -> s = p +:+ r.
Proof.
  revert s. induction p as [|a p IH]; intros s; simpl.
  - intros [= ->]. by rewrite sapp_nil.
  - destruct s as [|b s]; [done|]. case_bool_decide; [|done].
    intros ?%IH. subst. by rewrite sapp_cons.
Qed.

Lemma HasPrefix_spec s p : HasPrefix s p = true <-> exists r, s = p +:+ r.
Proof.
  unfold HasPrefix. rewrite bool_decide_eq_true. split.
  - intros [r H]. exists r. by apply cut_prefix_Some.
  - intros [r ->]. exists r. apply cut_prefix_app.
Qed.

(** Trimming is idempotent on each side. *)
Lemma trim_left_idemp l : trim_left (trim_left l) = trim_left l.
Proof.
  remember (length l) as n eqn:Hn. revert l Hn.
  induction n as [n IH] using lt_wf_ind. intros l ->.
  destruct l as [|a l1]; [done|].
  simpl. destruct (ascii_space _) eqn:E; [apply (IH (length l1)); simpl; lia|].
  destruct l1 as [|b l2]; [simpl; by rewrite E|].
  destruct (space2 _ _) eqn:E2; [apply (IH (length l2)); simpl; lia|].
  destruct l2 as [|c l3]; [simpl; by rewrite E, E2|].
  destruct (space3 _ _ _) eqn:E3; [apply (IH (length l3)); simpl; lia|].
  simpl. by rewrite E, E2, E3.
Qed.

Lemma trim_left_rev_idemp l : trim_left_rev (trim_left_rev l) = trim_left_rev l.
Proof.
  remember (length l) as n eqn:Hn. revert l Hn.
  induction n as [n IH] using lt_wf_ind. intros l ->.
  destruct l as [|a l1]; [done|].
  simpl. destruct (ascii_space _) eqn:E; [apply (IH (length l1)); simpl; lia|].
  destruct l1 as [|b l2]; [simpl; by rewrite E|].
  destruct (space2 _ _) eqn:E2; [apply (IH (length l2)); simpl; lia|].
  destruct l2 as [|c l3]; [simpl; by rewrite E, E2|].
  destruct (space3 _ _ _) eqn:E3; [apply (IH (length l3)); simpl; lia|].
  simpl. by rewrite E, E2, E3.
Qed.

(** ** Quoting ([%q])

    The printable runes beyond ASCII are a table of the [unicode] package, the
    class [Printable]. *)
Class Printable := unicode_print : Z -> bool.

Definition hex_digit (z : Z) : ascii :=
  if z <? 10 then of_byte (0x30 + z) else of_byte (0x61 + z - 10).

(** [n] lower-case hexadecimal digits of [z]. *)
Fixpoint hex (n : nat) (z : Z) : list ascii :=
  match n with
  | O => []
  | S n => hex n (Z.shiftr z 4) ++ [hex_digit (Z.land z 15)]
  end.

Definition backslash : ascii := of_byte 0x5C.

(** [strconv.appendEscapedRune] with the double quote. *)
Definition quote_rune `{Printable} (r : Z) : list ascii :=
  if (r =? 0x22) || (r =? 0x5C) then [backslash; of_byte r]
  else if (if r <? 0x80 then between 0x20 0x7E r else unicode_print r) then encode_rune r
  else if r =? 0x07 then [backslash; "a"%char]
  else if r =? 0x08 then [backslash; "b"%char]
  else if r =? 0x0C then [backslash; "f"%char]
  else if r =? 0x0A then [backslash; "n"%char]
  else if r =? 0x0D then [backslash; "r"%char]
  else if r =? 0x09 then [backslash; "t"%char]
  else if r =? 0x0B then [backslash; "v"%char]
  else if (r <? 0x20) || (r =? 0x7F) then backslash :: "x"%char :: hex 2 r
  else if r <? 0x10000 then backslash :: "u"%char :: hex 4 r
  else backslash :: "U"%char :: hex 8 r.

Fixpoint quote_fuel `{Printable} (n : nat) (l : list ascii) : list ascii :=
  match n, l with
  | S n, a :: l =>
      let '(r, l') := decode_rune a l in
      (if (r =? RuneError) && bool_decide (length l' = length l)
       then backslash :: "x"%char :: hex 2 (byte_of a)
       else quote_rune r) ++ quote_fuel n l'
  | _, _ => []
  end.

(** [strconv.Quote]. *)
Definition Quote `{Printable} (s : string) : string :=
  unchars (of_byte 0x22 :: quote_fuel (String.length s) (chars s) ++ [of_byte 0x22]).

(** A separator byte does not occur in a string. *)
Definition no_byte (c : ascii) (s : string) : Prop := c ∉ chars s.

(** Appends with one separator between are injective when the left parts do not
    contain it. *)
Lemma sep_inj c a a' b b' :
  no_byte c a -> no_byte c a' ->
  a +:+ String c b = a' +:+ String c b' -> a = a' /\ b = b'.
Proof.
  unfold no_byte, chars. revert a'. induction a as [|x a IH]; intros [|y a'] Ha Ha' He;
    autorewrite with sapp in *; simpl in *; simplify_eq; set_unfold; try tauto.
  destruct (IH a') as [-> ->]; tauto.
Qed.
