(* ===== verification/GoErr.v ===== *)
(** * Go error values

    A Go [error] is its chain of [Unwrap]s, outermost first: [errors.Is] and
    [errors.As] look for a node of the chain. [nil] is [None] at type
    [option error]. The sentinel errors of the packages are compared by
    identity, [provider.Error] is found by type, and an error of the [net] package
    by the interface [net.Error]. *)

From Stdlib Require Import ZArith.
From stdpp Require Import prelude list strings.
From S2P Require Import Prelude GoText.

Local Open Scope Z_scope.

(** [provider.Error] ([internal/provider/provider.go]). *)
Record ProviderError := mkProviderError {
  StatusCode : Z;
  Message : string;
  RetryAfter : Z
}.

Inductive sentinel :=
| ErrMissing | ErrInvalid | ErrDisabled
| ErrNoEndpoint
| ErrRateLimitExceeded | ErrInsufficientBalance
| ErrClosedPipe.

#[export] Instance sentinel_eq_dec : EqDecision sentinel.
Proof. solve_decision. Defined.

Inductive errnode :=
| EMsg (text : string)
| ESentinel (s : sentinel)
| ECanceled
| EDeadlineExceeded
| ENet (timeout : bool) (text : string)
| EProvider (e : ProviderError).

Abbreviation error := (list errnode).

Definition sentinel_text (s : sentinel) : string :=
  match s with
  | ErrMissing => "missing api key"
  | ErrInvalid => "invalid api key"
  | ErrDisabled => "api key disabled"
  | ErrNoEndpoint => "no healthy endpoint"
  | ErrRateLimitExceeded => "RATE_LIMIT_EXCEEDED"
  | ErrInsufficientBalance => "INSUFFICIENT_BALANCE"
  | ErrClosedPipe => "io: read/write on closed pipe"
  end.

(** [func (e *Error) Error()]. *)
Definition ProviderError_text (e : ProviderError) : string :=
  if StatusCode e =? 0 then Message e
  else "provider status " +:+ int_string (StatusCode e) +:+ ": " +:+ Message e.

Definition node_text (n : errnode) : string :=
  match n with
  | EMsg t => t
  | ESentinel s => sentinel_text s
  | ECanceled => "context canceled"
  | EDeadlineExceeded => "context deadline exceeded"
  | ENet _ t => t
  | EProvider e => ProviderError_text e
  end.

Definition error_text (e : error) : string :=
  match e with n :: _ => node_text n | [] => "" end.

(** [errors.New], and [fmt.Errorf] with a final [%w]. *)
Definition errorsNew (text : string) : error := [EMsg text].
Definition errorWrap (prefix : string) (e : error) : error :=
  EMsg (prefix +:+ error_text e) :: e.

Definition sentinel_error (s : sentinel) : error := [ESentinel s].

Definition is_sentinel (e : error) (s : sentinel) : bool :=
  existsb (fun n => match n with ESentinel t => bool_decide (t = s) | _ => false end) e.

Definition is_canceled (e : error) : bool :=
  existsb (fun n => match n with ECanceled => true | _ => false end) e.

Definition is_deadline (e : error) : bool :=
  existsb (fun n => match n with EDeadlineExceeded => true | _ => false end) e.

(** [errors.As(err, &pe)] with [pe *provider.Error]. *)
Fixpoint as_provider (e : error) : option ProviderError :=
  match e with
  | [] => None
  | EProvider p :: _ => Some p
  | _ :: e => as_provider e
  end.

(** [errors.As(err, &ne)] with [ne net.Error]: its [Timeout()]. The error of an
    expired context is itself a [net.Error]. *)
Fixpoint as_net (e : error) : option bool :=
  match e with
  | [] => None
  | ENet t _ :: _ => Some t
  | EDeadlineExceeded :: _ => Some true
  | _ :: e => as_net e
  end.
