(* ===== verification/Breaker.v ===== *)
(** * The circuit breaker ([internal/breaker/breaker.go])

    One [Definition] per method; a method body runs under the breaker's mutex, so
    it is one atomic step, and the clock reading it makes is an argument. The
    specification automaton [Spec] keeps only what callers can rely on; the
    refinement lemmas show the counters of the code implement it. *)

From Stdlib Require Import ZArith Lia.
From stdpp Require Import prelude list strings.
From S2P Require Import Prelude GoInt.

Local Open Scope Z_scope.

Inductive State := Closed | Open | HalfOpen.

#[export] Instance State_eq_dec : EqDecision State.
Proof. solve_decision. Defined.

Definition State_String (s : State) : string :=
  match s with
  | Open => "OPEN"
  | HalfOpen => "HALF_OPEN"
  | Closed => "CLOSED"
  end.

Record Config := mkConfig { FailureThreshold : Z; Cooldown : Z }.

Definition withDefaults (c : Config) : Config :=
  let c := if FailureThreshold c <? 1
           then mkConfig 5 (Cooldown c) else c in
  let c := if Cooldown c <=? 0
           then mkConfig (FailureThreshold c) (10 * Second) else c in
  c.

Record Breaker := mkBreaker {
  cfg : Config;
  state : State;
  failures : Z;
  openedAt : Z;
  halfOpenInFlight : bool
}.

Definition New (c : Config) : Breaker := mkBreaker (withDefaults c) Closed 0 0 false.

Definition maybeHalfOpenLocked (now : Z) (b : Breaker) : Breaker :=
  if bool_decide (state b = Open) && (time_sub now (openedAt b) >=? Cooldown (cfg b))
  then mkBreaker (cfg b) HalfOpen (failures b) (openedAt b) false
  else b.

(** [func (b *Breaker) State()]. *)
Definition GetState (now : Z) (b : Breaker) : State * Breaker :=
  let b := maybeHalfOpenLocked now b in (state b, b).

Definition Eligible (now : Z) (b : Breaker) : bool * Breaker :=
  let b := maybeHalfOpenLocked now b in
  match state b with
  | Closed => (true, b)
  | HalfOpen => (negb (halfOpenInFlight b), b)
  | Open => (false, b)
  end.

Definition Allow (now : Z) (b : Breaker) : bool * Breaker :=
  let b := maybeHalfOpenLocked now b in
  match state b with
  | Closed => (true, b)
  | HalfOpen =>
      if halfOpenInFlight b then (false, b)
      else (true, mkBreaker (cfg b) (state b) (failures b) (openedAt b) true)
  | Open => (false, b)
  end.

Definition Success (b : Breaker) : Breaker :=
  mkBreaker (cfg b) Closed 0 (openedAt b) false.

Definition Failure (now : Z) (b : Breaker) : Breaker :=
  if bool_decide (state b = HalfOpen)
  then mkBreaker (cfg b) Open (failures b) now false
  else
    let b := mkBreaker (cfg b) (state b) (wrap64 (failures b + 1)) (openedAt b)
               (halfOpenInFlight b) in
    if failures b >=? FailureThreshold (cfg b)
    then mkBreaker (cfg b) Open (failures b) now (halfOpenInFlight b)
    else b.

Definition Release (b : Breaker) : Breaker :=
  mkBreaker (cfg b) (state b) (failures b) (openedAt b) false.

(** ** Histories

    Each call on a breaker with the clock reading it makes, and its result. *)
Inductive op := OpState | OpEligible | OpAllow | OpSuccess | OpFailure | OpRelease.

#[export] Instance op_eq_dec : EqDecision op.
Proof. solve_decision. Defined.

Inductive out := OutUnit | OutBool (b : bool) | OutState (s : State).

Definition exec (now : Z) (o : op) (b : Breaker) : out * Breaker :=
  match o with
  | OpState => let r := GetState now b in (OutState (fst r), snd r)
  | OpEligible => let r := Eligible now b in (OutBool (fst r), snd r)
  | OpAllow => let r := Allow now b in (OutBool (fst r), snd r)
  | OpSuccess => (OutUnit, Success b)
  | OpFailure => (OutUnit, Failure now b)
  | OpRelease => (OutUnit, Release b)
  end.

Fixpoint run (tr : list (Z * op)) (b : Breaker) : list out * Breaker :=
  match tr with
  | [] => ([], b)
  | (now, o) :: tr =>
      let '(r, b) := exec now o b in
      let '(rs, b) := run tr b in
      (r :: rs, b)
  end.

Lemma run_cons now o tr b :
  run ((now, o) :: tr) b =
    (fst (exec now o b) :: fst (run tr (snd (exec now o b))),
     snd (run tr (snd (exec now o b)))).
Proof. simpl. destruct (exec now o b) as [r b']. simpl. by destruct (run tr b'). Qed.

(** ** The specification automaton *)

(** A closed breaker remembers its consecutive failures, an open one the instant
    it was last opened, a half-open one whether its probe is out. *)
Inductive Spec := SClosed (n : Z) | SOpen (since : Z) | SHalf (busy : bool).

Section SpecStep.
Context (K D : Z).

(** An open breaker whose cooldown has elapsed behaves as half-open. *)
Definition scool (now : Z) (s : Spec) : Spec :=
  match s with
  | SOpen t => if time_sub now t >=? D then SHalf false else SOpen t
  | _ => s
  end.

Definition sadmits (s : Spec) : bool :=
  match s with
  | SClosed _ => true
  | SOpen _ => false
  | SHalf busy => negb busy
  end.

Definition sstate (s : Spec) : State :=
  match s with
  | SClosed _ => Closed
  | SOpen _ => Open
  | SHalf _ => HalfOpen
  end.

Definition stake (s : Spec) : Spec :=
  match s with
  | SHalf _ => SHalf true
  | _ => s
  end.

Definition sfail (now : Z) (s : Spec) : Spec :=
  match s with
  | SClosed n => if n + 1 <? K then SClosed (n + 1) else SOpen now
  | _ => SOpen now
  end.

Definition sexec (now : Z) (o : op) (s : Spec) : out * Spec :=
  match o with
  | OpState => (OutState (sstate (scool now s)), scool now s)
  | OpEligible => (OutBool (sadmits (scool now s)), scool now s)
  | OpAllow => (OutBool (sadmits (scool now s)), stake (scool now s))
  | OpSuccess => (OutUnit, SClosed 0)
  | OpFailure => (OutUnit, sfail now s)
  | OpRelease => (OutUnit, match s with SHalf _ => SHalf false | _ => s end)
  end.

Fixpoint srun (tr : list (Z * op)) (s : Spec) : list out * Spec :=
  match tr with
  | [] => ([], s)
  | (now, o) :: tr =>
      let '(r, s) := sexec now o s in
      let '(rs, s) := srun tr s in
      (r :: rs, s)
  end.
End SpecStep.

(** The abstraction function. *)
Definition abs (b : Breaker) : Spec :=
  match state b with
  | Closed => SClosed (failures b)
  | Open => SOpen (openedAt b)
  | HalfOpen => SHalf (halfOpenInFlight b)
  end.

(** ** Invariant

    [k] bounds the number of failures counted so far; it keeps [failures++] away
    from the end of the [int] range. *)
Record Inv (k : Z) (b : Breaker) : Prop := {
  inv_threshold : 1 <= FailureThreshold (cfg b) <= max_int64;
  inv_cooldown : 0 < Cooldown (cfg b) <= max_int64;
  inv_failures : 0 <= failures b <= k;
  inv_closed : state b = Closed <-> failures b < FailureThreshold (cfg b);
  inv_inflight : halfOpenInFlight b = true -> state b = HalfOpen
}.

Definition cfg_ok (c : Config) : Prop :=
  in_int64 (FailureThreshold c) /\ in_int64 (Cooldown c).

Lemma withDefaults_ok c :
  cfg_ok c ->
  1 <= FailureThreshold (withDefaults c) <= max_int64 /\
  0 < Cooldown (withDefaults c) <= max_int64.
Proof.
  unfold cfg_ok, in_int64, withDefaults, max_int64, min_int64, Second.
  intros [H1 H2]. destruct c as [t d]; simpl in *.
  repeat (dcase; simpl in * ); breflect; lia.
Qed.

Lemma New_Inv c : cfg_ok c -> Inv 0 (New c).
Proof.
  intros [H1 H2]%withDefaults_ok. split; simpl; try done.
  split; [lia|done].
Qed.

Lemma maybeHalfOpen_Inv k now b : Inv k b -> Inv k (maybeHalfOpenLocked now b).
Proof.
  intros [Ht Hc Hf Hs Hi]. unfold maybeHalfOpenLocked. dcase; [|done].
  breflect. destruct Heqb0 as [Ho _].
  split; simpl; try done. rewrite Ho in Hs.
  split; [done|intros H%Hs; done].
Qed.

Lemma Inv_mono k k' b : Inv k b -> k <= k' -> Inv k' b.
Proof. intros [Ht Hc Hf Hs Hi] Hk. split; try done; lia. Qed.

Ltac bk_cases := repeat (dcase; simpl in * ).

Lemma maybeHalfOpen_cfg now b : cfg (maybeHalfOpenLocked now b) = cfg b.
Proof. unfold maybeHalfOpenLocked. by dcase. Qed.

Lemma exec_cfg now o b : cfg (snd (exec now o b)) = cfg b.
Proof.
  destruct o; simpl; try done;
    unfold GetState, Eligible, Allow, Failure.
  1-3: rewrite <- (maybeHalfOpen_cfg now b).
  all: bk_cases; done.
Qed.

Lemma run_cfg tr : forall b, cfg (snd (run tr b)) = cfg b.
Proof.
  induction tr as [|[now o] tr IH]; intros b; [done|].
  rewrite run_cons; simpl. by rewrite IH, exec_cfg.
Qed.

Lemma exec_Inv k now o b :
  Inv k b -> k < max_int64 -> Inv (k + 1) (snd (exec now o b)).
Proof.
  intros HI Hk. pose proof (maybeHalfOpen_Inv k now b HI) as HM.
  apply (Inv_mono _ (k + 1)) in HM; [|lia].
  destruct o; simpl; unfold GetState, Eligible, Allow; try done.
  { by destruct (state (maybeHalfOpenLocked now b)). }
  { destruct (state (maybeHalfOpenLocked now b)) eqn:E; try done.
    destruct (halfOpenInFlight _) eqn:F; [done|].
    destruct HM as [Ht Hc Hf Hs Hi]; split; simpl; try done; by rewrite <- E. }
  all: clear HM; destruct HI as [Ht Hc Hf Hs Hi].
  - split; simpl; try done; try lia. split; [lia|done].
  - unfold Failure. bk_cases; breflect.
    + split; simpl; try done; try lia. split; [done|].
      intros H. rewrite Heqb0 in Hs. by apply Hs in H.
    + unwrap64. split; simpl; try done; try lia;
        try (split; [done|lia]).
      intros Hfl. specialize (Hi Hfl). congruence.
    + unwrap64. split; simpl; try done; try lia.
      assert (state b = Closed) by (apply Hs; lia). split; [lia|done].
  - split; simpl; try done; lia.
Qed.

Lemma run_Inv tr : forall k b,
  Inv k b -> k + Z.of_nat (length tr) <= max_int64 ->
  Inv (k + Z.of_nat (length tr)) (snd (run tr b)).
Proof.
  induction tr as [|[now o] tr IH]; intros k b HI Hk.
  - simpl. by rewrite Z.add_0_r.
  - rewrite run_cons. cbn [snd length] in *.
    replace (k + Z.of_nat (S (length tr))) with ((k + 1) + Z.of_nat (length tr)) by lia.
    apply IH; [apply exec_Inv; [done|lia]|lia].
Qed.

(** ** Refinement, one method at a time *)

Section Refine.
Context (k : Z) (b : Breaker) (HI : Inv k b).
Let K := FailureThreshold (cfg b).
Let D := Cooldown (cfg b).

Lemma abs_maybeHalfOpen now :
  abs (maybeHalfOpenLocked now b) = scool D now (abs b).
Proof.
  unfold maybeHalfOpenLocked, abs, scool, D.
  destruct (state b) eqn:E; simpl; rewrite ?E; try done.
  dcase; simpl; by rewrite ?E.
Qed.

Lemma exec_refines now o :
  k < max_int64 ->
  sexec K D now o (abs b) = (fst (exec now o b), abs (snd (exec now o b))).
Proof.
  intros Hk. pose proof (abs_maybeHalfOpen now) as HA.
  destruct o; cbn [sexec exec]; unfold D in *; rewrite <-?HA.
  1-3: unfold GetState, Eligible, Allow, abs;
       destruct (state (maybeHalfOpenLocked now b)) eqn:E;
       simpl; rewrite ?E; try done.
  - destruct (halfOpenInFlight (maybeHalfOpenLocked now b)) eqn:F; simpl;
      by rewrite ?E, ?F.
  - done.
  - clear HA. destruct HI as [Ht Hc Hf Hs Hi]. unfold K, Failure, abs, sfail.
    unfold in_int64 in *.
    destruct (state b) eqn:E; simpl; unwrap64.
    + assert (failures b < FailureThreshold (cfg b)) by tauto.
      destruct (failures b + 1 <? _) eqn:E1; breflect.
      * rewrite (proj2 (geb_false _ _)) by lia. simpl. by rewrite ?E.
      * by rewrite (proj2 (geb_true _ _)) by lia.
    + assert (~ failures b < FailureThreshold (cfg b)) by (intros ?%Hs; done).
      by rewrite (proj2 (geb_true _ _)) by lia.
    + done.
  - unfold abs; simpl. by destruct (state b).
Qed.
End Refine.

Lemma run_refines tr : forall k b,
  Inv k b -> k + Z.of_nat (length tr) <= max_int64 ->
  srun (FailureThreshold (cfg b)) (Cooldown (cfg b)) tr (abs b) =
    (fst (run tr b), abs (snd (run tr b))).
Proof.
  induction tr as [|[now o] tr IH]; intros k b HI Hk; [done|].
  rewrite run_cons. cbn [srun fst snd length] in *.
  rewrite (exec_refines k b HI) by lia.
  specialize (IH (k + 1) (snd (exec now o b))).
  rewrite exec_cfg in IH. rewrite IH; [done|apply exec_Inv; [done|lia]|lia].
Qed.

(** ** Which calls are reports, and what a silent half-open breaker does *)

Definition is_probe_call (o : op) : bool :=
  match o with OpState | OpEligible | OpAllow => true | _ => false end.

Definition granted (r : out) (o : op) : bool :=
  match o, r with OpAllow, OutBool true => true | _, _ => false end.

(** Number of admissions given by [Allow] along a history. *)
Fixpoint grants (tr : list (Z * op)) (rs : list out) : nat :=
  match tr, rs with
  | (_, o) :: tr, r :: rs => (if granted r o then 1 else 0) + grants tr rs
  | _, _ => 0
  end.

Definition count_op (o : op) (tr : list (Z * op)) : nat :=
  length (filter (fun x => snd x = o) tr).

Definition refused (o : op) (r : out) : Prop :=
  match o with
  | OpAllow | OpEligible => r = OutBool false
  | _ => True
  end.

(** A busy half-open breaker refuses everything and does not change until a
    report arrives, whatever the clock says. *)
Lemma busy_stable tr : forall b,
  state b = HalfOpen -> halfOpenInFlight b = true ->
  Forall (fun x => is_probe_call (snd x) = true) tr ->
  snd (run tr b) = b /\ Forall2 (fun x r => refused (snd x) r) tr (fst (run tr b)).
Proof.
  induction tr as [|[now o] tr IH]; intros b Hs Hi HF; [simpl; auto|].
  apply Forall_cons in HF as [Ho HF]. rewrite run_cons. cbn [fst snd].
  assert (maybeHalfOpenLocked now b = b) as HM.
  { unfold maybeHalfOpenLocked. by rewrite Hs. }
  assert (snd (exec now o b) = b /\ refused o (fst (exec now o b))) as [H1 H2].
  { destruct o; try discriminate; simpl; unfold GetState, Eligible, Allow;
      rewrite HM, ?Hs, ?Hi; simpl; by rewrite ?Hi. }
  rewrite H1. destruct (IH b Hs Hi HF) as [H3 H4]. split; [done|].
  by constructor.
Qed.

Lemma grants_refused tr : forall rs,
  Forall2 (fun x r => refused (snd x) r) tr rs -> grants tr rs = 0%nat.
Proof.
  induction tr as [|[now o] tr IH]; intros rs HF; inversion HF; subst; [done|].
  simpl. rewrite (IH _ ltac:(eassumption)). simpl in *.
  destruct o; simpl in *; subst; try done.
Qed.

Lemma count_op_cons o now o' tr :
  count_op o ((now, o') :: tr) =
    ((if bool_decide (o' = o) then 1 else 0) + count_op o tr)%nat.
Proof.
  unfold count_op. rewrite filter_cons. simpl.
  destruct (decide (o' = o)) as [->|Hne].
  - by rewrite bool_decide_eq_true_2.
  - by rewrite bool_decide_eq_false_2.
Qed.

(** An idle half-open breaker hands out one probe to the first [Allow]. *)
Lemma idle_grants tr : forall b,
  state b = HalfOpen -> halfOpenInFlight b = false ->
  Forall (fun x => is_probe_call (snd x) = true) tr ->
  grants tr (fst (run tr b)) = Nat.min 1 (count_op OpAllow tr).
Proof.
  induction tr as [|[now o] tr IH]; intros b Hs Hi HF; [done|].
  apply Forall_cons in HF as [Ho HF]. rewrite run_cons. cbn [fst snd grants].
  assert (maybeHalfOpenLocked now b = b) as HM.
  { unfold maybeHalfOpenLocked. by rewrite Hs. }
  rewrite count_op_cons.
  destruct o; try discriminate; simpl in *; unfold GetState, Eligible, Allow;
    rewrite HM, ?Hs; simpl; rewrite ?Hi; simpl.
  1-2: rewrite ?Hs; simpl; by apply IH.
  edestruct busy_stable as [_ HB]; [..|rewrite (grants_refused _ _ HB); lia]; done.
Qed.

(** ** Opening *)

Lemma nonclosed_stays now o b :
  o <> OpSuccess -> state b <> Closed -> state (snd (exec now o b)) <> Closed.
Proof.
  intros Ho Hs.
  assert (state (maybeHalfOpenLocked now b) <> Closed) as HM.
  { unfold maybeHalfOpenLocked. by dcase. }
  destruct o; try done; simpl; unfold GetState, Eligible, Allow, Failure; simpl;
    try done; bk_cases; congruence.
Qed.

Lemma closed_quiet now o b :
  o <> OpSuccess -> o <> OpFailure -> state b = Closed ->
  state (snd (exec now o b)) = Closed /\ failures (snd (exec now o b)) = failures b.
Proof.
  intros H1 H2 Hs. assert (maybeHalfOpenLocked now b = b) as HM.
  { unfold maybeHalfOpenLocked. by rewrite Hs. }
  destruct o; try done; simpl; unfold GetState, Eligible, Allow; by rewrite HM, ?Hs.
Qed.

Lemma closed_failure k now b :
  Inv k b -> k < max_int64 -> state b = Closed ->
  snd (exec now OpFailure b) =
    if failures b + 1 <? FailureThreshold (cfg b)
    then mkBreaker (cfg b) Closed (failures b + 1) (openedAt b) (halfOpenInFlight b)
    else mkBreaker (cfg b) Open (failures b + 1) now (halfOpenInFlight b).
Proof.
  intros [Ht Hc Hf _ _] Hk Hs. simpl. unfold Failure. rewrite Hs. simpl. unwrap64.
  destruct (failures b + 1 <? _) eqn:E; breflect.
  - by rewrite (proj2 (geb_false _ _)) by lia.
  - by rewrite (proj2 (geb_true _ _)) by lia.
Qed.

Lemma success_free_nonclosed tr : forall b,
  Forall (fun x => snd x <> OpSuccess) tr -> state b <> Closed ->
  state (snd (run tr b)) <> Closed.
Proof.
  induction tr as [|[now o] tr IH]; intros b HF Hs; [done|].
  apply Forall_cons in HF as [Ho HF]. rewrite run_cons. apply IH; [done|].
  by apply nonclosed_stays.
Qed.

Lemma success_free_closed tr : forall k b,
  Inv k b -> k + Z.of_nat (length tr) <= max_int64 -> state b = Closed ->
  Forall (fun x => snd x <> OpSuccess) tr ->
  state (snd (run tr b)) = Closed <->
  failures b + Z.of_nat (count_op OpFailure tr) < FailureThreshold (cfg b).
Proof.
  induction tr as [|[now o] tr IH]; intros k b HI Hk Hs HF.
  { unfold count_op. simpl. rewrite Z.add_0_r. apply (inv_closed _ _ HI). }
  pose proof HF as HF0. apply Forall_cons in HF as [Ho HF]. cbn [length] in Hk.
  assert (Inv (k + 1) (snd (exec now o b))) as HI' by (apply exec_Inv; [done|lia]).
  rewrite run_cons, count_op_cons. cbn [snd].
  destruct (decide (o = OpFailure)) as [->|Hf].
  - assert (1 + Z.of_nat (count_op OpFailure tr) =
            Z.of_nat (1 + count_op OpFailure tr)) as Hn by lia.
    pose proof (closed_failure k now b HI ltac:(lia) Hs) as HE.
    destruct (failures b + 1 <? _) eqn:E; breflect; simpl bool_decide; cbn iota.
    + rewrite (IH _ _ HI') by (rewrite ?HE; simpl; try done; lia).
      rewrite HE. simpl. lia.
    + split; [|lia]. intros HC. exfalso. revert HC.
      apply success_free_nonclosed; [done|]. by rewrite HE.
  - destruct (closed_quiet now o b Ho Hf Hs) as [H1 H2].
    rewrite (IH _ _ HI') by (try done; lia).
    by rewrite H2, exec_cfg, bool_decide_eq_false_2.
Qed.

(** ** Refusing while open *)

Lemma open_step now o b t0 :
  0 < Cooldown (cfg b) <= max_int64 -> o <> OpSuccess -> state b = Open ->
  t0 <= openedAt b -> now < t0 + Cooldown (cfg b) -> t0 <= now ->
  let b' := snd (exec now o b) in
  refused o (fst (exec now o b)) /\ state b' = Open /\
  t0 <= openedAt b' < t0 + Cooldown (cfg b) \/
  openedAt b >= t0 + Cooldown (cfg b).
Proof.
  intros Hc Ho Hs Ht Hn Hn'.
  destruct (Z_lt_ge_dec (openedAt b) (t0 + Cooldown (cfg b))) as [Hlt|]; [left|by right].
  assert (maybeHalfOpenLocked now b = b) as HM.
  { unfold maybeHalfOpenLocked. rewrite Hs. simpl.
    rewrite (proj2 (geb_false _ _)); [done|]. apply time_sub_lt; lia. }
  destruct o; try done; simpl; unfold GetState, Eligible, Allow, Failure;
    rewrite ?HM, ?Hs; simpl; rewrite ?Hs; try (split; [done|split; [done|lia]]).
  dcase; simpl; (split; [done|split; [done|lia]]).
Qed.

Lemma open_refuses tr : forall b t0,
  0 < Cooldown (cfg b) <= max_int64 -> state b = Open ->
  t0 <= openedAt b < t0 + Cooldown (cfg b) ->
  Forall (fun x => snd x <> OpSuccess /\ t0 <= fst x < t0 + Cooldown (cfg b)) tr ->
  Forall2 (fun x r => refused (snd x) r) tr (fst (run tr b)).
Proof.
  induction tr as [|[now o] tr IH]; intros b t0 Hc Hs Ht HF; [constructor|].
  apply Forall_cons in HF as [[Ho Hn] HF]. simpl in Hn, Ho.
  rewrite run_cons. cbn [fst].
  destruct (open_step now o b t0 Hc Ho Hs) as [(H1 & H2 & H3)|]; [lia..| |lia].
  constructor; [done|]. apply (IH _ t0); rewrite ?exec_cfg; done.
Qed.

(** ** Eligibility over time *)

Definition elig (now : Z) (b : Breaker) : bool := fst (Eligible now b).

Lemma Allow_elig now b : fst (Allow now b) = elig now b.
Proof.
  unfold Allow, elig, Eligible. destruct (state _); simpl; try done.
  by destruct (halfOpenInFlight _).
Qed.

Lemma Eligible_snd now b : snd (Eligible now b) = maybeHalfOpenLocked now b.
Proof. unfold Eligible. by destruct (state _). Qed.

Lemma time_sub_mono t t' u : t <= t' -> time_sub t u <= time_sub t' u.
Proof. unfold time_sub. lia. Qed.

Lemma elig_eq now b :
  elig now b =
    match state b with
    | Closed => true
    | Open => time_sub now (openedAt b) >=? Cooldown (cfg b)
    | HalfOpen => negb (halfOpenInFlight b)
    end.
Proof.
  unfold elig, Eligible, maybeHalfOpenLocked.
  destruct (state b) eqn:E; simpl; rewrite ?E; try done.
  by destruct (_ >=? _); simpl; rewrite ?E.
Qed.

Lemma elig_mono t t' b : t <= t' -> elig t b = true -> elig t' b = true.
Proof.
  intros H. pose proof (time_sub_mono t t' (openedAt b) H). rewrite !elig_eq.
  destruct (state b); try done. intros. breflect. lia.
Qed.

(** A breaker found eligible stays so as the clock advances, also after queries
    that turn it half-open. *)
Lemma elig_keep t t1 t' b :
  t <= t1 -> t1 <= t' -> elig t b = true -> elig t' (maybeHalfOpenLocked t1 b) = true.
Proof.
  intros H1 H2 He. apply (elig_mono _ t1) in He; [|done].
  unfold maybeHalfOpenLocked. destruct (bool_decide _ && _) eqn:E; [done|].
  by apply (elig_mono t1).
Qed.

(** ** Properties *)

(** A breaker made by [New]: what every history of calls on it shows is what the
    specification automaton shows. *)
(** C5. Refinement: for every configuration and every history of method calls
    (fewer than [2^63] of them, so that [failures++] cannot leave [int]), each
    result of the breaker is the result of the specification automaton with the
    defaulted threshold and cooldown, and the final state abstracts to the
    automaton's. In particular the code's failure counter, which is never reset
    when the breaker opens, is only observable while the breaker is closed. *)
Theorem breaker_refines_spec (c : Config) (tr : list (Z * op)) :
  cfg_ok c -> Z.of_nat (length tr) <= max_int64 ->
  srun (FailureThreshold (withDefaults c)) (Cooldown (withDefaults c)) tr (SClosed 0) =
    (fst (run tr (New c)), abs (snd (run tr (New c)))).
Proof.
  intros Hc Hn. apply (run_refines tr 0 (New c)); [by apply New_Inv|lia].
Qed.

Definition demo_cfg : Config := mkConfig 2 20.
Definition demo_trace : list (Z * op) :=
  [(0, OpFailure); (1, OpFailure); (2, OpAllow); (30, OpAllow); (31, OpAllow);
   (32, OpFailure); (40, OpEligible); (60, OpAllow); (61, OpSuccess); (62, OpState)].

Lemma cfg_ok_dec c : bool_decide (min_int64 <= FailureThreshold c <= max_int64) &&
    bool_decide (min_int64 <= Cooldown c <= max_int64) = true -> cfg_ok c.
Proof. intros H. breflect. exact H. Qed.

Lemma breaker_refines_spec_witness :
  srun 2 20 demo_trace (SClosed 0) =
    (fst (run demo_trace (New demo_cfg)), abs (snd (run demo_trace (New demo_cfg)))).
Proof.
  apply (breaker_refines_spec demo_cfg demo_trace);
    [by apply cfg_ok_dec|by vm_compute].
Defined.

(** Opening, exactly: from a fresh breaker, along any history without a
    success (admissions, queries and releases may be interleaved at any times), the
    breaker is still closed if and only if fewer than [FailureThreshold] failures
    were reported. *)
Theorem trips_exactly_at_threshold (c : Config) (tr : list (Z * op)) :
  cfg_ok c -> Z.of_nat (length tr) <= max_int64 ->
  Forall (fun x => snd x <> OpSuccess) tr ->
  state (snd (run tr (New c))) = Closed <->
  Z.of_nat (count_op OpFailure tr) < FailureThreshold (withDefaults c).
Proof.
  intros Hc Hn HF.
  by rewrite (success_free_closed tr 0 (New c)) by (try done; try lia; by apply New_Inv).
Qed.

Lemma trips_exactly_at_threshold_witness :
  state (snd (run [(0, OpFailure); (1, OpAllow); (2, OpFailure)] (New demo_cfg))) = Closed
  <-> 2 < 2.
Proof.
  apply (trips_exactly_at_threshold demo_cfg [(0, OpFailure); (1, OpAllow); (2, OpFailure)]).
  - by apply cfg_ok_dec.
  - by vm_compute.
  - repeat constructor; discriminate.
Defined.

(** C20. Safety while open: a breaker that a history of [New] left open at instant
    [openedAt] refuses every [Allow] and every [Eligible] made within the
    cooldown, whatever failures, releases and queries come in between; only a
    success can close it earlier. *)
Theorem open_rejects_until_cooldown (c : Config) (before after : list (Z * op)) :
  cfg_ok c ->
  let b := snd (run before (New c)) in
  state b = Open ->
  Forall (fun x => snd x <> OpSuccess /\
    openedAt b <= fst x < openedAt b + Cooldown (withDefaults c)) after ->
  Forall2 (fun x r => refused (snd x) r) after (fst (run after b)).
Proof.
  intros Hc b Hs HF. pose proof (withDefaults_ok c Hc) as [_ Hd].
  assert (cfg b = withDefaults c) as Hb by apply run_cfg.
  apply (open_refuses after b (openedAt b)); rewrite ?Hb; try done; lia.
Qed.

Lemma open_rejects_until_cooldown_witness :
  let before := [(0, OpFailure); (5, OpFailure)] in
  let after := [(6, OpAllow); (20, OpFailure); (24, OpEligible)] in
  Forall2 (fun x r => refused (snd x) r) after
    (fst (run after (snd (run before (New demo_cfg))))).
Proof.
  apply (open_rejects_until_cooldown demo_cfg).
  - by apply cfg_ok_dec.
  - by vm_compute.
  - repeat constructor; vm_compute; done.
Defined.

(** One probe: once a half-open breaker with no probe out is reached, then
    among any number of [Allow], [Eligible] and [State] calls made before the next
    report exactly one [Allow] is granted (none if there is no [Allow]). *)
Theorem half_open_single_probe (c : Config) (before after : list (Z * op)) :
  let b := snd (run before (New c)) in
  state b = HalfOpen -> halfOpenInFlight b = false ->
  Forall (fun x => is_probe_call (snd x) = true) after ->
  grants after (fst (run after b)) = Nat.min 1 (count_op OpAllow after).
Proof. intros b. apply idle_grants. Qed.

Lemma half_open_single_probe_witness :
  grants [(31, OpAllow); (32, OpAllow); (99, OpAllow)]
    (fst (run [(31, OpAllow); (32, OpAllow); (99, OpAllow)]
      (snd (run [(0, OpFailure); (1, OpFailure); (30, OpEligible)] (New demo_cfg)))))
  = 1%nat.
Proof.
  apply (half_open_single_probe demo_cfg [(0, OpFailure); (1, OpFailure); (30, OpEligible)]).
  - by vm_compute.
  - by vm_compute.
  - repeat constructor.
Defined.

(** Recovery: after the cooldown the next [Allow] of an open breaker is
    granted and takes the probe slot; a success then closes the breaker with its
    failure count reset, a failure reopens it at the time of the report, and a
    release leaves it half-open with the slot free again. *)
Theorem probe_outcomes (c : Config) (before : list (Z * op)) (now now' : Z) :
  cfg_ok c ->
  let b := snd (run before (New c)) in
  state b = Open -> openedAt b + Cooldown (withDefaults c) <= now ->
  exists p, Allow now b = (true, p) /\ halfOpenInFlight p = true /\
    abs (Success p) = SClosed 0 /\ abs (Failure now' p) = SOpen now' /\
    abs (Release p) = SHalf false.
Proof.
  intros Hc b Hs Hn. pose proof (withDefaults_ok c Hc) as [_ Hd].
  assert (cfg b = withDefaults c) as Hb by apply run_cfg.
  eexists. unfold Allow, maybeHalfOpenLocked. rewrite Hs, Hb. simpl.
  rewrite (proj2 (geb_true _ _)) by (apply time_sub_ge; lia). simpl.
  split; [reflexivity|]. done.
Qed.

Lemma probe_outcomes_witness :
  exists p, Allow 25 (snd (run [(0, OpFailure); (5, OpFailure)] (New demo_cfg))) = (true, p)
    /\ halfOpenInFlight p = true /\ abs (Success p) = SClosed 0 /\
    abs (Failure 26 p) = SOpen 26 /\ abs (Release p) = SHalf false.
Proof.
  apply (probe_outcomes demo_cfg [(0, OpFailure); (5, OpFailure)] 25 26).
  - by apply cfg_ok_dec.
  - by vm_compute.
  - by vm_compute.
Defined.
