(* ===== verification/Endpoint.v ===== *)
(** * Upstream endpoints ([internal/endpoint/endpoint.go])

    The endpoint record, its validation, and the provider-dependent URL and
    headers used by the health prober. *)

From Stdlib Require Import ZArith Ascii.
From stdpp Require Import prelude gmap list strings.
From S2P Require Import Prelude GoInt GoText GoErr.

Local Open Scope Z_scope.

Inductive Health := Healthy | Unhealthy.

#[export] Instance Health_eq_dec : EqDecision Health.
Proof. solve_decision. Defined.

Definition Health_String (h : Health) : string :=
  match h with
  | Unhealthy => "UNHEALTHY"
  | Healthy => "HEALTHY"
  end.

Record Endpoint := mkEndpoint {
  ID : string;
  Provider : string;
  Model : string;
  ModelName : string;
  BaseURL : string;
  APIKey : string;
  Region : string;
  Weight : Z;
  Timeout : Z;
  APIVersion : string
}.

#[export] Instance Endpoint_eq_dec : EqDecision Endpoint.
Proof. solve_decision. Defined.

Definition zeroEndpoint : Endpoint := mkEndpoint "" "" "" "" "" "" "" 0 0 "".

Definition set_Weight (w : Z) (e : Endpoint) : Endpoint :=
  mkEndpoint (ID e) (Provider e) (Model e) (ModelName e) (BaseURL e) (APIKey e)
    (Region e) w (Timeout e) (APIVersion e).

Definition set_Provider (p : string) (e : Endpoint) : Endpoint :=
  mkEndpoint (ID e) p (Model e) (ModelName e) (BaseURL e) (APIKey e)
    (Region e) (Weight e) (Timeout e) (APIVersion e).

Definition UpstreamModel (e : Endpoint) (requested : string) : string :=
  if negb (ModelName e =s "") then ModelName e else requested.

Definition DefaultAzureAPIVersion : string := "2024-02-15-preview".
Definition DefaultAnthropicAPIVersion : string := "2023-06-01".

Definition AzureAPIVersion (e : Endpoint) : string :=
  if negb (APIVersion e =s "") then APIVersion e else DefaultAzureAPIVersion.

Definition AnthropicVersion (e : Endpoint) : string :=
  if negb (APIVersion e =s "") then APIVersion e else DefaultAnthropicAPIVersion.

(** ** HTTP headers

    [http.Header.Set] stores under the canonical form of the name: first letters
    of the hyphen-separated words in upper case, the others in lower case. *)
Fixpoint canonical_key_from (up : bool) (s : string) : string :=
  match s with
  | EmptyString => EmptyString
  | String a s =>
      let z := byte_of a in
      let z' := if up then (if between 0x61 0x7A z then z - 32 else z)
                else ascii_lower z in
      String (of_byte z') (canonical_key_from (z =? 0x2D) s)
  end.
Definition CanonicalHeaderKey (s : string) : string := canonical_key_from true s.

Abbreviation Header := (gmap string string).

Definition header_set (k v : string) (h : Header) : Header :=
  <[CanonicalHeaderKey k := v]> h.
Definition header_get (k : string) (h : Header) : string :=
  default "" (h !! CanonicalHeaderKey k).

Section Kind.
Context `{Unicode}.

Definition Kind (e : Endpoint) : string := ToLower (TrimSpace (Provider e)).

Definition ProbeURL (e : Endpoint) : string :=
  let base := TrimRight1 "/"%char (BaseURL e) in
  let k := Kind e in
  if k =s "azure" then
    base +:+ "/openai/models?api-version=" +:+ AzureAPIVersion e
  else if (k =s "claude") || (k =s "anthropic") then
    if HasSuffix base "/v1" then base +:+ "/models"
    else base +:+ "/v1/models"
  else base +:+ "/models".

(** [SetAuth] on a request's headers; [None] is the nil request. *)
Definition SetAuth (e : Endpoint) (req : option Header) : option Header :=
  match req with
  | None => None
  | Some h =>
    if APIKey e =s "" then Some h
    else
      let k := Kind e in
      if k =s "azure" then Some (header_set "api-key" (APIKey e) h)
      else if (k =s "claude") || (k =s "anthropic") then
        Some (header_set "anthropic-version" (AnthropicVersion e)
               (header_set "x-api-key" (APIKey e) h))
      else Some (header_set "Authorization" ("Bearer " +:+ APIKey e) h)
  end.
End Kind.

Definition Validate (e : Endpoint) : option error :=
  if ID e =s "" then Some (errorsNew "endpoint id is required")
  else if BaseURL e =s "" then
    Some (errorsNew ("endpoint " +:+ ID e +:+ ": base_url is required"))
  else if Model e =s "" then
    Some (errorsNew ("endpoint " +:+ ID e +:+ ": model is required"))
  else if Weight e <? 0 then
    Some (errorsNew ("endpoint " +:+ ID e +:+ ": weight must be >= 0"))
  else None.

Lemma Validate_None e :
  Validate e = None <->
  ID e <> "" /\ BaseURL e <> "" /\ Model e <> "" /\ 0 <= Weight e.
Proof.
  unfold Validate. split.
  - intros H. repeat hcase H; try done. bsolve.
  - intros (H1 & H2 & H3 & H4). repeat dcase; bsolve.
Qed.

(** [Single] of [internal/endpoint/config.go]. *)
Definition Single (id model baseURL apiKey : string) : Endpoint :=
  mkEndpoint id "openai" model "" baseURL apiKey "" 1 (60 * Second) "".

Lemma header_get_set k v h : header_get k (header_set k v h) = v.
Proof. unfold header_get, header_set. by rewrite lookup_insert_eq. Qed.

Lemma header_get_set_ne k k' v h :
  CanonicalHeaderKey k <> CanonicalHeaderKey k' ->
  header_get k' (header_set k v h) = header_get k' h.
Proof. intros. unfold header_get, header_set. by rewrite lookup_insert_ne. Qed.
