(* ===== verification/Wrr.v ===== *)
(** * Smooth weighted round robin ([internal/endpoint/wrr.go])

    Pool members are shared, mutable objects: the store maps a location to the
    member, and [nextWRR] updates the [current] fields of the members it is given
    in place. The section at the end shows that over a full cycle every member is
    chosen exactly as often as its weight says. *)

From Stdlib Require Import ZArith Lia.
From stdpp Require Import prelude gmap list strings.
From S2P Require Import Prelude GoInt Endpoint.

Local Open Scope Z_scope.

(** The location of a heap object. *)
Abbreviation loc := positive.

Record member := mkMember {
  ep : Endpoint;
  health : Health;
  breaker : loc;
  current : Z;
  latency : Z
}.

Definition set_current (c : Z) (m : member) : member :=
  mkMember (ep m) (health m) (breaker m) c (latency m).

Abbreviation Members := (gmap loc member).

(** [if best == nil || m.current > best.current { best = m }]. *)
Definition better (ms : Members) (best : option loc) (l : loc) (m : member) : option loc :=
  match best with
  | None => Some l
  | Some b =>
    match ms !! b with
    | Some mb => if current m >? current mb then Some l else Some b
    | None => Some b
    end
  end.

(** The loop: [best] and [total] are its local variables. *)
Fixpoint wrrLoop (items : list loc) (ms : Members) (best : option loc) (total : Z)
  : Members * option loc * Z :=
  match items with
  | [] => (ms, best, total)
  | l :: items =>
    match ms !! l with
    | None => wrrLoop items ms best total
    | Some m =>
      let m' := set_current (wrap64 (current m + Weight (ep m))) m in
      let ms := <[l := m']> ms in
      let total := wrap64 (total + Weight (ep m)) in
      wrrLoop items ms (better ms best l m') total
    end
  end.

Definition nextWRR (items : list loc) (ms : Members) : option loc * Members :=
  let '(ms, best, total) := wrrLoop items ms None 0 in
  match best with
  | None => (None, ms)
  | Some b => (Some b, alter (fun m => set_current (wrap64 (current m - total)) m) b ms)
  end.

(** ** What the loop computes *)

Definition curr (ms : Members) (l : loc) : Z := default 0 (current <$> ms !! l).
Definition wt (ms : Members) (l : loc) : Z := default 0 (Weight ∘ ep <$> ms !! l).
Definition wsum (ms : Members) (items : list loc) : Z := zsum (wt ms <$> items).
Definition csum (ms : Members) (items : list loc) : Z := zsum (curr ms <$> items).

Lemma wsum_cons ms l items : wsum ms (l :: items) = wt ms l + wsum ms items.
Proof. reflexivity. Qed.

(** Only [current] fields change, and only of the given members. *)
Definition same_but_current (ms ms' : Members) : Prop :=
  forall l, set_current 0 <$> ms' !! l = set_current 0 <$> ms !! l.

#[export] Instance same_but_current_equiv : Equivalence same_but_current.
Proof.
  unfold same_but_current. split.
  - by intros ms l.
  - intros ms ms' H l. by rewrite H.
  - intros a b c H1 H2 l. by rewrite H2, H1.
Qed.

Lemma same_wt ms ms' l : same_but_current ms ms' -> wt ms' l = wt ms l.
Proof.
  intros H. specialize (H l). unfold wt.
  destruct (ms' !! l) as [[]|], (ms !! l) as [[]|]; simpl in *;
    unfold set_current in *; simpl in *; congruence.
Qed.

Lemma same_wsum ms ms' items : same_but_current ms ms' -> wsum ms' items = wsum ms items.
Proof.
  intros H. unfold wsum. f_equal. apply list_fmap_ext. intros ? l _. by apply same_wt.
Qed.

Lemma same_is_Some ms ms' l :
  same_but_current ms ms' -> is_Some (ms !! l) -> is_Some (ms' !! l).
Proof.
  intros H [m Hm]. specialize (H l). rewrite Hm in H. simpl in H.
  destruct (ms' !! l); [eauto|done].
Qed.

Lemma insert_same ms l m c :
  ms !! l = Some m -> same_but_current ms (<[l := set_current c m]> ms).
Proof.
  intros H k. destruct (decide (l = k)) as [<-|Hne].
  - by rewrite lookup_insert_eq, H.
  - by rewrite lookup_insert_ne.
Qed.

Lemma alter_same ms l (f : member -> Z) :
  same_but_current ms (alter (fun m => set_current (f m) m) l ms).
Proof.
  intros k. destruct (decide (l = k)) as [<-|Hne].
  - rewrite lookup_alter_eq. by destruct (ms !! l).
  - by rewrite lookup_alter_ne.
Qed.

Lemma wrrLoop_same items : forall ms best total,
  same_but_current ms (fst (fst (wrrLoop items ms best total))).
Proof.
  induction items as [|l items IH]; intros ms best total; [done|].
  simpl. destruct (ms !! l) as [m|] eqn:Hm; [|apply IH].
  etrans; [|apply IH]. by apply insert_same.
Qed.

Lemma nextWRR_same items ms : same_but_current ms (snd (nextWRR items ms)).
Proof.
  unfold nextWRR. pose proof (wrrLoop_same items ms None 0) as H.
  destruct (wrrLoop items ms None 0) as [[ms' best] total]. simpl in *.
  destruct best as [b|]; [|done]. etrans; [exact H|].
  apply (alter_same ms' b (fun m => wrap64 (current m - total))).
Qed.

(** Without any bound on the values: what is chosen is one of the items. *)
Lemma wrrLoop_in items : forall ms best total b,
  snd (fst (wrrLoop items ms best total)) = Some b -> b ∈ items \/ best = Some b.
Proof.
  induction items as [|l items IH]; intros ms best total b H; [by right|].
  simpl in H. destruct (ms !! l) as [m|]; (apply IH in H as [?|H]; [set_solver|]);
    [|by right].
  unfold better in H. destruct best as [b0|]; [|set_solver].
  repeat hcase H; try (by right); left; set_solver.
Qed.

Lemma nextWRR_in items ms b : fst (nextWRR items ms) = Some b -> b ∈ items.
Proof.
  unfold nextWRR. pose proof (wrrLoop_in items ms None 0 b) as H.
  destruct (wrrLoop items ms None 0) as [[ms' [b'|]] t]; simpl in *; [|done].
  intros [= ->]. by destruct (H eq_refl).
Qed.

Lemma wrrLoop_some items : forall ms best total,
  (forall l, l ∈ items -> is_Some (ms !! l)) -> items <> [] \/ is_Some best ->
  is_Some (snd (fst (wrrLoop items ms best total))).
Proof.
  induction items as [|l items IH]; intros ms best total Hin Hor.
  { by destruct Hor. }
  destruct (Hin l) as [m Hm]; [set_solver|]. simpl. rewrite Hm. apply IH.
  - intros k Hk. apply (same_is_Some ms); [by apply insert_same|]. apply Hin. set_solver.
  - right. unfold better. repeat dcase; eauto.
Qed.

Lemma nextWRR_some items ms :
  (forall l, l ∈ items -> is_Some (ms !! l)) -> items <> [] ->
  is_Some (fst (nextWRR items ms)).
Proof.
  intros Hin Hne. unfold nextWRR.
  destruct (wrrLoop_some items ms None 0 Hin (or_introl Hne)) as [b Hb].
  destruct (wrrLoop items ms None 0) as [[ms' best] t]. simpl in *. subst. by eexists.
Qed.

(** The additions of the loop stay in the [int] range. *)
Definition fits (items : list loc) (ms : Members) (total : Z) : Prop :=
  (forall l, l ∈ items -> in_int64 (curr ms l + wt ms l)) /\
  (forall l, l ∈ items -> 0 <= wt ms l) /\
  0 <= total /\ total + wsum ms items <= max_int64.

Lemma curr_insert_eq ms l m c : ms !! l = Some m -> curr (<[l := set_current c m]> ms) l = c.
Proof. intros H. unfold curr. by rewrite lookup_insert_eq. Qed.

Lemma curr_insert_ne ms l k (m : member) : l <> k -> curr (<[l := m]> ms) k = curr ms k.
Proof. intros H. unfold curr. by rewrite lookup_insert_ne. Qed.

Lemma wt_insert ms l k m c :
  ms !! l = Some m -> wt (<[l := set_current c m]> ms) k = wt ms k.
Proof. intros H. apply same_wt. by apply insert_same. Qed.

(** [b] is among [cands] and has their largest [current]. *)
Definition is_max (ms : Members) (cands : loc -> Prop) (b : loc) : Prop :=
  cands b /\ forall l, cands l -> curr ms l <= curr ms b.

Lemma better_spec ms best l m :
  ms !! l = Some m -> (forall b, best = Some b -> is_Some (ms !! b)) ->
  exists b, better ms best l m = Some b /\ is_max ms (fun k => k = l \/ best = Some k) b.
Proof.
  intros Hl Hb. assert (curr ms l = current m) as Hcl by (unfold curr; by rewrite Hl).
  unfold better, is_max. destruct best as [b|].
  2:{ exists l. split; [done|]. split; [by left|]. intros k [->|]; [lia|done]. }
  destruct (Hb b eq_refl) as [mb Hmb]. rewrite Hmb.
  assert (curr ms b = current mb) as Hcb by (unfold curr; by rewrite Hmb).
  destruct (current m >? current mb) eqn:E; breflect; eexists; (split; [done|]).
  - split; [by left|]. intros k [->|[= <-]]; lia.
  - split; [by right|]. intros k [->|[= <-]]; lia.
Qed.

Record loop_result (items : list loc) (ms : Members) (best : option loc) (total : Z)
  (r : Members * option loc * Z) : Prop := {
  lr_in : forall l, l ∈ items -> curr (fst (fst r)) l = curr ms l + wt ms l;
  lr_out : forall l, l ∉ items -> curr (fst (fst r)) l = curr ms l;
  lr_total : snd r = total + wsum ms items;
  lr_best : exists b, snd (fst r) = Some b /\
    is_max (fst (fst r)) (fun k => k ∈ items \/ best = Some k) b
}.

Lemma fits_cons l items ms total m :
  ms !! l = Some m -> l ∉ items -> fits (l :: items) ms total ->
  wrap64 (current m + Weight (ep m)) = curr ms l + wt ms l /\
  wrap64 (total + Weight (ep m)) = total + wt ms l /\
  fits items (<[l := set_current (curr ms l + wt ms l) m]> ms) (total + wt ms l).
Proof.
  intros Hm Hl (Hf1 & Hf2 & Hf3 & Hf4).
  assert (curr ms l = current m /\ wt ms l = Weight (ep m)) as [<- <-]
    by (unfold curr, wt; by rewrite Hm).
  pose proof (wsum_cons ms l items) as Hws.
  assert (0 <= wsum ms items) as Hpos.
  { apply zsum_nonneg, Forall_fmap, Forall_forall. intros k Hk. apply Hf2. set_solver. }
  assert (0 <= wt ms l) as Hwl by (apply Hf2; set_solver).
  split; [apply wrap64_small, Hf1; set_solver|].
  split; [apply wrap64_small; unfold in_int64, min_int64; lia|].
  unfold fits. rewrite (same_wsum ms) by (by apply insert_same).
  split; [|split; [|lia]].
  - intros k Hk. rewrite wt_insert, curr_insert_ne by set_solver. apply Hf1. set_solver.
  - intros k Hk. rewrite wt_insert by done. apply Hf2. set_solver.
Qed.

Lemma wrrLoop_spec items : forall ms best total,
  NoDup items -> (forall l, l ∈ items -> is_Some (ms !! l)) ->
  (forall b, best = Some b -> b ∉ items /\ is_Some (ms !! b)) ->
  (items = [] -> best <> None) ->
  fits items ms total ->
  loop_result items ms best total (wrrLoop items ms best total).
Proof.
  induction items as [|l items IH]; intros ms best total Hnd Hin Hb Hne Hf.
  { simpl. destruct best as [b|]; [|by destruct Hne].
    split; try set_solver; [unfold wsum; simpl; lia|].
    exists b. split; [done|]. split; [by right|]. intros k [?|[= ->]]; [set_solver|simpl; lia]. }
  apply NoDup_cons in Hnd as [Hl Hnd].
  destruct (Hin l) as [m Hm]; [set_solver|]. simpl. rewrite Hm.
  destruct (fits_cons l items ms total m Hm Hl Hf) as (-> & -> & Hf').
  set (m' := set_current (curr ms l + wt ms l) m).
  set (ms1 := <[l := m']> ms) in *.
  assert (same_but_current ms ms1) as Hsame by (by apply insert_same).
  destruct (better_spec ms1 best l m') as (b1 & Hb1 & Hor1 & Hmax).
  { apply lookup_insert_eq. }
  { intros b Hbb. apply (same_is_Some ms); [done|]. by apply Hb. }
  assert (b1 ∉ items) as Hb1n by (destruct Hor1 as [->|Ho]; [done|destruct (Hb _ Ho); set_solver]).
  destruct (IH ms1 (better ms1 best l m') (total + wt ms l)) as [I1 I2 I3 I4]; try done.
  { intros k Hk. apply (same_is_Some ms); [done|]. apply Hin. set_solver. }
  { intros b. rewrite Hb1. intros [= <-]. split; [done|].
    apply (same_is_Some ms); [done|]. destruct Hor1 as [->|Ho]; [by eexists|by apply (Hb _ Ho)]. }
  { intros _. by rewrite Hb1. }
  split.
  - intros k [->|Hk]%elem_of_cons.
    + rewrite I2 by done. by apply curr_insert_eq.
    + rewrite I1, (same_wt ms) by done. unfold ms1. rewrite curr_insert_ne by set_solver. done.
  - intros k Hk. rewrite I2 by set_solver. apply curr_insert_ne. set_solver.
  - rewrite I3, (same_wsum ms), (wsum_cons ms l) by done. lia.
  - destruct I4 as (b' & Hb' & Hor & Hm'). exists b'. split; [done|].
    rewrite Hb1 in *. split.
    + destruct Hor as [?|[= <-]]; [set_solver|].
      destruct Hor1 as [->|]; [set_solver|by right].
    + assert (curr ms1 b1 <= curr (fst (fst (wrrLoop items ms1 (Some b1) (total + wt ms l)))) b')
        as Hb1' by (rewrite <- (I2 b1) by done; apply Hm'; by right).
      intros k [[->|Hk]%elem_of_cons|Hk].
      * rewrite I2 by done. etrans; [|exact Hb1']. apply Hmax. by left.
      * apply Hm'. by left.
      * destruct (Hb _ Hk) as [Hk' _]. rewrite I2 by set_solver.
        etrans; [|exact Hb1']. apply Hmax. by right.
Qed.

(** ** Balance

    Between two calls on the same members the [current] fields sum to zero and
    none is as low as minus the total weight; so none exceeds the number of
    members times the total weight, which bounds every intermediate value. *)
Record balanced (items : list loc) (ms : Members) (W : Z) : Prop := {
  bal_nodup : NoDup items;
  bal_some : forall l, l ∈ items -> is_Some (ms !! l);
  bal_wt : forall l, l ∈ items -> 0 < wt ms l;
  bal_W : wsum ms items = W;
  bal_sum : csum ms items = 0;
  bal_low : forall l, l ∈ items -> - W < curr ms l
}.

Lemma zsum_fmap_add (f g : loc -> Z) items :
  zsum ((fun l => f l + g l) <$> items) = zsum (f <$> items) + zsum (g <$> items).
Proof.
  unfold zsum. induction items as [|l items IH]; cbn -[Z.add]; [done|].
  rewrite IH. lia.
Qed.

Lemma zsum_fmap_ext (f g : loc -> Z) items :
  (forall l, l ∈ items -> f l = g l) -> zsum (f <$> items) = zsum (g <$> items).
Proof.
  unfold zsum. induction items as [|l items IH]; intros H; cbn -[Z.add]; [done|].
  rewrite (H l), IH; [done| |]; set_solver.
Qed.

(** A change at one member of the list changes the sum by as much. *)
Lemma zsum_fmap_zero (b : loc) (d : Z) items :
  b ∉ items -> zsum ((fun l => if decide (l = b) then d else 0) <$> items) = 0.
Proof.
  intros Hb. rewrite (zsum_fmap_ext _ (fun _ => 0)).
  - unfold zsum. induction items as [|x items IH]; cbn -[Z.add]; [done|].
    rewrite IH by set_solver. done.
  - intros l Hl. by rewrite decide_False by set_solver.
Qed.

Lemma zsum_fmap_at (b : loc) (d : Z) items :
  NoDup items -> b ∈ items ->
  zsum ((fun l => if decide (l = b) then d else 0) <$> items) = d.
Proof.
  induction 1 as [|l items Hl Hnd IH]; [set_solver|].
  change (zsum ((fun l => if decide (l = b) then d else 0) <$> l :: items)) with
    ((if decide (l = b) then d else 0) +
     zsum ((fun l => if decide (l = b) then d else 0) <$> items)).
  intros [->|Hb]%elem_of_cons.
  - rewrite decide_True, zsum_fmap_zero by done. lia.
  - rewrite decide_False, IH by set_solver. lia.
Qed.

(** A list bounded below whose sum is known is bounded above. *)
Lemma zsum_upper (f : loc -> Z) (k : Z) items l :
  (forall l, l ∈ items -> k <= f l) -> l ∈ items ->
  f l + k * (Z.of_nat (length items) - 1) <= zsum (f <$> items).
Proof.
  unfold zsum. induction items as [|x items IH]; intros Hk Hl; [set_solver|].
  assert (forall it, it ⊆ items -> k * Z.of_nat (length it) <= foldr Z.add 0 (f <$> it)) as Hall.
  { intros it. induction it as [|y it IHi]; intros Hs; cbn -[Z.add Z.mul Z.of_nat]; [lia|].
    assert (k <= f y) by (apply Hk; set_solver).
    specialize (IHi ltac:(set_solver)). lia. }
  apply elem_of_cons in Hl as [->|Hl]; cbn -[Z.add Z.mul Z.of_nat].
  - specialize (Hall items ltac:(done)). lia.
  - assert (k <= f x) by (apply Hk; set_solver).
    specialize (IH ltac:(set_solver) Hl). lia.
Qed.

Lemma zsum_max_pos (f : loc -> Z) items b :
  (forall l, l ∈ items -> f l <= f b) -> 0 < zsum (f <$> items) -> 0 < f b.
Proof.
  intros Hm. destruct (Z_lt_ge_dec 0 (f b)) as [|Hb]; [done|].
  intros H. exfalso. revert H. unfold zsum.
  enough (foldr Z.add 0 (f <$> items) <= 0) by lia.
  induction items as [|x items IH]; cbn -[Z.add]; [done|].
  assert (f x <= f b) by (apply Hm; set_solver).
  specialize (IH ltac:(set_solver)). lia.
Qed.

Lemma balanced_W_pos items ms W : balanced items ms W -> items <> [] -> 0 < W.
Proof.
  intros [Hnd Hs Hw HW _ _] Hne. rewrite <- HW. destruct items as [|l items]; [done|].
  rewrite wsum_cons. assert (0 < wt ms l) by (apply Hw; set_solver).
  assert (0 <= wsum ms items); [|lia].
  apply zsum_nonneg, Forall_fmap, Forall_forall. intros k Hk.
  assert (0 < wt ms k) by (apply Hw; set_solver). simpl. lia.
Qed.

Lemma balanced_fits items ms W :
  balanced items ms W -> items <> [] ->
  Z.of_nat (length items) * W <= max_int64 -> fits items ms 0.
Proof.
  intros HB Hne Hn. pose proof (balanced_W_pos _ _ _ HB Hne) as HWp.
  destruct HB as [Hnd Hs Hw HW Hc Hl].
  assert (1 <= Z.of_nat (length items)) by (destruct items; simpl; [done|lia]).
  assert (forall l, l ∈ items -> wt ms l <= W) as Hle.
  { intros l Hin. rewrite <- HW. apply zsum_ge_elem.
    - apply Forall_fmap, Forall_forall. intros k Hk. specialize (Hw k Hk). simpl. lia.
    - apply list_elem_of_fmap. eauto. }
  unfold fits. rewrite HW. repeat split; try nia.
  - specialize (Hl l H0). specialize (Hw l H0). unfold min_int64, max_int64 in *. nia.
  - assert (curr ms l + (1 - W) * (Z.of_nat (length items) - 1) <= csum ms items).
    { apply zsum_upper; [|done]. intros k Hk. specialize (Hl k Hk). lia. }
    specialize (Hle l H0). nia.
  - intros l Hin. specialize (Hw l Hin). lia.
Qed.

(** One call: the chosen member had the largest [current + weight]; every member
    gains its weight and the chosen one pays the total. *)
Definition after_pick (ms : Members) (W : Z) (b l : loc) : Z :=
  curr ms l + wt ms l - (if decide (l = b) then W else 0).

Lemma nextWRR_spec items ms W :
  balanced items ms W -> items <> [] -> Z.of_nat (length items) * W <= max_int64 ->
  exists b ms', nextWRR items ms = (Some b, ms') /\ b ∈ items /\
    (forall l, l ∈ items -> curr ms l + wt ms l <= curr ms b + wt ms b) /\
    (forall l, l ∈ items -> curr ms' l = after_pick ms W b l) /\
    (forall l, l ∉ items -> curr ms' l = curr ms l).
Proof.
  intros HB Hne Hn. pose proof (balanced_fits _ _ _ HB Hne Hn) as Hf.
  pose proof (balanced_W_pos _ _ _ HB Hne) as HWp. pose proof HB as [Hnd Hs Hw HW Hc Hlow].
  destruct (wrrLoop_spec items ms None 0) as [I1 I2 I3 (b & Hb & [Hbin|?] & Hmax)]; try done.
  pose proof (wrrLoop_same items ms None 0) as Hsame.
  unfold nextWRR. destruct (wrrLoop items ms None 0) as [[ms1 best] total].
  cbn [fst snd] in *. subst best. rewrite HW in I3. simpl in I3. subst total.
  assert (forall l, l ∈ items -> curr ms l + wt ms l <= curr ms b + wt ms b) as Hmax'.
  { intros l Hl. rewrite <- !I1 by done. apply Hmax. by left. }
  assert (0 < curr ms b + wt ms b) as Hpos.
  { apply (zsum_max_pos (fun l => curr ms l + wt ms l) items); [done|].
    rewrite zsum_fmap_add. unfold csum, wsum in *. lia. }
  destruct (same_is_Some ms ms1 b) as [m Hm]; [done|by apply Hs|].
  assert (current m = curr ms b + wt ms b) as Hcm.
  { rewrite <- (I1 b) by done. unfold curr. by rewrite Hm. }
  eexists b, _. split; [reflexivity|]. split; [done|]. split; [done|].
  destruct Hf as (Hf1 & Hf2 & _). specialize (Hf1 b Hbin).
  assert (W <= max_int64) by (destruct items; simpl in *; [done|nia]).
  assert (forall l, curr (alter (fun m => set_current (wrap64 (current m - W)) m) b ms1) l =
    if decide (l = b) then curr ms b + wt ms b - W else curr ms1 l) as Hcur.
  { intros l. unfold curr at 1. destruct (decide (l = b)) as [->|Hlb].
    - rewrite lookup_alter_eq, Hm. simpl. rewrite Hcm. apply wrap64_small.
      unfold in_int64, min_int64, max_int64 in *. lia.
    - by rewrite lookup_alter_ne. }
  unfold after_pick. split; intros l Hl; rewrite Hcur; case_decide; subst; try done.
  - rewrite I1 by done. lia.
  - by apply I2.
Qed.

Lemma balanced_step items ms W b ms' :
  balanced items ms W -> items <> [] -> Z.of_nat (length items) * W <= max_int64 ->
  nextWRR items ms = (Some b, ms') -> balanced items ms' W.
Proof.
  intros HB Hne Hn HE. pose proof (nextWRR_same items ms) as Hsame.
  pose proof (balanced_W_pos _ _ _ HB Hne) as HWp.
  destruct (nextWRR_spec items ms W HB Hne Hn) as (b' & ms1 & HE' & Hb & Hmax & Hin & _).
  rewrite HE in HE', Hsame. simpl in Hsame. injection HE' as <- <-.
  destruct HB as [Hnd Hs Hw HW Hc Hlow].
  split; try done.
  - intros l Hl. apply (same_is_Some ms); [done|by apply Hs].
  - intros l Hl. rewrite (same_wt ms) by done. by apply Hw.
  - by rewrite (same_wsum ms).
  - unfold csum. rewrite (zsum_fmap_ext _ (fun l => (curr ms l + wt ms l) +
      (if decide (l = b) then - W else 0))).
    + rewrite (zsum_fmap_add (fun l => curr ms l + wt ms l)
        (fun l => if decide (l = b) then - W else 0)), zsum_fmap_add.
      rewrite zsum_fmap_at by done. unfold csum, wsum in *. lia.
    + intros l Hl. rewrite Hin by done. unfold after_pick. case_decide; lia.
  - intros l Hl. rewrite Hin by done. unfold after_pick. specialize (Hlow l Hl).
    specialize (Hw l Hl). case_decide; [subst|lia].
    assert (0 < curr ms b + wt ms b); [|lia].
    apply (zsum_max_pos (fun l => curr ms l + wt ms l) items); [done|].
    rewrite zsum_fmap_add. unfold csum, wsum in *. lia.
Qed.

(** ** Repeated choice *)

Fixpoint wrrIter (n : nat) (items : list loc) (ms : Members) : list loc * Members :=
  match n with
  | O => ([], ms)
  | S n =>
    match nextWRR items ms with
    | (Some b, ms) => let '(bs, ms) := wrrIter n items ms in (b :: bs, ms)
    | (None, ms) => ([], ms)
    end
  end.

Definition picked (l : loc) (bs : list loc) : Z :=
  Z.of_nat (length (filter (fun b => b = l) bs)).

Lemma picked_cons l b bs :
  picked l (b :: bs) = (if decide (l = b) then 1 else 0) + picked l bs.
Proof.
  unfold picked. rewrite filter_cons. destruct (decide (l = b)) as [->|Hne].
  - rewrite decide_True by done. cbn [length]. lia.
  - rewrite decide_False by congruence. lia.
Qed.

Lemma wrrIter_spec n : forall items ms W,
  balanced items ms W -> items <> [] -> Z.of_nat (length items) * W <= max_int64 ->
  let '(bs, ms') := wrrIter n items ms in
  balanced items ms' W /\ same_but_current ms ms' /\ length bs = n /\
  (forall b, b ∈ bs -> b ∈ items) /\
  (forall l, l ∈ items -> curr ms' l = curr ms l + Z.of_nat n * wt ms l - W * picked l bs).
Proof.
  induction n as [|n IH]; intros items ms W HB Hne Hn; cbn [wrrIter].
  { split; [done|]. split; [done|]. split; [done|]. split; [set_solver|]. intros l _.
    unfold picked. simpl. lia. }
  destruct (nextWRR_spec items ms W HB Hne Hn) as (b & ms1 & HE & Hb & _ & Hin & _).
  pose proof (balanced_step _ _ _ _ _ HB Hne Hn HE) as HB1.
  pose proof (nextWRR_same items ms) as Hs1. rewrite HE in *. simpl in Hs1.
  specialize (IH items ms1 W HB1 Hne Hn).
  destruct (wrrIter n items ms1) as [bs ms2]. destruct IH as (HB2 & Hs2 & Hl & Hbs & Hc).
  split; [done|]. split; [by etrans|]. split; [simpl; lia|]. split; [set_solver|].
  intros l Hl'. rewrite Hc, Hin, picked_cons, (same_wt ms ms1) by done.
  unfold after_pick. case_decide; lia.
Qed.

Lemma zsum_zero (f : loc -> Z) items :
  (forall l, l ∈ items -> 0 <= f l) -> zsum (f <$> items) = 0 ->
  forall l, l ∈ items -> f l = 0.
Proof.
  intros Hp Hz l Hl. pose proof (zsum_upper f 0 items l Hp Hl). specialize (Hp l Hl). lia.
Qed.

(** From balance with all [current] fields zero, [W] calls choose each member its
    weight and come back to zero. *)
Lemma wrr_cycle items ms W bs ms' :
  balanced items ms W -> items <> [] -> Z.of_nat (length items) * W <= max_int64 ->
  (forall l, l ∈ items -> curr ms l = 0) ->
  wrrIter (Z.to_nat W) items ms = (bs, ms') ->
  forall l, l ∈ items -> picked l bs = wt ms l /\ curr ms' l = 0.
Proof.
  intros HB Hne Hn Hz HE. pose proof (balanced_W_pos _ _ _ HB Hne) as HWp.
  pose proof (wrrIter_spec (Z.to_nat W) items ms W HB Hne Hn) as H. rewrite HE in H.
  destruct H as (HB' & _ & _ & _ & Hc). rewrite Z2Nat.id in Hc by lia.
  assert (forall l, l ∈ items -> curr ms' l = W * (wt ms l - picked l bs)) as Hc'.
  { intros l Hl. rewrite Hc, Hz by done. lia. }
  assert (forall l, l ∈ items -> 0 <= curr ms' l) as Hpos.
  { intros l Hl. pose proof (bal_low _ _ _ HB' l Hl). rewrite Hc' in H |- * by done.
    assert (-1 < wt ms l - picked l bs) by nia. nia. }
  intros l Hl. pose proof (zsum_zero _ _ Hpos (bal_sum _ _ _ HB') l Hl) as H0.
  rewrite H0. rewrite Hc' in H0 by done. split; [nia|done].
Qed.

(** At any moment in between, no member is a full turn ahead of its share. *)
Lemma wrr_never_ahead items ms W n bs ms' :
  balanced items ms W -> items <> [] -> Z.of_nat (length items) * W <= max_int64 ->
  (forall l, l ∈ items -> curr ms l = 0) ->
  wrrIter n items ms = (bs, ms') ->
  forall l, l ∈ items -> W * (picked l bs - 1) < Z.of_nat n * wt ms l.
Proof.
  intros HB Hne Hn Hz HE l Hl. pose proof (wrrIter_spec n items ms W HB Hne Hn) as H.
  rewrite HE in H. destruct H as (HB' & _ & _ & _ & Hc).
  pose proof (bal_low _ _ _ HB' l Hl). specialize (Hc l Hl). rewrite Hz in Hc by done. lia.
Qed.
