(* ===== verification/Pool.v ===== *)
(** * The endpoint pool ([internal/endpoint/pool.go])

    The pool's objects live in a store: members and breakers have locations, the
    two indexes [byModel] and [byID] hold member locations, and a breaker may be
    shared by members of successive configurations. Methods run under the pool's
    mutex; [Report] releases it before it calls the breaker, so while [Pick] runs
    other goroutines may operate on the breakers it looks at. [Gap] is that
    interference: before each of its breaker calls [Pick] sees the effect of the
    reports made meanwhile and reads the clock. *)

From Stdlib Require Import ZArith Lia.
From stdpp Require Import prelude gmap list strings.
From S2P Require Import Prelude GoInt GoText GoErr Breaker Endpoint Wrr.

Local Open Scope Z_scope.

Record Result := mkResult {
  rSuccess : bool;
  rStatusCode : Z;
  rLatency : Z;
  rRetryable : bool
}.

Abbreviation Breakers := (gmap loc Breaker).

Record Pool := mkPool {
  breakerCfg : Breaker.Config;
  members : Members;
  breakers : Breakers;
  byModel : gmap string (list loc);
  byID : gmap string loc;
  nextLoc : loc
}.

Definition set_members (ms : Members) (p : Pool) : Pool :=
  mkPool (breakerCfg p) ms (breakers p) (byModel p) (byID p) (nextLoc p).
Definition set_breakers (bs : Breakers) (p : Pool) : Pool :=
  mkPool (breakerCfg p) (members p) bs (byModel p) (byID p) (nextLoc p).

Definition emptyPool (c : Breaker.Config) : Pool := mkPool c ∅ ∅ ∅ ∅ 1%positive.

Definition model_members (p : Pool) (model : string) : list loc :=
  default [] (byModel p !! model).

(** ** Replace and NewPool *)

(** The defaults that [Replace] fills in. *)
Definition normalize (e : Endpoint) : Endpoint :=
  let e := if Weight e =? 0 then set_Weight 1 e else e in
  if Provider e =s "" then set_Provider "openai" e else e.

(** [m := &member{...}] with the state of the previous member of that ID. *)
Definition newMember (e : Endpoint) (b : loc) (old : option member) : member :=
  match old with
  | Some o => mkMember e (health o) (breaker o) (current o) (latency o)
  | None => mkMember e Healthy b 0 0
  end.

Record Building := mkBuilding {
  bMembers : Members;
  bBreakers : Breakers;
  bModel : gmap string (list loc);
  bID : gmap string loc;
  bNext : loc
}.

(** The body of the loop of [Replace] for a valid endpoint: a new breaker and a new
    member are allocated and entered in both indexes. *)
Definition addMember (p : Pool) (e : Endpoint) (st : Building) : Building :=
  let e := normalize e in
  let b := bNext st in
  let l := Pos.succ b in
  let old := byID p !! ID e ≫= fun o => members p !! o in
  mkBuilding
    (<[l := newMember e b old]> (bMembers st))
    (<[b := Breaker.New (breakerCfg p)]> (bBreakers st))
    (<[Model e := default [] (bModel st !! Model e) ++ [l]]> (bModel st))
    (<[ID e := l]> (bID st))
    (Pos.succ l).

Fixpoint replaceLoop (p : Pool) (es : list Endpoint) (st : Building) : error + Building :=
  match es with
  | [] => inr st
  | e :: es =>
    match Validate e with
    | Some err => inl err
    | None => replaceLoop p es (addMember p e st)
    end
  end.

Definition Replace (es : list Endpoint) (p : Pool) : option error * Pool :=
  match replaceLoop p es (mkBuilding (members p) (breakers p) ∅ ∅ (nextLoc p)) with
  | inl err => (Some err, p)
  | inr st =>
    (None, mkPool (breakerCfg p) (bMembers st) (bBreakers st) (bModel st) (bID st) (bNext st))
  end.

Definition NewPool (es : list Endpoint) (c : Breaker.Config) : error + Pool :=
  match Replace es (emptyPool c) with
  | (Some err, _) => inl err
  | (None, p) => inr p
  end.

(** ** Pick *)

Record Gap := mkGap {
  gOthers : list (loc * (Z * Breaker.op));
  gNow : Z
}.

(** The environment of one call of [Pick]: the gap before its [i]-th breaker
    call. *)
Abbreviation Env := (nat -> Gap).

Definition apply_others (os : list (loc * (Z * Breaker.op))) (bs : Breakers) : Breakers :=
  foldl (fun bs '(l, (t, o)) => alter (fun b => snd (Breaker.exec t o b)) l bs) bs os.

(** One breaker call of [Pick], atomic under the breaker's mutex. *)
Definition bcall (env : Env) (l : loc) (f : Z -> Breaker -> bool * Breaker)
  : Stm (Pool * nat) bool :=
  fun '(p, i) =>
    let bs := apply_others (gOthers (env i)) (breakers p) in
    match bs !! l with
    | Some b =>
        let r := f (gNow (env i)) b in
        (fst r, (set_breakers (<[l := snd r]> bs) p, S i))
    | None => (false, (set_breakers bs p, S i))
    end.

Definition get_member (l : loc) : Stm (Pool * nat) (option member) :=
  fun s => (members (fst s) !! l, s).

Definition stepWRR (items : list loc) : Stm (Pool * nat) (option loc) :=
  fun '(p, i) =>
    let '(b, ms) := nextWRR items (members p) in (b, (set_members ms p, i)).

(** The static part of the filter of [Pick]. *)
Definition admissible (exclude : gset string) (m : member) : bool :=
  negb (bool_decide (ID (ep m) ∈ exclude)) &&
  bool_decide (health m = Healthy) && negb (Weight (ep m) <=? 0).

(** Both loops of [Pick] walk a member list, skip some members by their fields and
    keep those whose breaker is eligible. *)
Fixpoint eligibleLoop (env : Env) (keep : member -> bool) (ls : list loc)
  : Stm (Pool * nat) (list loc) :=
  match ls with
  | [] => sret []
  | l :: ls =>
    let* om := get_member l in
    match om with
    | None => eligibleLoop env keep ls
    | Some m =>
      if negb (keep m) then eligibleLoop env keep ls
      else
        let* ok := bcall env (breaker m) Breaker.Eligible in
        if ok then let* rest := eligibleLoop env keep ls in sret (l :: rest)
        else eligibleLoop env keep ls
    end
  end.

(** The first loop: the members that can serve. *)
Definition candLoop (env : Env) (exclude : gset string) (ls : list loc)
  : Stm (Pool * nat) (list loc) :=
  eligibleLoop env (admissible exclude) ls.

(** The second loop: the other candidates, after the chosen one was refused. *)
Definition restLoop (env : Env) (id : string) (ls : list loc)
  : Stm (Pool * nat) (list loc) :=
  eligibleLoop env (fun m => negb (ID (ep m) =s id)) ls.

Definition noEndpoint : error := sentinel_error ErrNoEndpoint.

(** Choose one of the candidates and ask its breaker: the member and its answer. *)
Definition chooseAndAllow (env : Env) (items : list loc)
  : Stm (Pool * nat) (option (member * bool)) :=
  let* ob := stepWRR items in
  match ob with
  | None => sret None
  | Some l =>
    let* om := get_member l in
    match om with
    | None => sret None
    | Some m =>
      let* ok := bcall env (breaker m) Breaker.Allow in
      sret (Some (m, ok))
    end
  end.

(** [Pick]. The caller's [exclude] is a map that [Pick] may extend in place:
    [None] is the nil map. The result is the endpoint or the error, and the
    caller's map afterwards. *)
Definition pickBody (env : Env) (model : string) (exclude : option (gset string))
  : Stm (Pool * nat) ((error + Endpoint) * option (gset string)) :=
  let* s := sget in
  let* cands := candLoop env (default ∅ exclude) (model_members (fst s) model) in
  if bool_decide (cands = []) then sret (inl noEndpoint, exclude)
  else
    let* first := chooseAndAllow env cands in
    match first with
    | None => sret (inl noEndpoint, exclude)
    | Some (chosen, true) => sret (inr (ep chosen), exclude)
    | Some (chosen, false) =>
      let exclude := (fun x : gset string => {[ID (ep chosen)]} ∪ x) <$> exclude in
      let* rest := restLoop env (ID (ep chosen)) cands in
      if bool_decide (rest = []) then sret (inl noEndpoint, exclude)
      else
        let* second := chooseAndAllow env rest in
        match second with
        | Some (chosen, true) => sret (inr (ep chosen), exclude)
        | _ => sret (inl noEndpoint, exclude)
        end
    end.

Definition Pick (env : Env) (model : string) (exclude : option (gset string)) (p : Pool)
  : ((error + Endpoint) * option (gset string)) * Pool :=
  let '(r, (p', _)) := pickBody env model exclude (p, O) in (r, p').

(** ** Reports, health and queries *)

Definition set_latency (v : Z) (m : member) : member :=
  mkMember (ep m) (health m) (breaker m) (current m) v.
Definition set_health (h : Health) (m : member) : member :=
  mkMember (ep m) h (breaker m) (current m) (latency m).

(** The smoothed latency, in [int64] arithmetic. *)
Definition ewma (prev lat : Z) : Z :=
  if prev =? 0 then milliseconds lat
  else div64 (wrap64 (wrap64 (prev * 7) + wrap64 (milliseconds lat * 3))) 10.

(** [Report(id, result)] with the clock reading its breaker call makes. *)
Definition Report (now : Z) (id : string) (r : Result) (p : Pool) : Pool :=
  match byID p !! id with
  | None => p
  | Some l =>
    match members p !! l with
    | None => p
    | Some m =>
      if rSuccess r then
        let p := set_breakers (alter Breaker.Success (breaker m) (breakers p)) p in
        if rLatency r >? 0 then
          set_members (<[l := set_latency (ewma (latency m) (rLatency r)) m]> (members p)) p
        else p
      else if (rStatusCode r =? 429) || negb (rRetryable r) then
        set_breakers (alter Breaker.Release (breaker m) (breakers p)) p
      else
        set_breakers (alter (Breaker.Failure now) (breaker m) (breakers p)) p
    end
  end.

Definition SetHealth (id : string) (h : Health) (p : Pool) : Pool :=
  match byID p !! id with
  | Some l => set_members (alter (set_health h) l (members p)) p
  | None => p
  end.

Definition Get (p : Pool) (id : string) : option Endpoint :=
  byID p !! id ≫= fun l => ep <$> members p !! l.

(** [All]: Go iterates over [byID] in no particular order; the model fixes one. *)
Definition All (p : Pool) : list Endpoint :=
  omap (fun '(_, l) => ep <$> members p !! l) (map_to_list (byID p)).

Record Status := mkStatus {
  sEndpoint : Endpoint;
  sHealth : Health;
  sBreaker : Breaker.State;
  sLatencyMS : Z
}.

(** [Snapshot]: [Breaker.State()] reads the clock and may make a breaker half-open,
    so the pool changes along the loop. *)
Fixpoint snapshotLoop (now : Z) (ls : list loc) (p : Pool) : list Status * Pool :=
  match ls with
  | [] => ([], p)
  | l :: ls =>
    match members p !! l with
    | None => snapshotLoop now ls p
    | Some m =>
      match breakers p !! breaker m with
      | None => snapshotLoop now ls p
      | Some b =>
        let r := Breaker.GetState now b in
        let p := set_breakers (<[breaker m := snd r]> (breakers p)) p in
        let rest := snapshotLoop now ls p in
        (mkStatus (ep m) (health m) (fst r) (latency m) :: fst rest, snd rest)
      end
    end
  end.

Definition Snapshot (now : Z) (p : Pool) : list Status * Pool :=
  snapshotLoop now (snd <$> map_to_list (byID p)) p.

(** ** Well-formed pools *)

Record WF (p : Pool) : Prop := {
  wf_model : forall mo ls, byModel p !! mo = Some ls -> NoDup ls /\
    forall l, l ∈ ls -> exists m, members p !! l = Some m /\ Model (ep m) = mo;
  wf_id : forall id l, byID p !! id = Some l -> exists m,
    members p !! l = Some m /\ ID (ep m) = id /\ l ∈ model_members p (Model (ep m));
  wf_member : forall l m, members p !! l = Some m ->
    (l < nextLoc p)%positive /\ is_Some (breakers p !! breaker m) /\
    Validate (ep m) = None /\ 1 <= Weight (ep m) /\ Provider (ep m) <> "";
  wf_breaker : forall l, is_Some (breakers p !! l) -> (l < nextLoc p)%positive
}.

(** What the methods other than [Replace] never touch: the two indexes, and of a
    member its endpoint and its breaker. *)
Definition static (m : member) : Endpoint * loc := (ep m, breaker m).

Record framed (p p' : Pool) : Prop := {
  fr_cfg : breakerCfg p' = breakerCfg p;
  fr_model : byModel p' = byModel p;
  fr_id : byID p' = byID p;
  fr_next : nextLoc p' = nextLoc p;
  fr_static : forall l, static <$> members p' !! l = static <$> members p !! l;
  fr_dom : forall l, is_Some (breakers p' !! l) <-> is_Some (breakers p !! l)
}.

#[export] Instance framed_equiv : Equivalence framed.
Proof.
  split.
  - intros p. by split.
  - intros p q [? ? ? ? H1 H2]. by split.
  - intros p q r [? ? ? ? H1 H2] [? ? ? ? H3 H4].
    split; try congruence; intros l; [by rewrite H4, H2].
Qed.

Lemma framed_member p p' l m' :
  framed p p' -> members p' !! l = Some m' ->
  exists m, members p !! l = Some m /\ ep m' = ep m /\ breaker m' = breaker m.
Proof.
  intros H Hm. pose proof (fr_static _ _ H l) as Hs. rewrite Hm in Hs. simpl in Hs.
  destruct (members p !! l) as [m|]; [|done]. simpl in Hs.
  injection Hs as H1 H2. eauto.
Qed.

Lemma framed_WF p p' : framed p p' -> WF p -> WF p'.
Proof.
  intros HF [W1 W2 W3 W4]. assert (framed p' p) as HF' by (by symmetry).
  split.
  - intros mo ls. rewrite (fr_model _ _ HF). intros [Hnd H]%W1. split; [done|].
    intros l (m & Hm & He)%H. destruct (framed_member _ _ _ _ HF' Hm) as (m' & ? & ? & ?).
    exists m'. split; [done|congruence].
  - intros id l. rewrite (fr_id _ _ HF). intros (m & Hm & He & Hl)%W2.
    destruct (framed_member _ _ _ _ HF' Hm) as (m' & ? & He' & ?).
    exists m'. unfold model_members. rewrite (fr_model _ _ HF), <- He'. done.
  - intros l m' Hm'. destruct (framed_member _ _ _ _ HF Hm') as (m & Hm & -> & ->).
    rewrite (fr_next _ _ HF), (fr_dom _ _ HF). by apply W3.
  - intros l. rewrite (fr_dom _ _ HF), (fr_next _ _ HF). apply W4.
Qed.

Lemma framed_set_members p ms :
  (forall l, static <$> ms !! l = static <$> members p !! l) -> framed p (set_members ms p).
Proof. intros H. by split. Qed.

Lemma framed_set_breakers p bs :
  (forall l, is_Some (bs !! l) <-> is_Some (breakers p !! l)) -> framed p (set_breakers bs p).
Proof. intros H. by split. Qed.

Lemma alter_is_Some {A} (f : A -> A) (l k : loc) (m : gmap loc A) :
  is_Some (alter f l m !! k) <-> is_Some (m !! k).
Proof.
  rewrite lookup_alter. case_decide; subst; [by rewrite fmap_is_Some|done].
Qed.

Lemma insert_is_Some {A} (x : A) (l k : loc) (m : gmap loc A) :
  is_Some (m !! l) -> is_Some (<[l := x]> m !! k) <-> is_Some (m !! k).
Proof.
  intros H. rewrite lookup_insert. case_decide; subst; [|done]. split; [done|eauto].
Qed.

Lemma apply_others_dom os : forall bs l,
  is_Some (apply_others os bs !! l) <-> is_Some (bs !! l).
Proof.
  induction os as [|[k [t o]] os IH]; intros bs l; [done|].
  unfold apply_others in *. simpl. by rewrite IH, alter_is_Some.
Qed.

Lemma same_static ms ms' :
  same_but_current ms ms' -> forall l, static <$> ms' !! l = static <$> ms !! l.
Proof.
  intros H l. specialize (H l).
  destruct (ms' !! l) as [[]|], (ms !! l) as [[]|]; simpl in *;
    unfold set_current, static in *; simpl in *; congruence.
Qed.

(** ** Frames of the pieces of [Pick] *)

Lemma bcall_frame env l f p i :
  let s := snd (bcall env l f (p, i)) in
  framed p (fst s) /\ members (fst s) = members p.
Proof.
  unfold bcall. destruct (apply_others _ _ !! l) as [b|] eqn:E; simpl.
  - split; [|done]. apply framed_set_breakers. intros k.
    rewrite insert_is_Some by (by eexists). apply apply_others_dom.
  - split; [|done]. apply framed_set_breakers. intros k. apply apply_others_dom.
Qed.

Lemma stepWRR_frame items p i : framed p (fst (snd (stepWRR items (p, i)))).
Proof.
  unfold stepWRR. pose proof (nextWRR_same items (members p)) as H.
  destruct (nextWRR items (members p)) as [b ms]. simpl in *.
  apply framed_set_members. by apply same_static.
Qed.

Ltac sunfold := unfold sbind, sret, sget, get_member in *; cbn [fst snd] in *.

Lemma eligibleLoop_spec env keep ls : forall p i,
  let r := eligibleLoop env keep ls (p, i) in
  framed p (fst (snd r)) /\ members (fst (snd r)) = members p /\
  (forall l, l ∈ fst r -> l ∈ ls /\ exists m, members p !! l = Some m /\ keep m = true).
Proof.
  induction ls as [|l ls IH]; intros p i; cbn [eligibleLoop].
  { sunfold. split; [done|]. split; [done|]. set_solver. }
  sunfold. destruct (members p !! l) as [m|] eqn:Hm; [destruct (keep m) eqn:Ha|]; cbn [negb].
  2,3: destruct (IH p i) as (F & M & H); split; [done|]; split; [done|];
       intros k Hk; destruct (H k Hk); set_solver.
  pose proof (bcall_frame env (breaker m) Breaker.Eligible p i) as HB.
  destruct (bcall env (breaker m) Breaker.Eligible (p, i)) as [ok [p1 i1]]. simpl in HB.
  destruct HB as [HB1 HB2]. destruct (IH p1 i1) as (F & M & H).
  assert (framed p (fst (snd (eligibleLoop env keep ls (p1, i1)))) /\
    members (fst (snd (eligibleLoop env keep ls (p1, i1)))) = members p) as [F' M']
    by (split; [by etrans|congruence]).
  destruct ok; [destruct (eligibleLoop env keep ls (p1, i1)) as [rest s2]; simpl in *|];
    (split; [done|]; split; [done|]); intros k Hk.
  - apply elem_of_cons in Hk as [->|Hk]; [split; [set_solver|eauto]|].
    destruct (H k Hk) as [? Hm']. rewrite HB2 in Hm'. split; [set_solver|done].
  - destruct (H k Hk) as [? Hm']. rewrite HB2 in Hm'. split; [set_solver|done].
Qed.

Lemma bcall_result env l f p i :
  fst (bcall env l f (p, i)) = true ->
  exists now b, fst (f now b) = true /\
    breakers (fst (snd (bcall env l f (p, i)))) !! l = Some (snd (f now b)).
Proof.
  unfold bcall. destruct (apply_others _ _ !! l) as [b|]; simpl; [|done].
  intros H. exists (gNow (env i)), b. split; [done|]. by rewrite lookup_insert_eq.
Qed.

(** The member that was asked is one of the items, and an admission is recorded in
    its breaker. *)
Lemma chooseAndAllow_spec env items p i :
  let r := chooseAndAllow env items (p, i) in
  framed p (fst (snd r)) /\ same_but_current (members p) (members (fst (snd r))) /\
  forall m ok, fst r = Some (m, ok) ->
    exists l m0, l ∈ items /\ members p !! l = Some m0 /\
      m = set_current (current m) m0 /\
      (ok = true -> exists now b, fst (Breaker.Allow now b) = true /\
        breakers (fst (snd r)) !! breaker m = Some (snd (Breaker.Allow now b))).
Proof.
  unfold chooseAndAllow. sunfold. pose proof (stepWRR_frame items p i) as HF.
  pose proof (nextWRR_same items (members p)) as Hs0.
  pose proof (nextWRR_in items (members p)) as Hin. unfold stepWRR in *.
  destruct (nextWRR items (members p)) as [[l|] ms]; cbn [fst snd] in *; [|done].
  cbn [members set_members]. pose proof (Hs0 l) as Hs.
  destruct (ms !! l) as [m|] eqn:Hm; [|done].
  set (p1 := set_members ms p) in *.
  pose proof (bcall_frame env (breaker m) Breaker.Allow p1 i) as [HB HBm].
  pose proof (bcall_result env (breaker m) Breaker.Allow p1 i) as HR.
  destruct (bcall env (breaker m) Breaker.Allow (p1, i)) as [ok [p2 i2]]. cbn [fst snd] in *.
  split; [by etrans|]. split; [by rewrite HBm|]. intros ? ? [= <- <-].
  destruct (members p !! l) as [m0|] eqn:Hm0; [|done]. simpl in Hs.
  exists l, m0. split; [by apply Hin|]. split; [done|]. split; [|done].
  destruct m, m0; unfold set_current in *; simpl in *; congruence.
Qed.

Lemma Pick_framed env model exclude p : framed p (snd (Pick env model exclude p)).
Proof.
  unfold Pick, pickBody. sunfold.
  pose proof (eligibleLoop_spec env (admissible (default ∅ exclude))
    (model_members p model) p 0) as (F1 & _).
  unfold candLoop. destruct (eligibleLoop _ _ _ _) as [cands [p1 i1]]. cbn [fst snd] in *.
  case_bool_decide; [done|].
  pose proof (chooseAndAllow_spec env cands p1 i1) as [F2 _].
  destruct (chooseAndAllow env cands (p1, i1)) as [[[m ok]|] [p2 i2]]; cbn [fst snd] in *;
    [|by etrans].
  destruct ok; [by etrans|].
  pose proof (eligibleLoop_spec env (fun m' => negb (ID (ep m') =s ID (ep m))) cands p2 i2)
    as (F3 & _).
  unfold restLoop. destruct (eligibleLoop _ _ _ _) as [rest [p3 i3]]. cbn [fst snd] in *.
  case_bool_decide; [by do 2 (etrans; [done|])|].
  pose proof (chooseAndAllow_spec env rest p3 i3) as [F4 _].
  destruct (chooseAndAllow env rest (p3, i3)) as [[[m' ok]|] [p4 i4]]; cbn [fst snd] in *;
    [destruct ok|]; do 3 (etrans; [done|]); done.
Qed.

Definition admitted (p p' : Pool) (model : string) (exclude : gset string) (e : Endpoint)
  : Prop :=
  exists l m, l ∈ model_members p model /\ members p !! l = Some m /\ ep m = e /\
    ID e ∉ exclude /\ health m = Healthy /\ 0 < Weight e /\
    exists now b, fst (Breaker.Allow now b) = true /\
      breakers p' !! breaker m = Some (snd (Breaker.Allow now b)).

Lemma admissible_true ex m :
  admissible ex m = true -> ID (ep m) ∉ ex /\ health m = Healthy /\ 0 < Weight (ep m).
Proof. unfold admissible. intros H. breflect. tauto. Qed.

Lemma same_health ms ms' :
  same_but_current ms ms' -> forall l, health <$> ms' !! l = health <$> ms !! l.
Proof.
  intros H l. specialize (H l).
  destruct (ms' !! l) as [[]|], (ms !! l) as [[]|]; simpl in *;
    unfold set_current in *; simpl in *; congruence.
Qed.

Lemma pick_admitted p p' model exclude (ls : list loc) m m0 l :
  (forall k, k ∈ ls -> k ∈ model_members p model /\
     exists m, members p !! k = Some m /\ admissible exclude m = true) ->
  l ∈ ls -> forall p1, framed p p1 ->
  (health <$> members p1 !! l = health <$> members p !! l) ->
  members p1 !! l = Some m0 -> m = set_current (current m) m0 ->
  (exists now b, fst (Breaker.Allow now b) = true /\
     breakers p' !! breaker m = Some (snd (Breaker.Allow now b))) ->
  admitted p p' model exclude (ep m).
Proof.
  intros Hls Hl p1 F Hh Hm0 Hm HA. destruct (Hls l Hl) as [Hmm (mp & Hmp & Had)].
  apply admissible_true in Had as (A1 & A2 & A3).
  destruct (framed_member _ _ _ _ F Hm0) as (mp' & Hmp' & He & Hbr).
  assert (mp' = mp) as -> by congruence.
  assert (ep m = ep mp /\ breaker m = breaker mp) as [Em Bm] by (rewrite Hm; simpl; done).
  exists l, mp. rewrite Em, <- Bm. repeat split; try done.
Qed.

Lemma Pick_admitted env model exclude p p' e ex' :
  Pick env model exclude p = ((inr e, ex'), p') ->
  admitted p p' model (default ∅ exclude) e.
Proof.
  unfold Pick, pickBody. sunfold.
  pose proof (eligibleLoop_spec env (admissible (default ∅ exclude))
    (model_members p model) p 0) as (F1 & M1 & H1).
  unfold candLoop. destruct (eligibleLoop _ _ _ _) as [cands [p1 i1]]. cbn [fst snd] in *.
  case_bool_decide; [done|].
  pose proof (chooseAndAllow_spec env cands p1 i1) as (F2 & S2 & C2).
  destruct (chooseAndAllow env cands (p1, i1)) as [[[m ok]|] [p2 i2]]; cbn [fst snd] in *;
    [|done].
  destruct (C2 m ok eq_refl) as (l & m0 & Hl & Hm0 & Hm & Hok).
  destruct ok.
  { intros [= <- <- <-]. eapply (pick_admitted p p2); eauto. by rewrite M1. }
  pose proof (eligibleLoop_spec env (fun m' => negb (ID (ep m') =s ID (ep m))) cands p2 i2)
    as (F3 & M3 & H3).
  unfold restLoop. destruct (eligibleLoop _ _ _ _) as [rest [p3 i3]]. cbn [fst snd] in *.
  case_bool_decide; [done|].
  pose proof (chooseAndAllow_spec env rest p3 i3) as (F4 & S4 & C4).
  destruct (chooseAndAllow env rest (p3, i3)) as [[[m' [|]]|] [p4 i4]]; cbn [fst snd] in *;
    [|done..].
  destruct (C4 m' true eq_refl) as (l' & m0' & Hl' & Hm0' & Hm' & Hok').
  intros [= <- <- <-].
  assert (framed p p3) as F by (etrans; [exact F1|]; etrans; [exact F2|exact F3]).
  eapply (pick_admitted p p4 _ _ cands m' m0' l' H1 (proj1 (H3 _ Hl')) p3 F); eauto.
  rewrite M3. by rewrite (same_health _ _ S2), M1.
Qed.

(** ** What [Replace] builds *)

Definition old_member (p : Pool) (e : Endpoint) : option member :=
  byID p !! ID (normalize e) ≫= fun o => members p !! o.

Lemma normalize_ID e : ID (normalize e) = ID e.
Proof. unfold normalize. by repeat dcase. Qed.

Lemma normalize_Model e : Model (normalize e) = Model e.
Proof. unfold normalize. by repeat dcase. Qed.

Lemma normalize_valid e :
  Validate e = None ->
  Validate (normalize e) = None /\ 1 <= Weight (normalize e) /\ Provider (normalize e) <> "".
Proof.
  intros (H1 & H2 & H3 & H4)%Validate_None. rewrite Validate_None.
  unfold normalize. repeat dcase; breflect; simpl in *; repeat split; try done; lia.
Qed.

(** The member made for the endpoint [e] lives at [l]; its breaker is the previous
    one if there was a member of that ID, and a new one otherwise. *)
Definition made (p : Pool) (st : Building) (e : Endpoint) (l : loc) : Prop :=
  (nextLoc p <= l < bNext st)%positive /\
  exists b, bMembers st !! l = Some (newMember (normalize e) b (old_member p e)) /\
    bBreakers st !! b = Some (Breaker.New (breakerCfg p)).

Record built (p : Pool) (done : list Endpoint) (st : Building) : Prop := {
  bu_next : (nextLoc p <= bNext st)%positive;
  bu_members : forall l, (l < nextLoc p)%positive -> bMembers st !! l = members p !! l;
  bu_breakers : forall l, (l < nextLoc p)%positive -> bBreakers st !! l = breakers p !! l;
  bu_fresh : forall l, (is_Some (bMembers st !! l) \/ is_Some (bBreakers st !! l)) ->
    (l < nextLoc p)%positive \/ (nextLoc p <= l < bNext st)%positive;
  bu_only : forall l m, bMembers st !! l = Some m -> (nextLoc p <= l)%positive ->
    exists e, e ∈ done /\ made p st e l;
  bu_nodup : forall mo, NoDup (default [] (bModel st !! mo));
  bu_model : forall mo,
    Forall2 (fun e l => made p st e l) (filter (fun e => Model e = mo) done)
      (default [] (bModel st !! mo));
  bu_id : forall id l, bID st !! id = Some l -> exists e, e ∈ done /\ ID e = id /\
    made p st e l /\ l ∈ default [] (bModel st !! Model e);
  bu_dom : forall e, e ∈ done -> is_Some (bID st !! ID e)
}.

Lemma made_mono p st st' e l :
  (bNext st <= bNext st')%positive ->
  (forall k, (k < bNext st)%positive -> bMembers st' !! k = bMembers st !! k /\
    bBreakers st' !! k = bBreakers st !! k) ->
  (forall k, is_Some (bBreakers st !! k) -> (k < bNext st)%positive) ->
  made p st e l -> made p st' e l.
Proof.
  intros Hn Hk Hb (Hr & b & Hm & Hbr). split; [lia|]. exists b.
  destruct (Hk l) as [-> _]; [lia|]. destruct (Hk b) as [_ ->]; [by apply Hb; eexists|done].
Qed.

Lemma built_nil p :
  (forall l, is_Some (members p !! l) \/ is_Some (breakers p !! l) ->
    (l < nextLoc p)%positive) ->
  built p [] (mkBuilding (members p) (breakers p) ∅ ∅ (nextLoc p)).
Proof.
  intros HL. split; simpl; try done; try lia.
  - intros l H. left. by apply HL.
  - intros l m Hm Hl. exfalso. assert (l < nextLoc p)%positive by (apply HL; left; by eexists). lia.
  - constructor.
  - set_solver.
Qed.

Lemma made_lt p st e l : made p st e l -> (l < bNext st)%positive.
Proof. intros [? _]. lia. Qed.

Lemma built_add p es st e :
  (forall l, is_Some (members p !! l) \/ is_Some (breakers p !! l) ->
    (l < nextLoc p)%positive) ->
  built p es st -> built p (es ++ [e]) (addMember p e st).
Proof.
  intros HL [B1 B2 B3 B4 B5 B6 B7 B8 B9].
  set (st' := addMember p e st).
  set (l := Pos.succ (bNext st)).
  assert (forall k, is_Some (bMembers st !! k) \/ is_Some (bBreakers st !! k) ->
    (k < bNext st)%positive) as Hlt by (intros k Hk; destruct (B4 k Hk); lia).
  assert (forall k, (k < bNext st)%positive -> bMembers st' !! k = bMembers st !! k /\
    bBreakers st' !! k = bBreakers st !! k) as Hk.
  { intros k Hk. unfold st', addMember; simpl. by rewrite !lookup_insert_ne by lia. }
  assert (bNext st' = Pos.succ l) as Hn by done.
  assert (forall e' k, made p st e' k -> made p st' e' k) as Hmono.
  { intros e' k. apply made_mono; [lia|done|]. intros k' ?. apply Hlt. by right. }
  assert (made p st' e l) as Hnew.
  { split; [unfold l in *; lia|]. exists (bNext st). unfold st', addMember, old_member; simpl.
    by rewrite !lookup_insert_eq. }
  assert (forall mo k, k ∈ default [] (bModel st !! mo) -> (k < bNext st)%positive) as Hold.
  { intros mo k Hkm. destruct (list_elem_of_lookup_1 _ _ Hkm) as [i Hi].
    destruct (Forall2_lookup_r _ _ _ _ _ (B7 mo) Hi) as (e' & _ & Hm).
    by apply made_lt in Hm. }
  assert (forall mo, default [] (bModel st' !! mo) =
    default [] (bModel st !! mo) ++ (if decide (Model e = mo) then [l] else [])) as Hmodel.
  { intros mo. unfold st', addMember; simpl. rewrite normalize_Model.
    rewrite lookup_insert. case_decide; subst; simpl; [done|by rewrite app_nil_r]. }
  split.
  - lia.
  - intros k Hkl. rewrite <- B2 by done. apply Hk. lia.
  - intros k Hkl. rewrite <- B3 by done. apply Hk. lia.
  - intros k Hs. destruct (decide (k = l)) as [->|]; [right; unfold l in *; lia|].
    destruct (decide (k = bNext st)) as [->|]; [right; unfold l in *; lia|].
    unfold st', addMember in Hs; simpl in Hs. rewrite !lookup_insert_ne in Hs by done.
    destruct (B4 _ Hs); [by left|right; unfold l in *; lia].
  - intros k m Hm Hkl. destruct (decide (k = l)) as [->|].
    { exists e. split; [set_solver|done]. }
    unfold st', addMember in Hm; simpl in Hm. rewrite lookup_insert_ne in Hm by done.
    destruct (B5 _ _ Hm Hkl) as (e' & ? & ?). exists e'. split; [set_solver|auto].
  - intros mo. rewrite Hmodel. apply NoDup_app. split; [done|]. split.
    + intros k ?%Hold. case_decide; [|set_solver]. unfold l.
      intros ->%list_elem_of_singleton. lia.
    + case_decide; repeat constructor; set_solver.
  - intros mo. rewrite Hmodel, filter_app. apply Forall2_app.
    + eapply Forall2_impl; [apply B7|]. auto.
    + cbn [filter list_filter]. case_decide; constructor; [done|constructor].
  - intros id k. unfold st' at 1, addMember; simpl. rewrite normalize_ID, lookup_insert.
    case_decide; subst.
    + intros [= <-]. exists e. rewrite Hmodel, decide_True by done.
      repeat split; try apply Hnew; set_solver.
    + intros (e' & ? & ? & ? & ?)%B8. exists e'. rewrite Hmodel. repeat split; try set_solver;
        by apply Hmono.
  - intros e'. unfold st', addMember; simpl. rewrite normalize_ID.
    intros [He|He]%elem_of_app; rewrite lookup_insert; case_decide; eauto; set_solver.
Qed.

Lemma replaceLoop_built p es : forall done st,
  (forall l, is_Some (members p !! l) \/ is_Some (breakers p !! l) ->
    (l < nextLoc p)%positive) ->
  built p done st ->
  match replaceLoop p es st with
  | inl err => exists e, e ∈ es /\ Validate e = Some err
  | inr st' => built p (done ++ es) st' /\ Forall (fun e => Validate e = None) es
  end.
Proof.
  induction es as [|e es IH]; intros done st HL HB; simpl.
  { rewrite app_nil_r. by split. }
  destruct (Validate e) as [err|] eqn:HV; [exists e; split; [set_solver|done]|].
  specialize (IH _ _ HL (built_add p done st e HL HB)).
  destruct (replaceLoop p es (addMember p e st)) as [err|st'].
  - destruct IH as (e' & ? & ?). exists e'. split; [set_solver|done].
  - destruct IH as [IH HF]. rewrite <- app_assoc in IH. split; [done|by constructor].
Qed.

Lemma replaceLoop_valid p es : forall st,
  Forall (fun e => Validate e = None) es -> exists st', replaceLoop p es st = inr st'.
Proof.
  induction es as [|e es IH]; intros st HF; simpl; [eauto|].
  apply Forall_cons in HF as [-> HF]. by apply IH.
Qed.

Lemma WF_bounds p : WF p -> forall l, is_Some (members p !! l) \/ is_Some (breakers p !! l) ->
    (l < nextLoc p)%positive.
Proof.
  intros HW l [[m Hm]|Hb]; [by destruct (wf_member _ HW l m Hm)|by apply (wf_breaker _ HW)].
Qed.

Lemma emptyPool_WF c : WF (emptyPool c).
Proof.
  split; simpl; try done; intros l [? H]; by rewrite lookup_empty in H.
Qed.

(** [Replace] either fails and changes nothing, or builds the new indexes. *)
Lemma Replace_built p es :
  WF p ->
  match Replace es p with
  | (Some err, p') => p' = p /\ exists e, e ∈ es /\ Validate e = Some err
  | (None, p') => Forall (fun e => Validate e = None) es /\ exists st, built p es st /\
      p' = mkPool (breakerCfg p) (bMembers st) (bBreakers st) (bModel st) (bID st) (bNext st)
  end.
Proof.
  intros HW. unfold Replace.
  pose proof (replaceLoop_built p es [] _ (WF_bounds p HW) (built_nil p (WF_bounds p HW))) as H.
  destruct (replaceLoop _ _ _) as [err|st]; [done|]. destruct H. eauto.
Qed.

Lemma made_member p st e l :
  made p st e l -> exists m, bMembers st !! l = Some m /\ ep m = normalize e.
Proof.
  intros (_ & b & Hm & _). eexists. split; [exact Hm|].
  unfold newMember. by destruct (old_member p e).
Qed.

Lemma made_good p st e l m :
  WF p ->
  (forall k, (k < nextLoc p)%positive -> bBreakers st !! k = breakers p !! k) ->
  made p st e l -> Validate e = None -> bMembers st !! l = Some m ->
  is_Some (bBreakers st !! breaker m) /\
  Validate (ep m) = None /\ 1 <= Weight (ep m) /\ Provider (ep m) <> "".
Proof.
  intros HW Hbr (_ & b & Hm & Hb) HV Hm'. rewrite Hm in Hm'. injection Hm' as <-.
  destruct (normalize_valid e HV) as (V1 & V2 & V3).
  unfold newMember. destruct (old_member p e) as [o|] eqn:Ho; simpl.
  - split; [|done]. unfold old_member in Ho.
    destruct (byID p !! _) as [lo|]; [|done]. simpl in Ho.
    destruct (wf_member _ HW lo o Ho) as (_ & Hs & _).
    rewrite Hbr; [done|]. by apply (wf_breaker _ HW).
  - split; [by eexists|done].
Qed.

Lemma Replace_preserves_WF p es p' : WF p -> Replace es p = (None, p') -> WF p'.
Proof.
  intros HW HR. pose proof (Replace_built p es HW) as H. rewrite HR in H.
  destruct H as (HF & st & [B1 B2 B3 B4 B5 B6 B7 B8 B9] & ->).
  rewrite Forall_forall in HF. split; cbn [byModel byID members breakers nextLoc].
  - intros mo ls Hls. specialize (B6 mo). specialize (B7 mo). rewrite Hls in *. simpl in *.
    split; [done|]. intros l (i & Hi)%list_elem_of_lookup.
    destruct (Forall2_lookup_r _ _ _ _ _ B7 Hi) as (e & He & Hm).
    destruct (made_member _ _ _ _ Hm) as (m & Hm' & Hep). exists m. split; [done|].
    rewrite Hep, normalize_Model.
    apply list_elem_of_lookup_2, list_elem_of_filter in He. tauto.
  - intros id l (e & He & Hid & Hm & Hl)%B8.
    destruct (made_member _ _ _ _ Hm) as (m & Hm' & Hep). exists m.
    by rewrite Hep, normalize_ID, normalize_Model.
  - intros l m Hm. destruct (B4 l) as [Hl|Hl]; [left; by eexists|..].
    + rewrite B2 in Hm by done. destruct (wf_member _ HW l m Hm) as (_ & Hs & ?).
      split; [lia|]. rewrite B3; [done|]. by apply (wf_breaker _ HW).
    + split; [lia|]. destruct (B5 l m Hm) as (e & He & Hmade); [lia|].
      eapply made_good; eauto.
  - intros l Hl. destruct (B4 l); [by right|lia|lia].
Qed.

(** ** [Pick] without interference *)

(** No other goroutine touches a breaker while [Pick] runs, and the clock does not
    go back. *)
Definition quiet (env : Env) : Prop :=
  (forall i, gOthers (env i) = []) /\
  (forall i j, (i <= j)%nat -> gNow (env i) <= gNow (env j)).

(** At time [t] the breaker of the member at [l] would admit a call. *)
Definition eligible_at (t : Z) (p : Pool) (l : loc) : Prop :=
  exists m b, members p !! l = Some m /\ breakers p !! breaker m = Some b /\
    Breaker.elig t b = true.

Lemma eligible_later t t' p l : t <= t' -> eligible_at t p l -> eligible_at t' p l.
Proof.
  intros Ht (m & b & ? & ? & He). exists m, b. repeat split; try done.
  by apply (Breaker.elig_mono t).
Qed.

Lemma bcall_quiet env l p i :
  quiet env ->
  bcall env l Breaker.Eligible (p, i) =
    match breakers p !! l with
    | Some b => (Breaker.elig (gNow (env i)) b,
        (set_breakers (<[l := Breaker.maybeHalfOpenLocked (gNow (env i)) b]> (breakers p)) p, S i))
    | None => (false, (set_breakers (breakers p) p, S i))
    end.
Proof.
  intros [Hq _]. unfold bcall. rewrite Hq. unfold apply_others. cbn [foldl].
  destruct (breakers p !! l) as [b|]; [|done]. by rewrite Breaker.Eligible_snd.
Qed.

(** The first eligible call keeps every eligible member eligible. *)
Lemma bcall_keeps env k p i :
  quiet env -> forall l, eligible_at (gNow (env i)) p l ->
  eligible_at (gNow (env (S i))) (fst (snd (bcall env k Breaker.Eligible (p, i)))) l.
Proof.
  intros Hq l (m & b & Hm & Hb & He). pose proof (proj2 Hq i (S i) ltac:(lia)) as Ht.
  rewrite bcall_quiet by done.
  destruct (breakers p !! k) as [b'|] eqn:Hk; cbn [fst snd].
  - destruct (decide (k = breaker m)) as [->|Hne].
    + rewrite Hb in Hk. injection Hk as <-. exists m. eexists. split; [done|].
      split; [apply lookup_insert_eq|]. by apply (Breaker.elig_keep (gNow (env i))).
    + exists m, b. split; [done|]. split; [simpl; by rewrite lookup_insert_ne|].
      by apply (Breaker.elig_mono (gNow (env i))).
  - apply (eligible_later (gNow (env i))); [done|]. by exists m, b.
Qed.

Lemma bcall_finds env m p i l :
  quiet env -> members p !! l = Some m ->
  fst (bcall env (breaker m) Breaker.Eligible (p, i)) = true <->
  eligible_at (gNow (env i)) p l.
Proof.
  intros Hq Hm. rewrite bcall_quiet by done. unfold eligible_at.
  destruct (breakers p !! breaker m) as [b|] eqn:Hb; cbn [fst snd].
  - split; [intros; exists m, b; done|]. intros (m' & b' & ? & ? & ?). congruence.
  - split; [done|]. intros (m' & b' & ? & ? & ?). congruence.
Qed.

Lemma eligibleLoop_quiet env keep ls : quiet env -> forall p i,
  let r := eligibleLoop env keep ls (p, i) in
  let now' := gNow (env (snd (snd r))) in
  (i <= snd (snd r))%nat /\
  (forall l, eligible_at (gNow (env i)) p l -> eligible_at now' (fst (snd r)) l) /\
  (forall l, l ∈ fst r -> eligible_at now' (fst (snd r)) l) /\
  (forall l m, l ∈ ls -> members p !! l = Some m -> keep m = true ->
     eligible_at (gNow (env i)) p l -> l ∈ fst r).
Proof.
  intros Hq. induction ls as [|l ls IH]; intros p i; cbn [eligibleLoop].
  { sunfold. repeat split; auto; set_solver. }
  sunfold. destruct (members p !! l) as [m|] eqn:Hm; [destruct (keep m) eqn:Ha|]; cbn [negb].
  2,3: destruct (IH p i) as (I1 & I2 & I3 & I4); repeat split; try done;
    intros k m' [->|Hk]%elem_of_cons ? ? ?; [congruence|by eapply I4].
  pose proof (bcall_keeps env (breaker m) p i Hq) as HK.
  pose proof (bcall_finds env m p i l Hq Hm) as HFi.
  pose proof (bcall_frame env (breaker m) Breaker.Eligible p i) as [_ HBm].
  assert (snd (snd (bcall env (breaker m) Breaker.Eligible (p, i))) = S i) as Hi.
  { rewrite bcall_quiet by done. by destruct (breakers p !! breaker m). }
  destruct (bcall env (breaker m) Breaker.Eligible (p, i)) as [ok [p1 i1]].
  cbn [fst snd] in *. subst i1. destruct (IH p1 (S i)) as (I1 & I2 & I3 & I4).
  destruct ok.
  - destruct (eligibleLoop env keep ls (p1, S i)) as [rest s2]; cbn [fst snd] in *.
    split; [lia|]. split; [auto|]. split.
    + intros k [->|Hk]%elem_of_cons; [|by apply I3]. apply I2, HK. by apply HFi.
    + intros k m' [->|Hk]%elem_of_cons Hm' Hkeep He; [set_solver|].
      apply elem_of_cons. right. rewrite <- HBm in Hm'. by eapply I4; eauto.
  - split; [lia|]. split; [auto|]. split; [done|].
    intros k m' [->|Hk]%elem_of_cons Hm' Hkeep He.
    + by apply HFi in He.
    + rewrite <- HBm in Hm'. by eapply I4; eauto.
Qed.

Lemma chooseAndAllow_quiet env items p i :
  quiet env -> items <> [] ->
  (forall l, l ∈ items -> eligible_at (gNow (env i)) p l) ->
  exists m, fst (chooseAndAllow env items (p, i)) = Some (m, true).
Proof.
  intros [Hq _] Hne He. unfold chooseAndAllow, stepWRR. sunfold.
  assert (forall l, l ∈ items -> is_Some (members p !! l)) as Hs.
  { intros l (m & b & Hm & _)%He. by eexists. }
  destruct (nextWRR_some items (members p) Hs Hne) as [l Hl].
  pose proof (nextWRR_in items (members p) l Hl) as Hin.
  pose proof (nextWRR_same items (members p)) as Hsame.
  destruct (nextWRR items (members p)) as [ob ms]. cbn [fst snd] in *. subst ob.
  cbn [members set_members]. destruct (He l Hin) as (m & b & Hm & Hb & Hel).
  pose proof (same_static _ _ Hsame l) as Hst. rewrite Hm in Hst.
  destruct (ms !! l) as [m'|] eqn:Hm'; [|done]. simpl in Hst. injection Hst as _ Hbr.
  cbn [members set_members fst]. rewrite Hm'. cbn beta iota.
  unfold bcall. rewrite Hq. unfold apply_others. cbn [foldl breakers set_members].
  rewrite Hbr, Hb, Breaker.Allow_elig, Hel. cbn [fst snd]. eauto.
Qed.

Lemma Pick_finds env model exclude p l m :
  quiet env -> l ∈ model_members p model -> members p !! l = Some m ->
  admissible (default ∅ exclude) m = true -> eligible_at (gNow (env 0%nat)) p l ->
  exists e ex' p', Pick env model exclude p = ((inr e, ex'), p').
Proof.
  intros Hq Hl Hm Ha He. unfold Pick, pickBody. sunfold.
  destruct (eligibleLoop_quiet env (admissible (default ∅ exclude))
    (model_members p model) Hq p 0) as (_ & _ & H2 & H3).
  specialize (H3 l m Hl Hm Ha He). unfold candLoop.
  destruct (eligibleLoop _ _ _ _) as [cands [p1 i1]]. cbn [fst snd] in *.
  rewrite bool_decide_eq_false_2 by (intros ->; by apply elem_of_nil in H3).
  destruct (chooseAndAllow_quiet env cands p1 i1 Hq) as [m' Hm'];
    [by intros ->; apply elem_of_nil in H3|done|].
  destruct (chooseAndAllow env cands (p1, i1)) as [ob [p2 i2]]. simpl in Hm'. subst ob.
  eauto.
Qed.

(** ** Traffic shares *)

(** [n] picks in a row for one model, none of them reported on yet. *)
Fixpoint pickIter (n : nat) (envs : nat -> Env) (model : string) (p : Pool)
  : list (error + Endpoint) * Pool :=
  match n with
  | O => ([], p)
  | S n =>
    let '((r, _), p) := Pick (envs n) model None p in
    let '(rs, p) := pickIter n envs model p in
    (r :: rs, p)
  end.

Fixpoint served (e : Endpoint) (rs : list (error + Endpoint)) : Z :=
  match rs with
  | [] => 0
  | r :: rs =>
      (match r with inr e' => if bool_decide (e' = e) then 1 else 0 | inl _ => 0 end)
      + served e rs
  end.

Definition serving (p : Pool) (l : loc) : Prop :=
  exists m b, members p !! l = Some m /\ health m = Healthy /\ 0 < Weight (ep m) /\
    breakers p !! breaker m = Some b /\ Breaker.state b = Breaker.Closed.

Definition ep_at (ms : Members) (l : loc) : Endpoint :=
  default zeroEndpoint (ep <$> ms !! l).

Lemma set_breakers_id p : set_breakers (breakers p) p = p.
Proof. by destruct p. Qed.

Lemma bcall_closed env l (f : Z -> Breaker -> bool * Breaker) p i b :
  gOthers (env i) = [] -> breakers p !! l = Some b ->
  (forall t, f t b = (true, b)) ->
  bcall env l f (p, i) = (true, (p, S i)).
Proof.
  intros Hq Hb Hf. unfold bcall. rewrite Hq. unfold apply_others. cbn [foldl].
  rewrite Hb, Hf. cbn [fst snd]. by rewrite insert_id, set_breakers_id.
Qed.

Lemma closed_calls b t :
  Breaker.state b = Breaker.Closed ->
  Breaker.Eligible t b = (true, b) /\ Breaker.Allow t b = (true, b).
Proof.
  intros Hs. assert (Breaker.maybeHalfOpenLocked t b = b) as HM.
  { unfold Breaker.maybeHalfOpenLocked. by rewrite Hs. }
  unfold Breaker.Eligible, Breaker.Allow. by rewrite HM, Hs.
Qed.

Lemma eligibleLoop_serving env keep ls : forall p i,
  (forall i, gOthers (env i) = []) ->
  (forall l, l ∈ ls -> serving p l) ->
  (forall l m, l ∈ ls -> members p !! l = Some m -> keep m = true) ->
  exists i', eligibleLoop env keep ls (p, i) = (ls, (p, i')).
Proof.
  induction ls as [|l ls IH]; intros p i Hq Hs Hk; cbn [eligibleLoop]; sunfold; [eauto|].
  destruct (Hs l) as (m & b & Hm & Hh & Hw & Hb & Hc); [set_solver|].
  rewrite Hm, (Hk l m) by (set_solver || done). cbn [negb].
  rewrite (bcall_closed _ _ _ _ _ b); [|done..|intros; by apply closed_calls].
  destruct (IH p (S i) Hq) as [i' Hi']; [set_solver|set_solver|]. rewrite Hi'. eauto.
Qed.

Lemma Pick_serving env model p l ms :
  (forall i, gOthers (env i) = []) ->
  (forall l, l ∈ model_members p model -> serving p l) ->
  nextWRR (model_members p model) (members p) = (Some l, ms) ->
  Pick env model None p = ((inr (ep_at (members p) l), None), set_members ms p).
Proof.
  intros Hq Hs HW. unfold Pick, pickBody. sunfold.
  destruct (eligibleLoop_serving env (admissible (default ∅ None))
    (model_members p model) p 0 Hq Hs) as [i' Hi'].
  { intros k m Hk Hm. destruct (Hs k Hk) as (m' & b & Hm' & Hh & Hw & _).
    assert (m' = m) as -> by congruence. unfold admissible. breflect.
    repeat split; [set_solver|done|lia]. }
  unfold candLoop. rewrite Hi'. cbn [fst snd].
  pose proof (nextWRR_in (model_members p model) (members p) l) as Hl. rewrite HW in Hl.
  specialize (Hl eq_refl).
  rewrite bool_decide_eq_false_2 by (intros E; rewrite E in Hl; by apply elem_of_nil in Hl).
  unfold chooseAndAllow, stepWRR. sunfold. rewrite HW. cbn [members set_members].
  pose proof (nextWRR_same (model_members p model) (members p)) as Hsame.
  rewrite HW in Hsame. simpl in Hsame. pose proof (same_static _ _ Hsame l) as Hst.
  destruct (Hs l Hl) as (m & b & Hm & _ & _ & Hb & Hc). rewrite Hm in Hst.
  destruct (ms !! l) as [m'|] eqn:Hm'; [|done]. simpl in Hst. injection Hst as He Hbr.
  cbn [members set_members fst]. rewrite Hm'. cbn beta iota.
  rewrite (bcall_closed _ _ _ _ _ b); [|done|by rewrite Hbr|intros; by apply closed_calls].
  cbn [fst snd]. unfold ep_at. rewrite Hm, He. done.
Qed.

Lemma serving_step p ms l :
  same_but_current (members p) ms -> serving p l -> serving (set_members ms p) l.
Proof.
  intros Hs (m & b & Hm & Hh & Hw & Hb & Hc). specialize (Hs l). rewrite Hm in Hs.
  destruct (ms !! l) as [m'|] eqn:Hm'; [|done].
  exists m', b. destruct m, m'; unfold set_current in *; simpl in *.
  injection Hs as -> -> -> ->. done.
Qed.

Lemma ep_at_same ms ms' l : same_but_current ms ms' -> ep_at ms' l = ep_at ms l.
Proof.
  intros Hs. specialize (Hs l). unfold ep_at.
  destruct (ms' !! l) as [[]|], (ms !! l) as [[]|]; unfold set_current in *;
    simpl in *; congruence.
Qed.

Lemma pickIter_wrr n envs model : forall p W,
  (forall k i, gOthers (envs k i) = []) ->
  (forall l, l ∈ model_members p model -> serving p l) ->
  balanced (model_members p model) (members p) W -> model_members p model <> [] ->
  Z.of_nat (length (model_members p model)) * W <= max_int64 ->
  let w := wrrIter n (model_members p model) (members p) in
  pickIter n envs model p =
    ((fun l => inr (ep_at (members p) l)) <$> fst w, set_members (snd w) p).
Proof.
  induction n as [|n IH]; intros p W Hq Hs HB Hne Hn; cbn [pickIter wrrIter].
  { simpl. by destruct p. }
  destruct (nextWRR_spec _ _ W HB Hne Hn) as (l & ms & HE & Hl & _).
  rewrite (Pick_serving _ _ _ l ms) by done. rewrite HE.
  pose proof (nextWRR_same (model_members p model) (members p)) as Hsame.
  rewrite HE in Hsame. simpl in Hsame.
  pose proof (balanced_step _ _ _ _ _ HB Hne Hn HE) as HB'.
  specialize (IH (set_members ms p) W Hq).
  change (model_members (set_members ms p) model) with (model_members p model) in IH.
  cbn [members set_members] in IH. cbv zeta in IH.
  rewrite IH; try done; [|intros k Hk; apply serving_step; auto].
  destruct (wrrIter n (model_members p model) ms) as [bs ms2]. cbn [fst snd fmap list_fmap].
  f_equal. f_equal. apply list_fmap_ext. intros ? k _. by rewrite (ep_at_same (members p) ms).
Qed.

Lemma served_picked ms l (items bs : list loc) :
  (forall k, k ∈ bs -> k ∈ items) -> l ∈ items ->
  (forall k, k ∈ items -> ep_at ms k = ep_at ms l -> k = l) ->
  served (ep_at ms l) ((fun k => inr (ep_at ms k)) <$> bs) = picked l bs.
Proof.
  intros Hbs Hl Hinj. induction bs as [|b bs IH]; [done|].
  cbn [fmap list_fmap served]. rewrite picked_cons, <- IH by set_solver.
  unfold fmap. f_equal. case_bool_decide as Hb; case_decide as Hd; subst; try done.
  exfalso. apply Hd. symmetry. apply Hinj; [apply Hbs; set_solver|done].
Qed.

(** ** Fresh pools *)

Lemma NewPool_built es c p :
  NewPool es c = inr p ->
  Forall (fun e => Validate e = None) es /\ exists st, built (emptyPool c) es st /\
    p = mkPool c (bMembers st) (bBreakers st) (bModel st) (bID st) (bNext st).
Proof.
  unfold NewPool. pose proof (Replace_built (emptyPool c) es (emptyPool_WF c)) as H.
  destruct (Replace es (emptyPool c)) as [[err|] p']; [done|].
  intros [= <-]. done.
Qed.

Lemma old_member_empty c e : old_member (emptyPool c) e = None.
Proof. done. Qed.

Lemma made_fresh c st e l :
  made (emptyPool c) st e l ->
  exists b, bMembers st !! l = Some (mkMember (normalize e) Healthy b 0 0) /\
    bBreakers st !! b = Some (Breaker.New c).
Proof. intros (_ & b & Hm & Hb). exists b. by rewrite old_member_empty in Hm. Qed.

Definition model_weight (es : list Endpoint) (mo : string) : Z :=
  zsum ((fun e => Weight (normalize e)) <$> filter (fun e => Model e = mo) es).

Section Fresh.
Context (c : Breaker.Config) (es : list Endpoint) (st : Building) (mo : string).
Context (HB : built (emptyPool c) es st) (HV : Forall (fun e => Validate e = None) es).
Let p := mkPool c (bMembers st) (bBreakers st) (bModel st) (bID st) (bNext st).
Let items := model_members p mo.
Let mine := filter (fun e => Model e = mo) es.

Lemma fresh_at i e l : mine !! i = Some e -> items !! i = Some l ->
  Validate e = None /\ exists b,
  members p !! l = Some (mkMember (normalize e) Healthy b 0 0) /\
  breakers p !! b = Some (Breaker.New c).
Proof.
  intros He Hl. split.
  - rewrite Forall_forall in HV. apply HV. apply list_elem_of_lookup_2 in He.
    unfold mine in He. by apply list_elem_of_filter in He as [_ ?].
  - apply made_fresh. by apply (Forall2_lookup_lr _ _ _ _ _ _ (bu_model _ _ _ HB mo) He Hl).
Qed.

Lemma fresh_length : length items = length mine.
Proof. symmetry. apply (Forall2_length _ _ _ (bu_model _ _ _ HB mo)). Qed.

Lemma fresh_item l : l ∈ items -> exists i e, mine !! i = Some e /\ items !! i = Some l.
Proof.
  intros (i & Hi)%list_elem_of_lookup.
  destruct (lookup_lt_is_Some_2 mine i) as [e He]; [|eauto].
  rewrite <- fresh_length. by eapply lookup_lt_Some.
Qed.

Lemma fresh_endpoint e : e ∈ mine -> exists i l, mine !! i = Some e /\ items !! i = Some l.
Proof.
  intros (i & Hi)%list_elem_of_lookup.
  destruct (lookup_lt_is_Some_2 items i) as [l Hl]; [|eauto].
  rewrite fresh_length. by eapply lookup_lt_Some.
Qed.

Lemma fresh_serving l : l ∈ items -> serving p l.
Proof.
  intros (i & e & He & Hl)%fresh_item. destruct (fresh_at i e l He Hl) as (V & b & Hm & Hb).
  exists (mkMember (normalize e) Healthy b 0 0), (Breaker.New c).
  destruct (normalize_valid e V) as (_ & ? & _). repeat split; try done. simpl. lia.
Qed.

Lemma fresh_view : (ep_at (members p) <$> items) = normalize <$> mine /\
  (forall l, l ∈ items -> curr (members p) l = 0 /\
     wt (members p) l = Weight (ep_at (members p) l)).
Proof.
  split.
  - apply list_eq_same_length with (n := length mine);
      [by rewrite length_fmap|by rewrite length_fmap, fresh_length|].
    intros i x y Hi. rewrite !list_lookup_fmap. intros (l & Hl & ->)%fmap_Some (e & He & ->)%fmap_Some.
    destruct (fresh_at i e l He Hl) as (_ & b & Hm & _). unfold ep_at. by rewrite Hm.
  - intros l (i & e & He & Hl)%fresh_item. destruct (fresh_at i e l He Hl) as (_ & b & Hm & _).
    unfold curr, wt, ep_at. by rewrite Hm.
Qed.

Lemma fresh_balanced : balanced items (members p) (model_weight es mo).
Proof.
  destruct fresh_view as [Hv Hl]. split.
  - apply (bu_nodup _ _ _ HB).
  - intros l (m & b & Hm & _)%fresh_serving. by eexists.
  - intros l Hin. destruct (fresh_serving l Hin) as (m & b & Hm & _ & Hw & _).
    unfold wt. rewrite Hm. done.
  - unfold wsum, model_weight. fold mine.
    assert ((wt (members p) <$> items) = (Weight <$> (ep_at (members p) <$> items))) as ->.
    { rewrite <- list_fmap_compose. apply list_fmap_ext. intros ? l Hi.
      by apply Hl, (list_elem_of_lookup_2 _ _ _ Hi). }
    by rewrite Hv, <- list_fmap_compose.
  - unfold csum. rewrite (zsum_fmap_ext _ (fun _ => 0)).
    + generalize items. intros k. unfold zsum. induction k; cbn -[Z.add]; lia.
    + intros l Hin. by apply Hl.
  - intros l Hin. rewrite (proj1 (Hl l Hin)).
    enough (0 < model_weight es mo) by lia.
    assert (0 < zsum ((fun _ => 1) <$> items)) as Hlen.
    { destruct items as [|x xs]; [by apply elem_of_nil in Hin|].
      change (0 < 1 + zsum ((fun _ => 1) <$> xs)).
      assert (0 <= zsum ((fun _ : loc => 1) <$> xs)); [|lia].
      apply zsum_nonneg, Forall_fmap, Forall_forall. done. }
    unfold model_weight. fold mine.
    assert (forall x, x ∈ mine -> 1 <= Weight (normalize x)) as Hw.
    { intros x [_ Hx]%list_elem_of_filter. rewrite Forall_forall in HV.
      by destruct (normalize_valid x (HV x Hx)) as (_ & ? & _). }
    assert (exists x, x ∈ mine) as [x Hx].
    { destruct (fresh_item l Hin) as (i & x & Hx & _). exists x. by eapply list_elem_of_lookup_2. }
    assert (Weight (normalize x) <= zsum ((fun e => Weight (normalize e)) <$> mine)).
    { apply zsum_ge_elem.
      - apply Forall_fmap, Forall_forall. intros y Hy. specialize (Hw y Hy). simpl. lia.
      - apply list_elem_of_fmap. eauto. }
    specialize (Hw x Hx). lia.
Qed.

Lemma fresh_injective l k :
  NoDup (ID <$> es) -> l ∈ items -> k ∈ items ->
  ep_at (members p) k = ep_at (members p) l -> k = l.
Proof.
  intros Hnd (i & e & He & Hl)%fresh_item (j & e' & He' & Hk)%fresh_item Heq.
  destruct (fresh_at i e l He Hl) as (_ & b & Hm & _).
  destruct (fresh_at j e' k He' Hk) as (_ & b' & Hm' & _).
  unfold ep_at in Heq. rewrite Hm, Hm' in Heq. simpl in Heq.
  assert (ID e' = ID e) as Hid by (rewrite <- (normalize_ID e'), <- (normalize_ID e); congruence).
  assert (NoDup (ID <$> mine)) as Hnd'.
  { eapply sublist_NoDup; [exact Hnd|]. apply fmap_sublist.
    apply filter_is_sublist. }
  assert (j = i) as ->; [|congruence].
  eapply (NoDup_lookup _ j i (ID e) Hnd'); rewrite list_lookup_fmap;
    [by rewrite He'; simpl; rewrite Hid|by rewrite He].
Qed.
End Fresh.
