(* ===== verification/PoolSpec.v ===== *)
(** * What the endpoint pool promises

    The properties of [Pool.v] that its callers rely on, the gateway above all:
    well-formedness along every sequence of method calls, soundness and completeness
    of [Pick], traffic shares, configuration reload, and reports. *)

From Stdlib Require Import ZArith Lia.
From stdpp Require Import prelude gmap list strings.
From S2P Require Import Prelude GoInt GoText GoErr Breaker Endpoint Wrr Pool.

Local Open Scope Z_scope.

(** ** The pool as a transition system *)

(** One call of a method, by any goroutine. *)
Inductive pool_step (p : Pool) : Pool -> Prop :=
| step_replace es : pool_step p (snd (Replace es p))
| step_pick env model exclude : pool_step p (snd (Pick env model exclude p))
| step_report now id r : pool_step p (Report now id r p)
| step_health id h : pool_step p (SetHealth id h p)
| step_snapshot now : pool_step p (snd (Snapshot now p)).

Lemma fmap_static_alter (f : member -> member) l (ms : Members) k :
  (forall m, static (f m) = static m) -> static <$> alter f l ms !! k = static <$> ms !! k.
Proof.
  intros Hf. rewrite lookup_alter. case_decide; subst; [|done].
  destruct (ms !! k); simpl; by rewrite ?Hf.
Qed.

Lemma insert_static m m' l (ms : Members) k :
  ms !! l = Some m -> static m' = static m -> static <$> <[l := m']> ms !! k = static <$> ms !! k.
Proof.
  intros Hm Hs. rewrite lookup_insert. case_decide; subst; [|done]. rewrite Hm. simpl. by rewrite Hs.
Qed.

Lemma alter_breaker_framed f l p : framed p (set_breakers (alter f l (breakers p)) p).
Proof. apply framed_set_breakers. intros k. apply alter_is_Some. Qed.

Lemma Report_framed now id r p : framed p (Report now id r p).
Proof.
  unfold Report. destruct (byID p !! id) as [l|]; [|done].
  destruct (members p !! l) as [m|] eqn:Hm; [|done].
  repeat dcase; try apply alter_breaker_framed.
  etrans; [apply alter_breaker_framed|]. apply framed_set_members.
  intros k. by eapply insert_static.
Qed.

Lemma SetHealth_framed id h p : framed p (SetHealth id h p).
Proof.
  unfold SetHealth. dcase; [|done]. apply framed_set_members.
  intros k. by apply fmap_static_alter.
Qed.

Lemma snapshotLoop_framed now ls : forall p, framed p (snd (snapshotLoop now ls p)).
Proof.
  induction ls as [|l ls IH]; intros p; simpl; [done|].
  destruct (members p !! l) as [m|]; [|apply IH].
  destruct (breakers p !! breaker m) as [b|] eqn:Hb; [|apply IH].
  cbn [snd]. etrans; [|apply IH]. apply framed_set_breakers.
  intros k. apply insert_is_Some. by eexists.
Qed.

Lemma pool_step_WF p p' : WF p -> pool_step p p' -> WF p'.
Proof.
  intros HW [es|env model ex|now id r|id h|now].
  - pose proof (Replace_built p es HW) as H. destruct (Replace es p) as [[err|] p1] eqn:HR; simpl.
    + by destruct H as [-> _].
    + by eapply Replace_preserves_WF.
  - eapply framed_WF; [apply Pick_framed|done].
  - eapply framed_WF; [apply Report_framed|done].
  - eapply framed_WF; [apply SetHealth_framed|done].
  - eapply framed_WF; [apply snapshotLoop_framed|done].
Qed.

Lemma NewPool_WF es c p : NewPool es c = inr p -> WF p.
Proof.
  unfold NewPool. intros H. destruct (Replace es (emptyPool c)) as [[err|] p'] eqn:HR; [done|].
  injection H as <-. eapply Replace_preserves_WF; [apply emptyPool_WF|exact HR].
Qed.

(** C18. Well-formedness is an invariant of the pool: in every state reachable from
    [NewPool] by any sequence of [Replace], [Pick] (under any interference),
    [Report], [SetHealth] and [Snapshot], each index entry points to a live member
    of the right model or ID that is also listed under its model, every member has
    a breaker and a valid endpoint whose weight is at least one and whose provider
    is set, no model lists a member twice, and no location is reused. *)
Theorem pool_reachable_wf es c p p' :
  NewPool es c = inr p -> steps pool_step p p' -> WF p'.
Proof. intros H. apply steps_invariant; [by eapply NewPool_WF|apply pool_step_WF]. Qed.

Definition demo_ep (id : string) (w : Z) : Endpoint :=
  mkEndpoint id "" "gpt-5" "" "http://up" "" "" w 0 "".
Definition demo_eps : list Endpoint := [demo_ep "a" 5; demo_ep "b" 3; demo_ep "c" 0].
Definition demo_bcfg : Breaker.Config := Breaker.mkConfig 2 20.
Definition demo_pool : Pool :=
  match NewPool demo_eps demo_bcfg with inr p => p | inl _ => emptyPool demo_bcfg end.
Definition demo_env (t : Z) : Env := fun i => mkGap [] (t + Z.of_nat i).

Lemma pool_reachable_wf_witness :
  WF (SetHealth "b" Unhealthy (snd (Pick (demo_env 0) "gpt-5" None demo_pool))).
Proof.
  apply (pool_reachable_wf demo_eps demo_bcfg demo_pool); [by vm_compute|].
  eapply steps_snoc; [apply steps_one|]; constructor.
Defined.

(** ** Pick *)

(** C6. Soundness of [Pick], under every interleaving with reports on the breakers:
    an endpoint that [Pick] returns belongs to a member of the requested model that
    the caller did not exclude, is healthy, has a positive weight, and whose breaker
    admitted this very call (so a half-open breaker has recorded the probe). *)
Theorem Pick_sound env model exclude p p' e ex' :
  Pick env model exclude p = ((inr e, ex'), p') ->
  admitted p p' model (default ∅ exclude) e.
Proof. apply Pick_admitted. Qed.

(** Interference: between the two looks at the breaker of "a", failures reported by
    another goroutine open it, and the second loop falls back on "b". *)
Definition demo_race : Env := fun i =>
  if decide (i = 3%nat) then mkGap [(1%positive, (5, Breaker.OpFailure)); (1%positive, (5, Breaker.OpFailure))] 5
  else mkGap [] (Z.of_nat i).

Lemma Pick_sound_witness :
  admitted demo_pool (snd (Pick demo_race "gpt-5" (Some ∅) demo_pool)) "gpt-5" ∅
    (normalize (demo_ep "b" 3)).
Proof.
  apply (Pick_sound demo_race "gpt-5" (Some ∅) demo_pool _ _ (Some {["a"]})).
  by vm_compute.
Defined.

(** C14. Completeness of [Pick]: when no report comes in between and the clock does
    not go back, [Pick] finds an endpoint whenever some member of the model is not
    excluded, healthy, of positive weight, and has a breaker that would admit a call
    at the time of the first look. With the default exclusion it therefore fails
    only when every member of the model is out. *)
Theorem Pick_complete env model exclude p l m :
  quiet env -> l ∈ model_members p model -> members p !! l = Some m ->
  admissible (default ∅ exclude) m = true -> eligible_at (gNow (env 0%nat)) p l ->
  exists e ex' p', Pick env model exclude p = ((inr e, ex'), p').
Proof. apply Pick_finds. Qed.

Lemma demo_quiet t : quiet (demo_env t).
Proof. split; [done|]. intros i j H. simpl. lia. Qed.

Lemma Pick_complete_witness :
  exists e ex' p', Pick (demo_env 0) "gpt-5" (Some {["a"; "b"]}) demo_pool = ((inr e, ex'), p').
Proof.
  apply (Pick_complete _ _ _ _ 6%positive
    (mkMember (normalize (demo_ep "c" 0)) Healthy 5%positive 0 0)).
  - apply demo_quiet.
  - apply list_elem_of_In. vm_compute. tauto.
  - by vm_compute.
  - by vm_compute.
  - eexists _, (Breaker.New demo_bcfg). by vm_compute.
Defined.

(** C10. Traffic shares: on a fresh pool with distinct endpoint IDs, over one full
    cycle of picks for a model (as many as the total weight of its endpoints, nobody
    failing, at any times) every endpoint of the model is returned exactly as many
    times as its weight, where weight 0 counts as 1. The bound keeps the [current]
    fields within [int]. *)
Theorem weighted_share es c p mo envs rs p' e :
  NewPool es c = inr p -> NoDup (ID <$> es) ->
  (forall k i, gOthers (envs k i) = []) ->
  Z.of_nat (length (filter (fun e => Model e = mo) es)) * model_weight es mo <= max_int64 ->
  pickIter (Z.to_nat (model_weight es mo)) envs mo p = (rs, p') ->
  e ∈ es -> Model e = mo ->
  served (normalize e) rs = Weight (normalize e).
Proof.
  intros (HV & st & HB & Hp)%NewPool_built Hnd Hq Hn HP He Hmo. subst p.
  assert (e ∈ filter (fun e => Model e = mo) es) as Hf by by apply list_elem_of_filter.
  destruct (fresh_endpoint c es st mo HB e Hf) as (i & l & Hi & Hl).
  destruct (fresh_at c es st mo HB HV i e l Hi Hl) as (_ & b & Hm & _).
  set (p := mkPool c _ _ _ _ _) in *.
  pose proof (fresh_balanced c es st mo HB HV) as Hbal.
  pose proof (fresh_serving c es st mo HB HV) as Hsv.
  destruct (fresh_view c es st mo HB HV) as [_ Hz].
  rewrite <- (fresh_length c es st mo HB) in Hn.
  assert (model_members p mo <> []) as Hne by (intros E; by rewrite E in Hl).
  rewrite (pickIter_wrr _ envs mo p (model_weight es mo)) in HP by done.
  injection HP as <- _.
  pose proof (wrrIter_spec (Z.to_nat (model_weight es mo)) _ _ _ Hbal Hne Hn) as HI.
  destruct (wrrIter (Z.to_nat (model_weight es mo)) _ _) as [bs ms'] eqn:HE in HI |- *.
  destruct HI as (_ & _ & _ & Hin & _).
  assert (l ∈ model_members p mo) as Hlin by by eapply list_elem_of_lookup_2.
  assert (ep_at (members p) l = normalize e) as He' by (unfold ep_at; by rewrite Hm).
  rewrite <- He'. cbn [fst].
  rewrite (served_picked _ l (model_members p mo)) by
    (try done; intros k Hk; by apply (fresh_injective c es st mo HB HV)).
  destruct (wrr_cycle _ _ _ bs ms' Hbal Hne Hn (fun l H => proj1 (Hz l H)) HE l Hlin) as [-> _].
  by rewrite (proj2 (Hz l Hlin)).
Qed.

Lemma weighted_share_witness :
  served (normalize (demo_ep "b" 3))
    (fst (pickIter 9 (fun k => demo_env (Z.of_nat k)) "gpt-5" demo_pool)) = 3.
Proof.
  apply (weighted_share demo_eps demo_bcfg demo_pool "gpt-5" (fun k => demo_env (Z.of_nat k))
    _ (snd (pickIter 9 (fun k => demo_env (Z.of_nat k)) "gpt-5" demo_pool)) (demo_ep "b" 3)).
  - by vm_compute.
  - apply NoDup_ListNoDup. repeat constructor; vm_compute; intuition discriminate.
  - done.
  - by vm_compute.
  - by vm_compute.
  - apply list_elem_of_In. vm_compute. tauto.
  - done.
Defined.

(** ** Reload *)

Lemma replaceLoop_error p es : forall st err,
  replaceLoop p es st = inl err ->
  exists pre e post, es = pre ++ e :: post /\
    Forall (fun x => Validate x = None) pre /\ Validate e = Some err.
Proof.
  induction es as [|e es IH]; intros st err H; [done|]. simpl in H.
  destruct (Validate e) as [err'|] eqn:HV.
  - injection H as ->. by exists [], e, es.
  - destruct (IH _ _ H) as (pre & e' & post & -> & HF & HE).
    exists (e :: pre), e', post. split; [done|]. split; [by constructor|done].
Qed.

(** The state of the member that now serves endpoint [e], against the one that
    served its ID before. *)
Definition carried (p p' : Pool) (e : Endpoint) (m : member) : Prop :=
  ep m = normalize e /\
  match old_member p e with
  | Some o => health m = health o /\ breaker m = breaker o /\
      breakers p' !! breaker m = breakers p !! breaker o /\
      current m = current o /\ latency m = latency o
  | None => health m = Healthy /\ breakers p' !! breaker m = Some (Breaker.New (breakerCfg p)) /\
      current m = 0 /\ latency m = 0
  end.

Lemma made_carried p es st e l :
  WF p -> built p es st -> made p st e l ->
  let p' := mkPool (breakerCfg p) (bMembers st) (bBreakers st) (bModel st) (bID st) (bNext st) in
  exists m, members p' !! l = Some m /\ carried p p' e m.
Proof.
  intros HW HB (_ & b & Hm & Hb) p'. eexists. split; [exact Hm|].
  unfold carried, newMember. destruct (old_member p e) as [o|] eqn:Ho; cbn; [|done].
  repeat split. unfold old_member in Ho. destruct (byID p !! _) as [lo|]; [|done].
  destruct (wf_member _ HW lo o Ho) as (_ & Hs & _).
  apply (bu_breakers _ _ _ HB). by apply (wf_breaker _ HW).
Qed.

(** C21. Reload is all or nothing and keeps the runtime state: [Replace] on a
    well-formed pool either reports the error of the first invalid endpoint and
    leaves the pool exactly as it was, or installs an index whose IDs are exactly
    those of the new endpoints, where an endpoint whose ID was already served keeps
    its health, its breaker (the same object, in the same state), its round-robin
    position and its latency, and an endpoint with a new ID starts healthy with a
    fresh closed breaker. *)
Theorem Replace_spec p es :
  WF p ->
  match Replace es p with
  | (Some err, p') => p' = p /\ exists pre e post, es = pre ++ e :: post /\
      Forall (fun x => Validate x = None) pre /\ Validate e = Some err
  | (None, p') => Forall (fun x => Validate x = None) es /\
      (forall id, is_Some (byID p' !! id) <-> exists e, e ∈ es /\ ID e = id) /\
      (forall e, e ∈ es -> (forall e', e' ∈ es -> ID e' = ID e -> e' = e) ->
        exists l m, byID p' !! ID e = Some l /\ members p' !! l = Some m /\
          l ∈ model_members p' (Model e) /\ carried p p' e m)
  end.
Proof.
  intros HW. pose proof (Replace_built p es HW) as H.
  destruct (Replace es p) as [[err|] p'] eqn:HR.
  - destruct H as [-> _]. split; [done|]. unfold Replace in HR.
    destruct (replaceLoop _ _ _) as [err'|] eqn:HL; [|done]. injection HR as ->.
    by eapply replaceLoop_error.
  - destruct H as (HF & st & HB & ->). split; [done|]. split.
    + intros id. cbn [byID]. split.
      * intros [l Hl]. destruct (bu_id _ _ _ HB id l Hl) as (e & ? & ? & _). eauto.
      * intros (e & He & <-). by apply (bu_dom _ _ _ HB).
    + intros e He Huniq. destruct (bu_dom _ _ _ HB e He) as [l Hl].
      destruct (bu_id _ _ _ HB _ _ Hl) as (e' & He' & Hid & Hmade & Hin).
      assert (e' = e) as -> by by apply Huniq.
      destruct (made_carried _ _ _ _ _ HW HB Hmade) as (m & Hm & Hc).
      exists l, m. done.
Qed.

Lemma Replace_spec_witness :
  let p := SetHealth "b" Unhealthy demo_pool in
  match Replace [demo_ep "b" 7; demo_ep "d" 1] p with
  | (Some err, p') => p' = p /\ exists pre e post,
      [demo_ep "b" 7; demo_ep "d" 1] = pre ++ e :: post /\
      Forall (fun x => Validate x = None) pre /\ Validate e = Some err
  | (None, p') => Forall (fun x => Validate x = None) [demo_ep "b" 7; demo_ep "d" 1] /\
      (forall id, is_Some (byID p' !! id) <->
        exists e, e ∈ [demo_ep "b" 7; demo_ep "d" 1] /\ ID e = id) /\
      (forall e, e ∈ [demo_ep "b" 7; demo_ep "d" 1] ->
        (forall e', e' ∈ [demo_ep "b" 7; demo_ep "d" 1] -> ID e' = ID e -> e' = e) ->
        exists l m, byID p' !! ID e = Some l /\ members p' !! l = Some m /\
          l ∈ model_members p' (Model e) /\ carried p p' e m)
  end.
Proof.
  apply Replace_spec. eapply framed_WF; [apply SetHealth_framed|].
  by apply (NewPool_WF demo_eps demo_bcfg).
Defined.

(** ** Reports *)

Definition report_breaker (now : Z) (r : Result) (b : Breaker) : Breaker :=
  if rSuccess r then Breaker.Success b
  else if (rStatusCode r =? 429) || negb (rRetryable r) then Breaker.Release b
  else Breaker.Failure now b.

Lemma Report_effect p now id r l m b :
  byID p !! id = Some l -> members p !! l = Some m -> breakers p !! breaker m = Some b ->
  let p' := Report now id r p in
  breakers p' = <[breaker m := report_breaker now r b]> (breakers p) /\
  members p' = <[l := if rSuccess r && (rLatency r >? 0)
                      then set_latency (ewma (latency m) (rLatency r)) m else m]> (members p).
Proof.
  intros Hid Hm Hb p'. subst p'. unfold Report, report_breaker. rewrite Hid, Hm.
  assert (forall f, alter f (breaker m) (breakers p) = <[breaker m := f b]> (breakers p)) as HA.
  { intros f. apply map_eq. intros k. rewrite lookup_alter, lookup_insert.
    case_decide; subst; [by rewrite Hb|done]. }
  destruct (rSuccess r); simpl.
  - destruct (rLatency r >? 0); simpl; rewrite HA; split; try done. by rewrite insert_id.
  - destruct ((rStatusCode r =? 429) || negb (rRetryable r)); simpl; rewrite HA;
      (split; [done|by rewrite insert_id]).
Qed.

Lemma ewma_between prev lat :
  0 <= prev <= milliseconds max_int64 -> 0 < lat <= max_int64 ->
  0 <= ewma prev lat <= milliseconds max_int64 /\
  (prev <> 0 -> Z.min prev (milliseconds lat) <= ewma prev lat <= Z.max prev (milliseconds lat)).
Proof.
  intros Hp Hl.
  assert (0 <= milliseconds lat <= milliseconds max_int64) as Hms.
  { unfold milliseconds. split; [apply Z.quot_pos; unfold Millisecond; lia|].
    apply Z.quot_le_mono; unfold Millisecond; lia. }
  assert (milliseconds max_int64 = 9223372036854) as HM by (by vm_compute).
  unfold ewma. rewrite HM in *. revert Hms. generalize (milliseconds lat). intros ms Hms.
  destruct (prev =? 0) eqn:E; breflect; [lia|].
  unfold div64. unwrap64.
  assert (Z.min prev ms * 10 <= prev * 7 + ms * 3 <= Z.max prev ms * 10) as [H1 H2] by lia.
  rewrite Z.quot_div_nonneg by lia.
  assert (Z.min prev ms <= (prev * 7 + ms * 3) / 10) by (apply Z.div_le_lower_bound; lia).
  assert ((prev * 7 + ms * 3) / 10 <= Z.max prev ms) by (apply Z.div_le_upper_bound; lia).
  rewrite wrap64_small by (unfold in_int64, min_int64, max_int64; lia). lia.
Qed.

(** C22. The effect of a report on the pool: exactly one breaker moves, the one of
    the member that the ID index names, by a success, by a failure, or, for a 429 or
    a non-retryable outcome, by a release that frees a half-open probe without
    counting anything; no other member changes, and the member itself only in its
    smoothed latency, which for a sane clock stays within the range of [int64]
    milliseconds and between the old value and the new sample. *)
Theorem Report_spec p now id r l m b :
  byID p !! id = Some l -> members p !! l = Some m -> breakers p !! breaker m = Some b ->
  0 <= latency m <= milliseconds max_int64 -> rLatency r <= max_int64 ->
  let p' := Report now id r p in
  breakers p' = <[breaker m := report_breaker now r b]> (breakers p) /\
  (forall k, k <> l -> members p' !! k = members p !! k) /\
  exists v, members p' !! l = Some (set_latency v m) /\
  0 <= v <= milliseconds max_int64 /\
  (rSuccess r = false -> v = latency m) /\
  (latency m <> 0 -> 0 < rLatency r ->
       Z.min (latency m) (milliseconds (rLatency r)) <= v
       <= Z.max (latency m) (milliseconds (rLatency r))).
Proof.
  intros Hid Hm Hb Hlat Hr p'. destruct (Report_effect p now id r l m b Hid Hm Hb) as [H1 H2].
  fold p' in H1, H2. split; [done|]. rewrite H2. split.
  { intros k Hk. by rewrite lookup_insert_ne. }
  destruct (rSuccess r && (rLatency r >? 0)) eqn:E; breflect.
  - exists (ewma (latency m) (rLatency r)). rewrite lookup_insert_eq.
    destruct (ewma_between (latency m) (rLatency r)); [done|lia|].
    split; [done|]. split; [done|]. split; [|auto]. destruct E as [-> _]. done.
  - exists (latency m). rewrite lookup_insert_eq. split; [by destruct m|].
    split; [done|]. split; [done|]. intros. lia.
Qed.

Definition demo_m : member :=
  mkMember (normalize (demo_ep "a" 5)) Healthy 1%positive 0 100.
Definition demo_p : Pool :=
  set_members (<[2%positive := demo_m]> (members demo_pool)) demo_pool.
Definition demo_r : Result := mkResult true 0 (200 * Millisecond) false.

Lemma Report_spec_witness :
  exists v, members (Report 7 "a" demo_r demo_p) !! 2%positive = Some (set_latency v demo_m) /\
    100 <= v <= 200.
Proof.
  destruct (Report_spec demo_p 7 "a" demo_r 2%positive demo_m (Breaker.New demo_bcfg))
    as (_ & _ & v & H1 & _ & _ & H2); try by vm_compute.
  exists v. split; [exact H1|]. apply H2; by vm_compute.
Defined.

(** ** Duplicate IDs

    [Validate] looks at one endpoint at a time, so a configuration may give two
    models an endpoint of the same ID. *)

Lemma set_latency_serving p l k m v :
  members p !! k = Some m -> serving p l ->
  serving (set_members (<[k := set_latency v m]> (members p)) p) l.
Proof.
  intros Hm (m0 & b & Hm0 & H1 & H2 & H3 & H4).
  destruct (decide (k = l)) as [->|Hne].
  - exists (set_latency v m), b. assert (m = m0) as -> by congruence.
    split; [apply lookup_insert_eq|done].
  - exists m0, b. split; [by simpl; rewrite lookup_insert_ne|done].
Qed.

Lemma Report_other_serving p now id r l lid mid m :
  byID p !! id = Some lid -> members p !! lid = Some mid ->
  members p !! l = Some m -> breaker m <> breaker mid ->
  serving p l -> serving (Report now id r p) l.
Proof.
  intros Hid Hmid Hm Hne Hs.
  assert (forall f, serving (set_breakers (alter f (breaker mid) (breakers p)) p) l) as HA.
  { intros f. destruct Hs as (m0 & b & Hm0 & H1 & H2 & H3 & H4).
    assert (m0 = m) as -> by congruence. exists m, b.
    split; [done|]. split; [done|]. split; [done|]. split; [|done].
    simpl. by rewrite lookup_alter_ne. }
  unfold Report. rewrite Hid, Hmid. repeat dcase; try done; try apply HA.
  by apply set_latency_serving.
Qed.

(** The state kept by reports on a duplicated ID: [l1] serves the first endpoint
    with a breaker that the index entry of the ID does not reach. *)
Definition split_id (id : string) (e1 : Endpoint) (l1 b1 : loc) (p : Pool) : Prop :=
  model_members p (Model e1) = [l1] /\ serving p l1 /\
  (exists m1, members p !! l1 = Some m1 /\ ep m1 = normalize e1 /\ breaker m1 = b1) /\
  exists l m, byID p !! id = Some l /\ members p !! l = Some m /\ breaker m <> b1.

Lemma Report_split id e1 l1 b1 p now r :
  split_id id e1 l1 b1 p -> split_id id e1 l1 b1 (Report now id r p).
Proof.
  intros (H1 & H2 & (m1 & Hm1 & He1 & Hb1) & l & m & Hid & Hm & Hne).
  pose proof (Report_framed now id r p) as HF. assert (framed (Report now id r p) p) as HF' by (by symmetry).
  split; [unfold model_members in *; by rewrite (fr_model _ _ HF)|].
  split; [eapply Report_other_serving; eauto; congruence|].
  destruct (framed_member _ _ _ _ HF' Hm1) as (m1' & ? & ? & ?).
  destruct (framed_member _ _ _ _ HF' Hm) as (m' & ? & ? & ?).
  split; [exists m1'; split; [done|split; congruence]|].
  exists l, m'. rewrite (fr_id _ _ HF). split; [done|]. split; [done|congruence].
Qed.

Lemma NewPool_split e1 e2 c p :
  NewPool [e1; e2] c = inr p -> ID e1 = ID e2 -> Model e1 <> Model e2 ->
  split_id (ID e1) e1 2%positive 1%positive p.
Proof.
  unfold NewPool, Replace. simpl. intros H Hid Hmo.
  destruct (Validate e1) eqn:V1; [done|]. destruct (Validate e2) eqn:V2; [done|].
  injection H as <-. destruct (normalize_valid e1 V1) as (_ & Hw & _).
  assert (Model (normalize e2) <> Model (normalize e1)) as Hm' by (rewrite !normalize_Model; congruence).
  unfold split_id, model_members, serving, addMember. simpl.
  rewrite !normalize_ID, !Hid, !lookup_empty. simpl. split.
  { rewrite <- (normalize_Model e1). by rewrite lookup_insert_ne, lookup_insert_eq. }
  split; [|split].
  - eexists _, (Breaker.New c). split; [by rewrite lookup_insert_ne, lookup_insert_eq|].
    simpl. split; [done|]. split; [lia|]. by rewrite lookup_insert_ne, lookup_insert_eq.
  - eexists. split; [by rewrite lookup_insert_ne, lookup_insert_eq|done].
  - exists 4%positive. eexists. split; [by rewrite lookup_insert_eq|].
    split; [by rewrite lookup_insert_eq|done].
Qed.

Lemma split_Pick id e1 l1 b1 p env :
  split_id id e1 l1 b1 p -> (forall i, gOthers (env i) = []) ->
  fst (fst (Pick env (Model e1) None p)) = inr (normalize e1).
Proof.
  intros (H1 & H2 & (m1 & Hm1 & He1 & _) & _) Hq.
  assert (exists ms, nextWRR [l1] (members p) = (Some l1, ms)) as [ms Hms].
  { unfold nextWRR. simpl. rewrite Hm1. simpl. eauto. }
  rewrite (Pick_serving env (Model e1) p l1 ms); rewrite ?H1; try done.
  - simpl. unfold ep_at. rewrite Hm1. simpl. by rewrite He1.
  - intros l ->%list_elem_of_singleton. done.
Qed.

(** Endpoint IDs are not checked for uniqueness, and a duplicate defeats the
    circuit breaker: with two endpoints of the same ID under different models, no
    sequence of reports for that ID, however many failures it holds, ever stops
    [Pick] from returning the first endpoint, because the ID index only reaches the
    second one. *)
Theorem duplicate_id_never_trips e1 e2 c p (reports : list (Z * Result)) env :
  NewPool [e1; e2] c = inr p -> ID e1 = ID e2 -> Model e1 <> Model e2 ->
  (forall i, gOthers (env i) = []) ->
  let p' := foldl (fun p '(t, r) => Report t (ID e1) r p) p reports in
  fst (fst (Pick env (Model e1) None p')) = inr (normalize e1).
Proof.
  intros HN Hid Hmo Hq p'. pose proof (NewPool_split e1 e2 c p HN Hid Hmo) as HS.
  apply (split_Pick (ID e1) e1 2 1); [|done]. unfold p'. clear HN p'.
  revert p HS. induction reports as [|[t r] rs IH]; intros p HS; [done|].
  simpl. apply IH. by apply Report_split.
Qed.

Definition demo_dup : Endpoint := mkEndpoint "a" "" "other" "" "http://up2" "" "" 1 0 "".

Lemma duplicate_id_never_trips_witness :
  let fails := replicate 10 (0, mkResult false 502 0 true) in
  let p := match NewPool [demo_ep "a" 1; demo_dup] demo_bcfg with
           | inr p => p | inl _ => emptyPool demo_bcfg end in
  fst (fst (Pick (demo_env 1) "gpt-5" None
    (foldl (fun p '(t, r) => Report t "a" r p) p fails))) = inr (normalize (demo_ep "a" 1)).
Proof.
  intros fails p.
  apply (duplicate_id_never_trips (demo_ep "a" 1) demo_dup demo_bcfg p fails (demo_env 1)).
  - by vm_compute.
  - done.
  - done.
  - done.
Defined.
