(* ===== verification/Provider.v ===== *)
(** * The provider registry ([internal/provider/provider.go], [http.go])

    Factories and adapters are values of a type [Adapter] the registry never
    looks into; [Register] and [For] run under the registry's mutex. *)

From Stdlib Require Import ZArith Lia Ascii.
From stdpp Require Import prelude gmap list strings.
From S2P Require Import Prelude GoInt GoText GoErr Endpoint.

Local Open Scope Z_scope.

Definition Retryable (e : ProviderError) : bool :=
  if (StatusCode e =? 429) || (StatusCode e =? 408) then true
  else if StatusCode e >=? 500 then true
  else StatusCode e =? 0.

(** ** [internal/provider/http.go]: the settings of a provider's transport *)
Record Transport := mkTransport {
  DialTimeout : Z;
  KeepAlive : Z;
  MaxIdleConns : Z;
  MaxIdleConnsPerHost : Z;
  IdleConnTimeout : Z;
  TLSHandshakeTimeout : Z;
  ResponseHeaderTimeout : Z
}.

Definition NewHTTPClient (timeout : Z) : Transport :=
  let timeout := if timeout <=? 0 then 60 * Second else timeout in
  mkTransport (5 * Second) (30 * Second) 200 32 (90 * Second) (5 * Second) timeout.

(** The wait for an answer's head is always bounded. *)
Lemma NewHTTPClient_bounded timeout : 0 < ResponseHeaderTimeout (NewHTTPClient timeout).
Proof. unfold NewHTTPClient, Second. cbn [ResponseHeaderTimeout]. dcase; breflect; lia. Qed.

(** ** The registry *)
Section Registry.
Context {Adapter : Type} `{Unicode} `{Printable}.

Definition FactoryFunc : Type := Endpoint -> Adapter.

Record Registry := mkRegistry {
  factories : gmap string FactoryFunc;
  cache : gmap string Adapter
}.

Definition NewRegistry : Registry := mkRegistry ∅ ∅.

Definition Register (name : string) (fn : FactoryFunc) (r : Registry) : Registry :=
  mkRegistry (<[ToLower name := fn]> (factories r)) (cache r).

Definition providerName (ep : Endpoint) : string :=
  let name := ToLower (TrimSpace (Provider ep)) in
  if name =s "" then "openai" else name.

Definition cacheKey (ep : Endpoint) : string :=
  ID ep +:+ "|" +:+ BaseURL ep +:+ "|" +:+ providerName ep.

Definition For (ep : Endpoint) (r : Registry) : (Adapter + error) * Registry :=
  let name := providerName ep in
  let key := cacheKey ep in
  match cache r !! key with
  | Some p => (inl p, r)
  | None =>
    match factories r !! name with
    | None => (inr (errorsNew ("unknown provider " +:+ Quote (Provider ep))), r)
    | Some fn =>
        let p := fn ep in
        (inl p, mkRegistry (factories r) (<[key := p]> (cache r)))
    end
  end.

(** ** Reachable registries *)

(** One call; the list is the registrations made so far. *)
Inductive reg_step : list (string * FactoryFunc) * Registry ->
    list (string * FactoryFunc) * Registry -> Prop :=
| reg_Register name fn l r :
    reg_step (l, r) ((ToLower name, fn) :: l, Register name fn r)
| reg_For ep l r : reg_step (l, r) (l, snd (For ep r)).

(** A cached adapter was built by a registered factory, for an endpoint with this
    key; a factory in use was registered under its name. *)
Definition RegInv (s : list (string * FactoryFunc) * Registry) : Prop :=
  (forall name fn, factories s.2 !! name = Some fn -> (name, fn) ∈ s.1) /\
  (forall key p, cache s.2 !! key = Some p -> exists fn ep0,
     (providerName ep0, fn) ∈ s.1 /\ p = fn ep0 /\ key = cacheKey ep0).

Lemma RegInv_init : RegInv ([], NewRegistry).
Proof. split; intros ??; simpl; by rewrite lookup_empty. Qed.

Lemma RegInv_step s t : RegInv s -> reg_step s t -> RegInv t.
Proof.
  intros [HF HC] Hst. destruct Hst as [name fn l r|ep l r].
  - split; simpl in *; intros k x Hk.
    + apply lookup_insert_Some in Hk as [[<- <-]|[_ Hk]]; set_solver.
    + destruct (HC _ _ Hk) as (f & e & ? & ? & ?). exists f, e. set_solver.
  - unfold For, RegInv in *. simpl in *.
    destruct (cache r !! _) eqn:E; [done|].
    destruct (factories r !! _) as [f|] eqn:Ef; [|done].
    split; simpl; [done|]. intros k x Hk.
    apply lookup_insert_Some in Hk as [[<- <-]|[_ Hk]]; [|by apply HC].
    exists f, ep. eauto.
Qed.

Lemma RegInv_reach l r : steps reg_step ([], NewRegistry) (l, r) -> RegInv (l, r).
Proof. intros Hr. eapply steps_invariant; eauto using RegInv_init, RegInv_step. Qed.

(** What a cached key answers never changes. *)
Lemma cache_kept s t key p :
  reg_step s t -> cache s.2 !! key = Some p -> cache t.2 !! key = Some p.
Proof.
  intros Hst Hk. destruct Hst as [name fn l r|ep l r]; [done|]. simpl in *.
  unfold For. destruct (cache r !! cacheKey ep) eqn:E; [done|].
  destruct (factories r !! _); [|done]. simpl. rewrite lookup_insert_ne; congruence.
Qed.

Lemma cache_kept_steps s t key p :
  steps reg_step s t -> cache s.2 !! key = Some p -> cache t.2 !! key = Some p.
Proof. induction 1; eauto using cache_kept. Qed.

Lemma For_cached ep r p : (For ep r).1 = inl p -> cache (For ep r).2 !! cacheKey ep = Some p.
Proof.
  unfold For. destruct (cache r !! _) eqn:E; simpl; [congruence|].
  destruct (factories r !! _); simpl; [|done]. intros [= ->]. by rewrite lookup_insert_eq.
Qed.

Lemma For_hit ep r p : cache r !! cacheKey ep = Some p -> For ep r = (inl p, r).
Proof. unfold For. by intros ->. Qed.

(** With separator-free IDs and URLs the key identifies the upstream. *)
Definition keyable (ep : Endpoint) : Prop :=
  no_byte "|"%char (ID ep) /\ no_byte "|"%char (BaseURL ep).

Lemma cacheKey_inj e1 e2 :
  keyable e1 -> keyable e2 -> cacheKey e1 = cacheKey e2 ->
  ID e1 = ID e2 /\ BaseURL e1 = BaseURL e2 /\ providerName e1 = providerName e2.
Proof.
  intros [? ?] [? ?] He. unfold cacheKey in He. autorewrite with sapp in He.
  apply sep_inj in He as [? He]; [|done..].
  autorewrite with sapp in He. apply sep_inj in He as [? ?]; done.
Qed.

(** C24. In every reachable registry, [For] answers with an adapter that a factory
    registered under the endpoint's provider name built for an endpoint with the
    same cache key; the next calls for this key, whatever is registered or looked up
    between them, answer with the same adapter; and [For] fails exactly when
    nothing is cached and no factory has the provider's name, leaving the registry
    as it was. When IDs and URLs hold no separator the adapter's endpoint has the
    ID, the URL and the provider of the one asked for. *)
Theorem For_spec l r ep :
  steps reg_step ([], NewRegistry) (l, r) ->
  match For ep r with
  | (inl p, r') =>
      (exists fn ep0, (providerName ep0, fn) ∈ l /\ p = fn ep0 /\
         cacheKey ep0 = cacheKey ep /\
         (keyable ep -> keyable ep0 ->
            ID ep0 = ID ep /\ BaseURL ep0 = BaseURL ep /\
            providerName ep0 = providerName ep)) /\
      (forall l2 r2 ep2, steps reg_step (l, r') (l2, r2) ->
         cacheKey ep2 = cacheKey ep -> For ep2 r2 = (inl p, r2))
  | (inr e, r') =>
      r' = r /\ e = errorsNew ("unknown provider " +:+ Quote (Provider ep)) /\
      cache r !! cacheKey ep = None /\ factories r !! providerName ep = None
  end.
Proof.
  intros Hr. destruct (For ep r) as [[p|e] r'] eqn:E.
  - assert (Hc : cache r' !! cacheKey ep = Some p).
    { pose proof (For_cached ep r p) as Hc. rewrite E in Hc. by apply Hc. }
    assert (Hst : reg_step (l, r) (l, r')).
    { replace r' with (For ep r).2 by by rewrite E. constructor. }
    split.
    + destruct (RegInv_step _ _ (RegInv_reach _ _ Hr) Hst) as [_ HC].
      destruct (HC _ _ Hc) as (fn & ep0 & ? & ? & Hk).
      exists fn, ep0. split_and!; try done. intros. by apply cacheKey_inj.
    + intros l2 r2 ep2 Hs Hk. apply For_hit. rewrite Hk.
      exact (cache_kept_steps _ _ _ _ Hs Hc).
  - unfold For in E. destruct (cache r !! _) eqn:E1; [done|].
    destruct (factories r !! _) eqn:E2; [done|]. by simplify_eq.
Qed.
End Registry.

(** A reload that changes only an endpoint's credentials. *)
Definition set_APIKey (k : string) (e : Endpoint) : Endpoint :=
  mkEndpoint (ID e) (Provider e) (Model e) (ModelName e) (BaseURL e) k
    (Region e) (Weight e) (Timeout e) (APIVersion e).

(** The cache key ignores the credentials: once an endpoint has been served, a
    reload that rotates its API key keeps being served by the adapter built with
    the old key, for as long as the registry lives. *)
Theorem rotated_key_stale {Adapter} `{Unicode, Printable}
    (l l2 : list (string * FactoryFunc)) (r r1 r2 : Registry (Adapter := Adapter))
    ep p k :
  For ep r = (inl p, r1) ->
  steps reg_step (l, r1) (l2, r2) ->
  For (set_APIKey k ep) r2 = (inl p, r2).
Proof.
  intros HF Hs. apply For_hit.
  change (cacheKey (set_APIKey k ep)) with (cacheKey ep).
  apply (cache_kept_steps _ _ _ _ Hs). simpl.
  pose proof (For_cached ep r p) as Hc. rewrite HF in Hc. by apply Hc.
Qed.

(** ** Witnesses: an adapter that remembers the key it was built with. *)
Definition demo_lower : Unicode := fun r => r.
Definition demo_print : Printable := fun _ => true.
Definition demo_endpoint : Endpoint :=
  mkEndpoint "e1" " OpenAI " "gpt" "" "http://u" "old" "" 1 0 "".
Definition demo_registry : Registry (Adapter := string) :=
  Register (H := demo_lower) "OpenAI" APIKey NewRegistry.

Lemma demo_reach :
  steps (reg_step (H := demo_lower) (H0 := demo_print)) ([], NewRegistry)
    ([("openai", APIKey)], demo_registry).
Proof.
  apply steps_one. exact (reg_Register (H := demo_lower) (H0 := demo_print) "OpenAI" APIKey [] NewRegistry).
Defined.

Lemma For_spec_witness :
  (For (H := demo_lower) (H0 := demo_print) demo_endpoint demo_registry).1 = inl "old" /\
  (For (H := demo_lower) (H0 := demo_print) (set_Provider "x" demo_endpoint) demo_registry).1
    = inr (errorsNew ("unknown provider " +:+ Quote (H := demo_print) "x")) /\
  match For (H := demo_lower) (H0 := demo_print) demo_endpoint demo_registry with
  | (inl p, r') => p = "old"
  | (inr e, r') => r' = demo_registry
  end.
Proof.
  pose proof (For_spec (H := demo_lower) (H0 := demo_print) _ _ demo_endpoint demo_reach) as H.
  split_and!; [by vm_compute..|].
  destruct (For demo_endpoint demo_registry) as [[p|e] r'] eqn:E;
    [by vm_compute in E; simplify_eq|by destruct H].
Defined.

Lemma rotated_key_stale_witness :
  (For (H := demo_lower) (H0 := demo_print) (set_APIKey "new" demo_endpoint)
     (For (H := demo_lower) (H0 := demo_print) demo_endpoint demo_registry).2).1 = inl "old".
Proof.
  erewrite (rotated_key_stale (H := demo_lower) (H0 := demo_print) [] [] demo_registry
              _ _ demo_endpoint "old" "new"); [done|by vm_compute|apply steps_refl].
Defined.
