(* ===== verification/Retry.v ===== *)
(** * Error classification and backoff ([internal/retry/retry.go]) *)

From Stdlib Require Import ZArith Lia.
From stdpp Require Import prelude list strings.
From S2P Require Import Prelude GoInt GoText GoErr Provider.

Local Open Scope Z_scope.

Inductive Action := Fail | Retry | RetryOther.

#[export] Instance Action_eq_dec : EqDecision Action.
Proof. solve_decision. Defined.

Record Config := mkConfig { MaxAttempts : Z; BaseDelay : Z }.

Definition withDefaults (c : Config) : Config :=
  let c := if MaxAttempts c <? 1 then mkConfig 3 (BaseDelay c) else c in
  let c := if BaseDelay c <=? 0
           then mkConfig (MaxAttempts c) (100 * Millisecond) else c in
  c.

Definition isTimeout (err : error) : bool :=
  match as_net err with Some timeout => timeout | None => false end.

(** A [net.OpError] is a [net.Error], so the second [errors.As] of the code finds
    nothing the first one misses: both are [ENet] nodes. *)
Definition isNet (err : error) : bool :=
  match as_net err with Some _ => true | None => false end.

Definition Classify (err : option error) : Action :=
  match err with
  | None => Fail
  | Some err =>
    if is_canceled err then Fail
    else
      match as_provider err with
      | Some pe =>
          let c := StatusCode pe in
          if (c =? 400) || (c =? 401) || (c =? 403) || (c =? 404) then Fail
          else if c =? 429 then RetryOther
          else if Retryable pe then Retry
          else Fail
      | None =>
          if is_deadline err || isTimeout err || isNet err then Retry else Fail
      end
  end.

Definition maxDelay : Z := 800 * Millisecond.

Definition Backoff (cfg : Config) (attempt : Z) : Z :=
  let cfg := withDefaults cfg in
  let attempt := if attempt <? 0 then 0 else attempt in
  let d := shl64 (BaseDelay cfg) attempt in
  if d >? maxDelay then maxDelay else d.

(** [Sleep]: [now] is the context's error at the call, [during] its error if the
    context is done before a positive delay [d] is over. *)
Definition Sleep (d : Z) (now during : option error) : option error :=
  if d <=? 0 then now
  else during.

Definition RetryAfter (err : error) : Z :=
  match as_provider err with
  | Some pe => GoErr.RetryAfter pe
  | None => 0
  end.

(** ** Facts *)

Lemma withDefaults_pos c : 1 <= MaxAttempts (withDefaults c) /\ 0 < BaseDelay (withDefaults c).
Proof. unfold withDefaults, Millisecond. repeat dcase; simpl in *; bsolve. Qed.

Lemma withDefaults_idemp c : withDefaults (withDefaults c) = withDefaults c.
Proof.
  destruct (withDefaults_pos c). unfold withDefaults at 1.
  rewrite (proj2 (Z.ltb_ge _ _)) by lia. by rewrite (proj2 (Z.leb_gt _ _)) by lia.
Qed.

Lemma shl64_exact x n : 0 <= n -> 0 <= x -> x * 2 ^ n <= max_int64 -> shl64 x n = x * 2 ^ n.
Proof.
  intros. unfold shl64. rewrite Z.shiftl_mul_pow2 by done. apply wrap64_small.
  unfold in_int64, min_int64. pose proof (Z.pow_pos_nonneg 2 n). nia.
Qed.

Lemma shl64_out x n : 64 <= n -> shl64 x n = 0.
Proof.
  intros. unfold shl64, wrap64. rewrite Z.shiftl_mul_pow2 by lia.
  replace (x * 2 ^ n) with (x * 2 ^ (n - 64) * 2 ^ 64)
    by (rewrite <- Z.mul_assoc, <- Z.pow_add_r by lia; do 2 f_equal; lia).
  rewrite Z.add_comm, Z_mod_plus_full. reflexivity.
Qed.

Lemma isTimeout_isNet err : isTimeout err = true -> isNet err = true.
Proof. unfold isTimeout, isNet. by destruct (as_net err). Qed.

Lemma is_deadline_isNet err : is_deadline err = true -> isNet err = true.
Proof.
  unfold is_deadline, isNet. induction err as [|n err IH]; [done|].
  destruct n; simpl; auto.
Qed.

(** The status codes another attempt can help with. *)
Definition transient (c : Z) : Prop := c = 408 \/ 500 <= c \/ c = 0.

(** Classification of a failed call. A cancelled context is final whatever else
    the error says. Otherwise a provider status decides alone: 429 asks for another
    endpoint, 408, 5xx and a missing status for another attempt, every other status
    is final; and an error without a provider status is tried again exactly when it
    comes from the network (a deadline included). *)
Theorem Classify_spec (err : error) :
  (Classify (Some err) = RetryOther <->
     is_canceled err = false /\
     exists pe, as_provider err = Some pe /\ StatusCode pe = 429) /\
  (Classify (Some err) = Retry <->
     is_canceled err = false /\
     ((exists pe, as_provider err = Some pe /\ transient (StatusCode pe)) \/
      (as_provider err = None /\ isNet err = true))) /\
  (Classify (Some err) = Fail <->
     is_canceled err = true \/
     (exists pe, as_provider err = Some pe /\
        StatusCode pe <> 429 /\ ~ transient (StatusCode pe)) \/
     (as_provider err = None /\ isNet err = false)).
Proof.
  unfold Classify, Retryable, transient. destruct (is_canceled err).
  { split_and!; split; intros; naive_solver. }
  destruct (as_provider err) as [pe|].
  - destruct ((StatusCode pe =? 400) || _ || _ || _) eqn:E1;
      destruct (StatusCode pe =? 429) eqn:E2; destruct (StatusCode pe =? 408) eqn:E3;
      destruct (StatusCode pe >=? 500) eqn:E4; destruct (StatusCode pe =? 0) eqn:E5;
      breflect; simpl; split_and!; split; intros;
      destruct_and?; destruct_or?; naive_solver lia.
  - assert (Hn : is_deadline err || isTimeout err || isNet err = isNet err).
    { pose proof (isTimeout_isNet err). pose proof (is_deadline_isNet err).
      destruct (is_deadline err), (isTimeout err), (isNet err); naive_solver. }
    rewrite Hn. destruct (isNet err); split_and!; split; naive_solver.
Qed.

(** C25. As long as the shifted base delay fits in an [int64] the delay before the
    attempt numbered [n] is the base doubled [n] times, at most 800ms and positive,
    and it never decreases from one attempt to the next. From the 64th attempt on
    nothing of the base is left in the word: the delay is zero and [Sleep] returns
    at once. *)
Theorem Backoff_spec (c : Config) (n : Z) :
  let base := BaseDelay (withDefaults c) in
  0 <= n ->
  (base * 2 ^ n <= max_int64 ->
     Backoff c n = Z.min (base * 2 ^ n) maxDelay /\
     0 < Backoff c n /\
     (base * 2 ^ (n + 1) <= max_int64 -> Backoff c n <= Backoff c (n + 1))) /\
  (64 <= n -> Backoff c n = 0 /\ forall now during, Sleep (Backoff c n) now during = now).
Proof.
  intros base Hn. pose proof (withDefaults_pos c) as [_ Hb]. fold base in Hb.
  assert (Hm : forall k, 0 <= k -> base * 2 ^ k <= max_int64 ->
            Backoff c k = Z.min (base * 2 ^ k) maxDelay).
  { intros k Hk Hle. unfold Backoff. rewrite (proj2 (Z.ltb_ge _ _)) by done.
    fold base. rewrite shl64_exact by lia. dcase; bsolve. }
  split.
  - intros Hle. rewrite Hm by done. pose proof (Z.pow_pos_nonneg 2 n).
    split_and!; [done|unfold maxDelay, Millisecond; nia|].
    intros Hle'. rewrite Hm by lia. rewrite Z.pow_add_r in * by lia. nia.
  - intros H64. assert (H0 : Backoff c n = 0).
    { unfold Backoff. rewrite (proj2 (Z.ltb_ge _ _)) by done. by rewrite shl64_out. }
    split; [done|]. intros. by rewrite H0.
Qed.

(** ** Witnesses *)
Lemma Backoff_spec_witness :
  Backoff (mkConfig 0 0) 2 = 400 * Millisecond /\
  Backoff (mkConfig 0 0) 3 = maxDelay /\ Backoff (mkConfig 0 0) 37 < 0 /\
  Backoff (mkConfig 0 0) 70 = 0.
Proof.
  split_and!.
  - destruct (Backoff_spec (mkConfig 0 0) 2) as [H _]; [lia|].
    destruct H as [H _]; [vm_compute; congruence|]. by rewrite H.
  - by vm_compute.
  - by vm_compute.
  - apply (Backoff_spec (mkConfig 0 0) 70); lia.
Defined.
