(* ===== verification/Redis.v ===== *)
(** * The Redis commands the limiter relies on

    The server is not part of the repository: its commands are the operations of
    the class [Redis] over an abstract database [S], and what the gateway relies on
    is the class [RedisLaws], the documented effect of each command on the two
    things the limiter keeps per user, a balance and a window of scored members, on the
    deadline of the window's key and on the server's clock.
    [S] ranges over the databases in which only the gateway writes keys with its
    two prefixes. [db] is a concrete server that satisfies the laws. *)

From Stdlib Require Import ZArith Lia.
From stdpp Require Import prelude gmap list strings.
From S2P Require Import Prelude GoInt GoText.

Local Open Scope Z_scope.

(** Keys of [pkg/limiter/limiter.go]. *)
Definition rateLimitKey (userID : string) : string := "llm:rl:" +:+ userID.
Definition balanceKey (userID : string) : string := "llm:bal:" +:+ userID.

Class Redis (S : Type) := {
  SETNX : string -> Z -> S -> S;
  GET : string -> S -> option Z;
  INCRBY : string -> Z -> S -> option Z * S;
  DECRBY : string -> Z -> S -> option Z * S;
  ZREMRANGEBYSCORE : string -> Z -> S -> S;
  ZCARD : string -> S -> Z;
  ZADD : string -> Z -> string -> S -> S;
  EXPIRE : string -> Z -> S -> S;
  PASS : Z -> S -> S
}.

(** What a user owns in the database: the balance, the window's members with
    their scores, and the instant at which the window's key expires, on the server's clock
    in microseconds. *)
Class RedisLaws (S : Type) `{Redis S} := {
  bal : string -> S -> option Z;
  win : string -> S -> gmap string Z;
  deadline : string -> S -> option Z;
  server_time : S -> Z;

  GET_bal u s : GET (balanceKey u) s = bal u s;

  SETNX_bal u v x s :
    bal v (SETNX (balanceKey u) x s) =
      if decide (v = u) then Some (default x (bal u s)) else bal v s;
  SETNX_win u v x s : win v (SETNX (balanceKey u) x s) = win v s;

  (* An integer out of the 64-bit range is an error reply that changes nothing; a
     missing key counts as zero. *)
  INCRBY_reply u d s :
    (INCRBY (balanceKey u) d s).1 =
      let x := default 0 (bal u s) + d in
      if bool_decide (in_int64 x) then Some x else None;
  INCRBY_bal u v d s :
    bal v (INCRBY (balanceKey u) d s).2 =
      let x := default 0 (bal u s) + d in
      if decide (v = u /\ in_int64 x) then Some x else bal v s;
  INCRBY_win u v d s : win v (INCRBY (balanceKey u) d s).2 = win v s;

  DECRBY_reply u d s :
    (DECRBY (balanceKey u) d s).1 =
      let x := default 0 (bal u s) - d in
      if bool_decide (in_int64 (- d) /\ in_int64 x) then Some x else None;
  DECRBY_bal u v d s :
    bal v (DECRBY (balanceKey u) d s).2 =
      let x := default 0 (bal u s) - d in
      if decide (v = u /\ in_int64 (- d) /\ in_int64 x) then Some x else bal v s;
  DECRBY_win u v d s : win v (DECRBY (balanceKey u) d s).2 = win v s;

  (* The range from minus infinity up to the cutoff, both ends included. *)
  ZREM_bal u v c s : bal v (ZREMRANGEBYSCORE (rateLimitKey u) c s) = bal v s;
  ZREM_win u v c s :
    win v (ZREMRANGEBYSCORE (rateLimitKey u) c s) =
      if decide (v = u) then filter (fun m => c < m.2) (win u s) else win v s;

  ZCARD_win u s : ZCARD (rateLimitKey u) s = Z.of_nat (size (win u s));

  (* A member that is present only gets the new score. *)
  ZADD_bal u v x m s : bal v (ZADD (rateLimitKey u) x m s) = bal v s;
  ZADD_win u v x m s :
    win v (ZADD (rateLimitKey u) x m s) =
      if decide (v = u) then <[m := x]> (win u s) else win v s;

  EXPIRE_bal u v x s : bal v (EXPIRE (rateLimitKey u) x s) = bal v s;
  EXPIRE_win u v x s : win v (EXPIRE (rateLimitKey u) x s) = win v s;

  (* Commands take no time of their own. *)
  SETNX_time k x s : server_time (SETNX k x s) = server_time s;
  INCRBY_time k d s : server_time (INCRBY k d s).2 = server_time s;
  DECRBY_time k d s : server_time (DECRBY k d s).2 = server_time s;
  ZREM_time k c s : server_time (ZREMRANGEBYSCORE k c s) = server_time s;
  ZADD_time k x m s : server_time (ZADD k x m s) = server_time s;
  EXPIRE_time k x s : server_time (EXPIRE k x s) = server_time s;

  (* A set that loses its last member disappears with its deadline; [EXPIRE] counts
     seconds from now, and does nothing on a key that does not exist. *)
  SETNX_deadline u v x s : deadline v (SETNX (balanceKey u) x s) = deadline v s;
  INCRBY_deadline u v d s : deadline v (INCRBY (balanceKey u) d s).2 = deadline v s;
  DECRBY_deadline u v d s : deadline v (DECRBY (balanceKey u) d s).2 = deadline v s;
  ZREM_deadline u v c s :
    deadline v (ZREMRANGEBYSCORE (rateLimitKey u) c s) =
      if decide (v = u /\ filter (fun m => c < m.2) (win u s) = ∅) then None else deadline v s;
  ZADD_deadline u v x m s : deadline v (ZADD (rateLimitKey u) x m s) = deadline v s;
  EXPIRE_deadline u v x s :
    deadline v (EXPIRE (rateLimitKey u) x s) =
      if decide (v = u /\ win u s <> ∅) then Some (server_time s + x * 1000000)
      else deadline v s;

  (* Time passes on the server: a key disappears as a whole, and not before its
     deadline; balances never have one. *)
  PASS_time t s : server_time (PASS t s) = server_time s + Z.max 0 t;
  PASS_bal v t s : bal v (PASS t s) = bal v s;
  PASS_win v t s :
    (win v (PASS t s) = win v s /\ deadline v (PASS t s) = deadline v s) \/
    (win v (PASS t s) = ∅ /\ deadline v (PASS t s) = None /\
     exists d, deadline v s = Some d /\ d <= server_time (PASS t s))
}.

(** ** A server *)

#[export] Instance in_int64_dec z : Decision (in_int64 z).
Proof. unfold in_int64. apply _. Defined.

Record db := mkDb {
  ints : gmap string Z;
  zsets : gmap string (gmap string Z);
  deadlines : gmap string Z;
  clock : Z
}.

Definition emptyDb : db := mkDb ∅ ∅ ∅ 0.

Definition db_zset (k : string) (s : db) : gmap string Z := default ∅ (zsets s !! k).

Definition db_add (k : string) (d : Z) (ok : bool) (s : db) : option Z * db :=
  let x := default 0 (ints s !! k) + d in
  if ok && bool_decide (in_int64 x)
  then (Some x, mkDb (<[k := x]> (ints s)) (zsets s) (deadlines s) (clock s))
  else (None, s).

Definition db_expired (s : db) (k : string) : bool :=
  match deadlines s !! k with Some t => t <=? clock s | None => false end.

#[export] Instance db_redis : Redis db := {
  SETNX k x s :=
    mkDb (<[k := default x (ints s !! k)]> (ints s)) (zsets s) (deadlines s) (clock s);
  GET k s := ints s !! k;
  INCRBY k d s := db_add k d true s;
  DECRBY k d s := db_add k (- d) (bool_decide (in_int64 (- d))) s;
  ZREMRANGEBYSCORE k c s :=
    let z := filter (fun m => c < m.2) (db_zset k s) in
    if decide (z = ∅) then mkDb (ints s) (delete k (zsets s)) (delete k (deadlines s)) (clock s)
    else mkDb (ints s) (<[k := z]> (zsets s)) (deadlines s) (clock s);
  ZCARD k s := Z.of_nat (size (db_zset k s));
  ZADD k x m s :=
    mkDb (ints s) (<[k := <[m := x]> (db_zset k s)]> (zsets s)) (deadlines s) (clock s);
  EXPIRE k t s :=
    if decide (db_zset k s = ∅) then s
    else mkDb (ints s) (zsets s) (<[k := clock s + t * 1000000]> (deadlines s)) (clock s);
  PASS t s :=
    let s := mkDb (ints s) (zsets s) (deadlines s) (clock s + Z.max 0 t) in
    mkDb (ints s) (filter (fun kz => db_expired s kz.1 = false) (zsets s))
      (filter (fun kd => db_expired s kd.1 = false) (deadlines s)) (clock s)
}.

Lemma balanceKey_inj u v : balanceKey u = balanceKey v <-> u = v.
Proof. split; [apply app_inj_l|congruence]. Qed.

Lemma rateLimitKey_inj u v : rateLimitKey u = rateLimitKey v <-> u = v.
Proof. split; [apply app_inj_l|congruence]. Qed.

(** The two prefixes keep balances and windows apart. *)
Lemma keys_disjoint u v : balanceKey u <> rateLimitKey v.
Proof. unfold balanceKey, rateLimitKey. autorewrite with sapp. congruence. Qed.

Lemma db_add_reply k d ok s :
  (db_add k d ok s).1 =
    let x := default 0 (ints s !! k) + d in
    if bool_decide (ok = true /\ in_int64 x) then Some x else None.
Proof.
  unfold db_add. destruct ok; simpl; repeat case_bool_decide; naive_solver.
Qed.

Lemma db_add_ints k k' d ok s :
  ints (db_add k d ok s).2 !! k' =
    let x := default 0 (ints s !! k) + d in
    if decide (k' = k /\ ok = true /\ in_int64 x) then Some x else ints s !! k'.
Proof.
  unfold db_add. destruct ok; simpl; repeat case_bool_decide; repeat case_decide;
    simpl; destruct_and?; simplify_eq; try naive_solver.
  - by rewrite lookup_insert_eq.
  - destruct (decide (k = k')); [naive_solver|by rewrite lookup_insert_ne].
Qed.

Lemma lookup_insert_key {A} (key : string -> string) (m : gmap string A) u v x :
  (forall a b, key a = key b <-> a = b) ->
  <[key u := x]> m !! key v = if decide (v = u) then Some x else m !! key v.
Proof.
  intros Hinj. case_decide; subst; [by rewrite lookup_insert_eq|].
  rewrite lookup_insert_ne; [done|]. rewrite Hinj. congruence.
Qed.

Lemma db_add_rest k d ok s :
  zsets (db_add k d ok s).2 = zsets s /\ deadlines (db_add k d ok s).2 = deadlines s /\
  clock (db_add k d ok s).2 = clock s.
Proof. unfold db_add. by destruct ok, (bool_decide _). Qed.

Lemma db_zrem_zset k c s v :
  db_zset (rateLimitKey v) (ZREMRANGEBYSCORE (rateLimitKey k) c s) =
    if decide (v = k) then filter (fun m => c < m.2) (db_zset (rateLimitKey k) s)
    else db_zset (rateLimitKey v) s.
Proof.
  simpl. unfold db_zset at 1. case_decide as Hz; simpl.
  - case_decide as Hv; [subst|].
    + by rewrite lookup_delete_eq, Hz.
    + rewrite lookup_delete_ne; [done|]. rewrite rateLimitKey_inj. congruence.
  - rewrite lookup_insert_key by apply rateLimitKey_inj. by case_decide.
Qed.

Lemma db_zrem_deadline k c s v :
  deadlines (ZREMRANGEBYSCORE (rateLimitKey k) c s) !! rateLimitKey v =
    if decide (v = k /\ filter (fun m => c < m.2) (db_zset (rateLimitKey k) s) = ∅) then None
    else deadlines s !! rateLimitKey v.
Proof.
  simpl. case_decide as Hz; simpl; case_decide as Hv; try tauto.
  - destruct Hv as [-> _]. apply lookup_delete_eq.
  - rewrite lookup_delete_ne; [done|]. rewrite rateLimitKey_inj. intros ->. tauto.
Qed.

Lemma db_expire_deadline k x s v :
  deadlines (EXPIRE (rateLimitKey k) x s) !! rateLimitKey v =
    if decide (v = k /\ db_zset (rateLimitKey k) s <> ∅) then Some (clock s + x * 1000000)
    else deadlines s !! rateLimitKey v.
Proof.
  simpl. case_decide as Hz; simpl.
  - rewrite decide_False; [done|tauto].
  - rewrite lookup_insert_key by apply rateLimitKey_inj.
    repeat case_decide; tauto.
Qed.

(** A key whose deadline has come is gone, the others stay. *)
Lemma db_pass v t s :
  let k := rateLimitKey v in
  (db_zset k (PASS t s) = db_zset k s /\ deadlines (PASS t s) !! k = deadlines s !! k) \/
  (db_zset k (PASS t s) = ∅ /\ deadlines (PASS t s) !! k = None /\
   exists d, deadlines s !! k = Some d /\ d <= clock (PASS t s)).
Proof.
  intros k. simpl. set (s' := mkDb (ints s) (zsets s) (deadlines s) (clock s + Z.max 0 t)).
  unfold db_zset. simpl. destruct (db_expired s' k) eqn:Ex.
  - right. unfold db_expired in Ex. simpl in Ex.
    rewrite !map_lookup_filter_None_2 by (right; intros; simpl; unfold db_expired; simpl; congruence).
    destruct (deadlines s !! k) as [d|]; [|done]. split_and!; [done..|]. exists d. split; [done|].
    by apply Z.leb_le.
  - left. destruct (zsets s !! k) as [z|] eqn:E; destruct (deadlines s !! k) as [d|] eqn:E';
      rewrite ?(map_lookup_filter_None_2 _ (zsets s)), ?(map_lookup_filter_None_2 _ (deadlines s)) by (by left);
      rewrite ?(map_lookup_filter_Some_2 _ (zsets s) _ _ E Ex), ?(map_lookup_filter_Some_2 _ (deadlines s) _ _ E' Ex);
      done.
Qed.

#[export, program] Instance db_laws : RedisLaws db := {
  bal u s := ints s !! balanceKey u;
  win u s := db_zset (rateLimitKey u) s;
  deadline u s := deadlines s !! rateLimitKey u;
  server_time := clock
}.
Next Obligation. done. Qed.
Next Obligation. intros. simpl. by rewrite lookup_insert_key by apply balanceKey_inj. Qed.
Next Obligation. done. Qed.
Next Obligation.
  intros. simpl. rewrite db_add_reply. simpl. repeat case_bool_decide; naive_solver.
Qed.
Next Obligation.
  intros. simpl. rewrite db_add_ints. simpl.
  repeat case_decide; destruct_and?; rewrite ?balanceKey_inj in *; naive_solver.
Qed.
Next Obligation. intros. simpl. unfold db_zset. by rewrite (proj1 (db_add_rest _ _ _ _)). Qed.
Next Obligation.
  intros. simpl. rewrite db_add_reply. simpl.
  rewrite Z.add_opp_r. repeat case_bool_decide; naive_solver.
Qed.
Next Obligation.
  intros. simpl. rewrite db_add_ints. simpl. rewrite Z.add_opp_r.
  repeat case_decide; rewrite ?bool_decide_eq_true, ?balanceKey_inj in *; naive_solver.
Qed.
Next Obligation. intros. simpl. unfold db_zset. by rewrite (proj1 (db_add_rest _ _ _ _)). Qed.
Next Obligation. intros. simpl. by case_decide. Qed.
Next Obligation. intros. apply db_zrem_zset. Qed.
Next Obligation. done. Qed.
Next Obligation. done. Qed.
Next Obligation.
  intros. simpl. unfold db_zset at 1. simpl.
  rewrite lookup_insert_key by apply rateLimitKey_inj. by case_decide.
Qed.
Next Obligation. intros. simpl. by case_decide. Qed.
Next Obligation. intros. simpl. unfold db_zset. by case_decide. Qed.
Next Obligation. done. Qed.
Next Obligation. intros. simpl. apply db_add_rest. Qed.
Next Obligation. intros. simpl. apply db_add_rest. Qed.
Next Obligation. intros. simpl. by case_decide. Qed.
Next Obligation. done. Qed.
Next Obligation. intros. simpl. by case_decide. Qed.
Next Obligation. done. Qed.
Next Obligation. intros. simpl. by rewrite (proj1 (proj2 (db_add_rest _ _ _ _))). Qed.
Next Obligation. intros. simpl. by rewrite (proj1 (proj2 (db_add_rest _ _ _ _))). Qed.
Next Obligation. intros. apply db_zrem_deadline. Qed.
Next Obligation. done. Qed.
Next Obligation. intros. apply db_expire_deadline. Qed.
Next Obligation. done. Qed.
Next Obligation. done. Qed.
Next Obligation. intros. apply db_pass. Qed.
