(* ===== verification/Limiter.v ===== *)
(** * The rate limiter and token quota ([pkg/limiter/limiter.go] and
    [lua/rate_limit_prededuct.lua])

    The script runs as one command of the server. Its numbers are Lua numbers,
    IEEE doubles: an integer argument beyond [2^53] is rounded, and [tostring] keeps
    fourteen significant digits. A command may be lost on its way, or executed with
    its reply lost. *)

From Stdlib Require Import ZArith Lia Ascii.
From stdpp Require Import prelude gmap list strings.
From S2P Require Import Prelude GoInt GoText GoErr Redis.

Local Open Scope Z_scope.

(** ** Lua numbers that hold integers *)

(** [a / b] to the nearest integer, ties to even, for [0 <= a] and [0 < b]. *)
Definition div_nearest (a b : Z) : Z :=
  let q := a / b in
  let r := a mod b in
  if 2 * r <? b then q
  else if 2 * r >? b then q + 1
  else if Z.even q then q else q + 1.

(** The double nearest to an integer. *)
Definition lua_num (z : Z) : Z :=
  if Z.abs z <=? 2 ^ 53 then z
  else
    let p := 2 ^ (Z.log2 (Z.abs z) - 52) in
    Z.sgn z * (div_nearest (Z.abs z) p * p).

Fixpoint drop_trailing_zeros (l : list ascii) : list ascii :=
  match l with
  | [] => []
  | a :: l =>
      match drop_trailing_zeros l with
      | [] => if bool_decide (a = "0"%char) then [] else [a]
      | l' => a :: l'
      end
  end.

(** [%.14g] of a nonnegative integer: plain digits below [10^14], else a mantissa
    of fourteen digits without trailing zeros and a two-digit exponent. *)
Definition format14 (z : Z) : string :=
  if z <? 10 ^ 14 then nat_string z
  else
    let e := slen (nat_string z) - 1 in
    let m := div_nearest z (10 ^ (e - 13)) in
    let '(m, e) := if m =? 10 ^ 14 then (10 ^ 13, e + 1) else (m, e) in
    let exponent := "e+" +:+ (if e <? 10 then "0" else "") +:+ nat_string e in
    match chars (nat_string m) with
    | [] => ""
    | d :: ds =>
        unchars (d :: match drop_trailing_zeros ds with
                      | [] => []
                      | frac => "."%char :: frac
                      end) +:+ exponent
    end.

(** Lua's [tostring] on a number. *)
Definition tostring (z : Z) : string :=
  if z <? 0 then "-" +:+ format14 (- z) else format14 z.

(** A number passed to [redis.call] is printed with [%.17g]: from [10^17] on the
    server no longer reads it as an integer. *)
Definition redis_integer (z : Z) : option Z :=
  if Z.abs z <? 10 ^ 17 then Some z else None.

(** ** The script *)
Inductive reply := RStr (s : string) | RInt (z : Z) | RNil.

Section Limiter.
Context {S : Type} `{Redis S} `{Printable}.

(** Keys and arguments to a reply; the arguments are decimal integers. *)
Definition Script : Type := list string -> list Z -> S -> (list reply + error) * S.

Definition member_name (now count : Z) : string :=
  tostring now +:+ "-" +:+ tostring (count + 1).

(** [math.ceil(window / 1000000)], at least one second. *)
Definition expireSec (window : Z) : Z :=
  let expire_sec := - ((- window) / 1000000) in
  if expire_sec <? 1 then 1 else expire_sec.

Definition prededuct (rl_key bal_key : string) (now window limit tokens : Z)
    (s : S) : (list reply + error) * S :=
  let cutoff := lua_num (now - window) in
  let s := ZREMRANGEBYSCORE rl_key cutoff s in
  let count := ZCARD rl_key s in
  if count >=? limit then (inl [RStr "RATE_LIMIT_EXCEEDED"; RInt 0], s)
  else
    match GET bal_key s with
    | None => (inl [RStr "INSUFFICIENT_BALANCE"; RInt 0], s)
    | Some raw =>
      let balance := lua_num raw in
      if balance <? tokens then (inl [RStr "INSUFFICIENT_BALANCE"; RInt balance], s)
      else
        match redis_integer tokens with
        | None => (inr (errorsNew "ERR value is not an integer or out of range"), s)
        | Some t =>
          match DECRBY bal_key t s with
          | (None, s) =>
              (inr (errorsNew "ERR increment or decrement would overflow"), s)
          | (Some remaining, s) =>
              let s := ZADD rl_key now (member_name now count) s in
              let s := EXPIRE rl_key (expireSec window) s in
              (inl [RStr "OK"; RInt remaining], s)
          end
        end
    end.

Definition rate_limit_prededuct : Script := fun keys argv s =>
  match keys, argv with
  | [rl_key; bal_key], [now; window; limit; tokens] =>
      prededuct rl_key bal_key (lua_num now) (lua_num window) (lua_num limit)
        (lua_num tokens) s
  | _, _ => (inr (errorsNew "ERR wrong number of script arguments"), s)
  end.

(** ** The limiter *)
Record Limiter := mkLimiter {
  script : Script;
  limit : Z;
  window : Z;
  defaultBalance : Z;
  seq : Z
}.

Record Config := mkConfig {
  Limit : Z;
  Window : Z;
  DefaultBalance : Z;
  LuaScript : option Script
}.

(** [New]; [rdb_nil] tells a nil client, [loaded] is what [loadLuaScript] finds. *)
Definition New (rdb_nil : bool) (loaded : Script + error) (cfg : Config)
    : Limiter + error :=
  if rdb_nil then inr (errorsNew "redis client is required")
  else if Limit cfg <? 1 then inr (errorsNew "limit must be positive")
  else if Window cfg <=? 0 then inr (errorsNew "window must be positive")
  else
    match (match LuaScript cfg with Some sc => inl sc | None => loaded end) with
    | inr err => inr err
    | inl sc => inl (mkLimiter sc (Limit cfg) (Window cfg) (DefaultBalance cfg) 0)
    end.

Definition windowMicros (window : Z) : Z :=
  let us := microseconds window in
  if us <? 1 then 1 else us.

(** What becomes of one command on the network. *)
Inductive Net := NetOk | NetLost (err : error) | NetAckLost (err : error).

Definition send {A} (n : Net) (cmd : S -> (A + error) * S) (s : S) : (A + error) * S :=
  match n with
  | NetOk => cmd s
  | NetLost err => (inr err, s)
  | NetAckLost err => (inr err, (cmd s).2)
  end.

(** The environment of one [PreDeduct]: the fate of its two commands, the clock,
    and what other clients do between the two commands. *)
Record Env := mkEnv {
  onSeed : Net;
  unixMicro : Z;
  gap : S -> S;
  onScript : Net
}.

Definition type_name (r : reply) : string :=
  match r with RStr _ => "string" | RInt _ => "int64" | RNil => "<nil>" end.

(** Lines 99-116: the reading of the script's reply. *)
Definition readStatus (values : list reply) : bool * option error :=
  match values with
  | [] => (false, Some (errorsNew "prededuct: empty script result"))
  | RStr status :: _ =>
      if status =s "OK" then (true, None)
      else if status =s "RATE_LIMIT_EXCEEDED" then
        (false, Some (sentinel_error ErrRateLimitExceeded))
      else if status =s "INSUFFICIENT_BALANCE" then
        (false, Some (sentinel_error ErrInsufficientBalance))
      else (false, Some (errorsNew ("prededuct: unknown status " +:+ Quote status)))
  | v :: _ =>
      (false, Some (errorsNew ("prededuct: unexpected status type " +:+ type_name v)))
  end.

Definition set_seq (n : Z) (l : Limiter) : Limiter :=
  mkLimiter (script l) (limit l) (window l) (defaultBalance l) n.

Definition seed (l : Limiter) (userID : string) (n : Net) (s : S) : (unit + error) * S :=
  if defaultBalance l >? 0 then
    send n (fun s => (inl tt, SETNX (balanceKey userID) (defaultBalance l) s)) s
  else (inl tt, s).

Definition PreDeduct (l : Limiter) (userID : string) (tokens : Z) (env : Env) (s : S)
    : (bool * option error) * Limiter * S :=
  if userID =s "" then (false, Some (errorsNew "userID is required"), l, s)
  else if tokens <? 1 then (false, Some (errorsNew "tokens must be positive"), l, s)
  else
    match seed l userID (onSeed env) s with
    | (inr err, s) => (false, Some (errorWrap "seed balance: " err), l, s)
    | (inl _, s) =>
      let s := gap env s in
      let l := set_seq (wrapU64 (seq l + 1)) l in
      let now := wrap64 (unixMicro env + seq l mod 1000) in
      match send (onScript env)
              (script l [rateLimitKey userID; balanceKey userID]
                 [now; windowMicros (window l); limit l; tokens]) s with
      | (inr err, s) => (false, Some (errorWrap "prededuct: " err), l, s)
      | (inl values, s) => (readStatus values, l, s)
      end
    end.

Definition reply_or_error (r : option Z * S) : (unit + error) * S :=
  (match r.1 with
   | Some _ => inl tt
   | None => inr (errorsNew "ERR increment or decrement would overflow")
   end, r.2).

Definition SettleQuota (userID : string) (preDeductedTokens actualTokens : Z)
    (n : Net) (s : S) : option error * S :=
  if userID =s "" then (Some (errorsNew "userID is required"), s)
  else
    let actualTokens := if actualTokens <? 0 then 0 else actualTokens in
    let diff := wrap64 (preDeductedTokens - actualTokens) in
    if diff =? 0 then (None, s)
    else
      let key := balanceKey userID in
      let r :=
        if diff >? 0 then send n (fun s => reply_or_error (INCRBY key diff s)) s
        else send n (fun s => reply_or_error (DECRBY key (wrap64 (- diff)) s)) s in
      match r with
      | (inr err, s) => (Some (errorWrap "settle quota: " err), s)
      | (inl _, s) => (None, s)
      end.

Definition Credit (userID : string) (tokens : Z) (n : Net) (s : S) : option error * S :=
  if userID =s "" then (Some (errorsNew "userID is required"), s)
  else
    match send n (fun s => reply_or_error (INCRBY (balanceKey userID) tokens s)) s with
    | (inr err, s) => (Some err, s)
    | (inl _, s) => (None, s)
    end.
End Limiter.

Arguments Net : clear implicits.
Arguments Script S : clear implicits.
Arguments Limiter S : clear implicits.
Arguments Config S : clear implicits.
Arguments Env S : clear implicits.
