(* ===== verification/LimiterSpec.v ===== *)
(** * What the limiter promises

    The specification of one pre-deduction as an account transition, the bounds
    that hold along every interleaving of commands and the settlement law, all for any
    server that satisfies [RedisLaws]. *)

From Stdlib Require Import ZArith Lia Ascii.
From stdpp Require Import prelude gmap fin_maps list strings.
From S2P Require Import Prelude GoInt GoText GoErr Redis Limiter.

Local Open Scope Z_scope.

(** ** Lua numbers *)

(** Exactly representable as a double, with every smaller integer. *)
Definition fits (z : Z) : Prop := Z.abs z <= 2 ^ 53.

#[export] Instance fits_dec z : Decision (fits z).
Proof. unfold fits. apply _. Defined.

Lemma lua_num_fits z : fits z -> lua_num z = z.
Proof. unfold fits, lua_num. intros. by rewrite (proj2 (Z.leb_le _ _)). Qed.

Lemma div_nearest_ge a b : 0 <= a -> 0 < b -> a / b <= div_nearest a b.
Proof. intros. unfold div_nearest. repeat dcase; lia. Qed.

Lemma lua_num_big z : 2 ^ 53 < z -> 2 ^ 53 <= lua_num z.
Proof.
  intros Hz. unfold lua_num. rewrite (proj2 (Z.leb_gt _ _)) by lia.
  rewrite Z.sgn_pos, Z.mul_1_l, Z.abs_eq by lia.
  assert (Hl : 53 <= Z.log2 z).
  { replace 53 with (Z.log2 (2 ^ 53)) by reflexivity. apply Z.log2_le_mono. lia. }
  pose proof (Z.log2_spec z ltac:(lia)) as [Hlo _].
  set (p := 2 ^ (Z.log2 z - 52)). assert (Hp : 0 < p) by (apply Z.pow_pos_nonneg; lia).
  assert (Hpz : 2 ^ 52 * p = 2 ^ Z.log2 z).
  { unfold p. rewrite <- Z.pow_add_r by lia. f_equal. lia. }
  assert (Hq : 2 ^ 52 <= z / p).
  { apply Z.div_le_lower_bound; [done|]. lia. }
  pose proof (div_nearest_ge z p ltac:(lia) Hp) as Hge.
  assert (2 ^ 53 <= 2 ^ Z.log2 z) by (apply Z.pow_le_mono_r; lia).
  apply Z.le_trans with (2 ^ 52 * p); [lia|]. apply Z.mul_le_mono_nonneg_r; lia.
Qed.

(** Rounding never changes the comparison with an exact positive number. *)
Lemma lua_num_lt z t : 0 < t -> fits t -> (lua_num z < t <-> z < t).
Proof.
  intros Ht Hf. unfold fits in Hf.
  destruct (decide (fits z)) as [?|Hz]; [by rewrite lua_num_fits|].
  unfold fits in Hz. destruct (decide (0 < z)).
  - pose proof (lua_num_big z). lia.
  - assert (lua_num z <= 0); [|lia].
    unfold lua_num. rewrite (proj2 (Z.leb_gt _ _)) by lia.
    rewrite Z.sgn_neg by lia.
    pose proof (Z.pow_pos_nonneg 2 (Z.log2 (Z.abs z) - 52) ltac:(lia)) as Hp.
    assert (0 <= Z.log2 (Z.abs z) - 52).
    { assert (53 <= Z.log2 (Z.abs z)); [|lia].
      replace 53 with (Z.log2 (2 ^ 53)) by reflexivity. apply Z.log2_le_mono. lia. }
    specialize (Hp ltac:(done)).
    pose proof (div_nearest_ge (Z.abs z) _ ltac:(lia) Hp) as Hge.
    pose proof (Z.div_pos (Z.abs z) _ ltac:(lia) Hp). nia.
Qed.

Lemma redis_integer_fits t : fits t -> redis_integer t = Some t.
Proof. unfold fits, redis_integer. intros. by rewrite (proj2 (Z.ltb_lt _ _)) by lia. Qed.

(** ** One pre-deduction *)
Section Spec.
Context {S : Type} `{RedisLaws S} `{Printable}.

(** The part of a window a request at [now] still sees. *)
Definition live (now W : Z) (w : gmap string Z) : gmap string Z :=
  filter (fun m => now - W < m.2) w.

Definition entries (w : gmap string Z) : Z := Z.of_nat (size w).

(** What becomes of a user's account when [tokens] are pre-deducted at [now]. *)
Inductive verdict := Granted | Limited | Broke.

#[export] Instance verdict_eq_dec : EqDecision verdict.
Proof. solve_decision. Defined.

Definition account_step (L W now tokens : Z) (a : option Z * gmap string Z)
    : verdict * (option Z * gmap string Z) :=
  let w := live now W a.2 in
  if L <=? entries w then (Limited, (a.1, w))
  else
    match a.1 with
    | Some b =>
        if tokens <=? b
        then (Granted, (Some (b - tokens), <[member_name now (entries w) := now]> w))
        else (Broke, (a.1, w))
    | None => (Broke, (a.1, w))
    end.

Definition account (u : string) (s : S) : option Z * gmap string Z := (bal u s, win u s).

(** Balances the server can hold. *)
Definition sane (s : S) : Prop := forall u b, bal u s = Some b -> in_int64 b.

Definition verdict_result (v : verdict) : bool * option error :=
  match v with
  | Granted => (true, None)
  | Limited => (false, Some (sentinel_error ErrRateLimitExceeded))
  | Broke => (false, Some (sentinel_error ErrInsufficientBalance))
  end.

Definition verdict_reply (v : verdict) (rep : list reply + error) : Prop :=
  match v, rep with
  | Granted, inl [RStr st; RInt _] => st = "OK"
  | Limited, inl [RStr st; RInt _] => st = "RATE_LIMIT_EXCEEDED"
  | Broke, inl [RStr st; RInt _] => st = "INSUFFICIENT_BALANCE"
  | _, _ => False
  end.

(** The script's arguments are exact doubles. *)
Definition exact_args (now W L tokens : Z) : Prop :=
  fits now /\ fits W /\ fits L /\ fits tokens /\ fits (now - W) /\ 1 <= tokens.

Lemma script_step u now W L tokens s :
  exact_args now W L tokens -> sane s ->
  let r := rate_limit_prededuct [rateLimitKey u; balanceKey u] [now; W; L; tokens] s in
  let a := account_step L W now tokens (account u s) in
  verdict_reply a.1 r.1 /\ account u r.2 = a.2 /\
  (forall v, v <> u -> account v r.2 = account v s).
Proof.
  intros (Hn & HW & HL & Ht & Hc & Ht1) Hsane. simpl.
  rewrite !lua_num_fits by done. unfold prededuct. rewrite (lua_num_fits _ Hc).
  set (s1 := ZREMRANGEBYSCORE (rateLimitKey u) (now - W) s).
  assert (Hw1 : win u s1 = live now W (win u s)).
  { unfold s1. rewrite ZREM_win, decide_True by done. done. }
  assert (Hb1 : bal u s1 = bal u s) by (unfold s1; apply ZREM_bal).
  assert (Ho : forall v, v <> u -> account v s1 = account v s).
  { intros v Hv. unfold account, s1. by rewrite ZREM_bal, ZREM_win, decide_False. }
  rewrite ZCARD_win, Hw1, GET_bal, Hb1. unfold account_step, account at 1 3. simpl.
  fold (entries (live now W (win u s))). rewrite Z.geb_leb.
  destruct (L <=? entries _) eqn:EL; [simpl; unfold account at 1; rewrite Hb1, Hw1; done|].
  destruct (bal u s) as [b|] eqn:Eb; [|simpl; unfold account at 1; rewrite Hb1, Hw1; done].
  assert (Hlt : (lua_num b <? tokens) = negb (tokens <=? b)).
  { pose proof (lua_num_lt b tokens ltac:(lia) Ht).
    destruct (lua_num b <? tokens) eqn:E1, (tokens <=? b) eqn:E2; bsolve. }
  rewrite Hlt. destruct (tokens <=? b) eqn:E; simpl;
    [|unfold account at 1; rewrite Hb1, Hw1; done].
  rewrite (redis_integer_fits _ Ht).
  pose proof (Hsane _ _ Eb) as Hb64. breflect. unfold fits in Ht.
  assert (H64 : in_int64 (- tokens) /\ in_int64 (default 0 (bal u s1) - tokens)).
  { rewrite Hb1. simpl. unfold in_int64, min_int64, max_int64 in *. lia. }
  pose proof (DECRBY_reply u tokens s1) as Hrep. simpl in Hrep.
  rewrite bool_decide_eq_true_2 in Hrep by done.
  destruct (DECRBY (balanceKey u) tokens s1) as [o s2] eqn:ED. simpl in Hrep. subst o.
  assert (Hb2 : forall v, bal v s2 = if decide (v = u) then Some (b - tokens) else bal v s1).
  { intros v. pose proof (DECRBY_bal u v tokens s1) as Hd. rewrite ED in Hd. simpl in Hd.
    rewrite Hd, Hb1. simpl. rewrite Hb1 in H64. simpl in H64.
    repeat case_decide; naive_solver. }
  assert (Hw2 : forall v, win v s2 = win v s1).
  { intros v. pose proof (DECRBY_win u v tokens s1) as Hd. by rewrite ED in Hd. }
  simpl. unfold account. setoid_rewrite EXPIRE_bal. setoid_rewrite EXPIRE_win.
  setoid_rewrite ZADD_bal. setoid_rewrite ZADD_win.
  rewrite !decide_True by done. rewrite Hb2, Hw2, decide_True, Hw1 by done.
  split_and!; [done|done|]. intros v Hv. rewrite !decide_False by done.
  rewrite Hb2, Hw2, decide_False by done. by apply Ho.
Qed.

Lemma readStatus_verdict v values :
  verdict_reply v (inl values) -> readStatus values = verdict_result v.
Proof.
  destruct v; simpl; repeat (case_match; try done); naive_solver.
Qed.

(** The clock value a pre-deduction sends. *)
Definition sent_now (l : Limiter S) (env : Env S) : Z :=
  wrap64 (unixMicro env + wrapU64 (seq l + 1) mod 1000).

(** The error of a seeding that was lost on its way, there or back. *)
Definition seed_error (l : Limiter S) (env : Env S) : option error :=
  if defaultBalance l >? 0 then
    match onSeed env with NetOk => None | NetLost e | NetAckLost e => Some e end
  else None.

(** The seeding reaches the server. *)
Definition seed_executed (l : Limiter S) (env : Env S) : bool :=
  (defaultBalance l >? 0) && match onSeed env with NetLost _ => false | _ => true end.

(** A missing balance gets the default, unless the seeding is lost on its way there. *)
Lemma seed_effect l u (env : Env S) v s :
  account v (seed l u (onSeed env) s).2 =
    if decide (v = u /\ seed_executed l env = true)
    then (Some (default (defaultBalance l) (bal u s)), win u s) else account v s.
Proof.
  unfold seed, seed_executed, account. destruct (defaultBalance l >? 0); simpl.
  - destruct (onSeed env); simpl; rewrite ?SETNX_bal, ?SETNX_win; repeat case_decide; naive_solver.
  - rewrite decide_False by naive_solver. done.
Qed.

(** One pre-deduction as a transition of the account. *)
Lemma PreDeduct_steps_to (l : Limiter S) u tokens env s :
  script l = rate_limit_prededuct ->
  let s0 := (seed l u (onSeed env) s).2 in
  let s1 := gap env s0 in
  let W := windowMicros (window l) in
  u <> "" -> 1 <= tokens ->
  match seed_error l env with
  | Some e => PreDeduct l u tokens env s = (false, Some (errorWrap "seed balance: " e), l, s0)
  | None =>
      exact_args (sent_now l env) W (limit l) tokens -> sane s1 ->
      let a := account_step (limit l) W (sent_now l env) tokens (account u s1) in
      exists s',
        PreDeduct l u tokens env s =
          (match onScript env with
           | NetOk => verdict_result a.1
           | NetLost e | NetAckLost e => (false, Some (errorWrap "prededuct: " e))
           end, set_seq (wrapU64 (seq l + 1)) l, s') /\
        account u s' = match onScript env with NetLost _ => account u s1 | _ => a.2 end /\
        forall v, v <> u -> account v s' = account v s1
  end.
Proof.
  intros Hsc s0 s1 W Hu Ht. unfold PreDeduct. rewrite (proj2 (str_eqb_neq _ _)) by done.
  rewrite (proj2 (Z.ltb_ge _ _)) by done.
  assert (Es : seed l u (onSeed env) s =
            (match seed_error l env with Some e => inr e | None => inl tt end, s0)).
  { unfold s0, seed, seed_error. destruct (_ >? _); [|done]. by destruct (onSeed env). }
  rewrite Es. destruct (seed_error l env) as [e|]; [done|]. intros Hex Hsane. fold s1.
  set (a := account_step _ _ _ _ _). cbn [set_seq script limit window seq]. rewrite Hsc.
  pose proof (script_step u (sent_now l env) W (limit l) tokens s1 Hex Hsane) as (Hr & Ha & Ho).
  fold a in Hr, Ha. unfold sent_now in Hr, Ha, Ho. fold W.
  destruct (onScript env) as [|e|e]; cbn [send]; [|by eexists|by eexists].
  destruct (rate_limit_prededuct _ _ s1) as [rep s2]. simpl in *.
  destruct rep as [values|err].
  - eexists. rewrite (readStatus_verdict a.1) by done. done.
  - by destruct (a.1).
Qed.

(** The same when the seeding arrives and the arguments are exact numbers. *)
Lemma PreDeduct_transition (l : Limiter S) u tokens env s :
  script l = rate_limit_prededuct ->
  onSeed env = NetOk ->
  let s0 := (seed l u NetOk s).2 in
  let s1 := gap env s0 in
  let W := windowMicros (window l) in
  exact_args (sent_now l env) W (limit l) tokens ->
  sane s1 ->
  let a := account_step (limit l) W (sent_now l env) tokens (account u s1) in
  (u = "" -> PreDeduct l u tokens env s =
     (false, Some (errorsNew "userID is required"), l, s)) /\
  (u <> "" -> exists s',
     PreDeduct l u tokens env s =
       (match onScript env with
        | NetOk => verdict_result a.1
        | NetLost e | NetAckLost e => (false, Some (errorWrap "prededuct: " e))
        end, set_seq (wrapU64 (seq l + 1)) l, s') /\
     account u s' = match onScript env with NetLost _ => account u s1 | _ => a.2 end /\
     forall v, v <> u -> account v s' = account v s1).
Proof.
  intros Hsc Hn s0 s1 W Hex Hsane a. split; [by intros ->|]. intros Hu.
  assert (Ht : 1 <= tokens) by apply Hex.
  pose proof (PreDeduct_steps_to l u tokens env s Hsc Hu Ht) as Hto.
  assert (seed_error l env = None) as Hse by (unfold seed_error; rewrite Hn; by destruct (_ >? _)).
  rewrite Hse, Hn in Hto. by apply Hto.
Qed.

(** C4. A pre-deduction behaves as one transition of the user's account. An empty user or
    fewer than one token is refused before anything is sent. The seeding then gives a
    missing balance its default; when its request or its reply is lost the caller gets
    the error and the script is not sent. Otherwise, at the instant the script runs and
    on the account as it is then, whatever other clients did before: the entries that
    have left the window disappear, a full window is refused, a missing or too small balance is
    refused, and otherwise the tokens leave the balance and one entry enters the
    window. The answer tells these cases apart and no other user's account changes.
    When the script's request is lost nothing more happens; when only its reply is lost the
    caller gets an error although the transition was made. The script's numbers have to be
    exact doubles. *)
Theorem PreDeduct_spec (l : Limiter S) u tokens env s :
  script l = rate_limit_prededuct ->
  let s0 := (seed l u (onSeed env) s).2 in
  let s1 := gap env s0 in
  let W := windowMicros (window l) in
  (u = "" -> PreDeduct l u tokens env s =
     (false, Some (errorsNew "userID is required"), l, s)) /\
  (u <> "" -> tokens < 1 -> PreDeduct l u tokens env s =
     (false, Some (errorsNew "tokens must be positive"), l, s)) /\
  (u <> "" -> 1 <= tokens ->
     match seed_error l env with
     | Some e => PreDeduct l u tokens env s = (false, Some (errorWrap "seed balance: " e), l, s0)
     | None =>
         exact_args (sent_now l env) W (limit l) tokens -> sane s1 ->
         let a := account_step (limit l) W (sent_now l env) tokens (account u s1) in
         exists s',
           PreDeduct l u tokens env s =
             (match onScript env with
              | NetOk => verdict_result a.1
              | NetLost e | NetAckLost e => (false, Some (errorWrap "prededuct: " e))
              end, set_seq (wrapU64 (seq l + 1)) l, s') /\
           account u s' = match onScript env with NetLost _ => account u s1 | _ => a.2 end /\
           forall v, v <> u -> account v s' = account v s1
     end) /\
  (forall v, account v s0 =
     if decide (v = u /\ seed_executed l env = true)
     then (Some (default (defaultBalance l) (bal u s)), win u s) else account v s).
Proof.
  intros Hsc s0 s1 W. split_and!; [by intros ->| | |intros v; apply seed_effect].
  - intros Hu Ht. unfold PreDeduct. rewrite (proj2 (str_eqb_neq _ _)) by done.
    by rewrite (proj2 (Z.ltb_lt _ _)).
  - by apply PreDeduct_steps_to.
Qed.

(** The first error of the network. *)
Definition network_error (l : Limiter S) (env : Env S) : option error :=
  match seed_error l env, onScript env with
  | Some e, _ => Some e
  | None, NetOk => None
  | None, (NetLost e | NetAckLost e) => Some e
  end.

(** A pre-deduction that cannot be made, or of whose outcome the gateway hears nothing, is
    refused with an error that is none of the verdicts. *)
Lemma PreDeduct_fails (l : Limiter S) u tokens env s e :
  is_sentinel e ErrRateLimitExceeded = false -> is_sentinel e ErrInsufficientBalance = false ->
  u = "" \/ tokens < 1 \/ network_error l env = Some e ->
  exists e', (PreDeduct l u tokens env s).1.1 = (false, Some e') /\
    is_sentinel e' ErrRateLimitExceeded = false /\ is_sentinel e' ErrInsufficientBalance = false.
Proof.
  intros He1 He2 Hc. unfold PreDeduct.
  destruct (u =s "") eqn:Eu; [by eexists|]. destruct (tokens <? 1) eqn:Et; [by eexists|]. breflect.
  destruct Hc as [?|[?|Hc]]; [done|lia|].
  assert (Es : seed l u (onSeed env) s =
            (match seed_error l env with Some e => inr e | None => inl tt end,
             (seed l u (onSeed env) s).2)).
  { unfold seed, seed_error. destruct (_ >? _); [|done]. by destruct (onSeed env). }
  rewrite Es. unfold network_error in Hc. destruct (seed_error l env); [simplify_eq; by eexists|].
  destruct (onScript env); simplify_eq; cbn [send]; by eexists.
Qed.

(** ** Histories of commands

    Every interleaving of the requests of all replicas is a sequence of commands;
    the server also lets time pass. *)
Inductive cmd :=
| CSeed (u : string) (b : Z)
| CScript (u : string) (now W tokens : Z)
| CAdd (u : string) (d : Z)
| CSub (u : string) (d : Z)
| CPass (t : Z).

Definition run_cmd (L : Z) (c : cmd) (s : S) : S :=
  match c with
  | CSeed u b => SETNX (balanceKey u) b s
  | CScript u now W tokens =>
      (rate_limit_prededuct [rateLimitKey u; balanceKey u] [now; W; L; tokens] s).2
  | CAdd u d => (INCRBY (balanceKey u) d s).2
  | CSub u d => (DECRBY (balanceKey u) d s).2
  | CPass t => PASS t s
  end.

Definition cmd_ok (L : Z) (c : cmd) : Prop :=
  match c with
  | CSeed u b => in_int64 b
  | CScript u now W tokens => exact_args now W L tokens
  | _ => True
  end.

Definition db_step (L : Z) (s t : S) : Prop := exists c, cmd_ok L c /\ t = run_cmd L c s.

(** What holds of the database at every instant. *)
Definition DbInv (L : Z) (s : S) : Prop := sane s /\ forall u, entries (win u s) <= L.

Lemma entries_live now W w : entries (live now W w) <= entries w.
Proof. unfold entries, live. apply inj_le, map_size_filter. Qed.

Lemma entries_insert m x (w : gmap string Z) : entries (<[m := x]> w) <= entries w + 1.
Proof.
  unfold entries. destruct (w !! m) eqn:E.
  - rewrite map_size_insert_Some by eauto. lia.
  - rewrite map_size_insert_None by done. lia.
Qed.

Lemma account_step_inv L W now tokens a :
  entries a.2 <= L -> entries (account_step L W now tokens a).2.2 <= L.
Proof.
  intros Ha. pose proof (entries_live now W a.2). unfold account_step.
  repeat dcase; simpl; bsolve. pose proof (entries_insert (member_name now (entries (live now W a.2)))
    now (live now W a.2)). lia.
Qed.

Lemma account_step_sane L W now tokens a :
  1 <= tokens -> (forall b, a.1 = Some b -> in_int64 b) ->
  forall b, (account_step L W now tokens a).2.1 = Some b -> in_int64 b.
Proof.
  intros Ht Ha b. unfold account_step. destruct a as [[x|] w]; simpl in *;
    repeat dcase; simpl; intros; simplify_eq; try naive_solver.
  breflect. specialize (Ha _ eq_refl). unfold in_int64, min_int64 in *. lia.
Qed.

Lemma script_sane u now W L tokens s :
  exact_args now W L tokens -> sane s ->
  sane (rate_limit_prededuct [rateLimitKey u; balanceKey u] [now; W; L; tokens] s).2.
Proof.
  intros Hok Hs. pose proof (script_step u now W L tokens s Hok Hs) as (_ & Ha & Ho).
  set (s' := (rate_limit_prededuct _ _ s).2) in *. intros v x Hv.
  destruct Hok as (_&_&_&_&_&Ht). destruct (decide (v = u)) as [->|Hne].
  - change (bal u s') with (account u s').1 in Hv. rewrite Ha in Hv.
    eapply account_step_sane; [done| |done]. apply Hs.
  - specialize (Ho v Hne). injection Ho as Hb _. rewrite Hb in Hv. by eapply Hs.
Qed.

Lemma DbInv_step L s t : DbInv L s -> db_step L s t -> DbInv L t.
Proof.
  intros [Hs Hw] (c & Hok & ->). destruct c as [u b|u now W tokens|u d|u d|p];
    cbn [run_cmd cmd_ok] in *.
  - split; [|intros v; by rewrite SETNX_win].
    intros v x. rewrite SETNX_bal. case_decide; [|apply Hs].
    intros [= <-]. destruct (bal u s) eqn:E; simpl; [by eapply Hs|done].
  - pose proof (script_step u now W L tokens s Hok Hs) as (_ & Ha & Ho).
    set (s' := (rate_limit_prededuct _ _ s).2) in *.
    split; [by apply (script_sane u now W L tokens)|].
    intros v. destruct (decide (v = u)) as [->|Hne].
    + change (win u s') with (account u s').2. rewrite Ha. apply account_step_inv, Hw.
    + specialize (Ho v Hne). injection Ho as _ Hb. rewrite Hb. apply Hw.
  - split; [|intros v; by rewrite INCRBY_win].
    intros v x. rewrite INCRBY_bal. simpl. case_decide; [naive_solver|apply Hs].
  - split; [|intros v; by rewrite DECRBY_win].
    intros v x. rewrite DECRBY_bal. simpl. case_decide; [naive_solver|apply Hs].
  - split; [intros v x; rewrite PASS_bal; apply Hs|].
    intros v. destruct (PASS_win v p s) as [[-> _]|(->&_)]; [apply Hw|].
    unfold entries. rewrite map_size_empty. specialize (Hw v). unfold entries in Hw. lia.
Qed.

Lemma DbInv_steps L s t : DbInv L s -> steps (db_step L) s t -> DbInv L t.
Proof. intros. eapply steps_invariant; eauto using DbInv_step. Qed.
(** A limiter of the fleet: the shipped script, the fleet's limit, a gap in which
    only commands of the fleet run, arguments that are exact numbers. *)
Definition fleet_call (L : Z) (l : Limiter S) (tokens : Z) (env : Env S) : Prop :=
  script l = rate_limit_prededuct /\ limit l = L /\ in_int64 (defaultBalance l) /\
  (1 <= tokens -> exact_args (sent_now l env) (windowMicros (window l)) L tokens) /\
  (forall s, steps (db_step L) s (gap env s)).

Lemma step_of_cmd L c s : cmd_ok L c -> steps (db_step L) s (run_cmd L c s).
Proof. intros. apply steps_one. by exists c. Qed.

Lemma seed_steps L l u n s :
  in_int64 (defaultBalance l) -> steps (db_step L) s (seed l u n s).2.
Proof.
  intros. unfold seed. destruct (_ >? _); [|apply steps_refl].
  destruct n; cbn [send snd]; try apply steps_refl;
    by apply (step_of_cmd L (CSeed u (defaultBalance l))).
Qed.

Lemma PreDeduct_steps L l u tokens env s :
  fleet_call L l tokens env -> steps (db_step L) s (PreDeduct l u tokens env s).2.
Proof.
  intros (Hsc & HL & Hd & Hex & Hgap). unfold PreDeduct.
  destruct (u =s ""); [apply steps_refl|].
  destruct (tokens <? 1) eqn:Et; [apply steps_refl|]. breflect.
  pose proof (seed_steps L l u (onSeed env) s Hd) as Hs.
  destruct (seed l u (onSeed env) s) as [[[]|e] s0]; [|exact Hs].
  cbn [set_seq script limit window seq snd] in *. rewrite Hsc, HL.
  eapply steps_trans; [exact Hs|]. eapply steps_trans; [apply Hgap|].
  specialize (Hex Et). set (s1 := gap env s0).
  pose proof (step_of_cmd L (CScript u (sent_now l env) (windowMicros (window l)) tokens)
                s1 Hex) as Hc. cbn [run_cmd] in Hc. unfold sent_now in Hc.
  destruct (onScript env); cbn [send]; try (destruct (rate_limit_prededuct _ _ _) as [[]]);
    first [exact Hc|apply steps_refl].
Qed.

Lemma SettleQuota_steps L u pre actual n s :
  steps (db_step L) s (SettleQuota u pre actual n s).2.
Proof.
  unfold SettleQuota. destruct (u =s ""); [apply steps_refl|].
  set (d := wrap64 _). destruct (d =? 0); [apply steps_refl|].
  pose proof (step_of_cmd L (CAdd u d) s I) as Ha.
  pose proof (step_of_cmd L (CSub u (wrap64 (- d))) s I) as Hs. cbn [run_cmd] in *.
  destruct (d >? 0), n; unfold send, reply_or_error; simpl;
    repeat case_match; simplify_eq; simpl; first [exact Ha|exact Hs|apply steps_refl].
Qed.

(** C7. Along every interleaving of the commands of any number of limiters with one
    limit, with seeding, settling, crediting, lost requests, lost replies and expiry in
    any order: no user's window ever holds more entries than the limit; a granted
    pre-deduction leaves a balance that is not negative; and the operations of the
    limiter are such interleavings, so the bounds hold after each of them. *)
Theorem limiter_bounds L s0 s (l : Limiter S) u tokens env :
  DbInv L s0 -> steps (db_step L) s0 s -> fleet_call L l tokens env ->
  let r := PreDeduct l u tokens env s in
  (forall v, entries (win v s) <= L) /\
  (forall v, entries (win v r.2) <= L) /\
  (r.1.1.1 = true -> exists b, bal u r.2 = Some b /\ 0 <= b) /\
  steps (db_step L) s0 r.2 /\
  (forall pre actual n, steps (db_step L) s0 (SettleQuota u pre actual n s).2).
Proof.
  intros Hi Hs Hf r.
  pose proof (PreDeduct_steps L l u tokens env s Hf) as Hr. fold r in Hr.
  pose proof (DbInv_steps _ _ _ Hi Hs) as Hinv.
  split_and!; [apply Hinv|apply (DbInv_steps _ _ _ Hinv Hr)| |by eapply steps_trans|
               intros; eapply steps_trans; [done|apply SettleQuota_steps]].
  destruct Hf as (Hsc & HL & Hd & Hex & Hgap).
  unfold r, PreDeduct. destruct (u =s ""); [done|].
  destruct (tokens <? 1) eqn:Et; [done|]. breflect. specialize (Hex Et).
  pose proof (seed_steps L l u (onSeed env) s Hd) as Hse.
  destruct (seed l u (onSeed env) s) as [[[]|e] s1]; [|done].
  cbn [set_seq script limit window seq fst snd] in *. rewrite Hsc, HL.
  pose proof (script_step u (sent_now l env) (windowMicros (window l)) L tokens (gap env s1)
    Hex (proj1 (DbInv_steps _ _ _ Hinv (steps_trans _ _ _ _ Hse (Hgap s1)))))
    as (Hv & Ha & _).
  unfold sent_now in *. destruct (onScript env); cbn [send]; try done.
  destruct (rate_limit_prededuct _ _ _) as [[values|err] s2]; [|done].
  cbn [fst snd] in *. intros Hok.
  erewrite readStatus_verdict in Hok by exact Hv.
  change (bal u s2) with (account u s2).1. rewrite Ha.
  revert Hok. unfold account_step. repeat dcase; simpl; intros; try done.
  eexists; split; [done|]. bsolve.
Qed.

(** What one balance command does: [cost] leaves [b] if the command is executed. *)
Definition charged u (cost b : Z) (n : Net) (s : S) (r : (unit + error) * S) : Prop :=
  bal u r.2 = Some (match n with NetLost _ => b | _ => b - cost end) /\
  r.1 = match n with NetOk => inl tt | NetLost e | NetAckLost e => inr e end /\
  (forall v, win v r.2 = win v s) /\ (forall v, v <> u -> bal v r.2 = bal v s).

Lemma settle_add u d b n s :
  bal u s = Some b -> in_int64 (b + d) ->
  charged u (- d) b n s (send n (fun s => reply_or_error (INCRBY (balanceKey u) d s)) s).
Proof.
  intros Hb Hr. unfold charged, reply_or_error.
  pose proof (INCRBY_reply u d s) as Hp. rewrite Hb in Hp. simpl in Hp.
  rewrite bool_decide_eq_true_2 in Hp by done.
  destruct n; cbn [send fst snd]; rewrite ?Hp; split_and!; try done;
    intros; rewrite ?INCRBY_win, ?INCRBY_bal, ?Hb; simpl; try done.
  all: first [rewrite decide_True by done; f_equal; lia|by rewrite decide_False by naive_solver].
Qed.

Lemma settle_sub u d b n s :
  bal u s = Some b -> in_int64 d -> in_int64 (- d) -> in_int64 (b - d) ->
  charged u d b n s (send n (fun s => reply_or_error (DECRBY (balanceKey u) d s)) s).
Proof.
  intros Hb Hd Hd' Hr. unfold charged, reply_or_error.
  pose proof (DECRBY_reply u d s) as Hp. rewrite Hb in Hp. simpl in Hp.
  rewrite bool_decide_eq_true_2 in Hp by done.
  destruct n; cbn [send fst snd]; rewrite ?Hp; split_and!; try done;
    intros; rewrite ?DECRBY_win, ?DECRBY_bal, ?Hb; simpl; try done.
  all: first [by rewrite decide_True by done|by rewrite decide_False by naive_solver].
Qed.

(** A granted pre-deduction took exactly its tokens. *)
Lemma granted_balance (l : Limiter S) u tokens env s s' l' b0 :
  script l = rate_limit_prededuct -> onSeed env = NetOk ->
  exact_args (sent_now l env) (windowMicros (window l)) (limit l) tokens ->
  let s1 := gap env (seed l u NetOk s).2 in
  sane s1 -> bal u s1 = Some b0 ->
  PreDeduct l u tokens env s = (true, None, l', s') ->
  u <> "" /\ tokens <= b0 /\ bal u s' = Some (b0 - tokens).
Proof.
  intros Hsc Hn Hex s1 Hsane Hb0 Hpre.
  destruct (PreDeduct_transition l u tokens env s Hsc Hn Hex Hsane) as (He & Hok).
  assert (u <> "") as Hu by (intros Hu; specialize (He Hu); congruence).
  split; [done|]. destruct (Hok Hu) as (s3 & Hp & Ha & _). fold s1 in Hp, Ha.
  rewrite Hpre in Hp. injection Hp as Hr _ <-.
  destruct (onScript env); [|done..].
  assert (E : bal u s' = (account u s').1) by done. rewrite Ha in E.
  revert E Hr. unfold account_step, account. simpl. rewrite Hb0.
  repeat dcase; simpl; try done. breflect. auto.
Qed.

Lemma granted_charges (l : Limiter S) u tokens env s s' l' b0 b1 :
  script l = rate_limit_prededuct -> onSeed env = NetOk ->
  exact_args (sent_now l env) (windowMicros (window l)) (limit l) tokens ->
  let s1 := gap env (seed l u NetOk s).2 in
  sane s1 -> bal u s1 = Some b0 ->
  PreDeduct l u tokens env s = (true, None, l', s') ->
  bal u s' = Some b1 ->
  u <> "" /\ b1 = b0 - tokens.
Proof.
  intros Hsc Hn Hex s1 Hsane Hb0 Hpre Hb1.
  destruct (granted_balance l u tokens env s s' l' b0 Hsc Hn Hex Hsane Hb0 Hpre) as (?&_&E).
  split; [done|]. congruence.
Qed.

(** A settlement that arrives leaves the user with the pre-deducted tokens back and
    the used ones paid. *)
Lemma settle_charges u tokens actual n s b :
  u <> "" -> bal u s = Some b ->
  let used := Z.max 0 actual in
  in_int64 (tokens - used) -> in_int64 (used - tokens) -> in_int64 (b + tokens - used) ->
  let r := SettleQuota u tokens actual n s in
  bal u r.2 = Some (match n with NetLost _ => b | _ => b + tokens - used end) /\
  (r.1 = None <-> n = NetOk \/ used = tokens) /\
  (forall v, win v r.2 = win v s) /\ (forall v, v <> u -> bal v r.2 = bal v s).
Proof.
  intros Hu Hb used Hu1 Hu2 Hres r.
  unfold r, SettleQuota. rewrite (proj2 (str_eqb_neq _ _)) by done.
  replace (if actual <? 0 then 0 else actual) with used by (unfold used; dcase; bsolve).
  rewrite (wrap64_small (tokens - used)), (wrap64_small (- (tokens - used)))
    by (try done; replace (- (tokens - used)) with (used - tokens) by lia; done).
  replace (- (tokens - used)) with (used - tokens) by lia.
  destruct (tokens - used =? 0) eqn:Ez; breflect.
  { cbn [fst snd]. split_and!; try done; [rewrite Hb; destruct n; f_equal; lia|].
    split; [right; lia|done]. }
  set (c := if tokens - used >? 0 then _ else _).
  assert (Hc : charged u (used - tokens) b n s c).
  { unfold c. destruct (tokens - used >? 0) eqn:Es; breflect.
    - replace (used - tokens) with (- (tokens - used)) by lia. apply settle_add; [done|].
      replace (b + (tokens - used)) with (b + tokens - used) by lia. done.
    - apply settle_sub; [done|done| |].
      + by replace (- (used - tokens)) with (tokens - used) by lia.
      + by replace (b - (used - tokens)) with (b + tokens - used) by lia. }
  destruct Hc as (Hb' & Hr1 & Hw & Ho). destruct c as [o s3]. cbn [fst snd] in *.
  assert (E : (match o with inl _ => (None, s3)
               | inr err => (Some (errorWrap "settle quota: " err), s3) end).2 = s3)
    by by destruct o.
  rewrite E, Hb'. split_and!; [destruct n; f_equal; lia| |done|done].
  destruct n; subst o; simpl; split; naive_solver lia.
Qed.

(** A grant and its settlement, the law behind what a request costs. *)
Lemma grant_then_settle (l : Limiter S) u tokens env s s' l' b0 b1 x s2 actual n :
  script l = rate_limit_prededuct -> onSeed env = NetOk ->
  exact_args (sent_now l env) (windowMicros (window l)) (limit l) tokens ->
  let s1 := gap env (seed l u NetOk s).2 in
  sane s1 -> bal u s1 = Some b0 ->
  PreDeduct l u tokens env s = (true, None, l', s') ->
  bal u s' = Some b1 ->
  bal u s2 = Some (b1 + x) ->
  let used := Z.max 0 actual in
  in_int64 (tokens - used) -> in_int64 (used - tokens) -> in_int64 (b0 + x - used) ->
  let r := SettleQuota u tokens actual n s2 in
  bal u r.2 = Some (match n with
                    | NetLost _ => b0 + x - tokens
                    | _ => b0 + x - used
                    end) /\
  (r.1 = None <-> n = NetOk \/ used = tokens) /\
  (forall v, win v r.2 = win v s2) /\ (forall v, v <> u -> bal v r.2 = bal v s2).
Proof.
  intros Hsc Hn Hex s1 Hsane Hb0 Hpre Hb1 Hb2 used Hu1 Hu2 Hres.
  pose proof (granted_charges l u tokens env s s' l' b0 b1 Hsc Hn Hex Hsane Hb0 Hpre Hb1)
    as [Hu ->].
  replace (b0 - tokens + x) with (b0 + x - tokens) in Hb2 by lia.
  pose proof (settle_charges u tokens actual n s2 (b0 + x - tokens) Hu Hb2 Hu1 Hu2) as Hc.
  replace (b0 + x - tokens + tokens) with (b0 + x) in Hc by lia. by apply Hc.
Qed.

(** What a request costs. A granted pre-deduction followed, after any changes by
    others that add up to [x], by a settlement that arrives leaves the user's balance
    at what it was plus [x] minus the tokens actually used, a negative count being no
    use; a settlement that never arrives leaves the whole pre-deduction charged; when
    only the settlement's reply is lost the charge is right although an error is
    reported. *)
Theorem request_charges_actual (l : Limiter S) u tokens env s s' l' b0 b1 x s2 actual n :
  script l = rate_limit_prededuct -> onSeed env = NetOk ->
  exact_args (sent_now l env) (windowMicros (window l)) (limit l) tokens ->
  let s1 := gap env (seed l u NetOk s).2 in
  sane s1 -> bal u s1 = Some b0 ->
  PreDeduct l u tokens env s = (true, None, l', s') ->
  bal u s' = Some b1 ->
  bal u s2 = Some (b1 + x) ->
  let used := Z.max 0 actual in
  in_int64 (tokens - used) -> in_int64 (used - tokens) -> in_int64 (b0 + x - used) ->
  let r := SettleQuota u tokens actual n s2 in
  bal u r.2 = Some (match n with
                    | NetLost _ => b0 + x - tokens
                    | _ => b0 + x - used
                    end) /\
  (r.1 = None <-> n = NetOk \/ used = tokens) /\
  (forall v, win v r.2 = win v s2) /\ (forall v, v <> u -> bal v r.2 = bal v s2).
Proof. apply grant_then_settle. Qed.
End Spec.

(** ** On the concrete server *)
#[local] Instance demo_quote : Printable := fun _ => true.
Definition demo_limiter : Limiter db :=
  mkLimiter rate_limit_prededuct 2 Second 100 0.
Definition demo_at (t : Z) : Env db := mkEnv NetOk t (fun s => s) NetOk.
Definition noon : Z := 1700000000000000.

(** Calls of one limiter for one user, at the given instants. *)
Fixpoint fire (ts : list Z) (l : Limiter db) (s : db) : list (bool * option error * Z) * db :=
  match ts with
  | [] => ([], s)
  | t :: ts =>
      let '(r, l', s') := PreDeduct l "alice" 10 (demo_at t) s in
      let '(rs, s'') := fire ts l' s' in
      ((r, sent_now l (demo_at t)) :: rs, s'')
  end.

(** Member names are not unique inside the window: [tostring] keeps fourteen of
    the sixteen digits of a clock value in microseconds, so a request that follows an
    eviction can get the name of an entry that is still alive and take its place. Here
    five requests within 84 microseconds are granted under a limit of two per second,
    and the window then shows one entry. *)
Theorem member_collision_exceeds_limit :
  let '(rs, s) :=
    fire [noon; noon + 999960; noon + 1000010; noon + 1000020; noon + 1000030;
          noon + 1000040] demo_limiter emptyDb in
  map fst rs = repeat (true, None) 6 /\
  map (fun r => snd r - noon) rs = [1; 999962; 1000013; 1000024; 1000035; 1000046] /\
  limit demo_limiter = 2 /\ windowMicros (window demo_limiter) = 1000000 /\
  entries (win "alice" s) = 1.
Proof. vm_compute. repeat split. Qed.

Lemma DbInv_empty L : 0 <= L -> DbInv L emptyDb.
Proof.
  intros. split; [intros u b; simpl; by rewrite lookup_empty|].
  intros u. assert (win u emptyDb = ∅) as -> by (simpl; unfold db_zset; simpl; by rewrite lookup_empty).
  unfold entries. rewrite map_size_empty. lia.
Qed.

Lemma demo_sane : sane (seed demo_limiter "alice" NetOk emptyDb).2.
Proof.
  assert (Hr : steps (db_step 2) emptyDb (seed demo_limiter "alice" NetOk emptyDb).2).
  { apply seed_steps. by unfold in_int64, min_int64, max_int64, demo_limiter; simpl; lia. }
  apply (DbInv_steps _ _ _ (DbInv_empty 2 ltac:(lia)) Hr).
Qed.

Lemma PreDeduct_spec_witness :
  (exists s', PreDeduct demo_limiter "alice" 10 (demo_at noon) emptyDb =
                (true, None, set_seq 1 demo_limiter, s') /\
              account "alice" s' = (Some 90, {["1.7e+15-1" := noon + 1]})) /\
  PreDeduct demo_limiter "alice" 10
    (mkEnv (NetLost (errorsNew "timeout")) noon (fun s => s) NetOk) emptyDb =
    (false, Some (errorWrap "seed balance: " (errorsNew "timeout")), demo_limiter, emptyDb).
Proof.
  split.
  - destruct (PreDeduct_spec demo_limiter "alice" 10 (demo_at noon) emptyDb eq_refl)
      as (_ & _ & Hok & _).
    destruct Hok as (s' & Hp & Ha & _); [done|lia| | |].
    + vm_compute. repeat split; discriminate.
    + apply demo_sane.
    + exists s'. split; [exact Hp|]. rewrite Ha. by vm_compute.
  - destruct (PreDeduct_spec demo_limiter "alice" 10
      (mkEnv (NetLost (errorsNew "timeout")) noon (fun s => s) NetOk) emptyDb eq_refl)
      as (_ & _ & Hok & _).
    apply Hok; [done|lia].
Defined.

Lemma demo_fleet : fleet_call 2 demo_limiter 10 (demo_at noon).
Proof.
  split_and!; try done. intros s. apply steps_refl.
Qed.

Lemma limiter_bounds_witness :
  entries (win "alice" (PreDeduct demo_limiter "alice" 10
                          (demo_at noon) emptyDb).2) <= 2.
Proof.
  destruct (limiter_bounds 2 emptyDb emptyDb demo_limiter "alice" 10
    (demo_at noon) (DbInv_empty 2 ltac:(lia)) (steps_refl _ _) demo_fleet) as (_ & Hw & _).
  apply Hw.
Defined.

Lemma request_charges_actual_witness :
  let r := PreDeduct demo_limiter "alice" 10 (demo_at noon) emptyDb in
  bal "alice" (SettleQuota "alice" 10 3 NetOk r.2).2 = Some 97.
Proof.
  intros r. assert (Hv : r.1.1 = (true, None)) by by vm_compute.
  destruct (request_charges_actual demo_limiter "alice" 10 (demo_at noon)
    emptyDb r.2 r.1.2 100 90 0 r.2 3 NetOk eq_refl eq_refl) as (Hb & _).
  - vm_compute. repeat split; discriminate.
  - apply demo_sane.
  - by vm_compute.
  - rewrite <- Hv. unfold r. by destruct (PreDeduct _ _ _ _ _) as [[??]?].
  - by vm_compute.
  - by vm_compute.
  - vm_compute. split; discriminate.
  - vm_compute. split; discriminate.
  - vm_compute. split; discriminate.
  - rewrite Hb. by vm_compute.
Defined.
