(* ===== verification/LimiterWindow.v ===== *)
(** * The sliding window of the limiter

    How many requests of a user are granted within one window, over every history of
    commands: the requests of all replicas and all users, settlements, and the expiry of
    the window's key on the server's clock. *)

From Stdlib Require Import ZArith Lia Ascii.
From stdpp Require Import prelude gmap fin_maps list strings.
From S2P Require Import Prelude GoInt GoText GoErr Redis Limiter LimiterSpec.

Local Open Scope Z_scope.

(** The grants of a user, newest first, each with the server's clock and the instant the
    gateway sent; and how many of them took the name of an entry still in the window. *)
Record Log := mkLog { grants : list (Z * Z); overwritten : Z }.

Definition granted (r : list reply + error) : bool :=
  match r with inl (RStr st :: _) => st =s "OK" | _ => false end.

(** Grants after [c] on the server's clock, and by the instants that were sent. *)
Definition granted_after (c : Z) (log : Log) : Z :=
  Z.of_nat (length (filter (fun g => c < g.1) (grants log))).
Definition sent_after (c : Z) (log : Log) : Z :=
  Z.of_nat (length (filter (fun g => c < g.2) (grants log))).

Section Window.
Context {S : Type} `{RedisLaws S} `{Printable}.

Definition overwrites (now W : Z) (w : gmap string Z) : bool :=
  let w := live now W w in bool_decide (is_Some (w !! member_name now (entries w))).

(** One command of a history, watched for the grants of [u]. *)
Definition watch (u : string) (L : Z) (ls : Log * S) (c : cmd) : Log * S :=
  let '(log, s) := ls in
  (match c with
   | CScript v now W tokens =>
       if bool_decide (v = u)
          && granted (rate_limit_prededuct [rateLimitKey v; balanceKey v] [now; W; L; tokens] s).1
       then mkLog ((server_time s, now) :: grants log)
              (overwritten log + if overwrites now W (win u s) then 1 else 0)
       else log
   | _ => log
   end, run_cmd L c s).

(** The gateways agree on the user's window, and the instants they send are between [lo] and
    [hi] off the server's clock. *)
Fixpoint on_time (u : string) (L W lo hi : Z) (cs : list cmd) (s : S) : Prop :=
  match cs with
  | [] => True
  | c :: cs =>
      cmd_ok L c /\
      match c with
      | CScript v now W' _ =>
          v = u -> W' = W /\ server_time s + lo <= now <= server_time s + hi
      | _ => True
      end /\ on_time u L W lo hi cs (run_cmd L c s)
  end.

(** ** What the script does to the key's deadline *)
Lemma expireSec_window W : W <= expireSec W * 1000000.
Proof.
  unfold expireSec. pose proof (Z.div_mod (- W) 1000000 ltac:(lia)).
  pose proof (Z.mod_pos_bound (- W) 1000000 ltac:(lia)). dcase; bsolve.
Qed.

Lemma verdict_granted v r : verdict_reply v r -> granted r = bool_decide (v = Granted).
Proof.
  unfold granted. destruct v; simpl; intros; repeat case_match; try done; subst; done.
Qed.

Lemma script_clock u now W L tokens s :
  exact_args now W L tokens ->
  let r := rate_limit_prededuct [rateLimitKey u; balanceKey u] [now; W; L; tokens] s in
  server_time r.2 = server_time s /\
  (forall v d, deadline v r.2 = Some d ->
     deadline v s = Some d /\ (v = u -> granted r.1 = false) \/
     v = u /\ d = server_time s + expireSec W * 1000000).
Proof.
  intros (Hn & HW & HL & Ht & Hc & Ht1). simpl. rewrite !lua_num_fits by done. unfold prededuct.
  set (s1 := ZREMRANGEBYSCORE _ _ s).
  assert (Hd1 : forall v d, deadline v s1 = Some d -> deadline v s = Some d).
  { intros v d. unfold s1. rewrite ZREM_deadline. by case_decide. }
  assert (Ht1' : server_time s1 = server_time s) by apply ZREM_time.
  assert (Hd1' : forall (g : bool) v d, g = false -> deadline v s1 = Some d ->
    deadline v s = Some d /\ (v = u -> g = false) \/
    v = u /\ d = server_time s + expireSec W * 1000000) by (left; auto).
  destruct (_ >=? _); [split; [done|]; intros v d; by apply Hd1'|].
  destruct (GET _ s1) as [b|]; [|split; [done|]; intros v d; by apply Hd1'].
  destruct (_ <? _); [split; [done|]; intros v d; by apply Hd1'|].
  destruct (redis_integer tokens) as [t|]; [|split; [done|]; intros v d; by apply Hd1'].
  destruct (DECRBY (balanceKey u) t s1) as [o s2] eqn:ED.
  assert (Hd2 : forall v, deadline v s2 = deadline v s1).
  { intros v. pose proof (DECRBY_deadline u v t s1) as Hd. by rewrite ED in Hd. }
  assert (Ht2 : server_time s2 = server_time s).
  { pose proof (DECRBY_time (balanceKey u) t s1) as Hd. rewrite ED in Hd. simpl in Hd. congruence. }
  destruct o as [rem|]; simpl; [|split; [done|intros v d; rewrite Hd2; by apply Hd1']].
  rewrite EXPIRE_time, ZADD_time. split; [done|]. intros v d.
  rewrite EXPIRE_deadline, ZADD_win, (decide_True (P := u = u)), ZADD_time, Ht2 by done.
  case_decide as Hv; [intros [= <-]; right; by destruct Hv|].
  rewrite ZADD_deadline, Hd2. intros Hd. left. split; [auto|]. intros ->. destruct Hv.
  split; [done|]. apply insert_non_empty.
Qed.

(** ** The invariant of a history *)
Definition above (c : Z) (w : gmap string Z) : gmap string Z :=
  filter (fun m => c < m.2) w.

Lemma above_live c now W w : now - W <= c -> above c (live now W w) = above c w.
Proof.
  intros Hc. unfold above, live. rewrite map_filter_filter.
  apply map_filter_ext. simpl. intros. lia.
Qed.

Lemma sent_after_none c log : Forall (fun g => g.2 <= c) (grants log) -> sent_after c log = 0.
Proof.
  intros HF. unfold sent_after. induction HF; [done|].
  rewrite filter_cons, decide_False by lia. done.
Qed.

(** An entry that is added is seen above [c], unless it is not above it or takes the place of
    one that was. *)
Lemma above_insert c m now w :
  entries (above c w) + (if decide (c < now) then 1 else 0) <=
    entries (above c (<[m := now]> w)) + (if bool_decide (is_Some (w !! m)) then 1 else 0).
Proof.
  unfold above, entries. case_decide as Hc.
  - rewrite map_filter_insert_True by done.
    set (f := filter (fun m => c < m.2) w). destruct (f !! m) as [x|] eqn:E.
    + rewrite map_size_insert_Some by done. apply map_lookup_filter_Some in E as [E _].
      rewrite bool_decide_eq_true_2 by by eexists. lia.
    + rewrite map_size_insert_None by done. case_bool_decide; lia.
  - rewrite map_filter_insert_False by done. rewrite map_filter_delete.
    set (f := filter (fun m => c < m.2) w). rewrite map_size_delete.
    case_bool_decide as Hb; [destruct (f !! m); simpl; unfold id; lia|].
    assert (f !! m = None) as ->; [|unfold id; lia].
    apply map_lookup_filter_None. left. by apply eq_None_not_Some.
Qed.

Record WindowInv (u : string) (L W lo hi : Z) (log : Log) (s : S) : Prop := {
  wi_db : DbInv L s;
  wi_overwritten : 0 <= overwritten log;
  wi_clock : Forall (fun g => g.1 + lo <= g.2 <= server_time s + hi) (grants log);
  wi_deadline : forall d, deadline u s = Some d -> Forall (fun g => g.2 <= d - W + hi) (grants log);
  wi_window : forall c, server_time s + hi - W <= c ->
    sent_after c log <= entries (above c (win u s)) + overwritten log
}.

(** A command that leaves the user's window alone; the clock does not go back. *)
Lemma WindowInv_quiet u L W lo hi log s t :
  WindowInv u L W lo hi log s -> DbInv L t -> win u t = win u s ->
  (forall d, deadline u t = Some d -> deadline u s = Some d) ->
  server_time s <= server_time t -> WindowInv u L W lo hi log t.
Proof.
  intros [Hdb Hov Hcl Hdl Hw] Ht Ew Ed Et. split; auto.
  - eapply Forall_impl; [exact Hcl|]. simpl. lia.
  - intros c Hc. rewrite Ew. apply Hw. lia.
Qed.

Lemma WindowInv_script u L W lo hi log s now tokens :
  WindowInv u L W lo hi log s -> exact_args now W L tokens ->
  server_time s + lo <= now <= server_time s + hi ->
  let '(log', t) := watch u L (log, s) (CScript u now W tokens) in WindowInv u L W lo hi log' t.
Proof.
  intros [Hdb Hov Hcl Hdl Hw] Hex Hnow. cbn [watch run_cmd]. rewrite bool_decide_eq_true_2 by done.
  pose proof (script_step u now W L tokens s Hex (proj1 Hdb)) as (Hr & Ha & _).
  pose proof (script_clock u now W L tokens s Hex) as [Ht Hd].
  assert (Hdb' : DbInv L (rate_limit_prededuct [rateLimitKey u; balanceKey u] [now; W; L; tokens] s).2).
  { apply (DbInv_step L s); [done|]. by exists (CScript u now W tokens). }
  set (r := rate_limit_prededuct _ _ s) in *. clearbody r. cbn [andb].
  assert (Hkeep : forall c, server_time s + hi - W <= c ->
            sent_after c log <= entries (above c (live now W (win u s))) + overwritten log).
  { intros c Hc. rewrite above_live by lia. by apply Hw. }
  assert (Hw2 : win u r.2 = (account u r.2).2) by done. rewrite Ha in Hw2.
  rewrite (verdict_granted _ _ Hr) in Hd |- *.
  revert Hw2 Hd. unfold account_step, account. cbn [fst snd].
  set (w := live now W (win u s)) in *.
  assert (Hrefuse : win u r.2 = w -> (forall d, deadline u r.2 = Some d -> deadline u s = Some d) ->
            WindowInv u L W lo hi log r.2).
  { intros E Ed. split; auto; rewrite ?Ht; auto. intros c Hc. rewrite E. by apply Hkeep. }
  assert (Hpast : forall d, deadline u r.2 = Some d ->
            deadline u s = Some d \/ d = server_time s + expireSec W * 1000000 ->
            Forall (fun g => g.2 <= d - W + hi) (grants log)).
  { intros d _ [E| ->]; [by apply Hdl|]. eapply Forall_impl; [exact Hcl|]. simpl.
    pose proof (expireSec_window W). lia. }
  destruct (L <=? entries w); [|destruct (bal u s) as [b|]; [destruct (tokens <=? b)|]];
    cbn [fst snd]; intros Hw2 Hd;
    try (rewrite bool_decide_eq_false_2 by done; split; auto; rewrite ?Ht; auto;
         [intros d E; apply Hpast; [done|]; destruct (Hd u d E) as [[? _]|[_ ?]]; auto|
          intros c Hc; rewrite Hw2; by apply Hkeep]).
  rewrite bool_decide_eq_true_2 by done. split; auto; cbn [grants overwritten]; rewrite ?Ht.
  - destruct (overwrites _ _ _); lia.
  - constructor; [simpl; lia|done].
  - intros d E. destruct (Hd u d E) as [[_ Hf]|[_ ->]]; [by rewrite bool_decide_eq_true_2 in Hf by auto; specialize (Hf eq_refl)|].
    constructor; [simpl; pose proof (expireSec_window W); lia|]. apply Hpast; auto.
  - intros c Hc. rewrite Hw2. specialize (Hkeep c Hc).
    pose proof (above_insert c (member_name now (entries w)) now w) as Hi.
    unfold overwrites. fold w. unfold sent_after in *. cbn [grants]. rewrite filter_cons. simpl.
    destruct (decide (c < now)); cbn [length]; destruct (bool_decide _); lia.
Qed.

(** ** Histories *)
Lemma WindowInv_other u L W lo hi log s v now W' tokens :
  v <> u -> WindowInv u L W lo hi log s -> exact_args now W' L tokens ->
  WindowInv u L W lo hi log (run_cmd L (CScript v now W' tokens) s).
Proof.
  intros Hv HI Hex. pose proof (wi_db _ _ _ _ _ _ _ HI) as Hdb. cbn [run_cmd].
  pose proof (script_step v now W' L tokens s Hex (proj1 Hdb)) as (_ & _ & Ho).
  pose proof (script_clock v now W' L tokens s Hex) as [Ht Hd].
  eapply WindowInv_quiet; [done| | | |lia].
  - apply (DbInv_step L s); [done|]. by exists (CScript v now W' tokens).
  - specialize (Ho u (not_eq_sym Hv)). by injection Ho.
  - intros d E. by destruct (Hd u d E) as [[? _]|[? _]].
Qed.

Lemma WindowInv_pass u L W lo hi log s p :
  WindowInv u L W lo hi log s -> WindowInv u L W lo hi log (PASS p s).
Proof.
  intros HI. pose proof (wi_db _ _ _ _ _ _ _ HI) as Hdb.
  assert (Hdb' : DbInv L (PASS p s)) by (apply (DbInv_step L s); [done|]; by exists (CPass p)).
  pose proof (PASS_time p s) as Ht.
  destruct (PASS_win u p s) as [[Ew Ed]|(Ew & Ed & d & E & Hp)].
  - eapply WindowInv_quiet; eauto; [|lia]. by rewrite Ed.
  - destruct HI as [_ Hov Hcl Hdl _]. split; auto.
    + eapply Forall_impl; [exact Hcl|]. simpl. lia.
    + intros d'. by rewrite Ed.
    + intros c Hc. rewrite sent_after_none; [unfold entries; lia|].
      eapply Forall_impl; [by apply Hdl|]. simpl. lia.
Qed.

Lemma WindowInv_watch u L W lo hi log s c cs :
  WindowInv u L W lo hi log s -> on_time u L W lo hi (c :: cs) s ->
  let '(log', t) := watch u L (log, s) c in WindowInv u L W lo hi log' t.
Proof.
  intros HI (Hok & Hon & _). pose proof (wi_db _ _ _ _ _ _ _ HI) as Hdb.
  destruct c as [v b|v now W' tokens|v d|v d|p]; cbn [cmd_ok] in Hok.
  - apply (WindowInv_quiet _ _ _ _ _ _ s); cbn [run_cmd]; auto.
    + apply (DbInv_step L s); [done|]. by exists (CSeed v b).
    + apply SETNX_win.
    + intros d. by rewrite SETNX_deadline.
    + rewrite SETNX_time. lia.
  - destruct (decide (v = u)) as [->|Hv].
    + destruct (Hon eq_refl) as [-> Hnow]. by apply WindowInv_script.
    + cbn [watch]. rewrite bool_decide_eq_false_2 by done. by apply WindowInv_other.
  - apply (WindowInv_quiet _ _ _ _ _ _ s); cbn [run_cmd]; auto.
    + apply (DbInv_step L s); [done|]. by exists (CAdd v d).
    + apply INCRBY_win.
    + intros e. by rewrite INCRBY_deadline.
    + rewrite INCRBY_time. lia.
  - apply (WindowInv_quiet _ _ _ _ _ _ s); cbn [run_cmd]; auto.
    + apply (DbInv_step L s); [done|]. by exists (CSub v d).
    + apply DECRBY_win.
    + intros e. by rewrite DECRBY_deadline.
    + rewrite DECRBY_time. lia.
  - by apply WindowInv_pass.
Qed.

Lemma WindowInv_history u L W lo hi cs : forall log s,
  WindowInv u L W lo hi log s -> on_time u L W lo hi cs s ->
  let '(log', t) := foldl (watch u L) (log, s) cs in WindowInv u L W lo hi log' t.
Proof.
  induction cs as [|c cs IH]; intros log s HI Ho; [done|].
  pose proof (WindowInv_watch _ _ _ _ _ _ _ _ _ HI Ho) as HI'. cbn [foldl].
  destruct Ho as (_&_&Ho). destruct (watch u L (log, s) c) as [log' t] eqn:E.
  apply IH; [done|]. assert (t = run_cmd L c s) as -> by (unfold watch in E; by simplify_eq). done.
Qed.

Lemma WindowInv_start u L W lo hi s :
  DbInv L s -> win u s = ∅ -> deadline u s = None -> WindowInv u L W lo hi (mkLog [] 0) s.
Proof.
  intros Hdb Hw Hd. split; simpl; [done|lia|by constructor|intros d; by rewrite Hd|].
  intros c _. unfold sent_after, entries. simpl. lia.
Qed.

(** The grants the server's clock puts after [c] were sent after [c + lo]. *)
Lemma granted_sent c lo log :
  Forall (fun g => g.1 + lo <= g.2) (grants log) -> granted_after c log <= sent_after (c + lo) log.
Proof.
  unfold granted_after, sent_after. intros HF. induction HF as [|g l Hg _ IH]; [done|].
  rewrite !filter_cons. destruct (decide (c < g.1)), (decide (c + lo < g.2)); cbn [length]; lia.
Qed.

(** C23. The sliding window. Take any history of commands: of any number of gateways and
    users, with seeding, settling, crediting, the passing of time and the expiry of keys,
    in which the gateways send the same limit and window for the user and instants between
    [lo] and [hi] off the server's clock; the sequence number that each gateway adds to its
    clock makes [hi - lo] at least 999 microseconds. At its end, the requests of the user that
    were granted within the last window less [hi - lo], on the server's clock, are at
    most the limit plus the number of grants whose member name was already in the window. *)
Theorem window_bound u L W lo hi s cs :
  DbInv L s -> win u s = ∅ -> deadline u s = None -> on_time u L W lo hi cs s ->
  let '(log, t) := foldl (watch u L) (mkLog [] 0, s) cs in
  granted_after (server_time t - (W - (hi - lo))) log <= L + overwritten log.
Proof.
  intros Hdb Hw Hd Ho.
  pose proof (WindowInv_history _ _ _ _ _ _ _ _ (WindowInv_start u L W lo hi s Hdb Hw Hd) Ho) as HI.
  destruct (foldl _ _ cs) as [log t]. destruct HI as [Hdb' _ Hcl _ Hc].
  etrans; [apply (granted_sent _ lo); eapply Forall_impl; [exact Hcl|simpl; tauto]|].
  replace (_ + lo) with (server_time t + hi - W) by lia.
  etrans; [apply Hc; lia|]. pose proof (proj2 Hdb' u) as Hu.
  assert (entries (above (server_time t + hi - W) (win u t)) <= entries (win u t)); [|lia].
  apply inj_le, map_size_filter.
Qed.
End Window.

(** ** On the concrete server *)

(** A limit of one per second. The first request carries the instant of the server's clock,
    the second one, 999001 microseconds later, is 999 ahead of it: the first entry is evicted
    and both are granted within a second. So the slack of [window_bound] is needed. *)
Definition early_eviction : list cmd :=
  [CSeed "alice" 100; CPass noon; CScript "alice" noon 1000000 10;
   CPass 999001; CScript "alice" (noon + 1000000) 1000000 10].

Lemma window_slack :
  let '(log, t) := foldl (watch "alice" 1) (mkLog [] 0, emptyDb) early_eviction in
  granted_after (server_time t - 1000000) log = 2 /\ overwritten log = 0 /\
  on_time "alice" 1 1000000 0 999 early_eviction emptyDb.
Proof.
  vm_compute. repeat split; try discriminate.
Qed.

(** The key of an idle user expires a window after the last grant, and then the next
    window starts empty. *)
Lemma window_expires :
  let s := (foldl (watch "alice" 1) (mkLog [] 0, emptyDb)
              [CSeed "alice" 100; CPass noon; CScript "alice" (noon + 999) 1000000 10]).2 in
  entries (win "alice" s) = 1 /\ win "alice" (run_cmd 1 (CPass 1000000) s) = ∅.
Proof. by vm_compute. Qed.

Lemma window_bound_witness :
  let '(log, t) := foldl (watch "alice" 1) (mkLog [] 0, emptyDb) early_eviction in
  granted_after (server_time t - 999001) log <= 1 + overwritten log.
Proof.
  apply (window_bound "alice" 1 1000000 0 999 emptyDb early_eviction);
    [apply DbInv_empty; lia|done|done|].
  vm_compute. repeat split; discriminate.
Defined.
