(* ===== verification/Json.v ===== *)
(** * JSON as [encoding/json] reads and writes it

    The gateway's wire formats. [Unmarshal] is the scanner and the decoder up to
    the value tree; a member keeps the source text of its value, which is what a
    [json.RawMessage] field receives. [marshal] is the compact encoder with HTML
    escaping. Struct decoding is by field tables: exact name first, then ignoring
    ASCII case; [null] leaves a field alone; a repeated key decodes again into the
    same field. *)

From Stdlib Require Import ZArith Lia Ascii.
From stdpp Require Import prelude list strings.
From S2P Require Import Prelude GoInt GoText.

Local Open Scope Z_scope.

(** [JObj] members: key, source text of the value, value. *)
Inductive json :=
| JNull
| JBool (b : bool)
| JNum (literal : string)
| JStr (s : string)
| JArr (l : list json)
| JObj (l : list (string * string * json)).

(** ** Characters *)
Definition quo : ascii := of_byte 0x22.
Definition is_digit (a : ascii) : bool := between 0x30 0x39 (byte_of a).
Definition is_ws (a : ascii) : bool :=
  let z := byte_of a in (z =? 0x20) || (z =? 0x09) || (z =? 0x0A) || (z =? 0x0D).

Fixpoint skip_ws (l : list ascii) : list ascii :=
  match l with
  | a :: l' => if is_ws a then skip_ws l' else l
  | [] => []
  end.

Fixpoint span_digits (l : list ascii) : list ascii * list ascii :=
  match l with
  | a :: l' => if is_digit a then let '(d, r) := span_digits l' in (a :: d, r) else ([], l)
  | [] => ([], [])
  end.

Definition eat (c : ascii) (l : list ascii) : option (list ascii) :=
  match l with
  | a :: l' => if bool_decide (a = c) then Some l' else None
  | [] => None
  end.

Fixpoint eat_all (w l : list ascii) : option (list ascii) :=
  match w with
  | [] => Some l
  | c :: w => l ← eat c l; eat_all w l
  end.

(** ** Numbers: the literal and what follows *)
Definition int_part (l : list ascii) : option (list ascii * list ascii) :=
  match l with
  | a :: l' =>
      if bool_decide (a = "0"%char) then Some (["0"%char], l')
      else if is_digit a then Some (span_digits l)
      else None
  | [] => None
  end.

Definition frac_part (l : list ascii) : option (list ascii * list ascii) :=
  match l with
  | a :: l' =>
      if bool_decide (a = "."%char) then
        match span_digits l' with
        | ([], _) => None
        | (d, r) => Some (a :: d, r)
        end
      else Some ([], l)
  | [] => Some ([], [])
  end.

Definition exp_part (l : list ascii) : option (list ascii * list ascii) :=
  match l with
  | a :: l' =>
      if bool_decide (a = "e"%char) || bool_decide (a = "E"%char) then
        let '(sign, l2) :=
          match l' with
          | b :: l2 => if bool_decide (b = "+"%char) || bool_decide (b = "-"%char)
                       then ([b], l2) else ([], l')
          | [] => ([], [])
          end in
        match span_digits l2 with
        | ([], _) => None
        | (d, r) => Some (a :: sign ++ d, r)
        end
      else Some ([], l)
  | [] => Some ([], [])
  end.

Definition parse_number (l : list ascii) : option (list ascii * list ascii) :=
  let '(sign, l) :=
    match l with
    | a :: l' => if bool_decide (a = "-"%char) then ([a], l') else ([], l)
    | [] => ([], [])
    end in
  '(i, l) ← int_part l;
  '(f, l) ← frac_part l;
  '(e, l) ← exp_part l;
  Some (sign ++ i ++ f ++ e, l).

(** ** Strings *)
Definition hex_val (a : ascii) : option Z :=
  let z := byte_of a in
  if between 0x30 0x39 z then Some (z - 0x30)
  else if between 0x61 0x66 z then Some (z - 0x61 + 10)
  else if between 0x41 0x46 z then Some (z - 0x41 + 10)
  else None.

(** [getu4] after the backslash and the [u]. *)
Definition hex4 (l : list ascii) : option (Z * list ascii) :=
  match l with
  | a :: b :: c :: d :: l =>
      x ← hex_val a; y ← hex_val b; z ← hex_val c; w ← hex_val d;
      Some (x * 4096 + y * 256 + z * 16 + w, l)
  | _ => None
  end.

(** A surrogate takes its second half if that follows, else is an error rune. *)
Definition unicode_escape (l : list ascii) : option (Z * list ascii) :=
  '(r, l) ← hex4 l;
  if between 0xD800 0xDFFF r then
    match l with
    | a :: b :: l2 =>
        if bool_decide (a = backslash) && bool_decide (b = "u"%char) then
          match hex4 l2 with
          | Some (r2, l3) =>
              if between 0xD800 0xDBFF r && between 0xDC00 0xDFFF r2
              then Some ((r - 0xD800) * 1024 + (r2 - 0xDC00) + 0x10000, l3)
              else Some (RuneError, l)
          | None => Some (RuneError, l)
          end
        else Some (RuneError, l)
    | _ => Some (RuneError, l)
    end
  else Some (r, l).

Definition simple_escape (a : ascii) : option ascii :=
  if bool_decide (a = quo) || bool_decide (a = backslash) || bool_decide (a = "/"%char)
  then Some a
  else if bool_decide (a = "b"%char) then Some (of_byte 0x08)
  else if bool_decide (a = "f"%char) then Some (of_byte 0x0C)
  else if bool_decide (a = "n"%char) then Some (of_byte 0x0A)
  else if bool_decide (a = "r"%char) then Some (of_byte 0x0D)
  else if bool_decide (a = "t"%char) then Some (of_byte 0x09)
  else None.

(** What follows the opening quote: the bytes meant, and what follows the closing
    quote. Ill-formed UTF-8 is replaced byte by byte. *)
Fixpoint string_body (n : nat) (l : list ascii) : option (list ascii * list ascii) :=
  match n, l with
  | S n, a :: l =>
      if bool_decide (a = quo) then Some ([], l)
      else if bool_decide (a = backslash) then
        match l with
        | b :: l2 =>
            if bool_decide (b = "u"%char) then
              '(r, l3) ← unicode_escape l2;
              '(s, l4) ← string_body n l3;
              Some (encode_rune r ++ s, l4)
            else
              c ← simple_escape b;
              '(s, l3) ← string_body n l2;
              Some (c :: s, l3)
        | [] => None
        end
      else if byte_of a <? 0x20 then None
      else
        let '(r, l2) := decode_rune a l in
        '(s, l3) ← string_body n l2;
        Some (encode_rune r ++ s, l3)
  | _, _ => None
  end.

(** ** Values *)
Definition maxNestingDepth : Z := 10000.

Definition raw_text (l rest : list ascii) : string :=
  unchars (take (length l - length rest) l).

Fixpoint parse_value (n : nat) (depth : Z) (l : list ascii) : option (json * list ascii) :=
  match n, l with
  | S n, a :: l' =>
      if bool_decide (a = "n"%char) then
        r ← eat_all (chars "null") l; Some (JNull, r)
      else if bool_decide (a = "t"%char) then
        r ← eat_all (chars "true") l; Some (JBool true, r)
      else if bool_decide (a = "f"%char) then
        r ← eat_all (chars "false") l; Some (JBool false, r)
      else if bool_decide (a = quo) then
        '(s, r) ← string_body (length l') l'; Some (JStr (unchars s), r)
      else if bool_decide (a = "["%char) then
        if maxNestingDepth <? depth + 1 then None
        else
          let l' := skip_ws l' in
          match eat "]"%char l' with
          | Some r => Some (JArr [], r)
          | None => '(es, r) ← parse_elems n (depth + 1) l'; Some (JArr es, r)
          end
      else if bool_decide (a = "{"%char) then
        if maxNestingDepth <? depth + 1 then None
        else
          let l' := skip_ws l' in
          match eat "}"%char l' with
          | Some r => Some (JObj [], r)
          | None => '(ms, r) ← parse_members n (depth + 1) l'; Some (JObj ms, r)
          end
      else
        '(d, r) ← parse_number l; Some (JNum (unchars d), r)
  | _, _ => None
  end
with parse_elems (n : nat) (depth : Z) (l : list ascii) : option (list json * list ascii) :=
  match n with
  | O => None
  | S n =>
      '(v, r) ← parse_value n depth l;
      let r := skip_ws r in
      match eat "]"%char r with
      | Some r => Some ([v], r)
      | None =>
          r ← eat ","%char r;
          '(vs, r) ← parse_elems n depth (skip_ws r);
          Some (v :: vs, r)
      end
  end
with parse_members (n : nat) (depth : Z) (l : list ascii)
    : option (list (string * string * json) * list ascii) :=
  match n with
  | O => None
  | S n =>
      l ← eat quo l;
      '(k, l) ← string_body (length l) l;
      l ← eat ":"%char (skip_ws l);
      let l := skip_ws l in
      '(v, r) ← parse_value n depth l;
      let m := (unchars k, raw_text l r, v) in
      let r := skip_ws r in
      match eat "}"%char r with
      | Some r => Some ([m], r)
      | None =>
          r ← eat ","%char r;
          '(ms, r) ← parse_members n depth (skip_ws r);
          Some (m :: ms, r)
      end
  end.

(** [json.Unmarshal] into the value tree; every call consumes a byte before the
    next but the one from a container to its first entry, so twice the length is
    enough fuel. *)
Definition Unmarshal (s : string) : option json :=
  let l := chars s in
  '(v, r) ← parse_value (2 * length l + 1) 0 (skip_ws l);
  match skip_ws r with [] => Some v | _ => None end.

(** ** Encoding *)
Definition json_safe (z : Z) : bool :=
  (0x20 <=? z) && negb ((z =? 0x22) || (z =? 0x5C) || (z =? 0x3C) || (z =? 0x3E) || (z =? 0x26)).

Definition escape_ascii (a : ascii) : list ascii :=
  let z := byte_of a in
  if json_safe z then [a]
  else if (z =? 0x22) || (z =? 0x5C) then [backslash; a]
  else if z =? 0x08 then [backslash; "b"%char]
  else if z =? 0x0C then [backslash; "f"%char]
  else if z =? 0x0A then [backslash; "n"%char]
  else if z =? 0x0D then [backslash; "r"%char]
  else if z =? 0x09 then [backslash; "t"%char]
  else backslash :: "u"%char :: hex 4 z.

Fixpoint escape_fuel (n : nat) (l : list ascii) : list ascii :=
  match n, l with
  | S n, a :: l =>
      if byte_of a <? 0x80 then escape_ascii a ++ escape_fuel n l
      else
        let '(r, l') := decode_rune a l in
        (if r =? RuneError then
           if bool_decide (length l' = length l)
           then backslash :: "u"%char :: hex 4 RuneError
           else encode_rune r
         else if (r =? 0x2028) || (r =? 0x2029) then backslash :: "u"%char :: hex 4 r
         else encode_rune r) ++ escape_fuel n l'
  | _, _ => []
  end.

Definition marshal_string (s : string) : list ascii :=
  quo :: escape_fuel (String.length s) (chars s) ++ [quo].

Fixpoint commas (l : list (list ascii)) : list ascii :=
  match l with
  | [] => []
  | [x] => x
  | x :: l => x ++ ","%char :: commas l
  end.

Fixpoint marshal (j : json) : list ascii :=
  match j with
  | JNull => chars "null"
  | JBool true => chars "true"
  | JBool false => chars "false"
  | JNum d => chars d
  | JStr s => marshal_string s
  | JArr l => "["%char :: commas (map marshal l) ++ ["]"%char]
  | JObj l =>
      "{"%char ::
      commas (map (fun kv => let '(k, _, v) := kv in
                marshal_string k ++ ":"%char :: marshal v) l) ++ ["}"%char]
  end.

(** [json.Marshal]. *)
Definition Marshal (j : json) : string := unchars (marshal j).

(** An object built by the program, its keys in sorted order as [json.Marshal]
    writes the keys of a map. *)
Definition obj (l : list (string * json)) : json :=
  JObj (map (fun kv => (kv.1, Marshal kv.2, kv.2)) l).
Definition JInt (z : Z) : json := JNum (int_string z).

(** ** Decoding into Go values *)
Definition Decoder (T : Type) : Type := json -> T -> option T.

Definition dec_string : Decoder string := fun j s =>
  match j with JNull => Some s | JStr t => Some t | _ => None end.

Definition dec_bool : Decoder bool := fun j b =>
  match j with JNull => Some b | JBool c => Some c | _ => None end.

(** [strconv.ParseInt(literal, 10, 64)]. *)
Fixpoint digits_value (acc : Z) (l : list ascii) : option Z :=
  match l with
  | [] => Some acc
  | a :: l => if is_digit a then digits_value (acc * 10 + (byte_of a - 0x30)) l else None
  end.
Definition ParseInt (s : string) : option Z :=
  let '(neg, l) :=
    match chars s with
    | a :: l => if bool_decide (a = "-"%char) then (true, l)
                else if bool_decide (a = "+"%char) then (false, l)
                else (false, a :: l)
    | [] => (false, [])
    end in
  match l with
  | [] => None
  | _ =>
      z ← digits_value 0 l;
      let z := if neg : bool then - z else z in
      if (min_int64 <=? z) && (z <=? max_int64) then Some z else None
  end.

Definition dec_int : Decoder Z := fun j z =>
  match j with JNull => Some z | JNum d => ParseInt d | _ => None end.

(** The elements of an array, each decoded over the element a repeated key left at
    its place. *)
Fixpoint dec_elems {T} (zero : T) (d : Decoder T) (vs : list json) (l : list T)
    : option (list T) :=
  match vs with
  | [] => Some []
  | v :: vs =>
      x ← d v (default zero (head l));
      xs ← dec_elems zero d vs (tail l);
      Some (x :: xs)
  end.

Definition dec_list {T} (zero : T) (d : Decoder T) : Decoder (list T) := fun j l =>
  match j with
  | JNull => Some []
  | JArr vs => dec_elems zero d vs l
  | _ => None
  end.

(** A struct: the decoder of each field, given the source text of the value too. *)
Definition FieldDec (T : Type) : Type := string -> json -> T -> option T.

Definition same_fold (a b : string) : bool :=
  bool_decide (fold_ascii <$> runes a = fold_ascii <$> runes b).

Definition find_field {T} (fs : list (string * FieldDec T)) (k : string)
    : option (FieldDec T) :=
  match find (fun f => f.1 =s k) fs with
  | Some f => Some f.2
  | None => snd <$> find (fun f => same_fold f.1 k) fs
  end.

Definition dec_struct {T} (fs : list (string * FieldDec T)) : Decoder T := fun j t =>
  match j with
  | JNull => Some t
  | JObj ms =>
      foldl (fun acc m =>
        t ← acc;
        let '(k, raw, v) := m in
        match find_field fs k with
        | None => Some t
        | Some f => f raw v t
        end) (Some t) ms
  | _ => None
  end.

(** A field reached through a getter and a setter. *)
Definition fld {T A} (get : T -> A) (set : A -> T -> T) (d : Decoder A) : FieldDec T :=
  fun _ v t => x ← d v (get t); Some (set x t).
Definition fld_raw {T} (set : string -> T -> T) : FieldDec T :=
  fun raw _ t => Some (set raw t).

(** The last value under a key of a [map[string]any]. *)
Fixpoint map_get (k : string) (ms : list (string * string * json)) : option json :=
  match ms with
  | [] => None
  | (k', _, v) :: ms =>
      match map_get k ms with
      | Some v' => Some v'
      | None => if k' =s k then Some v else None
      end
  end.

(** ** Indented encoding: [Encoder] with [SetIndent] of no prefix and two spaces *)
Definition new_line (depth : nat) : list ascii :=
  of_byte 0x0A :: mjoin (repeat [" "%char; " "%char] depth).

Fixpoint commas_nl (depth : nat) (l : list (list ascii)) : list ascii :=
  match l with
  | [] => []
  | [x] => new_line depth ++ x
  | x :: l => new_line depth ++ x ++ ","%char :: commas_nl depth l
  end.

Fixpoint marshal_indent (depth : nat) (j : json) : list ascii :=
  match j with
  | JArr (_ :: _ as l) =>
      "["%char :: commas_nl (S depth) (map (marshal_indent (S depth)) l)
        ++ new_line depth ++ ["]"%char]
  | JObj (_ :: _ as l) =>
      "{"%char ::
      commas_nl (S depth) (map (fun kv => let '(k, _, v) := kv in
        marshal_string k ++ ":"%char :: " "%char :: marshal_indent (S depth) v) l)
        ++ new_line depth ++ ["}"%char]
  | _ => marshal j
  end.

Definition EncodeIndent (j : json) : string :=
  unchars (marshal_indent 0 j ++ [of_byte 0x0A]).
