(* ===== verification/JsonSpec.v ===== *)
(** * JSON round trips

    What the encoder writes, the decoder reads back: for every value tree a Go
    program builds from ASCII strings and well-formed numbers, up to the decoder's
    nesting limit. Integers read back as themselves. *)

From Stdlib Require Import ZArith Lia Ascii.
From stdpp Require Import prelude list strings.
From S2P Require Import Prelude GoInt GoText Json.

Local Open Scope Z_scope.

(** ** Induction through the containers *)
Section Induction.
Context (P : json -> Prop).
Context (HNull : P JNull) (HBool : forall b, P (JBool b)) (HNum : forall d, P (JNum d)).
Context (HStr : forall s, P (JStr s)) (HArr : forall l, Forall P l -> P (JArr l)).
Context (HObj : forall l, Forall (fun m => P m.2) l -> P (JObj l)).

Fixpoint json_nested_ind (j : json) : P j :=
  match j with
  | JNull => HNull
  | JBool b => HBool b
  | JNum d => HNum d
  | JStr s => HStr s
  | JArr l => HArr l ((fix go l := match l return Forall P l with
                                   | [] => @Forall_nil_2 _ _
                                   | v :: l => @Forall_cons_2 _ _ _ _ (json_nested_ind v) (go l)
                                   end) l)
  | JObj l => HObj l ((fix go l := match l return Forall (fun m => P m.2) l with
                                   | [] => @Forall_nil_2 _ _
                                   | m :: l => @Forall_cons_2 _ (fun m => P m.2) m l
                                                 (json_nested_ind m.2) (go l)
                                   end) l)
  end.
End Induction.

(** ** Strings *)
Definition ascii_only (l : list ascii) : Prop := Forall (fun a => byte_of a < 0x80) l.

Lemma string_body_escape a n tl :
  byte_of a < 0x80 ->
  string_body (S n) (escape_ascii a ++ tl) =
    ('(s, r) ← string_body n tl; Some (a :: s, r)).
Proof.
  destruct a as [[] [] [] [] [] [] [] []]; intros Ha;
    first [exfalso; revert Ha; vm_compute; congruence|reflexivity].
Qed.

Lemma escape_ascii_length a : (1 <= length (escape_ascii a))%nat.
Proof. unfold escape_ascii. repeat dcase; simpl; lia. Qed.

Lemma escape_fuel_cons m a l :
  byte_of a < 0x80 -> escape_fuel (S m) (a :: l) = escape_ascii a ++ escape_fuel m l.
Proof. intros Ha. simpl. by rewrite (proj2 (Z.ltb_lt _ _) Ha). Qed.

Lemma escape_fuel_length m l :
  ascii_only l -> (length l <= m)%nat -> (length l <= length (escape_fuel m l))%nat.
Proof.
  intros Hl. revert m. induction Hl as [|a l Ha Hl IH]; intros m Hm; simpl in *; [lia|].
  destruct m as [|m]; [lia|]. rewrite escape_fuel_cons by done. rewrite length_app.
  pose proof (escape_ascii_length a). specialize (IH m ltac:(lia)). lia.
Qed.

Lemma string_body_roundtrip m l : forall n rest,
  ascii_only l -> (length l <= m)%nat -> (length l < n)%nat ->
  string_body n (escape_fuel m l ++ quo :: rest) = Some (l, rest).
Proof.
  revert m. induction l as [|a l IH]; intros m n rest Hl Hm Hn.
  - destruct n as [|n]; [simpl in Hn; lia|]. destruct m; reflexivity.
  - apply Forall_cons in Hl as [Ha Hl]. simpl in Hm, Hn.
    destruct m as [|m]; [lia|]. destruct n as [|n]; [lia|].
    rewrite escape_fuel_cons, <- app_assoc, string_body_escape by done.
    rewrite IH by (done || lia). done.
Qed.

Lemma marshal_string_length s :
  ascii_only (chars s) -> (length (chars s) + 2 <= length (marshal_string s))%nat.
Proof.
  intros Hs. unfold marshal_string. simpl. rewrite length_app. simpl.
  assert (Hl : String.length s = length (chars s)).
  { unfold chars. clear. induction s; simpl; congruence. }
  rewrite Hl. pose proof (escape_fuel_length (length (chars s)) _ Hs ltac:(done)). lia.
Qed.

(** Reading a quoted string back, as the decoder does, with what is left as fuel. *)
Lemma read_string s rest :
  ascii_only (chars s) ->
  exists l, marshal_string s ++ rest = quo :: l /\
    string_body (length l) l = Some (chars s, rest).
Proof.
  intros Hs. pose proof (marshal_string_length s Hs) as Hlen. unfold marshal_string in *.
  eexists. split; [simpl; rewrite <- app_assoc; reflexivity|]. simpl in Hlen.
  rewrite length_app in Hlen. simpl in Hlen.
  apply string_body_roundtrip; [done| |].
  - unfold chars. clear. induction s; simpl; lia.
  - rewrite length_app. simpl. lia.
Qed.

(** ** Numbers *)
Definition number_stop (rest : list ascii) : Prop :=
  match rest with
  | [] => True
  | a :: _ => is_digit a = false /\ a <> "."%char /\ a <> "e"%char /\ a <> "E"%char
  end.

Definition numeral (l : list ascii) : Prop := parse_number l = Some (l, []).

Lemma span_digits_app l d r rest :
  span_digits l = (d, r) ->
  (r = [] -> number_stop rest) -> span_digits (l ++ rest) = (d, r ++ rest).
Proof.
  revert d. induction l as [|a l IH]; intros d; simpl.
  - intros [= <- <-] Hr. specialize (Hr eq_refl). destruct rest as [|b rest]; [done|].
    simpl in *. by destruct Hr as [-> _].
  - destruct (is_digit a).
    + destruct (span_digits l) as [d' r'] eqn:E. intros [= <- <-] Hr.
      by rewrite (IH d') by done.
    + by intros [= <- <-].
Qed.

Lemma int_part_app l i r rest :
  int_part l = Some (i, r) -> (r = [] -> number_stop rest) ->
  int_part (l ++ rest) = Some (i, r ++ rest).
Proof.
  unfold int_part. destruct l as [|a l]; [done|]. cbn [app].
  case_bool_decide; [by intros [= <- <-]|]. destruct (is_digit a) eqn:E; [|done].
  intros [= Hs] Hr. f_equal. apply (span_digits_app (a :: l)); done.
Qed.

Lemma frac_part_app l f r rest :
  frac_part l = Some (f, r) -> (r = [] -> number_stop rest) ->
  frac_part (l ++ rest) = Some (f, r ++ rest).
Proof.
  unfold frac_part. destruct l as [|a l]; cbn [app].
  - intros [= <- <-] Hr. specialize (Hr eq_refl). destruct rest as [|b rest]; [done|].
    destruct Hr as (_ & Hb & _). by rewrite bool_decide_eq_false_2.
  - case_bool_decide; [|by intros [= <- <-]].
    destruct (span_digits l) as [d r'] eqn:E. intros H1 Hr.
    destruct d as [|x d]; [done|]. injection H1 as <- <-.
    by rewrite (span_digits_app _ _ _ rest E).
Qed.

Lemma exp_part_app l e r rest :
  exp_part l = Some (e, r) -> (r = [] -> number_stop rest) ->
  exp_part (l ++ rest) = Some (e, r ++ rest).
Proof.
  unfold exp_part. destruct l as [|a l]; cbn [app].
  - intros [= <- <-] Hr. specialize (Hr eq_refl). destruct rest as [|b rest]; [done|].
    destruct Hr as (_ & _ & He & HE). by rewrite !bool_decide_eq_false_2.
  - destruct (bool_decide (a = "e"%char) || _) eqn:Ea; [|by intros [= <- <-]].
    destruct l as [|b l]; cbn [app]; [done|].
    destruct (bool_decide (b = "+"%char) || _) eqn:Eb; intros H1 Hr.
    + destruct (span_digits l) as [d r'] eqn:E. destruct d as [|x d]; [done|].
      injection H1 as <- <-. by rewrite (span_digits_app _ _ _ rest E).
    + destruct (span_digits (b :: l)) as [d r'] eqn:E. destruct d as [|x d]; [done|].
      injection H1 as <- <-. pose proof (span_digits_app _ _ _ rest E Hr) as H2.
      cbn [app] in H2. by rewrite H2.
Qed.

(** A numeral is read whole before anything that cannot continue it. *)
Lemma read_numeral l rest :
  numeral l -> number_stop rest -> parse_number (l ++ rest) = Some (l, rest).
Proof.
  unfold numeral, parse_number. intros H Hr.
  set (p := match l with a :: l' => _ | [] => _ end) in H.
  assert (Hp : match l ++ rest with
               | a :: l' => if bool_decide (a = "-"%char) then ([a], l') else ([], l ++ rest)
               | [] => ([], [])
               end = (p.1, p.2 ++ rest) \/ l = []).
  { destruct l as [|a l]; [by right|left]. unfold p. cbn [app]. by case_bool_decide. }
  destruct Hp as [-> | ->]; [|by cbn in H].
  destruct p as [sign l1]. cbn [fst snd].
  destruct (int_part l1) as [[i l2]|] eqn:Ei; [|done]. cbn [mbind option_bind] in H.
  destruct (frac_part l2) as [[f l3]|] eqn:Ef; [|done]. cbn [mbind option_bind] in H.
  destruct (exp_part l3) as [[e l4]|] eqn:Ee; [|done]. cbn [mbind option_bind] in H.
  injection H as Hl ->.
  pose proof (exp_part_app l3 e [] rest Ee (fun _ => Hr)) as He.
  assert (Hr3 : l3 = [] -> number_stop rest) by done.
  pose proof (frac_part_app l2 f l3 rest Ef Hr3) as Hf.
  assert (Hr2 : l2 = [] -> number_stop rest) by done.
  rewrite (int_part_app l1 i l2 rest Ei Hr2). cbn [mbind option_bind].
  rewrite Hf. cbn [mbind option_bind]. rewrite He. cbn [mbind option_bind].
  by rewrite Hl.
Qed.

Definition number_start (a : ascii) : bool := bool_decide (a = "-"%char) || is_digit a.

Lemma numeral_start l : numeral l -> exists a l', l = a :: l' /\ number_start a = true.
Proof.
  unfold numeral, parse_number, number_start. destruct l as [|a l]; [done|].
  intros H. exists a, l. split; [done|]. case_bool_decide; [done|].
  cbn [int_part] in H. case_bool_decide; subst; [done|]. by destruct (is_digit a).
Qed.

(** ** Values *)

(** A tree as programs build it: ASCII strings, numerals, members that carry the
    encoded text of their value, nesting within the decoder's limit. *)
Fixpoint canonical (d : Z) (j : json) : Prop :=
  match j with
  | JNull | JBool _ => True
  | JNum x => numeral (chars x)
  | JStr s => ascii_only (chars s)
  | JArr l => d + 1 <= maxNestingDepth /\ foldr (fun v P => canonical (d + 1) v /\ P) True l
  | JObj l =>
      d + 1 <= maxNestingDepth /\
      foldr (fun m P => (let '(k, raw, v) := m in
               ascii_only (chars k) /\ raw = Marshal v /\ canonical (d + 1) v) /\ P) True l
  end.

Definition value_start (a : ascii) : bool :=
  number_start a || bool_decide (a ∈ ["n"; "t"; "f"; quo; "["; "{"]%char).

Lemma marshal_start d j : canonical d j ->
  exists a l, marshal j = a :: l /\ value_start a = true.
Proof.
  destruct j as [|[]|x|s|l|l]; simpl; intros Hc; try by do 2 eexists.
  destruct (numeral_start _ Hc) as (a & l & Hl & Ha). exists a, l. rewrite Hl.
  split; [done|]. unfold value_start. by rewrite Ha.
Qed.

(** No value starts with white space or a closing bracket. *)
Lemma value_start_plain a : value_start a = true ->
  is_ws a = false /\ a <> "]"%char /\ a <> "}"%char.
Proof.
  destruct a as [[] [] [] [] [] [] [] []]; intros Ha;
    first [exfalso; revert Ha; vm_compute; congruence|split_and!; [done|congruence..]].
Qed.

Lemma number_start_plain a : number_start a = true ->
  a <> "n"%char /\ a <> "t"%char /\ a <> "f"%char /\ a <> quo /\ a <> "["%char /\ a <> "{"%char.
Proof.
  destruct a as [[] [] [] [] [] [] [] []]; intros Ha;
    first [exfalso; revert Ha; vm_compute; congruence|split_and!; vm_compute; congruence].
Qed.

Lemma skip_ws_value d j rest : canonical d j ->
  skip_ws (marshal j ++ rest) = marshal j ++ rest /\
  eat "]"%char (marshal j ++ rest) = None /\ eat "}"%char (marshal j ++ rest) = None.
Proof.
  intros Hc. destruct (marshal_start d j Hc) as (a & l & -> & Ha).
  destruct (value_start_plain a Ha) as (H1 & H2 & H3). simpl. rewrite H1.
  by rewrite !bool_decide_eq_false_2.
Qed.

Lemma commas_cons x y l : commas (x :: y :: l) = x ++ ","%char :: commas (y :: l).
Proof. done. Qed.

Definition reads (j : json) : Prop := forall n d rest,
  canonical d j -> number_stop rest -> (2 * length (marshal j) <= n)%nat ->
  parse_value n d (marshal j ++ rest) = Some (j, rest).

Lemma parse_elems_reads l : Forall reads l -> l <> [] -> forall n d rest,
  foldr (fun v P => canonical d v /\ P) True l ->
  (2 * length (commas (map marshal l)) + 1 <= n)%nat ->
  parse_elems n d (commas (map marshal l) ++ "]"%char :: rest) = Some (l, rest).
Proof.
  induction 1 as [|v l Hv Hl IH]; [done|]. intros _ n d rest [Hc Hcs] Hn.
  destruct n as [|n]; [lia|]. destruct l as [|w l].
  - cbn [map commas] in *. cbn [parse_elems]. rewrite Hv by (done || lia).
    cbn [mbind option_bind]. done.
  - cbn [map] in *. rewrite commas_cons in *. rewrite length_app in Hn. cbn [length] in Hn.
    rewrite <- app_assoc. cbn [app]. cbn [parse_elems].
    rewrite Hv by (done || lia). cbn [mbind option_bind].
    change (skip_ws (","%char :: ?x)) with (","%char :: x).
    cbn [eat]. rewrite bool_decide_eq_false_2 by done. rewrite bool_decide_eq_true_2 by done.
    assert (Hs : skip_ws (commas (map marshal (w :: l)) ++ "]"%char :: rest) =
                 commas (map marshal (w :: l)) ++ "]"%char :: rest).
    { destruct Hcs as [Hw _]. cbn [map]. destruct l; [cbn [commas]|cbn [map]; rewrite commas_cons,
        <- app_assoc]; by apply (skip_ws_value d). }
    cbn [map] in Hs. cbn [mbind option_bind].
    rewrite Hs, (IH ltac:(done)) by (done || cbn [map]; lia). done.
Qed.

Definition member_text (m : string * string * json) : list ascii :=
  let '(k, _, v) := m in marshal_string k ++ ":"%char :: marshal v.

Definition member_ok (d : Z) (m : string * string * json) : Prop :=
  let '(k, raw, v) := m in ascii_only (chars k) /\ raw = Marshal v /\ canonical d v.

Lemma raw_text_app l rest : raw_text (l ++ rest) rest = unchars l.
Proof.
  unfold raw_text. rewrite length_app, Nat.add_sub. by rewrite take_app_length.
Qed.

(** One member, whatever follows it. *)
Lemma parse_member_reads m tl n d :
  reads m.2 -> member_ok d m -> number_stop tl -> (2 * length (member_text m) <= n)%nat ->
  parse_members (S n) d (member_text m ++ tl) =
    (match eat "}"%char (skip_ws tl) with
     | Some r => Some ([m], r)
     | None =>
         r ← eat ","%char (skip_ws tl);
         '(ms, r) ← parse_members n d (skip_ws r);
         Some (m :: ms, r)
     end).
Proof.
  destruct m as [[k raw] v]. cbn [snd]. intros Hv (Hk & Hraw & Hc) Htl Hn.
  unfold member_text in *. rewrite length_app in Hn. cbn [length] in Hn.
  rewrite <- app_assoc. cbn [parse_members app].
  destruct (read_string k (":"%char :: marshal v ++ tl) Hk) as (q & -> & Hbody).
  cbn [eat]. rewrite bool_decide_eq_true_2 by done. cbn [mbind option_bind].
  rewrite Hbody. cbn [mbind option_bind].
  change (skip_ws (":"%char :: ?x)) with (":"%char :: x). cbn [eat].
  rewrite bool_decide_eq_true_2 by done. cbn [mbind option_bind].
  destruct (skip_ws_value d v tl Hc) as (-> & _ & _).
  rewrite Hv by (done || lia). cbn [mbind option_bind].
  rewrite raw_text_app, unchars_chars. subst raw. done.
Qed.

Lemma member_skip_ws l x : l <> [] ->
  skip_ws (commas (map member_text l) ++ x) = commas (map member_text l) ++ x /\
  eat "}"%char (commas (map member_text l) ++ x) = None.
Proof.
  destruct l as [|[[k raw] v] l]; [done|]. intros _. cbn [map].
  destruct l; cbn [map commas]; done.
Qed.

Lemma parse_members_reads l : Forall (fun m => reads m.2) l -> l <> [] -> forall n d rest,
  foldr (fun m P => member_ok d m /\ P) True l ->
  (2 * length (commas (map member_text l)) + 1 <= n)%nat ->
  parse_members n d (commas (map member_text l) ++ "}"%char :: rest) = Some (l, rest).
Proof.
  induction 1 as [|m l Hv Hl IH]; [done|]. intros _ n d rest [Hm Hcs] Hn.
  destruct n as [|n]; [lia|]. destruct l as [|w l].
  - cbn [map commas] in *. by rewrite parse_member_reads by (done || lia).
  - cbn [map] in *. rewrite commas_cons in *. rewrite length_app in Hn. cbn [length] in Hn.
    rewrite <- app_assoc. cbn [app]. rewrite parse_member_reads by (done || lia).
    change (skip_ws (","%char :: ?x)) with (","%char :: x).
    cbn [eat]. rewrite bool_decide_eq_false_2 by done.
    rewrite bool_decide_eq_true_2 by done. cbn [mbind option_bind].
    destruct (member_skip_ws (w :: l) ("}"%char :: rest)) as [Hs _]; [done|]. cbn [map] in Hs.
    rewrite Hs, (IH ltac:(done)) by (done || lia). done.
Qed.

Lemma reads_array l : Forall reads l -> reads (JArr l).
Proof.
  intros IH n d rest [Hd Hc] Hr Hn. cbn [marshal length] in *.
  rewrite length_app in Hn. cbn [length] in Hn.
  destruct n as [|n]; [lia|]. rewrite <- app_comm_cons, <- app_assoc. cbn [parse_value app].
  rewrite !bool_decide_eq_false_2 by done. rewrite bool_decide_eq_true_2 by done.
  rewrite (proj2 (Z.ltb_ge _ _)) by done. destruct l as [|v l]; [done|].
  assert (Hs : skip_ws (commas (map marshal (v :: l)) ++ "]"%char :: rest) =
                 commas (map marshal (v :: l)) ++ "]"%char :: rest /\
               eat "]"%char (commas (map marshal (v :: l)) ++ "]"%char :: rest) = None).
  { destruct Hc as [Hv _]. cbn [map]. destruct l; [cbn [map commas]|cbn [map];
      rewrite commas_cons, <- app_assoc]; by edestruct skip_ws_value as (-> & -> & _). }
  destruct Hs as [-> ->]. by rewrite parse_elems_reads by (done || lia).
Qed.

Lemma reads_object l : Forall (fun m => reads m.2) l -> reads (JObj l).
Proof.
  intros IH n d rest [Hd Hc] Hr Hn. cbn [marshal length] in *.
  change (map (fun kv : string * string * json => _) l) with (map member_text l) in *.
  rewrite length_app in Hn. cbn [length] in Hn.
  destruct n as [|n]; [lia|]. rewrite <- app_comm_cons, <- app_assoc. cbn [parse_value app].
  rewrite !bool_decide_eq_false_2 by done. rewrite bool_decide_eq_true_2 by done.
  rewrite (proj2 (Z.ltb_ge _ _)) by done. destruct l as [|m l]; [done|].
  destruct (member_skip_ws (m :: l) ("}"%char :: rest)) as [Hs1 Hs2]; [done|].
  rewrite Hs1, Hs2. by rewrite parse_members_reads by (done || lia).
Qed.

Lemma reads_all j : reads j.
Proof.
  induction j as [|b|x|s|l IH|l IH] using json_nested_ind; intros n d rest Hc Hr Hn.
  - destruct n as [|n]; [simpl in Hn; lia|]. reflexivity.
  - destruct n as [|n]; [destruct b; simpl in Hn; lia|]. destruct b; reflexivity.
  - simpl in Hc. destruct (numeral_start _ Hc) as (a & l & Hl & Ha).
    pose proof (read_numeral _ rest Hc Hr) as Hp. cbn [marshal] in *. rewrite Hl in *.
    destruct n as [|n]; [simpl in Hn; lia|].
    destruct (number_start_plain a Ha) as (?&?&?&?&?&?). cbn [parse_value app].
    rewrite !bool_decide_eq_false_2 by done. cbn [app] in Hp. rewrite Hp.
    cbn [mbind option_bind]. rewrite <- Hl. by rewrite unchars_chars.
  - simpl in Hc. cbn [marshal] in *. destruct (read_string s rest Hc) as (q & -> & Hb).
    destruct n as [|n]; [simpl in Hn; lia|]. cbn [parse_value].
    rewrite !bool_decide_eq_false_2 by done. rewrite bool_decide_eq_true_2 by done.
    rewrite Hb. cbn [mbind option_bind]. by rewrite unchars_chars.
  - by apply reads_array.
  - by apply reads_object.
Qed.

(** The encoder and the decoder are inverse on what programs build: every tree of
    ASCII strings and numerals within the nesting limit is read back from its encoded
    text exactly, the source text a raw field receives included, and white space
    around the text does not matter. *)
Theorem Unmarshal_Marshal j before_ after :
  canonical 0 j -> Forall (fun a => is_ws a = true) before_ ->
  Forall (fun a => is_ws a = true) after ->
  Unmarshal (unchars (before_ ++ marshal j ++ after)) = Some j.
Proof.
  intros Hc Hb Ha. unfold Unmarshal. rewrite chars_unchars.
  assert (Hs : skip_ws (before_ ++ marshal j ++ after) = marshal j ++ after).
  { induction Hb as [|a b Hw _ IH]; [by apply (skip_ws_value 0)|]. simpl. by rewrite Hw. }
  assert (Hst : number_stop after).
  { destruct Ha as [|a l Hw _]; [done|]. simpl. revert Hw.
    destruct a as [[] [] [] [] [] [] [] []]; intros Hw;
      first [exfalso; revert Hw; vm_compute; congruence|split_and!; [done|congruence..]]. }
  rewrite Hs, (reads_all j) by (try done; rewrite !length_app; lia).
  cbn [mbind option_bind].
  assert (Hsk : skip_ws after = []); [|by rewrite Hsk].
  clear -Ha. induction Ha as [|a l Hw _ IH]; [done|]. simpl. by rewrite Hw.
Qed.

Lemma Unmarshal_marshal j : canonical 0 j -> Unmarshal (unchars (marshal j)) = Some j.
Proof.
  intros Hc. pose proof (Unmarshal_Marshal j [] [] Hc ltac:(constructor) ltac:(constructor)) as H.
  by rewrite app_nil_l, app_nil_r in H.
Qed.

(** ** Integers *)
Lemma digit_spec d : 0 <= d < 10 ->
  is_digit (digit d) = true /\ byte_of (digit d) - 0x30 = d /\ (d <> 0 -> digit d <> "0"%char).
Proof.
  intros Hd. assert (d ∈ [0; 1; 2; 3; 4; 5; 6; 7; 8; 9]) as Hin.
  { set_unfold. lia. }
  set_unfold in Hin. destruct_or? Hin; subst; (split_and!; [done|done|intros; vm_compute; congruence]).
Qed.

Lemma digits_value_app a0 l k v :
  digits_value a0 l = Some v -> digits_value a0 (l ++ k) = digits_value v k.
Proof.
  revert a0. induction l as [|a l IH]; intros a0; simpl; [congruence|].
  destruct (is_digit a); [apply IH|done].
Qed.

(** The printed digits: all digits, no leading zero but of zero itself, and their
    value. *)
Lemma digits_fuel_spec n : forall z acc, 0 <= z < 10 ^ Z.of_nat n -> (1 <= n)%nat ->
  exists d ds, digits_fuel n z acc = d :: ds ++ acc /\
    Forall (fun a => is_digit a = true) (d :: ds) /\
    digits_value 0 (d :: ds) = Some z /\ (d = "0"%char -> ds = []).
Proof.
  induction n as [|n IH]; intros z acc Hz Hn; [lia|].
  cbn [digits_fuel]. destruct (z <? 10) eqn:E; breflect.
  - destruct (digit_spec z) as (Hd & Hv & _); [lia|]. exists (digit z), [].
    split_and!; [done|by constructor|cbn; rewrite Hd; f_equal; lia|done].
  - rewrite Nat2Z.inj_succ, Z.pow_succ_r in Hz by lia.
    assert (Hn' : (1 <= n)%nat) by (destruct n; [simpl in Hz; lia|lia]).
    assert (Hq : 0 <= z / 10 < 10 ^ Z.of_nat n).
    { split; [apply Z.div_pos; lia|apply Z.div_lt_upper_bound; lia]. }
    destruct (IH (z / 10) (digit (z mod 10) :: acc) Hq Hn') as (d & ds & -> & HF & Hv & Hz0).
    destruct (digit_spec (z mod 10)) as (Hd & Hval & _); [apply Z.mod_pos_bound; lia|].
    exists d, (ds ++ [digit (z mod 10)]). split_and!.
    + by rewrite <- app_assoc.
    + rewrite app_comm_cons, Forall_app. by split; [|constructor].
    + rewrite app_comm_cons, (digits_value_app _ _ _ _ Hv). cbn. rewrite Hd. f_equal.
      rewrite Hval. pose proof (Z.div_mod z 10). lia.
    + intros ->. specialize (Hz0 eq_refl). subst ds. cbn in Hv. injection Hv as Hv.
      change (byte_of "0") with 48 in Hv.
      assert (1 <= z / 10) by (apply Z.div_le_lower_bound; lia). lia.
Qed.

Lemma nat_string_spec z : 0 <= z -> exists d ds, chars (nat_string z) = d :: ds /\
    Forall (fun a => is_digit a = true) (d :: ds) /\
    digits_value 0 (d :: ds) = Some z /\ (d = "0"%char -> ds = []).
Proof.
  intros Hz. unfold nat_string. rewrite chars_unchars.
  destruct (digits_fuel_spec (S (Z.to_nat (Z.log2 z))) z []) as (d & ds & -> & H); [|lia|].
  - split; [done|]. rewrite Nat2Z.inj_succ, Z2Nat.id by apply Z.log2_nonneg.
    destruct (decide (z = 0)) as [->|]; [done|].
    eapply Z.lt_le_trans; [apply Z.log2_spec; lia|].
    apply Z.pow_le_mono_l. pose proof (Z.log2_nonneg z). lia.
  - exists d, ds. rewrite app_nil_r. by destruct H.
Qed.

Lemma span_digits_all l : Forall (fun a => is_digit a = true) l -> span_digits l = (l, []).
Proof. induction 1 as [|a l Ha _ IH]; [done|]. simpl. by rewrite Ha, IH. Qed.

Lemma digits_numeral d ds :
  Forall (fun a => is_digit a = true) (d :: ds) -> (d = "0"%char -> ds = []) ->
  numeral (d :: ds) /\ numeral ("-"%char :: d :: ds).
Proof.
  intros HF Hz. assert (Hi : int_part (d :: ds) = Some (d :: ds, [])).
  { unfold int_part. case_bool_decide as Hd.
    - rewrite (Hz Hd). by subst.
    - apply Forall_cons in HF as HF'. destruct HF' as [-> _].
      f_equal. by apply span_digits_all. }
  assert (Hm : d <> "-"%char).
  { apply Forall_cons in HF as [Hd _]. intros ->. done. }
  unfold numeral, parse_number. rewrite bool_decide_eq_false_2 by done.
  rewrite bool_decide_eq_true_2 by done. rewrite Hi. cbn [mbind option_bind frac_part exp_part].
  rewrite !app_nil_r. done.
Qed.

(** Integers are numerals and read back as themselves. *)
Lemma JInt_roundtrip z x : in_int64 z -> canonical 0 (JInt z) /\ dec_int (JInt z) x = Some z.
Proof.
  intros Hr. unfold canonical, JInt, dec_int, int_string.
  destruct (z <? 0) eqn:E; breflect.
  - destruct (nat_string_spec (- z)) as (d & ds & Hc & HF & Hv & Hz); [lia|].
    assert (Hch : chars ("-" +:+ nat_string (- z)) = "-"%char :: d :: ds).
    { rewrite sapp_cons, sapp_nil. unfold chars in *. simpl. by rewrite Hc. }
    rewrite Hch. split; [by apply digits_numeral|]. unfold ParseInt. rewrite Hch.
    rewrite bool_decide_eq_true_2 by done. rewrite Hv. cbn [mbind option_bind].
    rewrite Z.opp_involutive, (proj2 (andb_true_iff _ _)); [done|].
    rewrite !Z.leb_le. unfold in_int64 in Hr. lia.
  - destruct (nat_string_spec z) as (d & ds & Hc & HF & Hv & Hz); [lia|].
    rewrite Hc. split; [by apply digits_numeral|]. unfold ParseInt. rewrite Hc.
    apply Forall_cons in HF as HF'. destruct HF' as [Hd _].
    rewrite bool_decide_eq_false_2 by (intros ->; done).
    rewrite bool_decide_eq_false_2 by (intros ->; done). rewrite Hv. cbn [mbind option_bind].
    rewrite (proj2 (andb_true_iff _ _)); [done|].
    rewrite !Z.leb_le. unfold in_int64 in Hr. lia.
Qed.
