(* ===== verification/GoTime.v ===== *)
(** * Durations in text: [time.ParseDuration]

    A sequence of decimal numbers, each with a fraction and a unit. Integer parts are
    64-bit; fractions go through [float64], here the IEEE-754 operations of [SpecFloat] at
    53 bits. *)

From Stdlib Require Import ZArith Lia Ascii.
From Stdlib Require Import Floats.SpecFloat.
From stdpp Require Import prelude list strings.
From S2P Require Import Prelude GoInt GoText Json.

Local Open Scope Z_scope.

Definition f64_of (n : Z) : spec_float := binary_normalize 53 1024 n 0 false.
Definition f64_mul (x y : spec_float) : spec_float := SFmul 53 1024 x y.
Definition f64_div (x y : spec_float) : spec_float := SFdiv 53 1024 x y.

(** [uint64(x)] of a float that is not negative and below [2^64]. *)
Definition f64_trunc (x : spec_float) : Z :=
  match x with
  | S754_finite false m e => if 0 <=? e then Z.shiftl (Zpos m) e else Z.shiftr (Zpos m) (- e)
  | _ => 0
  end.

(** [leadingInt]; [None] on overflow. *)
Fixpoint leadingInt (x : Z) (l : list ascii) : option (Z * list ascii) :=
  match l with
  | a :: l' =>
      if is_digit a then
        if x >? 2 ^ 63 / 10 then None
        else
          let x := x * 10 + (byte_of a - 0x30) in
          if x >? 2 ^ 63 then None else leadingInt x l'
      else Some (x, l)
  | [] => Some (x, l)
  end.

(** [leadingFraction]: digits that no longer fit are skipped. *)
Fixpoint leadingFraction (x : Z) (scale : spec_float) (overflow : bool) (l : list ascii)
    : Z * spec_float * list ascii :=
  match l with
  | a :: l' =>
      if is_digit a then
        if overflow then leadingFraction x scale true l'
        else if x >? (2 ^ 63 - 1) / 10 then leadingFraction x scale true l'
        else
          let y := x * 10 + (byte_of a - 0x30) in
          if y >? 2 ^ 63 then leadingFraction x scale true l'
          else leadingFraction y (f64_mul scale (f64_of 10)) false l'
      else (x, scale, l)
  | [] => (x, scale, l)
  end.

Definition is_unit_char (a : ascii) : bool := negb (bool_decide (a = "."%char) || is_digit a).

Fixpoint span_unit (l : list ascii) : list ascii * list ascii :=
  match l with
  | a :: l' => if is_unit_char a then let '(u, r) := span_unit l' in (a :: u, r) else ([], l)
  | [] => ([], [])
  end.

(** [unitMap]. *)
Definition unit_of (u : list ascii) : option Z :=
  let u := unchars u in
  if u =s "ns" then Some Nanosecond
  else if (u =s "us")
       || (u =s unchars [of_byte 0xC2; of_byte 0xB5; "s"%char])
       || (u =s unchars [of_byte 0xCE; of_byte 0xBC; "s"%char]) then Some Microsecond
  else if u =s "ms" then Some Millisecond
  else if u =s "s" then Some Second
  else if u =s "m" then Some Minute
  else if u =s "h" then Some (60 * Minute)
  else None.

(** One number with its unit. *)
Definition parse_term (l : list ascii) : option (Z * list ascii) :=
  match l with
  | [] => None
  | a :: _ =>
      if negb (bool_decide (a = "."%char) || is_digit a) then None
      else
        '(v, l1) ← leadingInt 0 l;
        let pre := negb (bool_decide (length l1 = length l)) in
        let '(f, scale, l2, post) :=
          match l1 with
          | b :: l1' =>
              if bool_decide (b = "."%char) then
                let '(f, scale, l2) := leadingFraction 0 (f64_of 1) false l1' in
                (f, scale, l2, negb (bool_decide (length l2 = length l1')))
              else (0, f64_of 1, l1, false)
          | [] => (0, f64_of 1, l1, false)
          end in
        if negb pre && negb post then None
        else
          let '(u, l3) := span_unit l2 in
          if bool_decide (u = []) then None
          else
            unit ← unit_of u;
            if v >? 2 ^ 63 / unit then None
            else
              let v := v * unit in
              if f >? 0 then
                let v := wrapU64 (v + f64_trunc (f64_mul (f64_of f) (f64_div (f64_of unit) scale))) in
                if v >? 2 ^ 63 then None else Some (v, l3)
              else Some (v, l3)
  end.

(** Every term takes at least one character. *)
Fixpoint parse_terms (n : nat) (d : Z) (l : list ascii) : option Z :=
  match l, n with
  | [], _ => Some d
  | _, O => None
  | _, S n =>
      '(v, l) ← parse_term l;
      let d := wrapU64 (d + v) in
      if d >? 2 ^ 63 then None else parse_terms n d l
  end.

Definition ParseDuration (s : string) : option Z :=
  let '(neg, l) :=
    match chars s with
    | a :: l => if bool_decide (a = "-"%char) then (true, l)
                else if bool_decide (a = "+"%char) then (false, l)
                else (false, a :: l)
    | [] => (false, [])
    end in
  if bool_decide (l = ["0"%char]) then Some 0
  else if bool_decide (l = []) then None
  else
    d ← parse_terms (length l) 0 l;
    if neg : bool then Some (wrap64 (- d))
    else if d >? 2 ^ 63 - 1 then None
    else Some d.

Example duration_seconds : ParseDuration "120s" = Some (120 * Second).
Proof. vm_compute. reflexivity. Qed.
Example duration_fraction : ParseDuration "-1h1.5s" = Some (- (3601 * Second + 500 * Millisecond)).
Proof. vm_compute. reflexivity. Qed.
Example duration_date : ParseDuration "Wed, 21 Oct 2015 07:28:00 GMTs" = None.
Proof. vm_compute. reflexivity. Qed.
