(* ===== verification/GoOs.v ===== *)
(** * The process environment: [os.Getenv], [os.Expand] and [strconv.Atoi]

    The environment is the function [os.Getenv] computes, empty for a variable that is
    not set. *)

From Stdlib Require Import ZArith Lia Ascii.
From stdpp Require Import prelude list strings.
From S2P Require Import Prelude GoInt GoText Json.

Local Open Scope Z_scope.

Abbreviation Getenv := (string -> string).

(** [strconv.Atoi]; the callers only ask whether it fails. *)
Definition Atoi (s : string) : option Z := ParseInt s.

Definition shell_special (a : ascii) : bool :=
  bool_decide (a ∈ chars "*#$@!?-0123456789").

Definition alpha_num (a : ascii) : bool :=
  let z := byte_of a in
  (z =? 0x5F) || between 0x30 0x39 z || between 0x61 0x7A z || between 0x41 0x5A z.

(** The bytes before the first [c], if there is one. *)
Fixpoint before (c : ascii) (l : list ascii) : option (list ascii) :=
  match l with
  | [] => None
  | a :: l => if bool_decide (a = c) then Some [] else cons a <$> before c l
  end.

Fixpoint span_alpha (l : list ascii) : list ascii :=
  match l with
  | a :: l => if alpha_num a then a :: span_alpha l else []
  | [] => []
  end.

Definition braced (l : list ascii) : list ascii * nat :=
  match before "}"%char l with
  | Some [] => ([], 2%nat)
  | Some name => (name, (length name + 2)%nat)
  | None => ([], 1%nat)
  end.

(** [getShellName]: the name after a dollar sign, and how many bytes it takes. *)
Definition getShellName (l : list ascii) : list ascii * nat :=
  match l with
  | [] => ([], O)
  | a :: l1 =>
      if bool_decide (a = "{"%char) then
        match l1 with
        | c :: d :: _ =>
            if shell_special c && bool_decide (d = "}"%char) then ([c], 3%nat) else braced l1
        | _ => braced l1
        end
      else if shell_special a then ([a], 1%nat)
      else let name := span_alpha l in (name, length name)
  end.

Lemma chars_length s : length (chars s) = String.length s.
Proof. unfold chars. induction s; simpl; congruence. Qed.

Section Expand.
Context (mapping : Getenv).

(** A name is looked up; bad syntax vanishes; a dollar sign without a name stays. *)
Definition expansion (name : list ascii) (w : nat) : list ascii :=
  if bool_decide (name = []) then (if bool_decide (w = O) then ["$"%char] else [])
  else chars (mapping (unchars name)).

Fixpoint expand_fuel (n : nat) (l : list ascii) : list ascii :=
  match n, l with
  | S n, a :: l' =>
      if bool_decide (a = "$"%char) && negb (bool_decide (l' = [])) then
        let '(name, w) := getShellName l' in
        expansion name w ++ expand_fuel n (drop w l')
      else a :: expand_fuel n l'
  | _, _ => []
  end.

(** [os.Expand]; every step takes a byte at least, so the length is enough fuel. *)
Definition Expand (s : string) : string := unchars (expand_fuel (String.length s) (chars s)).

(** ** Templates: what a well-formed text expands to *)

Inductive piece := Text (t : list ascii) | Var (name : list ascii).

Definition well_formed (x : piece) : Prop :=
  match x with
  | Text t => "$"%char ∉ t
  | Var name => name <> [] /\ "}"%char ∉ name
  end.

Definition source_of (x : piece) : list ascii :=
  match x with
  | Text t => t
  | Var name => "$"%char :: "{"%char :: name ++ ["}"%char]
  end.

Definition value_of (x : piece) : list ascii :=
  match x with Text t => t | Var name => chars (mapping (unchars name)) end.

Lemma before_app c name l : c ∉ name -> before c (name ++ c :: l) = Some name.
Proof.
  induction name as [|a name IH]; simpl; intros Hn.
  - by rewrite bool_decide_eq_true_2.
  - apply not_elem_of_cons in Hn as [Ha Hn]. rewrite bool_decide_eq_false_2 by done.
    by rewrite IH.
Qed.

Lemma braced_name name l :
  name <> [] -> "}"%char ∉ name -> braced (name ++ "}"%char :: l) = (name, (length name + 2)%nat).
Proof. intros Hne Hn. unfold braced. rewrite before_app by done. by destruct name. Qed.

Lemma getShellName_braced name l :
  name <> [] -> "}"%char ∉ name ->
  getShellName ("{"%char :: name ++ "}"%char :: l) = (name, (length name + 2)%nat).
Proof.
  intros Hne Hn. cbn [getShellName]. rewrite bool_decide_eq_true_2 by done.
  pose proof (braced_name name l Hne Hn) as Hb.
  destruct name as [|c name]; [done|]. destruct name as [|d name]; cbn [app] in *.
  - destruct (shell_special c); [|done]. simpl. done.
  - rewrite Hb. destruct (shell_special c); [|done]. rewrite bool_decide_eq_false_2; [done|].
    intros ->. set_solver.
Qed.

Lemma expand_text n t l :
  "$"%char ∉ t -> (length t <= n)%nat -> expand_fuel n (t ++ l) = t ++ expand_fuel (n - length t) l.
Proof.
  revert n. induction t as [|a t IH]; simpl; intros n Ht Hn; [by rewrite Nat.sub_0_r|].
  apply not_elem_of_cons in Ht as [Ha Ht]. destruct n as [|n]; [lia|]. simpl.
  rewrite bool_decide_eq_false_2 by done. simpl. rewrite IH; [done|done|lia].
Qed.

Lemma expand_var n name l :
  well_formed (Var name) -> (length (source_of (Var name)) <= n)%nat ->
  expand_fuel n (source_of (Var name) ++ l) =
    value_of (Var name) ++ expand_fuel (n - 1) l.
Proof.
  intros [Hne Hn] Hlen. destruct n as [|n]; [simpl in Hlen; lia|].
  cbn [source_of app expand_fuel]. rewrite <- app_assoc. cbn [app].
  rewrite bool_decide_eq_true_2 by done. cbn [negb andb].
  rewrite (bool_decide_eq_false_2 (_ = [])) by done. cbn [negb andb].
  rewrite getShellName_braced by done.
  assert (drop (length name + 2) ("{"%char :: name ++ "}"%char :: l) = l) as ->.
  { replace (length name + 2)%nat with (S (length name + 1)) by lia. simpl.
    replace (name ++ "}"%char :: l) with ((name ++ ["}"%char]) ++ l) by by rewrite <- app_assoc.
    apply drop_app_length'. rewrite length_app. simpl. lia. }
  unfold expansion. rewrite bool_decide_eq_false_2 by done.
  by rewrite Nat.sub_succ, Nat.sub_0_r.
Qed.

(** Each [${NAME}] is replaced by its value, which is not looked at again; the text between
    them is kept. *)
Lemma expand_pieces n xs :
  Forall well_formed xs -> (length (mjoin (source_of <$> xs)) <= n)%nat ->
  expand_fuel n (mjoin (source_of <$> xs)) = mjoin (value_of <$> xs).
Proof.
  intros HF. revert n. induction HF as [|x xs Hx HF IH]; intros n Hn; [by destruct n|].
  change (mjoin (source_of <$> x :: xs)) with (source_of x ++ mjoin (source_of <$> xs)) in *.
  change (mjoin (value_of <$> x :: xs)) with (value_of x ++ mjoin (value_of <$> xs)).
  rewrite length_app in Hn.
  destruct x as [t|name].
  - cbn [source_of] in *. rewrite expand_text by (done || lia). rewrite IH by lia. done.
  - rewrite expand_var by (done || lia). rewrite IH; [done|]. cbn [source_of length] in Hn. lia.
Qed.

Lemma Expand_template xs :
  Forall well_formed xs ->
  Expand (unchars (mjoin (source_of <$> xs))) = unchars (mjoin (value_of <$> xs)).
Proof.
  intros HF. unfold Expand. f_equal. rewrite chars_unchars. apply expand_pieces; [done|].
  rewrite <- chars_length, chars_unchars. done.
Qed.
End Expand.

Example expand_example :
  Expand (fun k => if k =s "HOST" then "a$HOST" else "") "x${HOST}/$$1 $HOST-${}${Z" = "xa$HOST/1 a$HOST-Z".
Proof. vm_compute. reflexivity. Qed.
