(* ===== verification/Config.v ===== *)
(** * The endpoint file ([internal/endpoint/config.go])

    The YAML decoder is a parameter: it gives a map from model names to lists of entries.
    Ranging over that map takes the models in an order of the runtime's choice, the
    argument [order]. *)

From Stdlib Require Import ZArith Lia.
From stdpp Require Import prelude gmap list strings.
From S2P Require Import Prelude GoInt GoText GoErr GoTime GoOs.
From S2P Require Import Breaker Endpoint Wrr Pool PoolSpec.

Local Open Scope Z_scope.

Record fileEndpoint := mkFileEndpoint {
  rawID : string;
  rawProvider : string;
  rawBaseURL : string;
  rawAPIKey : string;
  rawWeight : Z;
  rawRegion : string;
  rawModelName : string;
  rawTimeout : string;
  rawAPIVersion : string
}.

Abbreviation fileConfig := (gmap string (list fileEndpoint)).

(** [yaml.Unmarshal] into a [fileConfig]; and what [time.ParseDuration] says about a text
    it refuses. *)
Class Yaml := yaml_unmarshal : string -> fileConfig + error.
Class DurationError := duration_error : string -> error.

(** [ExpandEnv] of [endpoint.go]. *)
Definition ExpandEnv (getenv : Getenv) (value : string) : string := Expand getenv (TrimSpace value).

Section Parse.
Context `{Yaml} `{DurationError} (getenv : Getenv).

Definition rawEndpoint (model : string) (raw : fileEndpoint) (timeout : Z) : Endpoint :=
  mkEndpoint (rawID raw) (ExpandEnv getenv (rawProvider raw)) model
    (ExpandEnv getenv (rawModelName raw)) (ExpandEnv getenv (rawBaseURL raw))
    (ExpandEnv getenv (rawAPIKey raw)) (rawRegion raw) (rawWeight raw) timeout
    (ExpandEnv getenv (rawAPIVersion raw)).

(** The body of the inner loop. *)
Definition makeEndpoint (model : string) (raw : fileEndpoint) : Endpoint + error :=
  let checked ep := match Validate ep with Some err => inr err | None => inl ep end in
  if negb (rawTimeout raw =s "") then
    match ParseDuration (rawTimeout raw) with
    | None =>
        inr (errorWrap ("endpoint " +:+ rawID raw +:+ " timeout: ") (duration_error (rawTimeout raw)))
    | Some d => checked (rawEndpoint model raw d)
    end
  else checked (rawEndpoint model raw 0).

Fixpoint modelLoop (model : string) (raws : list fileEndpoint) (out : list Endpoint)
    : list Endpoint + error :=
  match raws with
  | [] => inl out
  | raw :: raws =>
      match makeEndpoint model raw with
      | inr err => inr err
      | inl ep => modelLoop model raws (out ++ [ep])
      end
  end.

Fixpoint configLoop (cfg : fileConfig) (order : list string) (out : list Endpoint)
    : list Endpoint + error :=
  match order with
  | [] => inl out
  | model :: order =>
      match modelLoop model (default [] (cfg !! model)) out with
      | inr err => inr err
      | inl out => configLoop cfg order out
      end
  end.

Definition ParseYAML (body : string) (order : list string) : list Endpoint + error :=
  match yaml_unmarshal body with
  | inr err => inr (errorWrap "parse endpoints yaml: " err)
  | inl cfg =>
      match configLoop cfg order [] with
      | inr err => inr err
      | inl [] => inr (errorsNew "no endpoints in config")
      | inl out => inl out
      end
  end.

(** [LoadYAML]; the file's content or the error of reading it. *)
Definition LoadYAML (file : string + error) (order : list string) : list Endpoint + error :=
  match file with
  | inr err => inr err
  | inl body => ParseYAML body order
  end.

(** ** What the file says, apart from any order *)

(** An order of the runtime: every model of the file once. *)
Definition range_order (cfg : fileConfig) (order : list string) : Prop :=
  order ≡ₚ (map_to_list cfg).*1.

Definition entry_ok (model : string) (raw : fileEndpoint) : Prop :=
  exists ep, makeEndpoint model raw = inl ep.

Definition entry (model : string) (raw : fileEndpoint) : list Endpoint :=
  match makeEndpoint model raw with inl ep => [ep] | inr _ => [] end.

Definition entries (cfg : fileConfig) (model : string) : list Endpoint :=
  mjoin (entry model <$> default [] (cfg !! model)).

Definition all_ok (cfg : fileConfig) : Prop :=
  forall model raws, cfg !! model = Some raws -> Forall (entry_ok model) raws.

Lemma makeEndpoint_valid model raw ep :
  makeEndpoint model raw = inl ep -> Validate ep = None /\ Model ep = model /\ ID ep = rawID raw.
Proof.
  unfold makeEndpoint. intros Hm. repeat hcase Hm; simplify_eq; by repeat split.
Qed.

Lemma modelLoop_spec model raws out :
  match modelLoop model raws out with
  | inl out' => Forall (entry_ok model) raws /\ out' = out ++ mjoin (entry model <$> raws)
  | inr _ => exists raw, raw ∈ raws /\ ~ entry_ok model raw
  end.
Proof.
  revert out. induction raws as [|raw raws IH]; intros out; cbn [modelLoop].
  - split; [constructor|]. by rewrite app_nil_r.
  - destruct (makeEndpoint model raw) as [ep|err] eqn:E.
    + specialize (IH (out ++ [ep])). destruct (modelLoop _ _ _) as [out'|].
      * destruct IH as [HF ->]. split; [constructor; [by eexists|done]|].
        change (mjoin (entry model <$> raw :: raws)) with (entry model raw ++ mjoin (entry model <$> raws)).
        unfold entry at 2. by rewrite E, <- app_assoc.
      * destruct IH as (r & Hr & Hbad). exists r. split; [by right|done].
    + exists raw. split; [by left|]. intros [ep Hep]. congruence.
Qed.

Lemma configLoop_spec cfg order out :
  match configLoop cfg order out with
  | inl out' => (forall model, model ∈ order -> Forall (entry_ok model) (default [] (cfg !! model))) /\
                out' = out ++ mjoin (entries cfg <$> order)
  | inr _ => exists model raw, model ∈ order /\ raw ∈ default [] (cfg !! model) /\ ~ entry_ok model raw
  end.
Proof.
  revert out. induction order as [|model order IH]; intros out; cbn [configLoop].
  - split; [set_solver|]. by rewrite app_nil_r.
  - pose proof (modelLoop_spec model (default [] (cfg !! model)) out) as Hm.
    destruct (modelLoop _ _ out) as [out1|].
    + destruct Hm as [HF ->]. specialize (IH (out ++ entries cfg model)). fold (entries cfg model).
      destruct (configLoop _ _ _).
      * destruct IH as [HF' ->]. split; [|by rewrite <- app_assoc].
        intros m [->|Hm]%elem_of_cons; [done|by apply HF'].
      * destruct IH as (m & raw & ? & ? & ?). exists m, raw. split; [by right|done].
    + destruct Hm as (raw & ? & ?). exists model, raw. split; [by left|done].
Qed.

Lemma range_order_elem cfg order model :
  range_order cfg order -> model ∈ order <-> is_Some (cfg !! model).
Proof.
  intros Ho. rewrite Ho. split.
  - intros ([k v] & -> & Hin)%list_elem_of_fmap. apply elem_of_map_to_list in Hin. by eexists.
  - intros [v Hv]. apply list_elem_of_fmap. exists (model, v). split; [done|].
    by apply elem_of_map_to_list.
Qed.

Lemma range_order_ok cfg order :
  range_order cfg order ->
  all_ok cfg <-> forall model, model ∈ order -> Forall (entry_ok model) (default [] (cfg !! model)).
Proof.
  intros Ho. split.
  - intros Hall model Hm. apply (range_order_elem _ _ _ Ho) in Hm as [raws Hr]. rewrite Hr. by apply Hall.
  - intros Hall model raws Hr. specialize (Hall model). rewrite Hr in Hall. apply Hall.
    apply (range_order_elem _ _ _ Ho). by eexists.
Qed.

Lemma entries_model cfg model : Forall (fun e => Model e = model) (entries cfg model).
Proof.
  unfold entries. induction (default [] (cfg !! model)) as [|raw raws IH]; [constructor|].
  change (mjoin (entry model <$> raw :: raws)) with (entry model raw ++ mjoin (entry model <$> raws)).
  apply Forall_app. split; [|done]. unfold entry.
  destruct (makeEndpoint model raw) as [ep|] eqn:E; [|constructor].
  repeat constructor. by apply makeEndpoint_valid in E as (_ & ? & _).
Qed.

(** Whatever the order, the endpoints of a model are its entries in the file's order. *)
Lemma entries_of_order cfg order model :
  NoDup order -> (model ∉ order -> entries cfg model = []) ->
  filter (fun e => Model e = model) (mjoin (entries cfg <$> order)) = entries cfg model.
Proof.
  intros Hnd. induction Hnd as [|m order Hm Hnd IH]; intros Hout; [symmetry; apply Hout; set_solver|].
  change (mjoin (entries cfg <$> m :: order)) with (entries cfg m ++ mjoin (entries cfg <$> order)).
  rewrite filter_app. destruct (decide (m = model)) as [->|Hne].
  - rewrite filter_Forall_all by apply entries_model. rewrite filter_Forall_none; [by rewrite app_nil_r|].
    apply Forall_forall. intros e He%list_elem_of_join. destruct He as (es & He & Hes).
    apply list_elem_of_fmap in Hes as (k & -> & Hk).
    pose proof (entries_model cfg k) as HF. rewrite Forall_forall in HF. rewrite (HF e He). by intros <-.
  - rewrite filter_Forall_none.
    + apply IH. intros Hni. apply Hout. set_solver.
    + eapply Forall_impl; [apply entries_model|]. by intros e <-.
Qed.

Lemma NewPool_accepts es c :
  Forall (fun e => Validate e = None) es -> exists p, NewPool es c = inr p.
Proof.
  intros HV. unfold NewPool. pose proof (Replace_built (emptyPool c) es (emptyPool_WF c)) as HR.
  destruct (Replace es (emptyPool c)) as [[err|] p]; [|by eexists].
  destruct HR as (_ & e & He & Hbad). rewrite Forall_forall in HV. by rewrite HV in Hbad.
Qed.

(** The round-robin list of a model in a new pool. *)
Lemma NewPool_model es c p model :
  NewPool es c = inr p ->
  ep_at (members p) <$> model_members p model = normalize <$> filter (fun e => Model e = model) es.
Proof.
  intros (HV & st & HB & ->)%NewPool_built. apply (fresh_view c es st model HB HV).
Qed.

(** The ID index of a new pool. *)
Lemma NewPool_ids es c p :
  NewPool es c = inr p ->
  (forall id, is_Some (byID p !! id) <-> exists e, e ∈ es /\ ID e = id) /\
  (forall e, e ∈ es -> (forall e', e' ∈ es -> ID e' = ID e -> e' = e) ->
     exists l, byID p !! ID e = Some l /\ ep_at (members p) l = normalize e /\
       l ∈ model_members p (Model e)).
Proof.
  intros (HV & st & HB & ->)%NewPool_built. cbn [byID members]. split.
  - intros id. split.
    + intros [l Hl]. destruct (bu_id _ _ _ HB id l Hl) as (e & ? & ? & _). eauto.
    + intros (e & He & <-). by apply (bu_dom _ _ _ HB).
  - intros e He Huniq. destruct (bu_dom _ _ _ HB e He) as [l Hl].
    destruct (bu_id _ _ _ HB _ _ Hl) as (e' & He' & Hid & Hmade & Hin).
    assert (e' = e) as -> by by apply Huniq.
    destruct (made_member _ _ _ _ Hmade) as (m & Hm & Hep).
    exists l. split_and!; [done| |done]. unfold ep_at. by rewrite Hm, <- Hep.
Qed.

Lemma entries_valid cfg model : Forall (fun e => Validate e = None) (entries cfg model).
Proof.
  unfold entries. apply Forall_join, Forall_fmap, Forall_forall. intros raw _. unfold entry. simpl.
  destruct (makeEndpoint model raw) as [ep|] eqn:E; repeat constructor.
  by apply makeEndpoint_valid in E as [? _].
Qed.

(** C38. Loading the endpoint file. A file whose every entry is acceptable and that has
    one at least loads, in whatever order the runtime walks the models; what loads always
    builds a well-formed pool, in which each model is served by exactly its entries, in
    the order of the file, and the ID index holds exactly the file's IDs, an ID that only one
    entry has leading to the member of that entry. (An ID under two models leads to the one that was
    visited last: [shared_id_depends_on_order].) If loading fails, the file has an
    unacceptable entry, or none: success does not depend on the order either. *)
Theorem config_loads body cfg order c :
  yaml_unmarshal body = inl cfg -> range_order cfg order ->
  match ParseYAML body order with
  | inl es =>
      all_ok cfg /\ es <> [] /\
      exists p, NewPool es c = inr p /\ WF p /\
        (forall model,
          ep_at (members p) <$> model_members p model = normalize <$> entries cfg model) /\
        (forall id, is_Some (byID p !! id) <->
           exists model e, e ∈ entries cfg model /\ ID e = id) /\
        (forall model e, e ∈ entries cfg model ->
           (forall model' e', e' ∈ entries cfg model' -> ID e' = ID e -> e' = e) ->
           exists l, byID p !! ID e = Some l /\ ep_at (members p) l = normalize e /\
             l ∈ model_members p model)
  | inr _ => ~ all_ok cfg \/ forall model, entries cfg model = []
  end.
Proof.
  intros Hy Ho. unfold ParseYAML. rewrite Hy. pose proof (configLoop_spec cfg order []) as Hl.
  destruct (configLoop cfg order []) as [out|err].
  - destruct Hl as [Hok Hout]. cbn [app] in Hout.
    assert (Hnd : NoDup order) by (rewrite Ho; apply NoDup_fst_map_to_list).
    assert (Hnone : forall model, model ∉ order -> entries cfg model = []).
    { intros model Hm. unfold entries. destruct (cfg !! model) eqn:E; [|done].
      exfalso. apply Hm, (range_order_elem _ _ _ Ho). by eexists. }
    assert (HV : Forall (fun e => Validate e = None) out).
    { rewrite Hout. apply Forall_join, Forall_fmap, Forall_forall. intros m _. apply entries_valid. }
    destruct out as [|e es].
    + right. intros model. rewrite <- (entries_of_order cfg order model Hnd (Hnone model)), <- Hout. done.
    + split; [by apply (range_order_ok cfg order Ho)|]. split; [done|].
      destruct (NewPool_accepts _ c HV) as [p Hp]. exists p.
      assert (Hin : forall x, x ∈ e :: es <-> exists model, x ∈ entries cfg model).
      { intros x. rewrite Hout, list_elem_of_join. setoid_rewrite list_elem_of_fmap. split.
        - intros (l & Hx & k & -> & _). eauto.
        - intros [k Hx]. exists (entries cfg k). split; [done|]. exists k. split; [done|].
          destruct (decide (k ∈ order)) as [?|Hk]; [done|]. rewrite (Hnone k Hk) in Hx.
          by apply not_elem_of_nil in Hx. }
      destruct (NewPool_ids _ _ _ Hp) as [Hids Huniq].
      split; [done|]. split; [by eapply NewPool_WF|]. split; [|split].
      * intros model. rewrite (NewPool_model _ _ _ model Hp), Hout. f_equal.
        by apply entries_of_order; [|apply Hnone].
      * intros id. rewrite Hids. setoid_rewrite Hin. naive_solver.
      * intros model x Hx Hu.
        assert (Hm : Model x = model) by (pose proof (entries_model cfg model) as HF;
          rewrite Forall_forall in HF; by apply HF).
        rewrite <- Hm. apply Huniq; [apply Hin; by eexists|].
        intros x' [k Hk]%Hin. by apply (Hu k).
  - left. destruct Hl as (model & raw & Hm & Hraw & Hbad). intros Hall.
    apply Hbad. pose proof (proj1 (range_order_ok cfg order Ho) Hall model Hm) as HF.
    rewrite Forall_forall in HF. by apply HF.
Qed.
End Parse.

(** ** A concrete file *)
Section Demo.
Definition demo_file : fileConfig :=
  {["gpt" := [mkFileEndpoint "a" "" "http://${HOST}/v1" " $KEY" 0 "" "llama" "60s" ""];
    "claude" := [mkFileEndpoint "b" "claude" "https://api" "" 2 "" "" "" ""]]}.

#[local] Instance demo_yaml : Yaml := fun _ => inl demo_file.
#[local] Instance demo_duration : DurationError := fun s => errorsNew ("invalid duration " +:+ s).

Definition demo_env : Getenv := fun k => if k =s "HOST" then "one" else "$HOST".

Definition demo_loaded : list Endpoint :=
  [mkEndpoint "b" "claude" "claude" "" "https://api" "" "" 2 0 "";
   mkEndpoint "a" "" "gpt" "llama" "http://one/v1" "$HOST" "" 0 (60 * Second) ""].

Lemma config_loads_witness :
  ParseYAML demo_env "models: ..." ["claude"; "gpt"] = inl demo_loaded /\
  exists p, NewPool demo_loaded (Breaker.mkConfig 0 0) = inr p /\ WF p /\
    (forall model, ep_at (members p) <$> model_members p model =
       normalize <$> entries demo_env demo_file model) /\
    is_Some (byID p !! "a").
Proof.
  assert (H : ParseYAML demo_env "models: ..." ["claude"; "gpt"] = inl demo_loaded) by (vm_compute; reflexivity).
  split; [exact H|].
  pose proof (config_loads demo_env "models: ..." demo_file ["claude"; "gpt"] (Breaker.mkConfig 0 0)
    eq_refl) as Hc.
  rewrite H in Hc. destruct Hc as (_ & _ & p & Hp & HW & Hm & Hid & _).
  { unfold range_order. vm_compute. by constructor || reflexivity. }
  exists p. split; [exact Hp|]. split; [exact HW|]. split; [exact Hm|].
  apply Hid. exists "gpt", (mkEndpoint "a" "" "gpt" "llama" "http://one/v1" "$HOST" "" 0 (60 * Second) "").
  split; [|done]. assert (He : entries demo_env demo_file "gpt" =
    [mkEndpoint "a" "" "gpt" "llama" "http://one/v1" "$HOST" "" 0 (60 * Second) ""]) by (vm_compute; reflexivity).
  rewrite He. apply list_elem_of_here.
Defined.

(** The file may use one ID under two models. The pool then serves both, but the ID index,
    and with it reports and health marks, reaches the one whose model was visited last. *)
Definition shared_file : fileConfig :=
  {["gpt" := [mkFileEndpoint "a" "" "http://one" "" 1 "" "" "" ""];
    "llama" := [mkFileEndpoint "a" "" "http://two" "" 1 "" "" "" ""]]}.

Definition reached (order : list string) : option string :=
  match configLoop demo_env shared_file order [] with
  | inl es =>
      match NewPool es (Breaker.mkConfig 0 0) with
      | inr p => (fun l => BaseURL (ep_at (members p) l)) <$> byID p !! "a"
      | inl _ => None
      end
  | inr _ => None
  end.

Lemma shared_id_depends_on_order :
  reached ["gpt"; "llama"] = Some "http://two" /\ reached ["llama"; "gpt"] = Some "http://one".
Proof. by vm_compute. Qed.
End Demo.
