(* ===== verification/Types.v ===== *)
(** * Chat requests and responses ([internal/types/chat.go])

    Parsing a request body, flattening message contents, and the encoders of the
    answer and of an API error. The text of a JSON syntax error and the conversion
    of a decimal literal to a [float32] are parameters. *)

From Stdlib Require Import ZArith Lia Ascii.
From stdpp Require Import prelude gmap list strings.
From S2P Require Import Prelude GoInt GoText GoErr Json.

Local Open Scope Z_scope.

(** The text of the error of [json.Unmarshal] on an input it refuses. *)
Class JsonError := json_error : string -> string.

(** [float32] values: reading a literal ([None] out of range), the zero value, the
    test against it, and printing. *)
Class Float32 := {
  float32 : Type;
  f32_zero : float32;
  f32_parse : string -> option float32;
  f32_is_zero : float32 -> bool;
  f32_print : float32 -> string
}.

Record Message := mkMessage { Role : string; Content : string }.

#[export] Instance Message_eq_dec : EqDecision Message.
Proof. solve_decision. Defined.

Record ChatRequest `{Float32} := mkChatRequest {
  Model : string;
  Messages : list Message;
  Temperature : float32;
  MaxTokens : Z;
  Stream : bool
}.

Record Usage := mkUsage {
  PromptTokens : Z;
  CompletionTokens : Z;
  TotalTokens : Z
}.

#[export] Instance Usage_eq_dec : EqDecision Usage.
Proof. solve_decision. Defined.

Definition zeroUsage : Usage := mkUsage 0 0 0.

Record ChatResponse := mkChatResponse {
  rID : string;
  rModel : string;
  rContent : string;
  rUsage : Usage
}.

Definition zeroResponse : ChatResponse := mkChatResponse "" "" "" zeroUsage.

#[export] Instance ChatResponse_eq_dec : EqDecision ChatResponse.
Proof. solve_decision. Defined.

Definition dec_usage : Decoder Usage :=
  dec_struct [
    ("prompt_tokens", fld PromptTokens
       (fun x u => mkUsage x (CompletionTokens u) (TotalTokens u)) dec_int);
    ("completion_tokens", fld CompletionTokens
       (fun x u => mkUsage (PromptTokens u) x (TotalTokens u)) dec_int);
    ("total_tokens", fld TotalTokens
       (fun x u => mkUsage (PromptTokens u) (CompletionTokens u) x) dec_int)].

(** ** Decoding into [any] *)

(** A number literal as an integer mantissa and a power of ten. *)
Definition decimal_parts (l : list ascii) : Z * Z :=
  let l := match eat "-"%char l with Some l' => l' | None => l end in
  let '(i, l) := span_digits l in
  let '(f, l) := match eat "."%char l with Some l' => span_digits l' | None => ([], l) end in
  let e := match l with
           | _ :: l' => default 0 (ParseInt (unchars l'))
           | [] => 0
           end in
  (default 0 (digits_value 0 (i ++ f)), e - Z.of_nat (length f)).

(** Beyond the midpoint above the largest [float64] a number is out of range. *)
Definition float64_range (literal : string) : bool :=
  let '(m, e) := decimal_parts (chars literal) in
  let bound := 2 ^ 1024 - 2 ^ 970 in
  if 0 <=? e then m * 10 ^ e <? bound else m <? bound * 10 ^ (- e).

Fixpoint any_ok (j : json) : bool :=
  match j with
  | JNum d => float64_range d
  | JArr l => forallb any_ok l
  | JObj l => forallb (fun m => let '(_, _, v) := m in any_ok v) l
  | _ => true
  end.

Definition is_map (j : json) : bool :=
  match j with JObj _ | JNull => true | _ => false end.

(** [part["text"].(string)]. *)
Definition part_text (j : json) : string :=
  match j with
  | JObj ms => match map_get "text" ms with Some (JStr t) => t | _ => "" end
  | _ => ""
  end.

(** [strings.Trim] of double quotes. *)
Definition trim_quotes (s : string) : string :=
  TrimRight1 quo (unchars (drop_while_eq quo (chars s))).

Definition ContentToString (raw : string) : string :=
  if slen raw =? 0 then ""
  else
    match Unmarshal raw with
    | Some (JStr text) => text
    | Some JNull => ""
    | Some (JArr parts) =>
        if forallb is_map parts && forallb any_ok parts
        then foldr (fun part acc => part_text part +:+ acc) "" parts
        else trim_quotes raw
    | _ => trim_quotes raw
    end.

Definition newline : string := String (of_byte 0x0A) "".

Definition PromptText (messages : list Message) : string :=
  TrimSpace (foldr (fun msg acc => Content msg +:+ newline +:+ acc) "" messages).

Section Parse.
Context `{Float32} `{JsonError}.

Record apiMessage := mkApiMessage { aRole : string; aContent : string }.

Record apiRequest := mkApiRequest {
  aModel : string;
  aMessages : list apiMessage;
  aTemperature : option float32;
  aMaxTokens : Z;
  aStream : bool
}.

Definition dec_apiMessage : Decoder apiMessage :=
  dec_struct [
    ("role", fld aRole (fun x m => mkApiMessage x (aContent m)) dec_string);
    ("content", fld_raw (fun raw m => mkApiMessage (aRole m) raw))].

Definition dec_temperature : Decoder (option float32) := fun j _ =>
  match j with
  | JNull => Some None
  | JNum d => x ← f32_parse d; Some (Some x)
  | _ => None
  end.

Definition dec_apiRequest : Decoder apiRequest :=
  dec_struct [
    ("model", fld aModel (fun x r =>
       mkApiRequest x (aMessages r) (aTemperature r) (aMaxTokens r) (aStream r)) dec_string);
    ("messages", fld aMessages (fun x r =>
       mkApiRequest (aModel r) x (aTemperature r) (aMaxTokens r) (aStream r))
       (dec_list (mkApiMessage "" "") dec_apiMessage));
    ("temperature", fld aTemperature (fun x r =>
       mkApiRequest (aModel r) (aMessages r) x (aMaxTokens r) (aStream r)) dec_temperature);
    ("max_tokens", fld aMaxTokens (fun x r =>
       mkApiRequest (aModel r) (aMessages r) (aTemperature r) x (aStream r)) dec_int);
    ("stream", fld aStream (fun x r =>
       mkApiRequest (aModel r) (aMessages r) (aTemperature r) (aMaxTokens r) x) dec_bool)].

Definition zeroApiRequest : apiRequest := mkApiRequest "" [] None 0 false.

(** Lines 69-76: the messages in order; the first one without a role ends the
    loop. *)
Fixpoint parseMessages (i : Z) (l : list apiMessage) : list Message + error :=
  match l with
  | [] => inl []
  | msg :: l =>
      let role := TrimSpace (aRole msg) in
      let content := ContentToString (aContent msg) in
      if role =s "" then
        inr (errorsNew ("messages[" +:+ int_string i +:+ "].role is required"))
      else
        match parseMessages (i + 1) l with
        | inr e => inr e
        | inl ms => inl (mkMessage role content :: ms)
        end
  end.

Definition ParseChatRequest (body : string) : ChatRequest + error :=
  match (j ← Unmarshal body; dec_apiRequest j zeroApiRequest) with
  | None => inr (errorWrap "invalid json: " (errorsNew (json_error body)))
  | Some raw =>
    if TrimSpace (aModel raw) =s "" then inr (errorsNew "model is required")
    else if bool_decide (aMessages raw = []) then inr (errorsNew "messages is required")
    else
      match parseMessages 0 (aMessages raw) with
      | inr e => inr e
      | inl ms =>
          inl (mkChatRequest _ (TrimSpace (aModel raw)) ms
                 (default f32_zero (aTemperature raw)) (aMaxTokens raw) (aStream raw))
      end
  end.
End Parse.

(** ** Encoders *)

Definition set_rID (id : string) (r : ChatResponse) : ChatResponse :=
  mkChatResponse id (rModel r) (rContent r) (rUsage r).
Definition set_rModel (m : string) (r : ChatResponse) : ChatResponse :=
  mkChatResponse (rID r) m (rContent r) (rUsage r).

Definition usage_json (u : Usage) : json :=
  obj [("completion_tokens", JInt (CompletionTokens u));
       ("prompt_tokens", JInt (PromptTokens u));
       ("total_tokens", JInt (TotalTokens u))].

Definition completion_json (created : Z) (resp : ChatResponse) : json :=
  obj [("choices", JArr [
          obj [("finish_reason", JStr "stop");
               ("index", JInt 0);
               ("message", obj [("content", JStr (rContent resp));
                                ("role", JStr "assistant")])]]);
       ("created", JInt created);
       ("id", JStr (rID resp));
       ("model", JStr (rModel resp));
       ("object", JStr "chat.completion");
       ("usage", usage_json (rUsage resp))].

(** [EncodeChatCompletion]: the response, whose missing ID is filled in, and the
    bytes. [nanos] and [created] are its two clock readings. *)
Definition EncodeChatCompletion (nanos created : Z) (resp : ChatResponse)
    : ChatResponse * string :=
  let resp := if rID resp =s "" then set_rID ("chatcmpl-" +:+ int_string nanos) resp
              else resp in
  (resp, Marshal (completion_json created resp)).

Definition EncodeAPIError (message typ code : string) : string :=
  let err := (if negb (code =s "") then [("code", JStr code)] else [])
             ++ [("message", JStr message); ("type", JStr typ)] in
  Marshal (obj [("error", obj err)]).
