(* ===== verification/TypesSpec.v ===== *)
(** * What request parsing promises *)

From Stdlib Require Import ZArith Lia Ascii.
From stdpp Require Import prelude gmap list strings.
From S2P Require Import Prelude GoInt GoText GoErr Json JsonSpec Types.

Local Open Scope Z_scope.

Section Spec.
Context `{Float32} `{JsonError}.

Definition decodeRequest (body : string) : option apiRequest :=
  j ← Unmarshal body; dec_apiRequest j zeroApiRequest.

Definition toMessage (m : apiMessage) : Message :=
  mkMessage (TrimSpace (aRole m)) (ContentToString (aContent m)).

Definition roleless (m : apiMessage) : Prop := TrimSpace (aRole m) = "".

Lemma parseMessages_ok l : forall i ms,
  parseMessages i l = inl ms <-> Forall (fun m => ~ roleless m) l /\ ms = map toMessage l.
Proof.
  unfold roleless. induction l as [|m l IH]; intros i ms; simpl.
  - split; [by intros [= <-]|by intros [_ ->]].
  - destruct (TrimSpace (aRole m) =s "") eqn:E; breflect.
    { split; [done|]. intros [HF _]. apply Forall_cons in HF as [HF _]. done. }
    destruct (parseMessages (i + 1) l) as [ms'|e] eqn:El.
    + destruct (proj1 (IH _ _) El) as [HF ->]. rewrite Forall_cons.
      split; [by intros [= <-]|by intros [_ ->]].
    + split; [done|]. intros [HF ->]. apply Forall_cons in HF as [_ HF].
      pose proof (proj2 (IH (i + 1) _) (conj HF eq_refl)). congruence.
Qed.

Lemma parseMessages_error l : forall i e,
  parseMessages i l = inr e -> exists pre m post, l = pre ++ m :: post /\
    Forall (fun m => ~ roleless m) pre /\ roleless m /\
    e = errorsNew ("messages[" +:+ int_string (i + Z.of_nat (length pre)) +:+
                   "].role is required").
Proof.
  unfold roleless. induction l as [|m l IH]; intros i e; simpl; [done|].
  destruct (TrimSpace (aRole m) =s "") eqn:E; breflect.
  - intros [= <-]. exists [], m, l. simpl. rewrite Z.add_0_r. split_and!; done.
  - destruct (parseMessages (i + 1) l) as [ms|e'] eqn:El; [done|]. intros [= <-].
    destruct (IH _ _ El) as (pre & m' & post & -> & HF & Hm & ->).
    exists (m :: pre), m', post. simpl. split_and!; [done|by constructor|done|].
    do 4 f_equal. lia.
Qed.

(** C30. Request parsing accepts exactly the bodies that decode, name a model, hold at
    least one message and give every message a role; it keeps the messages in order,
    trims the model and the roles, and takes the optional fields as decoded. Otherwise
    the error says which of these failed first, with the index of the first message
    without a role. *)
Theorem ParseChatRequest_spec (body : string) :
  match ParseChatRequest body with
  | inl req => exists raw, decodeRequest body = Some raw /\
      Model req = TrimSpace (aModel raw) /\ Model req <> "" /\
      Messages req = map toMessage (aMessages raw) /\ Messages req <> [] /\
      Forall (fun m => Role m <> "") (Messages req) /\
      Temperature req = default f32_zero (aTemperature raw) /\
      MaxTokens req = aMaxTokens raw /\ Stream req = aStream raw
  | inr e =>
      (decodeRequest body = None /\
       e = errorWrap "invalid json: " (errorsNew (json_error body))) \/
      exists raw, decodeRequest body = Some raw /\
        ((TrimSpace (aModel raw) = "" /\ e = errorsNew "model is required") \/
         (TrimSpace (aModel raw) <> "" /\ aMessages raw = [] /\
          e = errorsNew "messages is required") \/
         (TrimSpace (aModel raw) <> "" /\ exists pre m post,
            aMessages raw = pre ++ m :: post /\ Forall (fun m => ~ roleless m) pre /\
            roleless m /\
            e = errorsNew ("messages[" +:+ int_string (Z.of_nat (length pre)) +:+
                           "].role is required")))
  end.
Proof.
  unfold ParseChatRequest. fold (decodeRequest body).
  destruct (decodeRequest body) as [raw|]; [|by left].
  destruct (TrimSpace (aModel raw) =s "") eqn:E1; breflect; [right; exists raw; tauto|].
  case_bool_decide as E2; [right; exists raw; tauto|].
  destruct (parseMessages 0 (aMessages raw)) as [ms|e] eqn:E3.
  - apply parseMessages_ok in E3 as [HF ->]. exists raw. simpl. split_and!; try done.
    + by destruct (aMessages raw).
    + apply Forall_map. eapply Forall_impl; [exact HF|done].
  - right. exists raw. split; [done|]. right; right. split; [done|].
    by apply (parseMessages_error _ 0).
Qed.
End Spec.
