(* ===== verification/Auth.v ===== *)
(** * Authentication ([internal/auth])

    Stripping the scheme, looking the hashed key up in a key store, and the store
    kept in memory. SHA-256 with its hexadecimal text is the parameter [KeyHash];
    a key store is an instance of [KeyStore], a lookup over some state. *)

From Stdlib Require Import ZArith Lia Ascii.
From stdpp Require Import prelude gmap list strings.
From S2P Require Import Prelude GoInt GoText GoErr.

Local Open Scope Z_scope.

(** [hex.EncodeToString(sha256.Sum256(raw))]. *)
Class KeyHash := HashKey : string -> string.

Record User := mkUser { uID : string; uName : string; uStatus : string }.

Record Record_ := mkRecord { UserID : string; Name : string; Status : string }.

#[export] Instance User_eq_dec : EqDecision User.
Proof. solve_decision. Defined.
#[export] Instance Record_eq_dec : EqDecision Record_.
Proof. solve_decision. Defined.

Definition zeroRecord : Record_ := mkRecord "" "" "".

(** The interface [KeyStore]: a lookup by key hash over a state. *)
Class KeyStore (S : Type) := LookupKey : string -> S -> (Record_ + error) * S.

(** [store] tells whether the authenticator has a store. *)
Record Authenticator := mkAuthenticator { store : bool; passthrough : bool }.

Definition New (has_store : bool) : Authenticator := mkAuthenticator has_store false.
Definition NewPassthrough : Authenticator := mkAuthenticator false true.

Definition StripBearer (authorization : string) : string :=
  let value := TrimSpace authorization in
  if (slen value >=? 7) && EqualFold_ascii (sprefix 7 value) "bearer "
  then TrimSpace (ssuffix 7 value)
  else value.

Definition Lookup `{KeyHash} {S} `{KeyStore S} (a : Authenticator)
    (authorization : string) (s : S) : (User + error) * S :=
  let raw := StripBearer authorization in
  if raw =s "" then (inr (sentinel_error ErrMissing), s)
  else if passthrough a then (inl (mkUser raw raw "active"), s)
  else if negb (store a) then (inr (sentinel_error ErrInvalid), s)
  else
    match LookupKey (HashKey raw) s with
    | (inr err, s) =>
        if is_sentinel err ErrInvalid then (inr (sentinel_error ErrInvalid), s)
        else (inr err, s)
    | (inl rec, s) =>
        if negb (Status rec =s "") && negb (Status rec =s "active")
        then (inr (sentinel_error ErrDisabled), s)
        else if UserID rec =s "" then (inr (sentinel_error ErrInvalid), s)
        else (inl (mkUser (UserID rec) (Name rec) (Status rec)), s)
    end.

(** ** The store in memory ([memory.go]) *)
Record Memory := mkMemory { keys : gmap string Record_ }.

Definition NewMemory : Memory := mkMemory ∅.

Definition activate (rec : Record_) : Record_ :=
  if Status rec =s "" then mkRecord (UserID rec) (Name rec) "active" else rec.

Definition PutHash (keyHash : string) (rec : Record_) (m : Memory) : Memory :=
  mkMemory (<[keyHash := activate rec]> (keys m)).

Definition Put `{KeyHash} (rawKey : string) (rec : Record_) (m : Memory) : Memory :=
  mkMemory (<[HashKey rawKey := activate rec]> (keys m)).

Definition Memory_LookupKey (keyHash : string) (m : Memory) : Record_ + error :=
  match keys m !! keyHash with
  | Some rec => inl rec
  | None => inr (sentinel_error ErrInvalid)
  end.

#[export] Instance Memory_store : KeyStore Memory :=
  fun keyHash m => (Memory_LookupKey keyHash m, m).

Definition Len (m : Memory) : Z := Z.of_nat (size (keys m)).

(** Lines 23-30: one entry of the list. *)
Definition parseEntry `{KeyHash} `{Printable} (entry : string) (m : Memory)
    : Memory + error :=
  let entry := TrimSpace entry in
  if entry =s "" then inl m
  else
    let '(key, user, ok) := Cut1 ":"%char entry in
    if negb ok || (TrimSpace key =s "") || (TrimSpace user =s "") then
      inr (errorsNew ("invalid GATEWAY_API_KEYS entry " +:+ Quote entry +:+
                      ", expected key:user"))
    else inl (Put (TrimSpace key) (mkRecord (TrimSpace user) (TrimSpace user) "active") m).

Fixpoint parseEntries `{KeyHash} `{Printable} (l : list string) (m : Memory)
    : Memory + error :=
  match l with
  | [] => inl m
  | entry :: l =>
      match parseEntry entry m with
      | inr err => inr err
      | inl m => parseEntries l m
      end
  end.

Definition ParseKeyList `{KeyHash} `{Printable} (value : string) : Memory + error :=
  parseEntries (Split1 ","%char value) NewMemory.

(** ** Trimming *)
Definition trimmed (s : string) : Prop := TrimSpace s = s.

Lemma trim_left_length l : (length (trim_left l) <= length l)%nat.
Proof.
  remember (length l) as n eqn:Hn. revert l Hn.
  induction n as [n IH] using lt_wf_ind. intros l ->.
  destruct l as [|a l1]; [done|]. simpl.
  destruct (ascii_space _); [pose proof (IH (length l1) ltac:(simpl; lia) l1 eq_refl); simpl; lia|].
  destruct l1 as [|b l2]; [done|].
  destruct (space2 _ _); [pose proof (IH (length l2) ltac:(simpl; lia) l2 eq_refl); simpl; lia|].
  destruct l2 as [|c l3]; [done|].
  destruct (space3 _ _ _); [pose proof (IH (length l3) ltac:(simpl; lia) l3 eq_refl); simpl; lia|].
  done.
Qed.

Lemma trim_left_rev_length l : (length (trim_left_rev l) <= length l)%nat.
Proof.
  remember (length l) as n eqn:Hn. revert l Hn.
  induction n as [n IH] using lt_wf_ind. intros l ->.
  destruct l as [|a l1]; [done|]. simpl.
  destruct (ascii_space _); [pose proof (IH (length l1) ltac:(simpl; lia) l1 eq_refl); simpl; lia|].
  destruct l1 as [|b l2]; [done|].
  destruct (space2 _ _); [pose proof (IH (length l2) ltac:(simpl; lia) l2 eq_refl); simpl; lia|].
  destruct l2 as [|c l3]; [done|].
  destruct (space3 _ _ _); [pose proof (IH (length l3) ltac:(simpl; lia) l3 eq_refl); simpl; lia|].
  done.
Qed.

Lemma trim_left_fix l : length (trim_left l) = length l -> trim_left l = l.
Proof.
  destruct l as [|a l1]; [done|]. simpl. pose proof (trim_left_length l1).
  destruct (ascii_space _); [lia|]. destruct l1 as [|b l2]; [done|].
  pose proof (trim_left_length l2). destruct (space2 _ _); [simpl; lia|].
  destruct l2 as [|c l3]; [done|]. pose proof (trim_left_length l3).
  destruct (space3 _ _ _); [simpl; lia|done].
Qed.

(** A trimmed string has white space at neither end. *)
Lemma trimmed_ends s : trimmed s ->
  trim_left (chars s) = chars s /\ trim_left_rev (rev (chars s)) = rev (chars s).
Proof.
  intros Ht. assert (He : rev (trim_left_rev (rev (trim_left (chars s)))) = chars s).
  { unfold trimmed, TrimSpace in Ht. rewrite <- Ht at 2. by rewrite chars_unchars. }
  assert (Hl : trim_left (chars s) = chars s).
  { assert (Hlen : length (rev (trim_left_rev (rev (trim_left (chars s))))) = length (chars s))
      by by rewrite He.
    rewrite length_rev in Hlen.
    pose proof (trim_left_rev_length (rev (trim_left (chars s)))) as H1.
    rewrite length_rev in H1. pose proof (trim_left_length (chars s)) as H2.
    apply trim_left_fix. lia. }
  split; [done|]. rewrite Hl in He. rewrite <- He at 2. by rewrite rev_involutive.
Qed.

(** White space at the end is judged on at most three bytes, so text before a
    nonempty string without trailing space does not matter unless it ends in the
    first bytes of a multi-byte space. *)
Lemma trim_left_rev_app x y l k :
  l <> [] -> trim_left_rev l = l -> byte_of x < 0x80 -> byte_of y < 0x80 ->
  trim_left_rev (l ++ x :: y :: k) = l ++ x :: y :: k.
Proof.
  intros Hne Hl Hx Hy.
  assert (Hs2 : forall z, space2 (byte_of x) z = false).
  { intros z. unfold space2. rewrite (proj2 (Z.eqb_neq _ _)) by lia. done. }
  assert (Hs3 : forall u v z, u < 0x80 -> space3 u v z = false).
  { intros u v z Hu. unfold space3. rewrite !(proj2 (Z.eqb_neq u _)) by lia. done. }
  assert (Hlen : forall l' : list ascii, (length l' < length l)%nat -> trim_left_rev l' <> l).
  { intros l' Hl' He. pose proof (trim_left_rev_length l'). rewrite He in *. lia. }
  destruct l as [|a l1]; [done|]. simpl in Hl |- *.
  destruct (ascii_space (byte_of a)); [exfalso; by apply (Hlen l1); [simpl; lia|]|].
  destruct l1 as [|b l2]; simpl in Hl |- *; [by rewrite Hs2, Hs3|].
  destruct (space2 (byte_of b) (byte_of a)); [exfalso; by apply (Hlen l2); [simpl; lia|]|].
  destruct l2 as [|c l3]; simpl in Hl |- *; [by rewrite Hs3|].
  destruct (space3 (byte_of c) (byte_of b) (byte_of a)); [|done].
  exfalso. by apply (Hlen l3); [simpl; lia|].
Qed.

Lemma bearer_trimmed t : trimmed t -> t <> "" -> TrimSpace ("Bearer " +:+ t) = "Bearer " +:+ t.
Proof.
  intros Ht Hne. destruct (trimmed_ends t Ht) as [_ Hr].
  assert (Hc : chars ("Bearer " +:+ t) = chars "Bearer " ++ chars t).
  { clear. unfold chars. autorewrite with sapp. done. }
  unfold TrimSpace. rewrite Hc.
  change (trim_left (chars "Bearer " ++ chars t)) with (chars "Bearer " ++ chars t).
  rewrite rev_app_distr.
  change (rev (chars "Bearer ")) with (" "%char :: "r"%char :: rev (chars "Beare")).
  assert (Hrne : rev (chars t) <> []).
  { intros He. apply Hne. apply (f_equal (@length _)) in He. rewrite length_rev in He.
    destruct t; [done|discriminate He]. }
  rewrite (trim_left_rev_app " "%char "r"%char _ _ Hrne Hr) by done.
  change (" "%char :: "r"%char :: rev (chars "Beare")) with (rev (chars "Bearer ")).
  rewrite <- rev_app_distr, rev_involutive, <- Hc. apply unchars_chars.
Qed.

(** What [StripBearer] hands to the lookup: a token sent under the scheme comes out
    as it is; anything else is passed on trimmed and whole. So a header with another
    scheme, or a [Bearer] header without a token, is itself used as the key, or as the
    user ID when no keys are configured. *)
Theorem StripBearer_spec :
  (forall t, trimmed t -> t <> "" -> StripBearer ("Bearer " +:+ t) = t) /\
  (forall h, slen (TrimSpace h) < 7 -> StripBearer h = TrimSpace h) /\
  (forall h, EqualFold_ascii (sprefix 7 (TrimSpace h)) "bearer " = false ->
     StripBearer h = TrimSpace h) /\
  StripBearer "Bearer " = "Bearer" /\ StripBearer "Basic dTpw" = "Basic dTpw".
Proof.
  split_and!.
  - intros t Ht Hne. unfold StripBearer. rewrite bearer_trimmed by done.
    assert (Hp : sprefix 7 ("Bearer " +:+ t) = "Bearer ") by by destruct t.
    assert (Hs : ssuffix 7 ("Bearer " +:+ t) = t).
    { unfold ssuffix. autorewrite with sapp. apply unchars_chars. }
    rewrite Hp, Hs, slen_app. pose proof (slen_nonneg t).
    rewrite (proj2 (geb_true _ _)) by (change (slen "Bearer ") with 7; lia). done.
  - intros h Hl. unfold StripBearer. by rewrite (proj2 (geb_false _ _)) by done.
  - intros h He. unfold StripBearer. rewrite He. by rewrite andb_false_r.
  - by vm_compute.
  - by vm_compute.
Qed.

(** ** The configured key list *)

(** The key and user of one entry; [None] for a blank one, an error text for a
    malformed one. *)
Definition entry_pair (entry : string) : option (string * string) + unit :=
  let entry := TrimSpace entry in
  if entry =s "" then inl None
  else
    let '(key, user, ok) := Cut1 ":"%char entry in
    let key := TrimSpace key in
    let user := TrimSpace user in
    if ok && negb (key =s "") && negb (user =s "") then inl (Some (key, user)) else inr tt.

(** The user of the last entry for a key. *)
Definition listed_user (k : string) (entries : list string) : option string :=
  foldl (fun acc e =>
    match entry_pair e with
    | inl (Some (k', u)) => if k' =s k then Some u else acc
    | _ => acc
    end) None entries.

Definition malformed (entry : string) : Prop := entry_pair entry = inr tt.

Section KeyList.
Context `{KeyHash} `{Printable}.

Definition active_user (u : string) : Record_ := mkRecord u u "active".

Lemma parseEntry_pair e m :
  match entry_pair e with
  | inl None => parseEntry e m = inl m
  | inl (Some (k, u)) => parseEntry e m = inl (Put k (active_user u) m)
  | inr _ => exists err, parseEntry e m = inr err
  end.
Proof.
  unfold entry_pair, parseEntry. destruct (TrimSpace e =s ""); [done|].
  destruct (Cut1 ":"%char (TrimSpace e)) as [[k u] []]; simpl; [|by eexists].
  destruct (TrimSpace k =s ""), (TrimSpace u =s ""); simpl; (done || by eexists).
Qed.

Lemma parseEntries_inv l : forall m0,
  match parseEntries l m0 with
  | inl m => (forall e, e ∈ l -> ~ malformed e) /\
      ((forall a b, HashKey a = HashKey b -> a = b) -> forall k,
       keys m !! HashKey k =
         foldl (fun acc e =>
           match entry_pair e with
           | inl (Some (k', u)) => if k' =s k then Some (active_user u) else acc
           | _ => acc
           end) (keys m0 !! HashKey k) l)
  | inr _ => exists e, e ∈ l /\ malformed e
  end.
Proof.
  unfold malformed. induction l as [|e l IH]; intros m0; simpl; [split; [intros e He%elem_of_nil; done|done]|].
  pose proof (parseEntry_pair e m0) as He.
  destruct (entry_pair e) as [[[k u]|]|[]] eqn:Ep.
  - rewrite He. specialize (IH (Put k (active_user u) m0)).
    destruct (parseEntries l _) as [m|err];
      [|destruct IH as (e' & ? & ?); exists e'; rewrite elem_of_cons; auto].
    destruct IH as [IH1 IH2].
    split; [intros e' [->|?]%elem_of_cons; [congruence|auto]|].
    intros Hinj k0. rewrite (IH2 Hinj). f_equal. unfold Put. simpl.
    destruct (k =s k0) eqn:E; breflect; subst; [by rewrite lookup_insert_eq|].
    rewrite lookup_insert_ne; [done|]. by intros ?%Hinj.
  - rewrite He. specialize (IH m0). destruct (parseEntries l m0);
      [|destruct IH as (e' & ? & ?); exists e'; rewrite elem_of_cons; auto].
    destruct IH as [IH1 IH2].
    split; [intros e' [->|?]%elem_of_cons; [congruence|auto]|done].
  - destruct He as [err ->]. exists e. rewrite elem_of_cons. auto.
Qed.

Lemma listed_record k l : forall acc,
  foldl (fun acc e =>
    match entry_pair e with
    | inl (Some (k', u)) => if k' =s k then Some (active_user u) else acc
    | _ => acc
    end) (active_user <$> acc) l =
  active_user <$> foldl (fun acc e =>
    match entry_pair e with
    | inl (Some (k', u)) => if k' =s k then Some u else acc
    | _ => acc
    end) acc l.
Proof.
  induction l as [|e l IH]; intros acc; simpl; [done|].
  destruct (entry_pair e) as [[[k' u]|]|]; [|apply IH..].
  destruct (k' =s k); [apply (IH (Some u))|apply IH].
Qed.

Lemma listed_nonempty k l u : listed_user k l = Some u -> u <> "".
Proof.
  unfold listed_user. intros Hf.
  enough (Hg : forall acc, (forall u, acc = Some u -> u <> "") ->
    foldl (fun acc e =>
      match entry_pair e with
      | inl (Some (k', u)) => if k' =s k then Some u else acc
      | _ => acc
      end) acc l = Some u -> u <> "") by (eapply Hg; [|exact Hf]; done).
  clear Hf. induction l as [|e l IH]; intros acc Hacc; simpl; [apply Hacc|].
  apply IH. destruct (entry_pair e) as [[[k' u']|]|] eqn:E; [|done..].
  destruct (k' =s k); [|done]. intros ? [= <-]. unfold entry_pair in E.
  destruct (TrimSpace e =s ""); [done|].
  destruct (Cut1 _ _) as [[x y] []]; simpl in E; [|done].
  destruct (TrimSpace x =s ""); [done|]. destruct (TrimSpace y =s "") eqn:Ey; [done|].
  simpl in E. injection E as _ <-. by breflect.
Qed.

(** C27. The configured key list decides authentication. A list loads exactly when
    every entry that is not blank is a key and a user around a colon; then, with a
    hash that does not collide, a header whose token is listed authenticates as the
    user of the last entry for that token, any other token is invalid and an empty one
    missing. *)
Theorem key_list_auth (value : string) :
  match ParseKeyList value with
  | inr _ => exists e, e ∈ Split1 ","%char value /\ malformed e
  | inl m =>
      (forall e, e ∈ Split1 ","%char value -> ~ malformed e) /\
      ((forall a b, HashKey a = HashKey b -> a = b) -> forall h,
       Lookup (New true) h m =
         (if StripBearer h =s "" then inr (sentinel_error ErrMissing)
          else match listed_user (StripBearer h) (Split1 ","%char value) with
               | Some u => inl (mkUser u u "active")
               | None => inr (sentinel_error ErrInvalid)
               end, m))
  end.
Proof.
  unfold ParseKeyList. pose proof (parseEntries_inv (Split1 ","%char value) NewMemory) as Hp.
  destruct (parseEntries _ NewMemory) as [m|err]; [|done].
  destruct Hp as [H1 H2]. split; [done|]. intros Hinj h. unfold Lookup. simpl.
  destruct (StripBearer h =s ""); [done|]. unfold LookupKey, Memory_store, Memory_LookupKey.
  rewrite (H2 Hinj). simpl. rewrite lookup_empty.
  pose proof (listed_record (StripBearer h) (Split1 ","%char value) None) as Hl.
  simpl in Hl. rewrite Hl.
  fold (listed_user (StripBearer h) (Split1 ","%char value)).
  destruct (listed_user _ _) as [u|] eqn:Eu; simpl; [|done].
  pose proof (listed_nonempty _ _ _ Eu) as Hu. by rewrite (proj2 (str_eqb_neq _ _) Hu).
Qed.
End KeyList.

(** A hash that does not collide. *)
#[local] Instance demo_hash : KeyHash := fun s => s.
#[local] Instance demo_print : Printable := fun _ => true.

Lemma key_list_auth_witness :
  match ParseKeyList "sk-a:alice, sk-b : bob,,sk-a:carol" with
  | inl m => (Lookup (New true) "Bearer sk-a" m).1 = inl (mkUser "carol" "carol" "active") /\
             (Lookup (New true) "Bearer sk-x" m).1 = inr (sentinel_error ErrInvalid)
  | inr _ => False
  end.
Proof.
  pose proof (key_list_auth "sk-a:alice, sk-b : bob,,sk-a:carol") as H.
  destruct (ParseKeyList _) as [m|err] eqn:E; [|by vm_compute in E].
  destruct H as [_ H]. specialize (H (fun a b Hab => Hab)). split; rewrite H; by vm_compute.
Defined.
