(* ===== verification/Store.v ===== *)
(** * Key and endpoint stores ([internal/store])

    The store in memory, the reading of MySQL rows, and the Redis cache in front of
    a key store. MySQL's answers are arguments; the cache's server is the interface
    [KV], of which the development relies on one law: a command leaves no value
    behind that was not there before, written by it, or written by other clients of the
    server since the last command. *)

From Stdlib Require Import ZArith Lia Ascii.
From stdpp Require Import prelude gmap list strings.
From S2P Require Import Prelude GoInt GoText GoErr Endpoint Json JsonSpec Auth.

Local Open Scope Z_scope.

Definition ErrNotFound : sentinel := ErrInvalid.

(** ** [memory.go] *)
Record StoreMemory := mkStoreMemory { mkeys : Memory; endpoints : list Endpoint }.

Definition NewStoreMemory (keys : option Memory) (eps : list Endpoint) : StoreMemory :=
  mkStoreMemory (default NewMemory keys) eps.

#[export] Instance StoreMemory_store : KeyStore StoreMemory :=
  fun keyHash m =>
    match LookupKey keyHash (mkeys m) with
    | (inr _, _) => (inr (sentinel_error ErrNotFound), m)
    | (inl rec, _) => (inl rec, m)
    end.

Definition ListEndpoints (m : StoreMemory) : list Endpoint := endpoints m.
Definition ReplaceEndpoints (eps : list Endpoint) (m : StoreMemory) : StoreMemory :=
  mkStoreMemory (mkeys m) eps.

(** ** [mysql.go] *)

(** The answer to the key query: the columns, no row, or a failure. *)
Inductive KeyRow :=
| KeyFound (user_id name status : string) (user_status : option string)
| KeyNoRows
| KeyFailed (err : error).

Definition MySQL_LookupKey (row : KeyRow) : Record_ + error :=
  match row with
  | KeyNoRows => inr (sentinel_error ErrNotFound)
  | KeyFailed err => inr err
  | KeyFound user_id name status user_status =>
      let disabled :=
        negb (status =s "active") ||
        match user_status with
        | Some us => negb (us =s "") && negb (us =s "active")
        | None => false
        end in
      inl (mkRecord user_id name (if disabled then "disabled" else status))
  end.

Definition set_Timeout (t : Z) (e : Endpoint) : Endpoint :=
  mkEndpoint (ID e) (Provider e) (Model e) (ModelName e) (BaseURL e) (APIKey e)
    (Region e) (Weight e) t (APIVersion e).

(** [ListEndpoints]: the rows in order, each scanned into an endpoint without a
    timeout and [timeout_ms], and the error of the iteration. *)
Fixpoint scanRows (rows : list (Endpoint * Z + error)) : list Endpoint + error :=
  match rows with
  | [] => inl []
  | inr err :: _ => inr err
  | inl (ep, timeoutMS) :: rows =>
      let ep := if timeoutMS >? 0 then set_Timeout (wrap64 (timeoutMS * Millisecond)) ep
                else ep in
      match scanRows rows with
      | inr err => inr err
      | inl out => inl (ep :: out)
      end
  end.

Definition MySQL_ListEndpoints (query : list (Endpoint * Z + error) + error)
    (iteration : option error) : list Endpoint + error :=
  match query with
  | inr err => inr err
  | inl rows =>
    match scanRows rows with
    | inr err => inr err
    | inl out => match iteration with Some err => inr err | None => inl out end
    end
  end.

(** ** [cache.go] *)

(** A server of string values: the commands, and the value a key shows. *)
Class KV (S : Type) := {
  kvGet : string -> Stm S (option string + error);
  kvSet : string -> string -> Z -> Stm S (option error);
  kvSetNX : string -> string -> Z -> Stm S (bool + error);
  kvDel : string -> Stm S (option error);
  shows : string -> S -> option string
}.

(** Values appear only by being written, by this command or by other clients since the last
    one; [foreign] tells what the others may write. Values may vanish at any time, and a
    command that fails may have been executed. *)
Definition only_writes {S : Type} `{KV S} (foreign : string -> string -> Prop)
    (w : option (string * string)) (s s' : S) : Prop :=
  forall k v, shows k s' = Some v -> shows k s = Some v \/ foreign k v \/ w = Some (k, v).

Class KVLaws (S : Type) `{KV S} := {
  foreign : string -> string -> Prop;
  kvGet_law k s : only_writes foreign None s (kvGet k s).2 /\
    match (kvGet k s).1 with
    | inl (Some v) => shows k s = Some v \/ foreign k v
    | _ => True
    end;
  kvSet_law k v t s : only_writes foreign (Some (k, v)) s (kvSet k v t s).2;
  kvSetNX_law k v t s : only_writes foreign (Some (k, v)) s (kvSetNX k v t s).2;
  kvDel_law k s : only_writes foreign None s (kvDel k s).2
}.

Definition nullSentinel : string := "{null}".

Record CachedKeys := mkCachedKeys { ttl : Z; jitter : Z; nullTTL : Z; lockWait : Z }.

Definition NewCachedKeys (ttl jitter : Z) : CachedKeys :=
  let ttl := if ttl <=? 0 then 30 * Minute else ttl in
  let jitter := if jitter <=? 0 then 5 * Minute else jitter in
  mkCachedKeys ttl jitter (30 * Second) (20 * Millisecond).

(** [rnd] is what [rand.Int63n(jitter + 1)] returns. *)
Definition jitteredTTL (c : CachedKeys) (rnd : Z) : Z :=
  if jitter c <=? 0 then ttl c else wrap64 (ttl c + rnd).

Definition record_json (rec : Record_) : json :=
  obj [("user_id", JStr (UserID rec)); ("name", JStr (Name rec)); ("status", JStr (Status rec))].

Definition dec_record : Decoder Record_ :=
  dec_struct [
    ("user_id", fld UserID (fun x r => mkRecord x (Name r) (Status r)) dec_string);
    ("name", fld Name (fun x r => mkRecord (UserID r) x (Status r)) dec_string);
    ("status", fld Status (fun x r => mkRecord (UserID r) (Name r) x) dec_string)].

Definition cacheKeyOf (keyHash : string) : string := "gw:apikey:" +:+ keyHash.

Section Cache.
Context {S T : Type} `{KV S} `{KeyStore T}.

(** [fromRedis]: the record and whether there is one, or an error. *)
Definition fromRedis (rkey : string) : Stm S (option Record_ + error) :=
  let* r := kvGet rkey in
  match r with
  | inr err => sret (inr err)
  | inl None => sret (inl None)
  | inl (Some val) =>
      if val =s nullSentinel then sret (inl (Some zeroRecord))
      else
        match (j ← Unmarshal val; dec_record j zeroRecord) with
        | None => sret (inr (errorsNew "invalid cached record"))
        | Some rec => sret (inl (Some rec))
        end
  end.

Definition on_kv {A} (m : Stm S A) : Stm (S * T) A :=
  fun s => let '(a, k) := m s.1 in (a, (k, s.2)).
Definition on_inner (keyHash : string) : Stm (S * T) (Record_ + error) :=
  fun s => let '(a, t) := LookupKey keyHash s.2 in (a, (s.1, t)).

(** Lines 70-83: ask the inner store and fill the cache. *)
Definition fill (c : CachedKeys) (keyHash rkey : string) (rnd : Z)
    : Stm (S * T) (Record_ + error) :=
  let lockKey := rkey +:+ ":lock" in
  let* r := on_inner keyHash in
  match r with
  | inr err =>
      if is_sentinel err ErrNotFound || is_sentinel err ErrInvalid then
        let* _ := on_kv (kvSet rkey nullSentinel (nullTTL c)) in
        let* _ := on_kv (kvDel lockKey) in
        sret (inr (sentinel_error ErrNotFound))
      else
        let* _ := on_kv (kvDel lockKey) in
        sret (inr err)
  | inl rec =>
      let* _ := on_kv (kvSet rkey (Marshal (record_json rec)) (jitteredTTL c rnd)) in
      let* _ := on_kv (kvDel lockKey) in
      sret (inl rec)
  end.

(** Lines 56-84: the function the group runs once for the callers of one key. *)
Definition flight (c : CachedKeys) (keyHash rkey : string) (rnd : Z)
    : Stm (S * T) (Record_ + error) :=
  let* r := on_kv (fromRedis rkey) in
  match r with
  | inl (Some rec) => sret (inl rec)
  | _ =>
      let* l := on_kv (kvSetNX (rkey +:+ ":lock") "1" (5 * Second)) in
      match l with
      | inl false =>
          let* r := on_kv (fromRedis rkey) in
          match r with
          | inl (Some rec) => sret (inl rec)
          | _ => fill c keyHash rkey rnd
          end
      | _ => fill c keyHash rkey rnd
      end
  end.

Definition blank (rec : Record_) : bool := (UserID rec =s "") && (Status rec =s "").

Definition CachedKeys_LookupKey (c : CachedKeys) (rnd : Z) (keyHash : string)
    : Stm (S * T) (Record_ + error) :=
  let rkey := cacheKeyOf keyHash in
  let* r := on_kv (fromRedis rkey) in
  match r with
  | inl (Some rec) =>
      if blank rec then sret (inr (sentinel_error ErrNotFound)) else sret (inl rec)
  | _ =>
      let* v := flight c keyHash rkey rnd in
      match v with
      | inr err => sret (inr err)
      | inl rec =>
          if blank rec then sret (inr (sentinel_error ErrNotFound)) else sret (inl rec)
      end
  end.
End Cache.

(** ** The cache answers as the store does *)

(** The record survives its encoding. Strings that are not UTF-8 do not. *)
Definition reads_back (rec : Record_) : Prop :=
  (j ← Unmarshal (Marshal (record_json rec)); dec_record j zeroRecord) = Some rec.

Lemma ascii_reads_back rec :
  ascii_only (chars (UserID rec)) -> ascii_only (chars (Name rec)) ->
  ascii_only (chars (Status rec)) -> reads_back rec.
Proof.
  intros H1 H2 H3. unfold reads_back, Marshal.
  rewrite Unmarshal_marshal.
  - by destruct rec.
  - cbn [record_json obj canonical map foldr fst snd].
    split_and!; try done; repeat constructor.
Qed.

Lemma record_not_null rec : Marshal (record_json rec) <> nullSentinel.
Proof. unfold Marshal. cbn. unfold nullSentinel. congruence. Qed.

Section Sound.
Context {S T : Type} `{KVLaws S} `{KeyStore T}.
(** What the store may answer for a hash; [None] is not found. *)
Context (answers : string -> option Record_ -> Prop).

Definition plain_hash (h : string) : Prop := no_byte ":"%char h.

(** The value stands for an answer of the store. *)
Definition cache_value (h v : string) : Prop :=
  (v = nullSentinel /\ answers h None) \/
  exists rec, v = Marshal (record_json rec) /\ reads_back rec /\ answers h (Some rec).

(** Every cached value is an answer of the store. *)
Definition Coherent (s : S) : Prop := forall h v, plain_hash h ->
  shows (cacheKeyOf h) s = Some v -> cache_value h v.

(** The other gateways write answers of the store only. *)
Definition replicas_ok : Prop := forall h v, plain_hash h ->
  foreign (cacheKeyOf h) v -> cache_value h v.

Definition inner_answers (h : string) : Prop := forall t : T,
  match (LookupKey h t).1 with
  | inl rec => reads_back rec /\ answers h (Some rec)
  | inr err => is_sentinel err ErrNotFound = true -> answers h None
  end.

Definition answered (h : string) (r : Record_ + error) : Prop :=
  match r with
  | inl rec => answers h (Some rec)
  | inr err =>
      (err = sentinel_error ErrNotFound /\ answers h None) \/
      exists t : T, (LookupKey h t).1 = inr err
  end.

Lemma lock_not_key h h' : plain_hash h' -> cacheKeyOf h' <> cacheKeyOf h +:+ ":lock".
Proof.
  unfold plain_hash, no_byte, cacheKeyOf. intros Hh He. rewrite app_assoc_s in He.
  apply app_inj_l in He. subst. apply Hh. clear. unfold chars.
  induction h as [|a h IH]; autorewrite with sapp; simpl; [set_solver|].
  apply elem_of_cons. by right.
Qed.

Lemma cacheKeyOf_inj h h' : cacheKeyOf h = cacheKeyOf h' -> h = h'.
Proof. apply app_inj_l. Qed.

Context (Hothers : replicas_ok).

Lemma Coherent_none s s' : Coherent s -> only_writes foreign None s s' -> Coherent s'.
Proof. intros Hc Hw h v Hh Hv. destruct (Hw _ _ Hv) as [?|[?|?]]; [by apply Hc|by apply Hothers|done]. Qed.

Lemma Coherent_lock h v s s' :
  Coherent s -> only_writes foreign (Some (cacheKeyOf h +:+ ":lock", v)) s s' -> Coherent s'.
Proof.
  intros Hc Hw h' v' Hh Hv. destruct (Hw _ _ Hv) as [?|[?|He]]; [by apply Hc|by apply Hothers|].
  destruct (lock_not_key h h' Hh). congruence.
Qed.

Lemma Coherent_write h v s s' :
  Coherent s -> cache_value h v ->
  only_writes foreign (Some (cacheKeyOf h, v)) s s' -> Coherent s'.
Proof.
  intros Hc Ha Hw h' v' Hh Hv. destruct (Hw _ _ Hv) as [?|[?|He]]; [by apply Hc|by apply Hothers|].
  assert (cacheKeyOf h = cacheKeyOf h') as ->%cacheKeyOf_inj by congruence.
  by assert (v' = v) as -> by congruence.
Qed.

(** What a read shows is an answer. *)
Lemma read_value h s v :
  plain_hash h -> Coherent s -> shows (cacheKeyOf h) s = Some v \/ foreign (cacheKeyOf h) v ->
  cache_value h v.
Proof. intros Hh Hc [?|?]; [by apply Hc|by apply Hothers]. Qed.

(** A hit is the zero record for a remembered absence, or an answer. *)
Lemma fromRedis_sound h s :
  plain_hash h -> Coherent s ->
  let r := fromRedis (cacheKeyOf h) s in
  Coherent r.2 /\
  match r.1 with
  | inl (Some rec) => (rec = zeroRecord /\ answers h None) \/ answers h (Some rec)
  | _ => True
  end.
Proof.
  intros Hh Hc. unfold fromRedis, sbind. destruct (kvGet_law (cacheKeyOf h) s) as [Hw Hv].
  destruct (kvGet (cacheKeyOf h) s) as [[[val|]|err] s1]; simpl in *.
  - pose proof (Coherent_none _ _ Hc Hw) as Hc'.
    destruct (val =s nullSentinel) eqn:En; breflect; simpl.
    + split; [done|]. left. split; [done|].
      destruct (read_value _ _ _ Hh Hc Hv) as [[_ ?]|(rec & -> & _)]; [done|].
      by destruct (record_not_null rec).
    + destruct (read_value _ _ _ Hh Hc Hv) as [[? _]|(rec & -> & Ha & Hr)]; [done|].
      rewrite Ha. simpl. auto.
  - split; [by eapply Coherent_none|done].
  - split; [by eapply Coherent_none|done].
Qed.

Lemma fill_sound c h rnd s :
  plain_hash h -> inner_answers h -> Coherent s.1 ->
  let r := fill c h (cacheKeyOf h) rnd s in
  Coherent r.2.1 /\ answered h r.1.
Proof.
  intros Hh Hin Hc. unfold fill, sbind, on_inner, on_kv, sret.
  specialize (Hin s.2) as Ht. unfold inner_answers in Ht.
  assert (He : forall err, (LookupKey h s.2).1 = inr err ->
            exists t : T, (LookupKey h t).1 = inr err) by eauto.
  destruct (LookupKey h s.2) as [[rec|err] t']; simpl in Ht, He |- *.
  - destruct Ht as [Hasc Hans].
    pose proof (kvSet_law (cacheKeyOf h) (Marshal (record_json rec)) (jitteredTTL c rnd) s.1) as K1.
    destruct (kvSet _ _ _ s.1) as [o1 s1]. simpl in *.
    pose proof (kvDel_law (cacheKeyOf h +:+ ":lock") s1) as K2.
    destruct (kvDel _ s1) as [o2 s2]. simpl in *. split; [|done].
    eapply Coherent_none; [|done]. eapply Coherent_write; [done| |done]. right; eauto.
  - assert (Hb : is_sentinel err ErrNotFound || is_sentinel err ErrInvalid =
                 is_sentinel err ErrNotFound) by apply orb_diag.
    rewrite Hb. destruct (is_sentinel err ErrNotFound) eqn:Es; simpl.
    + pose proof (kvSet_law (cacheKeyOf h) nullSentinel (nullTTL c) s.1) as K1.
      destruct (kvSet _ _ _ s.1) as [o1 s1]. simpl in *.
      pose proof (kvDel_law (cacheKeyOf h +:+ ":lock") s1) as K2.
      destruct (kvDel _ s1) as [o2 s2]. simpl in *. split; [|by left; auto].
      eapply Coherent_none; [|done]. eapply Coherent_write; [done| |done]. left; auto.
    + pose proof (kvDel_law (cacheKeyOf h +:+ ":lock") s.1) as K2.
      destruct (kvDel _ s.1) as [o2 s2]. simpl in *. split; [by eapply Coherent_none|].
      right. eauto.
Qed.

(** A record of the flight: the zero record stands for a remembered absence. *)
Definition flown (h : string) (r : Record_ + error) : Prop :=
  match r with
  | inl rec => (rec = zeroRecord /\ answers h None) \/ answers h (Some rec)
  | inr _ => answered h r
  end.

Lemma answered_flown h r : answered h r -> flown h r.
Proof. destruct r; simpl; auto. Qed.

Lemma flight_sound c h rnd s :
  plain_hash h -> inner_answers h -> Coherent s.1 ->
  let r := flight c h (cacheKeyOf h) rnd s in
  Coherent r.2.1 /\ flown h r.1.
Proof.
  intros Hh Hin Hc. unfold flight, sbind, on_kv.
  pose proof (fromRedis_sound h s.1 Hh Hc) as [K1 K1'].
  destruct (fromRedis _ s.1) as [r1 s1]. simpl in *.
  assert (Hfill : forall s1 : S, Coherent s1 ->
            let r := fill c h (cacheKeyOf h) rnd (s1, s.2) in
            Coherent r.2.1 /\ flown h r.1).
  { intros s' Hs'. destruct (fill_sound c h rnd (s', s.2) Hh Hin Hs') as [? ?].
    split; [done|by apply answered_flown]. }
  assert (Hmiss : forall s1 : S, Coherent s1 ->
            let '(l, s2) := kvSetNX (cacheKeyOf h +:+ ":lock") "1" (5 * Second) s1 in
            Coherent s2).
  { intros s' Hs'. pose proof (kvSetNX_law (cacheKeyOf h +:+ ":lock") "1" (5 * Second) s') as Hl.
    destruct (kvSetNX _ _ _ s') as [l s2]. by eapply Coherent_lock. }
  destruct r1 as [[rec|]|err]; [by split| |];
    (specialize (Hmiss s1 K1); simpl in *; destruct (kvSetNX _ _ _ s1) as [[[]|e] s2]; simpl;
     [by apply Hfill| |by apply Hfill];
     simpl in *; pose proof (fromRedis_sound h s2 Hh Hmiss) as [K3 K3'];
     destruct (fromRedis _ s2) as [r3 s3]; simpl in *;
     destruct r3 as [[rec'|]|err']; [by split|by apply Hfill|by apply Hfill]).
Qed.

(** C19. The cache is sound for any state of the two stores, while other gateways use the
    same Redis: between any two commands of a lookup they may write, under any keys, locks and
    answers of the inner store, the values this lookup writes itself. Whatever it returns, from
    Redis, from another caller's flight or from the inner store, is an answer the inner
    store gives for this key hash: a record it answers, "not found" when it answers that
    or a blank record, or an error it fails with. Every value left in
    Redis is such an answer too, so lost commands, expiry and lost races never make the
    cache disagree with the store. Records are those that survive their JSON encoding, as
    all ASCII ones do. *)
Theorem cached_lookup_sound c rnd h s :
  plain_hash h -> inner_answers h -> Coherent s.1 ->
  let r := CachedKeys_LookupKey c rnd h s in
  Coherent r.2.1 /\
  match r.1 with
  | inl rec => answers h (Some rec) /\ blank rec = false
  | inr err =>
      (err = sentinel_error ErrNotFound /\
       (answers h None \/ exists rec, answers h (Some rec) /\ blank rec = true)) \/
      exists t : T, (LookupKey h t).1 = inr err
  end.
Proof.
  intros Hh Hin Hc. unfold CachedKeys_LookupKey.
  assert (Hout : forall (s1 : S * T) rec,
    Coherent s1.1 -> (rec = zeroRecord /\ answers h None) \/ answers h (Some rec) ->
    let r := (if blank rec then sret (inr (sentinel_error ErrNotFound)) else sret (inl rec)) s1 in
    Coherent r.2.1 /\
    match r.1 with
    | inl rec => answers h (Some rec) /\ blank rec = false
    | inr err => (err = sentinel_error ErrNotFound /\
         (answers h None \/ exists rec, answers h (Some rec) /\ blank rec = true)) \/
         exists t : T, (LookupKey h t).1 = inr err
    end).
  { intros s1 rec Hs1 Ha. destruct (blank rec) eqn:Eb; simpl; (split; [done|]).
    - left. split; [done|]. destruct Ha as [[_ ?]|?]; eauto.
    - destruct Ha as [[-> _]|?]; [by vm_compute in Eb|done]. }
  unfold sbind, on_kv. pose proof (fromRedis_sound h s.1 Hh Hc) as [K1 K1'].
  destruct (fromRedis _ s.1) as [r1 s1]. simpl in *.
  destruct r1 as [[rec|]|err]; [by apply Hout| |];
    (pose proof (flight_sound c h rnd (s1, s.2) Hh Hin K1) as [K2 K2'];
     destruct (flight _ _ _ _ _) as [[rec'|err'] s2]; simpl in *; [by apply Hout|];
     split; [done|]; destruct K2' as [[-> ?]|?]; auto).
Qed.
End Sound.

(** ** A server and a store *)
#[export] Instance gmap_kv : KV (gmap string string) := {
  kvGet k := let* s := sget in sret (inl (s !! k));
  kvSet k v _ := let* _ := smodify (insert k v) in sret None;
  kvSetNX k v _ := let* s := sget in
    match s !! k with
    | Some _ => sret (inl false)
    | None => let* _ := smodify (insert k v) in sret (inl true)
    end;
  kvDel k := let* _ := smodify (delete k) in sret None;
  shows k s := s !! k
}.

#[export, program] Instance gmap_kv_laws : KVLaws (gmap string string) := {
  foreign _ _ := False
}.
Next Obligation. intros k s. simpl. split; [by left|]. destruct (s !! k); auto. Qed.
Next Obligation.
  intros k v t s k' v'. simpl. rewrite lookup_insert_Some. naive_solver.
Qed.
Next Obligation.
  intros k v t s k' v'. simpl. unfold sbind, sget. destruct (s !! k); simpl; [by left|].
  rewrite lookup_insert_Some. naive_solver.
Qed.
Next Obligation.
  intros k s k' v'. simpl. rewrite lookup_delete_Some. naive_solver.
Qed.

(** A server shared with other clients: before its [n]-th command it executes what they
    write then. *)
Section Shared.
Context (traffic : nat -> list (string * string)).

Definition arrive (s : nat * gmap string string) : nat * gmap string string :=
  (S (fst s), foldr (fun kv m => <[kv.1 := kv.2]> m) (snd s) (traffic (fst s))).

Definition shared {A} (cmd : Stm (gmap string string) A) : Stm (nat * gmap string string) A :=
  fun s => let '(n, m) := arrive s in let '(a, m) := cmd m in (a, (n, m)).

Instance shared_kv : KV (nat * gmap string string) := {
  kvGet k := shared (kvGet k);
  kvSet k v t := shared (kvSet k v t);
  kvSetNX k v t := shared (kvSetNX k v t);
  kvDel k := shared (kvDel k);
  shows k s := snd s !! k
}.

Definition sent_by_others (k v : string) : Prop := exists n, (k, v) ∈ traffic n.

Lemma arrive_shows s k v :
  snd (arrive s) !! k = Some v -> snd s !! k = Some v \/ sent_by_others k v.
Proof.
  unfold arrive, sent_by_others. destruct s as [n m]. cbn [fst snd].
  assert (Hl : forall l, foldr (fun kv m => <[kv.1 := kv.2]> m) m l !! k = Some v ->
            m !! k = Some v \/ (k, v) ∈ l).
  { induction l as [|[k' v'] l IH]; [by left|]. cbn [foldr].
    rewrite lookup_insert_Some. intros [[<- <-]|[_ H]]; [right; by left|].
    destruct (IH H); [by left|right; by right]. }
  intros H. destruct (Hl _ H); eauto.
Qed.

Lemma shared_writes {A} (cmd : Stm (gmap string string) A) w s :
  (forall m, only_writes (fun _ _ => False) w m (cmd m).2) ->
  only_writes sent_by_others w s (shared cmd s).2.
Proof.
  intros Hcmd k v. unfold shared. pose proof (arrive_shows s k v) as Ha.
  destruct (arrive s) as [n m]. specialize (Hcmd m k v). destruct (cmd m) as [a m']. simpl in *.
  intros H. destruct (Hcmd H) as [?|[?|?]]; [|done|by right; right].
  destruct (Ha ltac:(done)); auto.
Qed.

#[program] Instance shared_kv_laws : KVLaws (nat * gmap string string) := {
  foreign := sent_by_others
}.
Next Obligation.
  intros k s. split.
  - apply shared_writes. intros m. exact (proj1 (kvGet_law (S := gmap string string) k m)).
  - change (match snd (arrive s) !! k with
            | Some v => snd s !! k = Some v \/ sent_by_others k v | None => True end).
    destruct (_ !! k) eqn:E; [by apply arrive_shows|done].
Qed.
Next Obligation. intros k v t s. apply shared_writes. intros m. exact (kvSet_law (S := gmap string string) k v t m). Qed.
Next Obligation. intros k v t s. apply shared_writes. intros m. exact (kvSetNX_law (S := gmap string string) k v t m). Qed.
Next Obligation. intros k s. apply shared_writes. intros m. exact (kvDel_law (S := gmap string string) k m). Qed.
End Shared.

Definition demo_record : Record_ := mkRecord "alice" "Alice" "active".
#[local] Instance demo_store : KeyStore unit :=
  fun h t => ((if h =s "aa" then inl demo_record else inr (sentinel_error ErrNotFound)), t).
Definition demo_answers (h : string) (r : option Record_) : Prop :=
  r = if h =s "aa" then Some demo_record else None.

(** Another gateway takes the lock before this one's third command and fills the cache before
    its fourth. *)
Definition demo_traffic (n : nat) : list (string * string) :=
  match n with
  | 2%nat => [("gw:apikey:aa:lock", "1")]
  | 3%nat => [("gw:apikey:aa", Marshal (record_json demo_record))]
  | _ => []
  end.

Lemma demo_reads_back : reads_back demo_record.
Proof. apply ascii_reads_back; repeat constructor. Qed.

Lemma cached_lookup_sound_witness :
  let r := @CachedKeys_LookupKey _ _ (shared_kv demo_traffic) _ (NewCachedKeys 0 0) 7 "aa"
             ((O, ∅) : nat * gmap string string, tt) in
  r.1 = inl demo_record /\ r.2.1.1 = 4%nat /\
  @Coherent _ (shared_kv demo_traffic) demo_answers r.2.1.
Proof.
  intros r. split_and!; [by vm_compute..|].
  apply (@cached_lookup_sound _ _ _ (shared_kv_laws demo_traffic) _ demo_answers).
  - intros h v Hh [n Hn]. unfold demo_traffic in Hn.
    destruct n as [|[|[|[|n]]]]; try (by apply not_elem_of_nil in Hn);
      apply list_elem_of_singleton in Hn;
      pose proof (f_equal fst Hn) as Hk; pose proof (f_equal snd Hn) as Hv; cbn [fst snd] in Hk, Hv.
    + destruct (lock_not_key "aa" h Hh). exact Hk.
    + subst v. assert (h = "aa") as -> by (by apply (cacheKeyOf_inj _ "aa")).
      right. exists demo_record. split_and!; [done|apply demo_reads_back|done].
  - unfold plain_hash, no_byte. simpl. set_solver.
  - intros t. simpl. split; [apply demo_reads_back|done].
  - intros h v _ Hv. simpl in Hv. by rewrite lookup_empty in Hv.
Defined.
