(* ===== verification/HealthChecker.v ===== *)
(** * The health checker ([internal/health/checker.go])

    The probe of an endpoint, the failure streaks, and the marks on the pool. What
    an upstream answers is the argument [probe]; the pool is shared, so other
    goroutines may change it between two marks. *)

From Stdlib Require Import ZArith Lia.
From stdpp Require Import prelude gmap list strings.
From S2P Require Import Prelude GoInt GoText GoErr Breaker Endpoint Wrr Pool PoolSpec.

Local Open Scope Z_scope.

Record Checker := mkChecker {
  interval : Z;
  timeout : Z;
  fails : Z;
  streak : gmap string Z
}.

Definition New (interval timeout : Z) : Checker :=
  let interval := if interval <=? 0 then 10 * Second else interval in
  let timeout := if timeout <=? 0 then 2 * Second else timeout in
  mkChecker interval timeout 2 ∅.

Definition set_streak (m : gmap string Z) (c : Checker) : Checker :=
  mkChecker (interval c) (timeout c) (fails c) m.

Definition streak_of (id : string) (c : Checker) : Z := default 0 (streak c !! id).

Definition mark (id : string) (ok : bool) (s : Checker * Pool) : Checker * Pool :=
  let '(c, p) := s in
  if ok then (set_streak (<[id := 0]> (streak c)) c, SetHealth id Healthy p)
  else
    let c := set_streak (<[id := wrap64 (streak_of id c + 1)]> (streak c)) c in
    (c, if streak_of id c >=? fails c then SetHealth id Unhealthy p else p).

(** What comes of a probe: the request cannot be built, the call fails (a timeout
    included), or there is a status. *)
Inductive ProbeResult := BuildFailed | CallFailed | Answered (StatusCode : Z).

Section Check.
Context `{Unicode}.
(** The upstream's answer to a GET of a URL with these headers. *)
Context (probe : string -> Header -> ProbeResult).

Definition probe_ok (ep : Endpoint) : bool :=
  match probe (ProbeURL ep) (default ∅ (SetAuth ep (Some ∅))) with
  | BuildFailed | CallFailed => false
  | Answered code => negb (code >=? 400)
  end.

Definition Check_ (ep : Endpoint) (s : Checker * Pool) : Checker * Pool :=
  mark (ID ep) (probe_ok ep) s.

(** [CheckAll]: the endpoints as they are at the start, one after the other. *)
Definition CheckAll (s : Checker * Pool) : Checker * Pool :=
  foldl (fun s ep => Check_ ep s) s (All s.2).
End Check.

(** ** Histories of marks *)
Inductive event := EMark (id : string) (ok : bool) | EOther (f : Pool -> Pool).

Definition run_event (s : Checker * Pool) (e : event) : Checker * Pool :=
  match e with
  | EMark id ok => mark id ok s
  | EOther f => (s.1, f s.2)
  end.

Definition health_of (id : string) (p : Pool) : option Health :=
  byID p !! id ≫= fun l => health <$> members p !! l.

(** What others do keeps the pool well formed and leaves the health marks alone. *)
Definition health_neutral (id : string) (f : Pool -> Pool) : Prop := forall p,
  WF p -> WF (f p) /\ health_of id (f p) = health_of id p.

Definition result_for (id : string) (e : event) : option bool :=
  match e with
  | EMark id' ok => if id' =s id then Some ok else None
  | EOther _ => None
  end.

Fixpoint trailing_failures (rs : list bool) : Z :=
  match rs with
  | [] => 0
  | ok :: rs => if ok then 0 else 1 + trailing_failures rs
  end.

(** The results for one endpoint, newest first. *)
Definition results (id : string) (es : list event) : list bool :=
  omap (result_for id) (rev es).

Lemma SetHealth_WF id h p : WF p -> WF (SetHealth id h p).
Proof. intros Hw. eapply framed_WF; [apply SetHealth_framed|done]. Qed.

Lemma SetHealth_health id id' h p : WF p ->
  health_of id (SetHealth id' h p) =
    if decide (id' = id) then (fun _ => h) <$> health_of id p else health_of id p.
Proof.
  intros Hw. unfold SetHealth, health_of. destruct (decide (id' = id)) as [<-|Hne].
  - destruct (byID p !! id') as [l|] eqn:E; simpl; [|by rewrite E].
    rewrite E. simpl. rewrite lookup_alter, decide_True by done. by destruct (members p !! l).
  - destruct (byID p !! id') as [l'|] eqn:E'; [|done]. simpl.
    destruct (byID p !! id) as [l|] eqn:E; simpl; [|done].
    rewrite lookup_alter, decide_False; [done|]. intros <-.
    destruct (wf_id p Hw _ _ E) as (m & Hm & H1 & _).
    destruct (wf_id p Hw _ _ E') as (m' & Hm' & H2 & _). congruence.
Qed.

Lemma trailing_nonneg rs : 0 <= trailing_failures rs <= Z.of_nat (length rs).
Proof. induction rs as [|[] rs IH]; cbn [trailing_failures length]; lia. Qed.

Lemma results_snoc id es e :
  results id (es ++ [e]) =
    match result_for id e with Some ok => [ok] | None => [] end ++ results id es.
Proof. unfold results. rewrite rev_app_distr. simpl. by destruct (result_for id e). Qed.

Lemma results_length id es : (length (results id es) <= length es)%nat.
Proof.
  unfold results. rewrite <- (length_rev es). induction (rev es) as [|e l IH]; [done|].
  cbn [omap list_omap length] in *. destruct (result_for id e); cbn [length]; lia.
Qed.

Definition CheckInv (id : string) (rs : list bool) (s : Checker * Pool) : Prop :=
  WF s.2 /\ fails s.1 = 2 /\ streak_of id s.1 = trailing_failures rs /\
  health_of id s.2 = Some (if 2 <=? trailing_failures rs then Unhealthy else Healthy).

Lemma CheckInv_event id es s e :
  CheckInv id (results id es) s ->
  (forall f, e = EOther f -> health_neutral id f) ->
  Z.of_nat (S (length es)) <= max_int64 ->
  CheckInv id (results id (es ++ [e])) (run_event s e).
Proof.
  intros (Hw & Hf & Hst & Hh) Hn Hb. destruct s as [c p]. simpl in *.
  rewrite results_snoc. destruct e as [id' ok|f]; simpl.
  2: { destruct (Hn f eq_refl p Hw) as [? Hk]. split_and!; try done. simpl. by rewrite Hk. }
  unfold mark. destruct (id' =s id) eqn:Ei; breflect.
  - subst id'. pose proof (trailing_nonneg (results id es)) as Ht.
    pose proof (results_length id es) as Hl.
    destruct ok; unfold CheckInv; simpl.
    + split_and!; [by apply SetHealth_WF|done|unfold streak_of; simpl; by rewrite lookup_insert_eq|].
      rewrite SetHealth_health, decide_True, Hh by done. done.
    + assert (Hs1 : wrap64 (streak_of id c + 1) = 1 + trailing_failures (results id es)).
      { rewrite Hst. unwrap64. lia. }
      assert (Hs2 : streak_of id (set_streak (<[id := wrap64 (streak_of id c + 1)]>
                      (streak c)) c) = 1 + trailing_failures (results id es)).
      { unfold streak_of at 1. simpl. by rewrite lookup_insert_eq. }
      rewrite Hs2, Hf, Z.geb_leb. destruct (2 <=? 1 + _) eqn:E2; breflect; (split_and!; try done).
      * by apply SetHealth_WF.
      * rewrite SetHealth_health, decide_True, Hh by done. done.
      * rewrite Hh. by rewrite (proj2 (Z.leb_gt _ _)) by lia.
  - assert (Hk : forall z, streak_of id (set_streak (<[id' := z]> (streak c)) c) = streak_of id c).
    { intros z. unfold streak_of. simpl. by rewrite lookup_insert_ne. }
    assert (Hsh : forall h, health_of id (SetHealth id' h p) = health_of id p).
    { intros h. by rewrite SetHealth_health, decide_False. }
    destruct ok; simpl; [|destruct (_ >=? _)];
      split_and!; simpl; rewrite ?Hk, ?Hsh; try done; by apply SetHealth_WF.
Qed.

(** C28. Health follows the probes with hysteresis: starting from a healthy endpoint, after
    any sequence of probes of any endpoints and of other operations that leave health
    marks alone, the endpoint is unhealthy exactly when its last two probes failed; one
    failure never takes it out and one success always brings it back. *)
Theorem health_hysteresis id c p es :
  WF p -> fails c = 2 -> streak c !! id = None -> health_of id p = Some Healthy ->
  (forall f, EOther f ∈ es -> health_neutral id f) ->
  Z.of_nat (length es) <= max_int64 ->
  health_of id (foldl run_event (c, p) es).2 =
    Some (match results id es with false :: false :: _ => Unhealthy | _ => Healthy end).
Proof.
  intros Hw Hf Hs Hh Hn Hb.
  assert (Hi : CheckInv id (results id es) (foldl run_event (c, p) es)).
  { induction es as [|e es IH] using rev_ind.
    - split_and!; try done. unfold streak_of. simpl. by rewrite Hs.
    - rewrite length_app in Hb. simpl in Hb. rewrite foldl_app. simpl.
      apply CheckInv_event; [|intros f ->; apply Hn; set_solver|lia].
      apply IH; [|lia]. intros f Hin. apply Hn. set_solver. }
  destruct Hi as (_ & _ & _ & ->). f_equal.
  destruct (results id es) as [|[] [|[] rs]]; simpl; try done.
  pose proof (trailing_nonneg rs). by rewrite (proj2 (Z.leb_le _ _)) by lia.
Qed.

(** Reports are such operations. *)
Lemma Report_neutral id now id' r : health_neutral id (Report now id' r).
Proof.
  intros p Hw. split; [eapply framed_WF; [apply Report_framed|done]|].
  unfold Report, health_of. destruct (byID p !! id') as [l'|]; [|done].
  destruct (members p !! l') as [m|] eqn:Em; [|done].
  repeat dcase; simpl; try done. destruct (byID p !! id) as [l|]; simpl; [|done].
  rewrite lookup_insert. case_decide; subst; [|done]. by rewrite Em.
Qed.

(** One round probes every endpoint of the pool once. *)
Lemma CheckAll_events `{Unicode} probe s :
  CheckAll probe s =
    foldl run_event s (map (fun ep => EMark (ID ep) (probe_ok probe ep)) (All s.2)).
Proof.
  unfold CheckAll. generalize (All s.2). intros l. revert s.
  induction l as [|ep l IH]; intros s; simpl; [done|]. by rewrite IH.
Qed.

Definition demo_pool : Pool :=
  match NewPool [mkEndpoint "e1" "" "gpt" "" "http://u" "" "" 1 0 ""] (Breaker.mkConfig 0 0) with
  | inr p => p
  | inl _ => emptyPool (Breaker.mkConfig 0 0)
  end.

Lemma demo_pool_WF : WF demo_pool.
Proof.
  unfold demo_pool. destruct (NewPool _ _) as [e|p] eqn:E; [apply emptyPool_WF|].
  unfold NewPool in E. destruct (Replace _ _) as [[e|] p'] eqn:Er; [done|].
  simplify_eq. eapply Replace_preserves_WF; [apply emptyPool_WF|done].
Qed.

Lemma health_hysteresis_witness :
  health_of "e1" (foldl run_event (New 0 0, demo_pool)
    [EMark "e1" false; EOther (Report 5 "e1" (mkResult true 0 7 false)); EMark "e1" false]).2
  = Some Unhealthy.
Proof.
  rewrite (health_hysteresis "e1" (New 0 0) demo_pool); try done.
  - apply demo_pool_WF.
  - intros f Hf. set_unfold in Hf. destruct_or? Hf; try done. simplify_eq. apply Report_neutral.
Defined.
