(* ===== verification/HealthLoop.v ===== *)
(** * The goroutine of the health checker ([Start] and [Stop] of [internal/health/checker.go])

    The channels [stop] and [done], the goroutines that [Start] launches and the callers
    of [Stop], interleaved at every channel operation. What a pass over the endpoints does
    is [CheckAll] of [HealthChecker.v]; here it only takes time. *)

From Stdlib Require Import ZArith Lia.
From stdpp Require Import prelude gmap.
From S2P Require Import Prelude.

(** A goroutine is in a pass, at its select, about to close [done] or gone. *)
Inductive LoopPC := LCheck | LSelect | LClose | LGone.

(** A caller of [Stop] is at its select, about to close [stop], waiting for [done] or
    back. *)
Inductive StopPC := SSelect | SClose | SWait | SBack.

#[export] Instance LoopPC_eq_dec : EqDecision LoopPC.
Proof. solve_decision. Defined.
#[export] Instance StopPC_eq_dec : EqDecision StopPC.
Proof. solve_decision. Defined.

Record Life := mkLife {
  stop : bool;
  done_ : bool;
  loops : gmap nat LoopPC;
  stoppers : gmap nat StopPC;
  panicked : bool
}.

(** The channels as [New] makes them. *)
Definition NewLife : Life := mkLife false false ∅ ∅ false.

Inductive action :=
| AStart (i : nat) | APassEnds (i : nat) | ATick (i : nat) | ASeesStop (i : nat) | ACloseDone (i : nat)
| AStop (j : nat) | AStopped (j : nat) | ADefault (j : nat) | ACloseStop (j : nat) | ADone (j : nat).

Definition set_loop (i : nat) (pc : LoopPC) (s : Life) : Life :=
  mkLife (stop s) (done_ s) (<[i := pc]> (loops s)) (stoppers s) (panicked s).
Definition set_stopper (j : nat) (pc : StopPC) (s : Life) : Life :=
  mkLife (stop s) (done_ s) (loops s) (<[j := pc]> (stoppers s)) (panicked s).

(** Closing a closed channel panics. *)
Definition close_stop (s : Life) : Life :=
  mkLife true (done_ s) (loops s) (stoppers s) (panicked s || stop s).
Definition close_done (s : Life) : Life :=
  mkLife (stop s) true (loops s) (stoppers s) (panicked s || done_ s).

Definition when {A} (b : bool) (x : A) : option A := if b then Some x else None.

Definition loop_at (i : nat) (pc : LoopPC) (s : Life) : bool := bool_decide (loops s !! i = Some pc).
Definition stopper_at (j : nat) (pc : StopPC) (s : Life) : bool :=
  bool_decide (stoppers s !! j = Some pc).

Definition exec (a : action) (s : Life) : option Life :=
  match a with
  | AStart i => when (bool_decide (loops s !! i = None)) (set_loop i LCheck s)
  | APassEnds i => when (loop_at i LCheck s) (set_loop i LSelect s)
  | ATick i => when (loop_at i LSelect s) (set_loop i LCheck s)
  | ASeesStop i => when (loop_at i LSelect s && stop s) (set_loop i LClose s)
  | ACloseDone i => when (loop_at i LClose s) (set_loop i LGone (close_done s))
  | AStop j => when (bool_decide (stoppers s !! j = None)) (set_stopper j SSelect s)
  | AStopped j => when (stopper_at j SSelect s && stop s) (set_stopper j SBack s)
  | ADefault j => when (stopper_at j SSelect s && negb (stop s)) (set_stopper j SClose s)
  | ACloseStop j => when (stopper_at j SClose s) (set_stopper j SWait (close_stop s))
  | ADone j => when (stopper_at j SWait s && done_ s) (set_stopper j SBack s)
  end.

Fixpoint run (l : list action) (s : Life) : option Life :=
  match l with
  | [] => Some s
  | a :: l => s ← exec a s; run l s
  end.

(** ** One [Start], one [Stop], as [main] calls them *)

Definition once (a : action) : Prop :=
  match a with
  | AStart i | APassEnds i | ATick i | ASeesStop i | ACloseDone i => i = O
  | AStop j | AStopped j | ADefault j | ACloseStop j | ADone j => j = O
  end.

Definition step (s t : Life) : Prop := exists a, once a /\ exec a s = Some t.

(** How far the goroutine and the caller have come, and what the channels then are. *)
Definition loop_of (s : Life) : option LoopPC := loops s !! O.
Definition stopper_of (s : Life) : option StopPC := stoppers s !! O.

Record LifeInv (s : Life) : Prop := {
  li_calm : panicked s = false;
  li_stop : stop s = true <-> stopper_of s = Some SWait \/ stopper_of s = Some SBack;
  li_done : done_ s = true <-> loop_of s = Some LGone;
  li_close : loop_of s = Some LClose \/ loop_of s = Some LGone -> stop s = true;
  li_back : stopper_of s = Some SBack -> done_ s = true
}.

Lemma NewLife_inv : LifeInv NewLife.
Proof. split; unfold loop_of, stopper_of; cbn; rewrite ?lookup_empty; intuition congruence. Qed.

Lemma when_Some {A} b (x y : A) : when b x = Some y -> b = true /\ y = x.
Proof. destruct b; [|done]. by intros [= <-]. Qed.

Lemma step_inv s t : LifeInv s -> step s t -> LifeInv t.
Proof.
  intros [Hc Hs Hd Hl Hb] (a & Ho & Ha). unfold loop_of, stopper_of in *.
  destruct a; cbn [once exec] in *; subst; apply when_Some in Ha as [Hg ->];
    unfold loop_at, stopper_at in Hg; breflect;
    split; unfold loop_of, stopper_of, set_loop, set_stopper, close_stop, close_done; cbn;
    rewrite ?lookup_insert_eq, ?Hc; destruct (stop s), (done_ s); (intuition congruence).
Qed.

Lemma reached_inv s : steps step NewLife s -> LifeInv s.
Proof. apply steps_invariant; [apply NewLife_inv|apply step_inv]. Qed.

(** *** Progress *)

Lemma go a s t : once a -> exec a s = Some t -> steps step s t.
Proof. intros Ho He. apply steps_one. by exists a. Qed.

Lemma loop_at_spec pc s : loop_of s = Some pc -> loop_at O pc s = true.
Proof. intros Hs. by apply bool_decide_eq_true. Qed.
Lemma stopper_at_spec pc s : stopper_of s = Some pc -> stopper_at O pc s = true.
Proof. intros Hs. by apply bool_decide_eq_true. Qed.

Lemma set_loop_of pc s : loop_of (set_loop O pc s) = Some pc.
Proof. apply lookup_insert_eq. Qed.
Lemma set_stopper_of pc s : stopper_of (set_stopper O pc s) = Some pc.
Proof. apply lookup_insert_eq. Qed.

(** Once [stop] is closed the goroutine can finish. *)
Lemma loop_finishes s : LifeInv s -> stop s = true -> loop_of s <> None ->
  exists t, steps step s t /\ loop_of t = Some LGone /\ stopper_of t = stopper_of s /\ done_ t = true.
Proof.
  assert (Hclose : forall s, LifeInv s -> loop_of s = Some LClose ->
    exists t, steps step s t /\ loop_of t = Some LGone /\ stopper_of t = stopper_of s /\ done_ t = true).
  { clear. intros s HI Hl. exists (set_loop O LGone (close_done s)).
    split; [|split_and!; [apply set_loop_of|done|done]].
    apply (go (ACloseDone O)); [done|]. simpl. by rewrite loop_at_spec. }
  assert (Hsel : forall s, LifeInv s -> stop s = true -> loop_of s = Some LSelect ->
    exists t, steps step s t /\ loop_of t = Some LGone /\ stopper_of t = stopper_of s /\ done_ t = true).
  { clear -Hclose. intros s HI Hs Hl.
    assert (He : exec (ASeesStop O) s = Some (set_loop O LClose s)) by (simpl; by rewrite loop_at_spec, Hs).
    destruct (Hclose (set_loop O LClose s)) as (t & Ht & H1 & H2 & H3).
    - eapply step_inv; [exact HI|by exists (ASeesStop O)].
    - apply set_loop_of.
    - exists t. split; [|by rewrite H2]. eapply steps_trans; [by apply (go (ASeesStop O))|done]. }
  intros HI Hs Hl. destruct (loop_of s) as [[| | |]|] eqn:El; [..|done].
  - assert (He : exec (APassEnds O) s = Some (set_loop O LSelect s)) by (simpl; by rewrite loop_at_spec).
    destruct (Hsel (set_loop O LSelect s)) as (t & Ht & H1 & H2 & H3).
    + eapply step_inv; [exact HI|by exists (APassEnds O)].
    + done.
    + apply set_loop_of.
    + exists t. split; [|by rewrite H2]. eapply steps_trans; [by apply (go (APassEnds O))|done].
  - by apply Hsel.
  - by apply Hclose.
  - exists s. split; [apply steps_refl|]. split_and!; [done|done|by apply (li_done _ HI)].
Qed.

(** A caller of [Stop] gets [stop] closed. *)
Lemma stopper_closes s : LifeInv s -> stopper_of s <> None ->
  exists t, steps step s t /\ LifeInv t /\ stop t = true /\ loop_of t = loop_of s /\ stopper_of t <> None.
Proof.
  assert (Hclose : forall s, LifeInv s -> stopper_of s = Some SClose ->
    exists t, steps step s t /\ LifeInv t /\ stop t = true /\ loop_of t = loop_of s /\ stopper_of t <> None).
  { clear. intros s HI Hs.
    assert (He : exec (ACloseStop O) s = Some (set_stopper O SWait (close_stop s)))
      by (simpl; by rewrite stopper_at_spec).
    eexists. split; [by apply (go (ACloseStop O))|].
    split; [eapply step_inv; [exact HI|by exists (ACloseStop O)]|].
    split_and!; [done|done|by rewrite set_stopper_of]. }
  intros HI Hs. destruct (stopper_of s) as [[| | |]|] eqn:Es; [..|done].
  - assert (Hst : stop s = false).
    { destruct (stop s) eqn:E; [|done]. apply (li_stop _ HI) in E. by destruct E; congruence. }
    assert (He : exec (ADefault O) s = Some (set_stopper O SClose s))
      by (simpl; by rewrite stopper_at_spec, Hst).
    destruct (Hclose (set_stopper O SClose s)) as (t & Ht & H1 & H2 & H3 & H4).
    + eapply step_inv; [exact HI|by exists (ADefault O)].
    + apply set_stopper_of.
    + exists t. split; [eapply steps_trans; [by apply (go (ADefault O))|done]|]. by rewrite H3.
  - by apply Hclose.
  - exists s. split; [apply steps_refl|]. split_and!; try done; [apply (li_stop _ HI); by left|congruence].
  - exists s. split; [apply steps_refl|]. split_and!; try done; [apply (li_stop _ HI); by right|congruence].
Qed.

(** C39. The checker stops cleanly when it is started once and stopped once, at whatever
    moment: no channel is closed twice; when [Stop] has returned the goroutine is gone, so no
    probe is sent any more; and whatever state the two are in, [Stop] can still
    return. [Stop] without a [Start] never does. *)
Theorem checker_stops s :
  steps step NewLife s ->
  panicked s = false /\
  (stopper_of s = Some SBack -> loop_of s = Some LGone) /\
  (stopper_of s <> None -> loop_of s <> None ->
     exists t, steps step s t /\ stopper_of t = Some SBack /\ loop_of t = Some LGone).
Proof.
  intros HI%reached_inv. split_and!.
  - apply HI.
  - intros Hb. by apply (li_done _ HI), (li_back _ HI).
  - intros Hs Hl. destruct (stopper_closes s HI Hs) as (t & Ht & HIt & Hst & El & Hst').
    destruct (loop_finishes t HIt Hst) as (u & Hu & Hlu & Hsu & Hdu); [by rewrite El|].
    assert (Hpc : stopper_of u = Some SWait \/ stopper_of u = Some SBack).
    { rewrite Hsu. by apply (li_stop _ HIt). }
    destruct Hpc as [Hw|Hb].
    + exists (set_stopper O SBack u). split; [|split; [apply set_stopper_of|exact Hlu]].
      eapply steps_trans; [exact Ht|]. eapply steps_trans; [exact Hu|].
      apply (go (ADone O)); [done|]. simpl. by rewrite stopper_at_spec, Hdu.
    + exists u. split; [by eapply steps_trans|done].
Qed.

Lemma life_run_steps l s t : Forall once l -> run l s = Some t -> steps step s t.
Proof.
  intros HF. revert s. induction HF as [|a l Ha HF IH]; intros s Hr; simpl in Hr.
  - injection Hr as <-. apply steps_refl.
  - destruct (exec a s) as [u|] eqn:E; [|done]. simpl in Hr.
    eapply steps_trans; [by apply (go a)|by apply IH].
Qed.

Lemma checker_stops_witness :
  exists s, run [AStart 0; AStop 0; APassEnds 0; ADefault 0; ACloseStop 0; ATick 0] NewLife = Some s /\
    stop s = true /\ loop_of s = Some LCheck /\
    exists t, steps step s t /\ stopper_of t = Some SBack /\ loop_of t = Some LGone.
Proof.
  eexists. split; [vm_compute; reflexivity|]. split; [done|]. split; [done|].
  apply (checker_stops _ (life_run_steps [AStart 0; AStop 0; APassEnds 0; ADefault 0; ACloseStop 0; ATick 0]%nat
    NewLife _ ltac:(by repeat constructor) eq_refl)); by vm_compute.
Defined.

(** Two callers of [Stop] can both pass the select before either closes the channel; the
    second close panics. *)
Lemma overlapping_stops_panic :
  match run [AStart 0; AStop 0; AStop 1; ADefault 0; ADefault 1; ACloseStop 0; ACloseStop 1] NewLife with
  | Some s => panicked s = true
  | None => False
  end.
Proof. vm_compute. reflexivity. Qed.
