(* ===== verification/PrefixCache.v ===== *)
(** * The prefix index ([pkg/prefixcache/prefixcache.go])

    The radix tree is a package outside the repository: the interface [RadixTree]
    with the law that its longest-prefix query finds the longest stored string that
    the argument starts with. The ratio test is on [float64]s, here the IEEE-754
    operations of [SpecFloat] at 53 bits. *)

From Stdlib Require Import ZArith Lia Ascii.
From Stdlib Require Import Floats.SpecFloat.
From stdpp Require Import prelude gmap list strings.
From S2P Require Import Prelude GoInt GoText.

Local Open Scope Z_scope.

Class RadixTree (T : Type) := {
  treeEmpty : T;
  treeInsert : string -> T -> T;
  LongestPrefix : string -> T -> option string
}.

Class RadixLaws (T : Type) `{RadixTree T} := {
  stored : string -> T -> Prop;
  stored_empty k : ~ stored k treeEmpty;
  stored_insert k k' t : stored k (treeInsert k' t) <-> k = k' \/ stored k t;
  longest_some s t k : LongestPrefix s t = Some k ->
    stored k t /\ HasPrefix s k = true /\
    forall k', stored k' t -> HasPrefix s k' = true -> slen k' <= slen k;
  longest_none s t : LongestPrefix s t = None ->
    forall k, stored k t -> HasPrefix s k = false
}.

(** [float64(n)] and the operations on [float64]s. *)
Abbreviation float64 := spec_float.
Definition float64_of (n : Z) : float64 := binary_normalize 53 1024 n 0 false.
Definition float64_div (x y : float64) : float64 := SFdiv 53 1024 x y.
Definition float64_lt (x y : float64) : bool := SFltb x y.
Definition float64_le (x y : float64) : bool := SFleb x y.
Definition float64_zero : float64 := S754_zero false.
Definition float64_half : float64 := float64_div (float64_of 1) (float64_of 2).

Section Index.
Context {T : Type} `{RadixTree T}.

Record PrefixIndexer := mkPrefixIndexer { tree : T; minMatch : Z; minRatio : float64 }.

Definition New (minMatch : Z) (minRatio : float64) : PrefixIndexer :=
  let minMatch := if minMatch <? 1 then 16 else minMatch in
  let minRatio := if float64_le minRatio float64_zero then float64_half else minRatio in
  mkPrefixIndexer treeEmpty minMatch minRatio.

Definition Insert (prefix : string) (p : PrefixIndexer) : PrefixIndexer :=
  let prefix := TrimSpace prefix in
  if prefix =s "" then p
  else mkPrefixIndexer (treeInsert prefix (tree p)) (minMatch p) (minRatio p).

Definition MatchPrefix (prompt : string) (p : PrefixIndexer) : bool * Z :=
  let prompt := TrimSpace prompt in
  if prompt =s "" then (false, 0)
  else
    match LongestPrefix prompt (tree p) with
    | None => (false, 0)
    | Some matched =>
        let matchedLen := slen matched in
        if matchedLen <? minMatch p then (false, matchedLen)
        else if float64_lt (float64_div (float64_of matchedLen) (float64_of (slen prompt)))
                  (minRatio p)
                && (matchedLen <? wrap64 (minMatch p * 2)) then (false, matchedLen)
        else (true, matchedLen)
    end.

(** The matched part of a prompt is large enough for the configured ratio. *)
Definition ratio_reached (p : PrefixIndexer) (len : Z) (prompt : string) : Prop :=
  float64_lt (float64_div (float64_of len) (float64_of (slen prompt))) (minRatio p) = false.

(** C29. Every outcome of a query. A prompt that is blank or starts with no stored string is
    a miss of length zero. Otherwise the length is that of the longest stored string the
    prompt starts with, and it is a hit exactly when it is at least the minimum long and
    either reaches the ratio or is twice the minimum long. So once a prefix of twice the
    minimum is inserted, every prompt that starts with it hits, whatever its ratio (the
    comment of [MatchPrefix] asks for both thresholds: [hit_below_ratio]); and an insertion
    stores the trimmed prefix, if it is not blank, and nothing else. *)
Theorem prefix_index_spec `{!RadixLaws T} (p : PrefixIndexer) prompt prefix :
  0 <= minMatch p -> 2 * minMatch p <= max_int64 ->
  (let text := TrimSpace prompt in
   let r := MatchPrefix prompt p in
   (r = (false, 0) /\
    (text = "" \/ forall k, stored k (tree p) -> HasPrefix text k = false)) \/
   exists k, stored k (tree p) /\ HasPrefix text k = true /\
     (forall k', stored k' (tree p) -> HasPrefix text k' = true -> slen k' <= slen k) /\
     r.2 = slen k /\
     (r.1 = true <->
        minMatch p <= slen k /\ (ratio_reached p (slen k) text \/ 2 * minMatch p <= slen k))) /\
  (HasPrefix (TrimSpace prompt) (TrimSpace prefix) = true -> TrimSpace prefix <> "" ->
   2 * minMatch p <= slen (TrimSpace prefix) ->
   exists len, MatchPrefix prompt (Insert prefix p) = (true, len) /\
     slen (TrimSpace prefix) <= len) /\
  (forall k, stored k (tree (Insert prefix p)) <->
     stored k (tree p) \/ (k = TrimSpace prefix /\ k <> "")).
Proof.
  intros Hm Hb. split_and!.
  - intros text r. unfold r, MatchPrefix. fold text.
    destruct (text =s "") eqn:Et; breflect; [by left; auto|].
    destruct (LongestPrefix _ _) as [k|] eqn:E;
      [right|left; split; [done|right; by apply longest_none]].
    destruct (longest_some _ _ _ E) as (? & ? & ?). exists k. split_and!; [done..| |].
    { destruct (_ <? _); [done|]. by destruct (float64_lt _ _ && _). }
    unfold ratio_reached. rewrite wrap64_small by (unfold in_int64, min_int64, max_int64 in *; lia).
    destruct (slen k <? minMatch p) eqn:E1; breflect; [simpl; split; [done|lia]|].
    destruct (float64_lt _ _) eqn:E2; [|simpl; tauto].
    destruct (slen k <? minMatch p * 2) eqn:E3; breflect; simpl.
    + split; [done|]. intros [_ [?|?]]; [done|lia].
    + split; [intros _|done]. split; [done|right; lia].
  - intros Hp Hne Hlen. unfold Insert, MatchPrefix.
    rewrite (proj2 (str_eqb_neq _ _) Hne). cbn [tree minMatch minRatio].
    destruct (TrimSpace prompt =s "") eqn:Ep; breflect.
    { rewrite Ep in Hp. unfold HasPrefix in Hp. by destruct (TrimSpace prefix). }
    assert (Hst : stored (TrimSpace prefix) (treeInsert (TrimSpace prefix) (tree p)))
      by (apply stored_insert; by left).
    destruct (LongestPrefix _ _) as [k|] eqn:E.
    + destruct (longest_some _ _ _ E) as (_ & _ & Hl). specialize (Hl _ Hst Hp).
      rewrite (proj2 (Z.ltb_ge _ _)) by lia.
      rewrite wrap64_small by (unfold in_int64, min_int64, max_int64 in *; lia).
      rewrite (proj2 (Z.ltb_ge (slen k) _)) by lia. rewrite andb_false_r. by eexists.
    + pose proof (longest_none _ _ E _ Hst). congruence.
  - intros k. unfold Insert. destruct (TrimSpace prefix =s "") eqn:E; breflect.
    + rewrite E. naive_solver.
    + cbn [tree]. rewrite stored_insert. naive_solver.
Qed.
End Index.

(** ** A tree: the list of what was inserted *)
Definition longer (a : option string) (b : string) : option string :=
  match a with
  | Some a => if slen a <? slen b then Some b else Some a
  | None => Some b
  end.

#[export] Instance list_tree : RadixTree (list string) := {
  treeEmpty := [];
  treeInsert k t := k :: t;
  LongestPrefix s t := foldl longer None (filter (fun k => HasPrefix s k = true) t)
}.

Lemma foldl_longer l : forall a,
  match foldl longer a l with
  | Some k => (k ∈ l \/ a = Some k) /\ (forall k', k' ∈ l \/ a = Some k' -> slen k' <= slen k)
  | None => a = None /\ l = []
  end.
Proof.
  induction l as [|x l IH]; intros a; simpl.
  - destruct a; [|done]. split; [by right|]. intros k' [Hk|[= ->]]; [by apply elem_of_nil in Hk|lia].
  - specialize (IH (longer a x)). destruct (foldl _ _ l) as [k|].
    + destruct IH as [IH1 IH2]. unfold longer in *. destruct a as [a|].
      * destruct (slen a <? slen x) eqn:E; breflect; split.
        { destruct IH1 as [|[= <-]]; left; set_solver. }
        { intros k' [[->|Hk]%elem_of_cons|[= <-]]; [apply IH2; auto|apply IH2; auto|].
          specialize (IH2 x (or_intror eq_refl)). lia. }
        { destruct IH1 as [|[= <-]]; [left; set_solver|by right]. }
        { intros k' [[->|Hk]%elem_of_cons|[= <-]]; [|apply IH2; auto|apply IH2; auto].
          specialize (IH2 a (or_intror eq_refl)). lia. }
      * split.
        { destruct IH1 as [|[= <-]]; left; set_solver. }
        { intros k' [[->|Hk]%elem_of_cons|[=]]; apply IH2; auto. }
    + destruct IH as [IH _]. unfold longer in IH. destruct a; [by destruct (_ <? _)|done].
Qed.

#[export, program] Instance list_tree_laws : RadixLaws (list string) := {
  stored k t := k ∈ t
}.
Next Obligation. intros k Hk. by apply elem_of_nil in Hk. Qed.
Next Obligation. intros k k' t. simpl. by rewrite elem_of_cons. Qed.
Next Obligation.
  intros s t k. simpl. pose proof (foldl_longer (filter (fun k => HasPrefix s k = true) t) None).
  intros E. rewrite E in H. destruct H as [[Hk|?] Hl]; [|done].
  apply list_elem_of_filter in Hk as [? ?]. split_and!; try done.
  intros k' Hk' Hp. apply Hl. left. by apply list_elem_of_filter.
Qed.
Next Obligation.
  intros s t. simpl. pose proof (foldl_longer (filter (fun k => HasPrefix s k = true) t) None).
  intros E. rewrite E in H. destruct H as [_ Hnil]. intros k Hk.
  destruct (HasPrefix s k) eqn:Ep; [|done].
  assert (Hin : k ∈ filter (fun k => HasPrefix s k = true) t) by by apply list_elem_of_filter.
  rewrite Hnil in Hin. by apply elem_of_nil in Hin.
Qed.

Lemma prefix_index_spec_witness :
  exists len, MatchPrefix "hello world" (Insert " hello" (New 2 float64_zero)) = (true, len) /\
    5 <= len.
Proof.
  destruct (prefix_index_spec (New 2 float64_zero) "hello world" " hello") as (_ & Hi & _).
  - done.
  - done.
  - apply Hi; by vm_compute.
Defined.

(** Two thirds of the prompt are not in the index, and it is a hit for a ratio of one
    half. *)
Lemma hit_below_ratio :
  let p := Insert "You are a helpful assistant. Be terse." (New 16 float64_half) in
  let prompt := "You are a helpful assistant. Be terse. Tell me everything you know about the history of gateways and load balancing." in
  MatchPrefix prompt p = (true, 38) /\ slen prompt = 116 /\
  float64_lt (float64_div (float64_of 38) (float64_of 116)) (minRatio p) = true.
Proof. vm_compute. auto. Qed.
