(* ===== verification/Http.v ===== *)
(** * HTTP responses as handlers write them

    [net/http]'s response: the header map is copied when the status line is written,
    the first body write writes the status 200, and a second status is ignored. The
    class [ResponseWriter] is the Go interface, together with the answer of the
    gateway's type assertion to its own wrapper. *)

From Stdlib Require Import ZArith.
From stdpp Require Import prelude gmap list strings.
From S2P Require Import Prelude GoInt GoText Endpoint.

Local Open Scope Z_scope.

Record Response := mkResponse {
  hdr : Header;
  status : option Z;
  sent : Header;
  body : string
}.

Definition emptyResponse : Response := mkResponse ∅ None ∅ "".

Class ResponseWriter (W : Type) := {
  w_Header : W -> Header;
  w_SetHeader : string -> string -> W -> W;
  w_WriteHeader : Z -> W -> W;
  w_Write : string -> W -> W;
  w_wrote : W -> bool
}.

Definition resp_WriteHeader (code : Z) (r : Response) : Response :=
  match status r with
  | Some _ => r
  | None => mkResponse (hdr r) (Some code) (hdr r) (body r)
  end.

Definition resp_Write (p : string) (r : Response) : Response :=
  let r := resp_WriteHeader 200 r in
  mkResponse (hdr r) (status r) (sent r) (body r +:+ p).

#[export] Instance Response_writer : ResponseWriter Response := {
  w_Header := hdr;
  w_SetHeader k v r := mkResponse (header_set k v (hdr r)) (status r) (sent r) (body r);
  w_WriteHeader := resp_WriteHeader;
  w_Write := resp_Write;
  w_wrote _ := false
}.

(** What an adapter may do to the writer it is handed. A flush would send a status line that
    is still missing; the adapters flush only after a write, which sent it, so here it does
    nothing. *)
Inductive WriterOp :=
| OpSetHeader (k v : string)
| OpWriteHeader (code : Z)
| OpWrite (p : string)
| OpFlush.

Definition apply_op `{ResponseWriter W} (w : W) (o : WriterOp) : W :=
  match o with
  | OpSetHeader k v => w_SetHeader k v w
  | OpWriteHeader code => w_WriteHeader code w
  | OpWrite p => w_Write p w
  | OpFlush => w
  end.

Definition apply_ops `{ResponseWriter W} (os : list WriterOp) (w : W) : W :=
  foldl apply_op w os.

(** [http.Error]. *)
Definition http_Error `{ResponseWriter W} (msg : string) (code : Z) (w : W) : W :=
  let w := w_SetHeader "Content-Type" "text/plain; charset=utf-8" w in
  let w := w_SetHeader "X-Content-Type-Options" "nosniff" w in
  let w := w_WriteHeader code w in
  w_Write (msg +:+ String (of_byte 0x0A) "") w.
