(* ===== verification/Gateway.v ===== *)
(** * The gateway handler ([internal/aigateway/gateway.go])

    Admission of a request, the forward loop over the endpoints, settlement and the
    status pages. The handler's shared objects are the components of the other
    files; what the outside does (clocks, the network, the adapters, other
    goroutines) is an argument: [Attempt] for one turn of the forward loop, [Env] for
    a request. The log is the sequence of the logger's records. *)

From Stdlib Require Import ZArith Lia Ascii.
From stdpp Require Import prelude gmap list strings.
From S2P Require Import Prelude GoInt GoText GoErr Breaker Endpoint Pool Provider.
From S2P Require Import Retry Redis Limiter Json Types Auth PrefixCache Http.

Local Open Scope Z_scope.

Definition prefixCacheHeader : string := "X-Prefix-Cache-Hit".
Definition requestIDHeader : string := "X-Request-ID".

(** ** The response wrapper *)
Record statusWriter := mkStatusWriter { inner : Response; code : Z; wrote : bool }.

Definition sw_WriteHeader (c : Z) (w : statusWriter) : statusWriter :=
  if wrote w then w
  else mkStatusWriter (w_WriteHeader c (inner w)) c true.

Definition sw_Write (p : string) (w : statusWriter) : statusWriter :=
  let w := if negb (wrote w) then sw_WriteHeader 200 w else w in
  mkStatusWriter (w_Write p (inner w)) (code w) (wrote w).

#[export] Instance statusWriter_writer : ResponseWriter statusWriter := {
  w_Header w := hdr (inner w);
  w_SetHeader k v w := mkStatusWriter (w_SetHeader k v (inner w)) (code w) (wrote w);
  w_WriteHeader := sw_WriteHeader;
  w_Write := sw_Write;
  w_wrote := wrote
}.

(** ** Metrics: 64-bit counters *)
Record Metrics := mkMetrics {
  mRequests : Z;
  mErrors : Z;
  mRateLimited : Z;
  mQuotaRejected : Z;
  mAuthRejected : Z;
  mLatencyMS : Z;
  mTokenUsage : Z;
  mActive : Z;
  mProviderErrs : gmap string Z
}.

Definition newMetrics : Metrics := mkMetrics 0 0 0 0 0 0 0 0 ∅.

Definition inc (z : Z) : Z := wrapU64 (z + 1).

Definition add_rateLimited (m : Metrics) : Metrics :=
  mkMetrics (mRequests m) (mErrors m) (inc (mRateLimited m)) (mQuotaRejected m)
    (mAuthRejected m) (mLatencyMS m) (mTokenUsage m) (mActive m) (mProviderErrs m).
Definition add_quotaRejected (m : Metrics) : Metrics :=
  mkMetrics (mRequests m) (mErrors m) (mRateLimited m) (inc (mQuotaRejected m))
    (mAuthRejected m) (mLatencyMS m) (mTokenUsage m) (mActive m) (mProviderErrs m).
Definition add_authRejected (m : Metrics) : Metrics :=
  mkMetrics (mRequests m) (mErrors m) (mRateLimited m) (mQuotaRejected m)
    (inc (mAuthRejected m)) (mLatencyMS m) (mTokenUsage m) (mActive m) (mProviderErrs m).
Definition add_tokenUsage (n : Z) (m : Metrics) : Metrics :=
  mkMetrics (mRequests m) (mErrors m) (mRateLimited m) (mQuotaRejected m)
    (mAuthRejected m) (mLatencyMS m) (wrapU64 (mTokenUsage m + wrapU64 n)) (mActive m)
    (mProviderErrs m).
Definition add_active (n : Z) (m : Metrics) : Metrics :=
  mkMetrics (mRequests m) (mErrors m) (mRateLimited m) (mQuotaRejected m)
    (mAuthRejected m) (mLatencyMS m) (mTokenUsage m) (wrap64 (mActive m + n))
    (mProviderErrs m).

Definition observe (d : Z) (failed : bool) (m : Metrics) : Metrics :=
  mkMetrics (inc (mRequests m)) (if failed then inc (mErrors m) else mErrors m)
    (mRateLimited m) (mQuotaRejected m) (mAuthRejected m)
    (wrapU64 (mLatencyMS m + wrapU64 (milliseconds d))) (mTokenUsage m) (mActive m)
    (mProviderErrs m).

(** [atomicMap.add]. *)
Definition map_add (key : string) (n : Z) (values : gmap string Z) : gmap string Z :=
  <[key := wrapU64 (default 0 (values !! key) + n)]> values.

Definition providerError (endpointID : string) (m : Metrics) : Metrics :=
  mkMetrics (mRequests m) (mErrors m) (mRateLimited m) (mQuotaRejected m)
    (mAuthRejected m) (mLatencyMS m) (mTokenUsage m) (mActive m)
    (map_add endpointID 1 (mProviderErrs m)).

(** ** Error answers *)
Definition writeAPIError `{ResponseWriter W} (status : Z) (message typ code : string)
    (w : W) : W :=
  if w_wrote w then w
  else
    let w := w_SetHeader "Content-Type" "application/json" w in
    let w := w_WriteHeader status w in
    w_Write (EncodeAPIError message typ code) w.

Definition writeAuthError `{ResponseWriter W} (err : error) (w : W) : W :=
  if is_sentinel err ErrMissing then
    writeAPIError 401 "missing api key" "invalid_request_error" "invalid_api_key" w
  else if is_sentinel err ErrDisabled then
    writeAPIError 401 "api key disabled" "invalid_request_error" "invalid_api_key" w
  else if is_sentinel err ErrInvalid then
    writeAPIError 401 "invalid api key" "invalid_request_error" "invalid_api_key" w
  else writeAPIError 503 "auth unavailable" "api_error" "" w.

Definition providerStatus (err : error) : Z * string :=
  let '(status, msg) :=
    match as_provider err with
    | Some pe => if StatusCode pe >? 0 then (StatusCode pe, GoErr.Message pe)
                 else (502, error_text err)
    | None => (502, error_text err)
    end in
  if is_canceled err || is_deadline err then (504, "request timeout") else (status, msg).

Definition writeProviderError `{ResponseWriter W} (err : error) (w : W) : W :=
  if w_wrote w then w
  else
    let '(status, msg) := providerStatus err in
    writeAPIError status msg "api_error" "" w.

(** ** Requests *)
Record Request := mkRequest {
  path : string;
  method : string;
  header : Header;
  bodyBytes : string + error
}.

Inductive LogEntry :=
| LogReady (err : error)
| LogPrefixHit (matched_len prompt_len : Z)
| LogPrededuct (err : option error)
| LogCall (request_id user_id model provider endpoint : string) (latency_ms : Z) (stream : bool)
| LogCallFailed (request_id user_id model provider endpoint : string) (err : error)
    (latency_ms : Z)
| LogSettle (request_id user_id : string) (err : error)
| LogRequest (request_id user_id model endpoint : string) (status latency_ms : Z)
    (err : option error).

(** [incomingRequestID]; [random] is what [rand.Read] gives, if it works, and
    [nanos] the clock otherwise. *)
Definition incomingRequestID (r : Request) (random : option string) (nanos : Z) : string :=
  let id := TrimSpace (header_get requestIDHeader (header r)) in
  if negb (id =s "") && (slen id <=? 64) then id
  else
    match random with
    | None => int_string nanos
    | Some b => unchars (mjoin ((fun a => hex 2 (byte_of a)) <$> chars b))
    end.

Definition maxPrefix : nat := 128.

Definition systemPrefix (prompt : string) : string :=
  let rs := runes (TrimSpace prompt) in
  match rs with
  | [] => ""
  | _ => if bool_decide (maxPrefix < length rs)%nat then of_runes (take maxPrefix rs)
         else of_runes rs
  end.

Section Gateway.
Context `{Float32} `{JsonError} `{Unicode} `{Printable} `{KeyHash}.
(** The adapters, the key store, the database and the prefix tree. *)
Context {A K D T : Type} `{KeyStore K} `{Redis D} `{RadixTree T}.

Record Gateway := mkGateway {
  auth : option Authenticator;
  hasLimiter : bool;
  hasPrefix : bool;
  tokenizer : option (string -> Z);
  ready : option (option error);
  completionReserve : Z;
  retry : Retry.Config
}.

Record World := mkWorld {
  wPool : Pool;
  wProviders : Registry (Adapter := A);
  wKeys : K;
  wLimiter : Limiter D;
  wDb : D;
  wPrefix : PrefixIndexer (T := T);
  wMetrics : Metrics;
  wLog : list LogEntry
}.

(** [New] with the nil checks and the defaults. *)
Record Config := mkConfig {
  cAuth : option Authenticator;
  cHasLimiter : bool;
  cHasPool : bool;
  cHasProviders : bool;
  cHasPrefix : bool;
  cTokenizer : option (string -> Z);
  cReady : option (option error);
  cCompletionReserve : Z;
  cRetry : Retry.Config
}.

Definition New (cfg : Config) : Gateway + error :=
  if negb (cHasPool cfg) then inr (errorsNew "endpoint pool is required")
  else if negb (cHasProviders cfg) then inr (errorsNew "provider registry is required")
  else
    let reserve := if cCompletionReserve cfg <? 1 then 256 else cCompletionReserve cfg in
    let attempts := if MaxAttempts (cRetry cfg) <? 1 then 3 else MaxAttempts (cRetry cfg) in
    let delay := if BaseDelay (cRetry cfg) <=? 0 then 100 * Millisecond
                 else BaseDelay (cRetry cfg) in
    inl (mkGateway (cAuth cfg) (cHasLimiter cfg) (cHasPrefix cfg) (cTokenizer cfg)
           (cReady cfg) reserve (Retry.mkConfig attempts delay)).

(** ** Forwarding *)

(** One turn of the loop: what others do to the pool before the pick and during the
    call, the pick's own interference, the adapter's answers, the clocks and the
    context. *)
Record Attempt := mkAttempt {
  aOthers : Pool -> Pool;
  aPick : Pool.Env;
  aProviders : Registry (Adapter := A) -> Registry (Adapter := A);
  aChat : A -> ChatRequest -> ChatResponse + error;
  aChatStream : A -> ChatRequest -> list WriterOp * option Usage * option error;
  aDuring : Pool -> Pool;
  aLatency : Z;
  aNow : Z;
  aNanos : Z;
  aCreated : Z;
  aCtxErr : option error;
  aSleepNow : option error;
  aSleepDuring : option error
}.

(** What the loop changes. *)
Record FState := mkFState {
  fPool : Pool;
  fProviders : Registry (Adapter := A);
  fWriter : statusWriter;
  fMetrics : Metrics;
  fLog : list LogEntry
}.

Definition set_fPool (p : Pool) (s : FState) : FState :=
  mkFState p (fProviders s) (fWriter s) (fMetrics s) (fLog s).
Definition set_fProviders (r : Registry (Adapter := A)) (s : FState) : FState :=
  mkFState (fPool s) r (fWriter s) (fMetrics s) (fLog s).
Definition set_fWriter (w : statusWriter) (s : FState) : FState :=
  mkFState (fPool s) (fProviders s) w (fMetrics s) (fLog s).
Definition set_fMetrics (m : Metrics) (s : FState) : FState :=
  mkFState (fPool s) (fProviders s) (fWriter s) m (fLog s).
Definition log (e : LogEntry) (s : FState) : FState :=
  mkFState (fPool s) (fProviders s) (fWriter s) (fMetrics s) (fLog s ++ [e]).

Definition withUpstreamModel (req : ChatRequest) (ep : Endpoint) : ChatRequest :=
  mkChatRequest _ (UpstreamModel ep (Types.Model req)) (Messages req) (Temperature req)
    (MaxTokens req) (Stream req).

(** Lines 227-240: the call, the usage and the error. *)
Definition callAdapter (at_ : Attempt) (adapter : A) (req upstream : ChatRequest)
    (w : statusWriter) : (option Usage * option error) * statusWriter :=
  if Stream req then
    let '(ops, usage, err) := aChatStream at_ adapter upstream in
    ((usage, err), apply_ops ops w)
  else
    match aChat at_ adapter upstream with
    | inr err => ((None, Some err), w)
    | inl resp =>
        let resp := set_rModel (Types.Model req) resp in
        let w := w_SetHeader "Content-Type" "application/json" w in
        let '(resp, bytes) := EncodeChatCompletion (aNanos at_) (aCreated at_) resp in
        let w := w_Write bytes w in
        ((Some (rUsage resp), None), w)
    end.

(** Lines 259-270: the report of a failed call. *)
Definition failureResult (err : error) (latency : Z) : Result :=
  let action := Classify (Some err) in
  match as_provider err with
  | Some pe => mkResult false (StatusCode pe) latency (Retryable pe)
  | None =>
      mkResult false 0 latency
        (bool_decide (action = Retry) || bool_decide (action = RetryOther))
  end.

(** Lines 287-294. *)
Definition retryDelay (cfg : Retry.Config) (attempt attempts : Z) (err : error)
    (excluded : Z) : Z :=
  match Classify (Some err) with
  | RetryOther =>
      let ra := Retry.RetryAfter err in
      if (ra >? 0) && (excluded >=? attempts) then ra else 0
  | _ => Backoff cfg attempt
  end.

Definition unknownModel : string := "unknown model or no healthy endpoint".

Fixpoint forwardLoop (g : Gateway) (env : nat -> Attempt) (req : ChatRequest)
    (user : User) (requestID : string) (n : nat) (attempt : nat)
    (exclude : gset string) (lastErr : option error) (s : FState)
    : (option Usage * option error) * FState :=
  match n with
  | O =>
      match lastErr with
      | Some err => ((None, Some err), set_fWriter (writeProviderError err (fWriter s)) s)
      | None =>
          ((None, Some (errorsNew "all endpoints failed")),
           set_fWriter (writeAPIError 502 "all endpoints failed" "api_error" "" (fWriter s)) s)
      end
  | S n =>
    let at_ := env attempt in
    let '(picked, exclude', p) :=
      Pick (aPick at_) (Types.Model req) (Some exclude) (aOthers at_ (fPool s)) in
    let s := set_fPool p s in
    let exclude := default exclude exclude' in
    match picked with
    | inl err =>
        match lastErr with
        | Some last =>
            ((None, Some last),
             set_fWriter (writeAPIError 502 (error_text last) "api_error" "" (fWriter s)) s)
        | None =>
            ((None, Some err),
             set_fWriter (writeAPIError 400 unknownModel "invalid_request_error" ""
                            (fWriter s)) s)
        end
    | inr ep =>
      let '(found, r) := For ep (aProviders at_ (fProviders s)) in
      let s := set_fProviders r s in
      match found with
      | inr err =>
          forwardLoop g env req user requestID n (S attempt) ({[ID ep]} ∪ exclude)
            (Some err) s
      | inl adapter =>
        let upstream := withUpstreamModel req ep in
        let '((usage, err), w) := callAdapter at_ adapter req upstream (fWriter s) in
        let s := set_fPool (aDuring at_ (fPool s)) (set_fWriter w s) in
        let latency := aLatency at_ in
        match err with
        | None =>
            let s := set_fPool (Report (aNow at_) (ID ep)
                                  (mkResult true 0 latency false) (fPool s)) s in
            let s := log (LogCall requestID (uID user) (Types.Model req)
                            (Endpoint.Provider ep) (ID ep) (milliseconds latency)
                            (Stream req)) s in
            ((usage, None), s)
        | Some err =>
            let s := set_fMetrics (providerError (ID ep) (fMetrics s)) s in
            let s := set_fPool (Report (aNow at_) (ID ep) (failureResult err latency)
                                  (fPool s)) s in
            let s := log (LogCallFailed requestID (uID user) (Types.Model req)
                            (Endpoint.Provider ep) (ID ep) err (milliseconds latency)) s in
            if bool_decide (Classify (Some err) = Fail) || bool_decide (is_Some (aCtxErr at_))
            then ((usage, Some err), set_fWriter (writeProviderError err (fWriter s)) s)
            else
              let exclude := {[ID ep]} ∪ exclude in
              let delay := retryDelay (retry g) (Z.of_nat attempt) (MaxAttempts (retry g))
                             err (Z.of_nat (size exclude)) in
              match Sleep delay (aSleepNow at_) (aSleepDuring at_) with
              | Some _ =>
                  ((usage, Some err), set_fWriter (writeProviderError err (fWriter s)) s)
              | None =>
                  forwardLoop g env req user requestID n (S attempt) exclude (Some err) s
              end
        end
      end
    end
  end.

Definition forward (g : Gateway) (env : nat -> Attempt) (req : ChatRequest) (user : User)
    (requestID : string) (s : FState) : (option Usage * option error) * FState :=
  forwardLoop g env req user requestID (Z.to_nat (MaxAttempts (retry g))) O ∅ None s.

(** ** Admission *)
Definition anonymous : User := mkUser "anonymous" "" "active".

Definition authenticate (g : Gateway) (r : Request) (k : K) : (User + error) * K :=
  match auth g with
  | None => (inl anonymous, k)
  | Some a => Lookup a (header_get "Authorization" (header r)) k
  end.

Definition set_header (h : Header) (r : Request) : Request :=
  mkRequest (path r) (method r) h (bodyBytes r).

(** [maybePrefixCache]: the writer, the request, the index and the log. *)
Definition maybePrefixCache `{ResponseWriter W} (g : Gateway) (r : Request)
    (req : ChatRequest) (s : W * PrefixIndexer (T := T) * list LogEntry)
    : Request * (W * PrefixIndexer (T := T) * list LogEntry) :=
  let '(w, prefix, logs) := s in
  if negb (hasPrefix g) then (r, s)
  else
    let prompt := PromptText (Messages req) in
    if prompt =s "" then (r, s)
    else
      let '(hit, matchedLen) := MatchPrefix prompt prefix in
      let w := if hit then w_SetHeader prefixCacheHeader "true" w else w in
      let r := if hit then set_header (header_set prefixCacheHeader "true" (header r)) r else r in
      let logs := if hit then logs ++ [LogPrefixHit matchedLen (slen prompt)] else logs in
      let sys := systemPrefix prompt in
      let prefix := if negb (sys =s "") then PrefixCache.Insert sys prefix else prefix in
      (r, (w, prefix, logs)).

Definition estimateTokens (g : Gateway) (req : ChatRequest) : Z :=
  let prompt := PromptText (Messages req) in
  let n := match tokenizer g with
           | Some count => count prompt
           | None => Z.quot (slen prompt + 3) 4
           end in
  let n := if MaxTokens req >? 0 then wrap64 (n + MaxTokens req)
           else wrap64 (n + completionReserve g) in
  if n <? 1 then 1 else n.

Definition writeLimiterError `{ResponseWriter W} (err : option error)
    (s : W * Metrics * list LogEntry) : W * Metrics * list LogEntry :=
  let '(w, m, logs) := s in
  let isErr k := match err with Some e => is_sentinel e k | None => false end in
  if isErr ErrRateLimitExceeded then
    (writeAPIError 429 "rate limited" "rate_limit_error" "rate_limit_exceeded"
       (w_SetHeader "Retry-After" "1" w), add_rateLimited m, logs)
  else if isErr ErrInsufficientBalance then
    (writeAPIError 402 "insufficient balance" "insufficient_quota" "insufficient_quota" w,
     add_quotaRejected m, logs)
  else
    (writeAPIError 503 "limiter unavailable" "api_error" "" w, m,
     logs ++ [LogPrededuct err]).

(** The tokens a request is settled for. *)
Definition actualTokens (usage : option Usage) : Z :=
  match usage with
  | None => 0
  | Some u =>
      if TotalTokens u =? 0 then wrap64 (PromptTokens u + CompletionTokens u)
      else TotalTokens u
  end.

(** The environment of one request. *)
Record Env := mkEnv {
  eRandom : option string;
  eNanos : Z;
  eLimiter : Limiter.Env D;
  eForward : nat -> Attempt;
  eBilling : D -> D;
  eSettle : Net;
  eElapsed : Z;
  eSnapshot : Z;
  eGetenv : string -> string;
  eHostname : string
}.

Definition bodyLimit : Z := 8388608.

(** [io.ReadAll] of a reader limited to 8 MiB. *)
Definition readBody (r : Request) : string + error :=
  match bodyBytes r with
  | inr err => inr err
  | inl b => inl (if slen b <=? bodyLimit then b else sprefix (Z.to_nat bodyLimit) b)
  end.

Definition world_of (w : World) (k : K) (m : Metrics) (logs : list LogEntry) : World :=
  mkWorld (wPool w) (wProviders w) k (wLimiter w) (wDb w) (wPrefix w) m logs.

(** Lines 175-192: forward, settle, count and log. *)
Definition serveAdmitted (g : Gateway) (env : Env) (req : ChatRequest) (user : User)
    (requestID : string) (preDeducted : Z) (w : World) (sw : statusWriter)
    : World * statusWriter :=
  let '((usage, ferr), s) :=
    forward g (eForward env) req user requestID
      (mkFState (wPool w) (wProviders w) sw (wMetrics w) (wLog w)) in
  let actual := actualTokens usage in
  let m := if actual >? 0 then add_tokenUsage actual (fMetrics s) else fMetrics s in
  let '(db, logs) :=
    if hasLimiter g then
      let '(settleErr, db) :=
        SettleQuota (uID user) preDeducted actual (eSettle env) (eBilling env (wDb w)) in
      (db, match settleErr with
           | Some e => fLog s ++ [LogSettle requestID (uID user) e]
           | None => fLog s
           end)
    else (wDb w, fLog s) in
  let m := observe (eElapsed env) (bool_decide (is_Some ferr)) m in
  let logs := logs ++ [LogRequest requestID (uID user) (Types.Model req) ""
                         (code (fWriter s)) (milliseconds (eElapsed env)) ferr] in
  (mkWorld (fPool s) (fProviders s) (wKeys w) (wLimiter w) db (wPrefix w) m logs,
   fWriter s).

(** Lines 142-192, on the wrapped writer. *)
Definition serveChat (g : Gateway) (env : Env) (r : Request) (requestID : string)
    (w : World) (sw : statusWriter) : World * statusWriter :=
  let ms := milliseconds (eElapsed env) in
  let '(who, k) := authenticate g r (wKeys w) in
  match who with
  | inr err =>
      let m := add_authRejected (wMetrics w) in
      let logs := wLog w ++ [LogRequest requestID "" "" "" (code sw) ms (Some err)] in
      (world_of w k m logs, writeAuthError err sw)
  | inl user =>
    let w := world_of w k (wMetrics w) (wLog w) in
    match readBody r with
    | inr _ => (w, writeAPIError 400 "read body" "invalid_request_error" "" sw)
    | inl body =>
      match ParseChatRequest body with
      | inr err =>
          (w, writeAPIError 400 (error_text err) "invalid_request_error" "" sw)
      | inl req =>
        let '(_, (sw, prefix, logs)) := maybePrefixCache g r req (sw, wPrefix w, wLog w) in
        let w := mkWorld (wPool w) (wProviders w) (wKeys w) (wLimiter w) (wDb w) prefix
                   (wMetrics w) logs in
        let preDeducted := estimateTokens g req in
        if negb (hasLimiter g) then
          serveAdmitted g env req user requestID preDeducted w sw
        else
          let '(ok, err, l, db) :=
            PreDeduct (wLimiter w) (uID user) preDeducted (eLimiter env) (wDb w) in
          let w := mkWorld (wPool w) (wProviders w) (wKeys w) l db (wPrefix w)
                     (wMetrics w) (wLog w) in
          if bool_decide (is_Some err) || negb ok then
            let '(sw, m, logs) := writeLimiterError err (sw, wMetrics w, wLog w) in
            let logs := logs ++ [LogRequest requestID (uID user) (Types.Model req) ""
                                   (code sw) ms err] in
            (world_of w (wKeys w) m logs, sw)
          else serveAdmitted g env req user requestID preDeducted w sw
      end
    end
  end.

(** ** Status pages *)
Definition health_int (h : Health) : Z :=
  match h with Healthy => 1 | Unhealthy => 0 end.
Definition breaker_int (s : Breaker.State) : Z :=
  match s with Closed => 0 | Open => 1 | HalfOpen => 2 end.

Definition metric (name : string) (v : Z) : string :=
  name +:+ " " +:+ int_string v +:+ newline.
Definition labelled (name id : string) (v : Z) : string :=
  name +:+ "{endpoint=" +:+ Quote id +:+ "} " +:+ int_string v +:+ newline.

(** [metrics.write]; the map of provider errors is printed in some order. *)
Definition metrics_write `{ResponseWriter W} (m : Metrics) (sts : list Pool.Status) (w : W) : W :=
  let w := w_SetHeader "Content-Type" "text/plain; version=0.0.4" w in
  let w := w_Write
    (metric "gateway_requests_total" (mRequests m) +:+
     metric "gateway_errors_total" (mErrors m) +:+
     metric "gateway_rate_limited_total" (mRateLimited m) +:+
     metric "gateway_quota_rejected_total" (mQuotaRejected m) +:+
     metric "gateway_auth_rejected_total" (mAuthRejected m) +:+
     metric "gateway_request_latency_ms_sum" (mLatencyMS m) +:+
     metric "gateway_token_usage_total" (mTokenUsage m) +:+
     metric "gateway_active_requests" (mActive m)) w in
  let w := foldl (fun w e => w_Write (labelled "gateway_provider_errors_total" e.1 e.2) w) w
             (map_to_list (mProviderErrs m)) in
  foldl (fun w st =>
    let id := ID (sEndpoint st) in
    let w := w_Write (labelled "gateway_endpoint_healthy" id (health_int (sHealth st))) w in
    let w := w_Write (labelled "gateway_circuit_breaker_state" id
                        (breaker_int (sBreaker st))) w in
    w_Write (labelled "gateway_endpoint_latency_ms" id (sLatencyMS st)) w) w sts.

Definition writeJSON `{ResponseWriter W} (value : json) (w : W) : W :=
  w_Write (EncodeIndent value) (w_SetHeader "Content-Type" "application/json" w).

Definition instance_json (st : Pool.Status) : json :=
  obj [("id", JStr (ID (sEndpoint st)));
       ("model", JStr (Endpoint.Model (sEndpoint st)));
       ("provider", JStr (Endpoint.Provider (sEndpoint st)));
       ("base_url", JStr (BaseURL (sEndpoint st)));
       ("weight", JInt (Weight (sEndpoint st)));
       ("health", JStr (Health_String (sHealth st)));
       ("breaker", JStr (State_String (sBreaker st)));
       ("latency_ms", JInt (sLatencyMS st))].

Definition writeModelStatus `{ResponseWriter W} (m : Metrics) (sts : list Pool.Status) (w : W) : W :=
  writeJSON (obj
    [("note", JStr ("Model Router selects a model instance for a request. " +:+
                    "Kubernetes Scheduler places Pods onto Nodes."));
     ("active_requests", JInt (mActive m));
     ("requests_total", JInt (mRequests m));
     ("errors_total", JInt (mErrors m));
     ("request_latency_ms_sum", JInt (mLatencyMS m));
     ("instances", JArr (map instance_json sts))]) w.

Definition envOr (getenv : string -> string) (key fallback : string) : string :=
  let value := getenv key in
  if negb (value =s "") then value else fallback.

Definition writeNodeStatus `{ResponseWriter W} (getenv : string -> string)
    (hostname : string) (w : W) : W :=
  writeJSON (obj
    [("hostname", JStr hostname);
     ("namespace", JStr (envOr getenv "POD_NAMESPACE" ""));
     ("node", JStr (envOr getenv "NODE_NAME" ""));
     ("note", JStr ("This is the Gateway Pod, placed by the Kubernetes Scheduler. " +:+
                    "Model Router does not choose Nodes."));
     ("pod", JStr (envOr getenv "POD_NAME" hostname));
     ("pod_ip", JStr (envOr getenv "POD_IP" ""))]) w.

Definition set_metrics (m : Metrics) (w : World) : World :=
  mkWorld (wPool w) (wProviders w) (wKeys w) (wLimiter w) (wDb w) (wPrefix w) m (wLog w).
Definition set_pool (p : Pool) (w : World) : World :=
  mkWorld p (wProviders w) (wKeys w) (wLimiter w) (wDb w) (wPrefix w) (wMetrics w) (wLog w).

Definition ok_body : string := "ok" +:+ newline.

Definition ServeHTTP (g : Gateway) (env : Env) (r : Request) (w : World) (resp : Response)
    : World * Response :=
  if path r =s "/healthz" then (w, w_Write ok_body (w_WriteHeader 200 resp))
  else if path r =s "/readyz" then
    match ready g with
    | Some (Some err) =>
        (mkWorld (wPool w) (wProviders w) (wKeys w) (wLimiter w) (wDb w) (wPrefix w)
           (wMetrics w) (wLog w ++ [LogReady err]), http_Error "not ready" 503 resp)
    | _ => (w, w_Write ok_body (w_WriteHeader 200 resp))
    end
  else if path r =s "/metrics" then
    let '(sts, p) := Snapshot (eSnapshot env) (wPool w) in
    (set_pool p w, metrics_write (wMetrics w) sts resp)
  else if path r =s "/model-status" then
    let '(sts, p) := Snapshot (eSnapshot env) (wPool w) in
    (set_pool p w, writeModelStatus (wMetrics w) sts resp)
  else if path r =s "/node-status" then
    (w, writeNodeStatus (eGetenv env) (eHostname env) resp)
  else if negb (path r =s "/v1/chat/completions") then
    (w, writeAPIError 404 "not found" "invalid_request_error" "" resp)
  else if negb (method r =s "POST") then
    (w, writeAPIError 405 "method not allowed" "invalid_request_error" "" resp)
  else
    let requestID := incomingRequestID r (eRandom env) (eNanos env) in
    let resp := w_SetHeader requestIDHeader requestID resp in
    let sw := mkStatusWriter resp 200 false in
    let w := set_metrics (add_active 1 (wMetrics w)) w in
    let '(w, sw) := serveChat g env r requestID w sw in
    (set_metrics (add_active (-1) (wMetrics w)) w, inner sw).
End Gateway.
