(* ===== verification/GatewaySpec.v ===== *)
(** * What the gateway promises

    The forward loop's calls, the answers and the log, admission, the settlement of
    a request, and the concrete runs behind the findings. *)

From Stdlib Require Import ZArith Lia Ascii.
From stdpp Require Import prelude gmap list strings.
From S2P Require Import Prelude GoInt GoText GoErr Breaker Endpoint Wrr Pool Provider.
From S2P Require Import Retry Redis Limiter LimiterSpec Json Types Auth PrefixCache Http Gateway.

Local Open Scope Z_scope.

(** ** The caller's exclusion map *)
Lemma Pick_exclude env model ex p :
  exists ex', (Pick env model (Some ex) p).1.2 = Some ex' /\ ex ⊆ ex'.
Proof.
  unfold Pick, pickBody. sunfold.
  destruct (candLoop _ _ _ _) as [cands [p1 i1]]. cbn [fst snd].
  case_bool_decide; [by exists ex|].
  destruct (chooseAndAllow env cands _) as [[[m []]|] [p2 i2]]; cbn [fst snd fmap option_fmap option_map];
    [by exists ex| |by exists ex].
  destruct (restLoop _ _ _ _) as [rest [p3 i3]]. cbn [fst snd].
  case_bool_decide; [eexists; split; [done|set_solver]|].
  destruct (chooseAndAllow env rest _) as [[[m' []]|] [p4 i4]]; cbn [fst snd];
    (eexists; split; [done|set_solver]).
Qed.

Lemma Pick_fresh env model ex p e ex' p' :
  Pick env model (Some ex) p = ((inr e, ex'), p') -> ID e ∉ ex /\ ex ⊆ default ex ex'.
Proof.
  intros HP. destruct (Pick_admitted _ _ _ _ _ _ _ HP) as (l & m & _ & _ & _ & Hn & _).
  split; [done|]. destruct (Pick_exclude env model ex p) as (e2 & He & Hs).
  rewrite HP in He. simpl in He. by subst.
Qed.

(** ** The calls of a request *)

(** The endpoint a log record is about and the error of the call. *)
Definition called (e : LogEntry) : option (string * option error) :=
  match e with
  | LogCall _ _ _ _ id _ _ => Some (id, None)
  | LogCallFailed _ _ _ _ id err _ => Some (id, Some err)
  | _ => None
  end.

(** The calls a loop may make that must avoid [ex], and the error it returns. *)
Inductive calls_ok : gset string -> list (string * option error) -> option error -> Prop :=
| co_none ex e : calls_ok ex [] (Some e)
| co_success ex id : id ∉ ex -> calls_ok ex [(id, None)] None
| co_failure ex id e : id ∉ ex -> calls_ok ex [(id, Some e)] (Some e)
| co_retry ex id e cs r :
    id ∉ ex -> Classify (Some e) <> Fail -> calls_ok ({[id]} ∪ ex) cs r ->
    calls_ok ex ((id, Some e) :: cs) r.

Lemma calls_ok_weaken ex ex' cs r : ex ⊆ ex' -> calls_ok ex' cs r -> calls_ok ex cs r.
Proof.
  intros Hs Hc. revert ex Hs. induction Hc; intros ex0 Hs; constructor; try set_solver.
  apply IHHc. set_solver.
Qed.

Lemma calls_ok_fresh ex cs r : calls_ok ex cs r -> NoDup cs.*1 /\ forall c, c ∈ cs -> c.1 ∉ ex.
Proof.
  induction 1 as [| | |ex id e cs r Hid _ _ [IH1 IH2]]; simpl.
  - split; [constructor|]. set_solver.
  - split; [by apply NoDup_singleton|]. set_solver.
  - split; [by apply NoDup_singleton|]. set_solver.
  - split.
    + constructor; [|done]. intros Hin. apply list_elem_of_fmap in Hin as (c & -> & Hc).
      specialize (IH2 c Hc). set_solver.
    + intros c [->|Hc]%elem_of_cons; [done|]. specialize (IH2 c Hc). set_solver.
Qed.

Lemma calls_ok_retried ex cs r : calls_ok ex cs r -> forall i c,
  cs !! i = Some c -> (S i < length cs)%nat ->
  exists e, c.2 = Some e /\ Classify (Some e) <> Fail.
Proof.
  induction 1 as [| | |ex id e cs r Hid Hcl _ IH]; intros i c Hi Hlt; simpl in *; try lia.
  destruct i as [|i]; simpl in Hi; [injection Hi as <-; by exists e|].
  apply (IH i); [done|lia].
Qed.

Lemma calls_ok_last ex cs r : calls_ok ex cs r ->
  (r = None <-> exists id, last cs = Some (id, None)) /\
  (forall e, r = Some e -> cs <> [] -> exists c, last cs = Some c /\ is_Some c.2).
Proof.
  induction 1 as [ex e|ex id|ex id e|ex id e cs r Hid Hcl Hc [IH1 IH2]].
  - split; [split; [done|by intros [? ?]]|done].
  - split; [split; [by eexists|done]|done].
  - split; [split; [done|by intros [? [=]]]|]. intros. eexists; split; [done|by eexists].
  - destruct cs as [|c cs].
    + inversion Hc; subst. split; [split; [done|by intros [? [=]]]|].
      intros. eexists; split; [done|by eexists].
    + split; [exact IH1|]. intros e' Hr _. by apply (IH2 e').
Qed.

Section Forward.
Context `{Float32} `{JsonError} `{Unicode} `{Printable} `{KeyHash}.
Context {A K D T : Type} `{KeyStore K} `{Redis D} `{RadixTree T}.

Lemma forwardLoop_calls g (env : nat -> Attempt (A := A)) req user rid n :
  forall attempt ex last s,
  let r := forwardLoop g env req user rid n attempt ex last s in
  exists es, fLog r.2 = fLog s ++ es /\ (length es <= n)%nat /\
    Forall (fun e => is_Some (called e)) es /\ calls_ok ex (omap called es) r.1.2.
Proof.
  induction n as [|n IH]; intros attempt ex last s; cbn [forwardLoop].
  { destruct last; exists []; rewrite app_nil_r; repeat split; (lia || constructor). }
  destruct (Pick _ _ _ _) as [[picked ex'] p] eqn:EP.
  destruct picked as [err|ep].
  { destruct last; exists []; rewrite app_nil_r; repeat split; (simpl; lia || constructor). }
  destruct (Pick_fresh _ _ _ _ _ _ _ EP) as [Hfresh Hsub].
  destruct (For ep _) as [[adapter|err] rg].
  2: { match goal with |- context [forwardLoop g env req user rid n ?a ?x ?l ?s] =>
         destruct (IH a x l s) as (es & Hes & Hlen & HF & Hc) end.
       exists es. split; [done|]. split; [lia|]. split; [done|].
       eapply calls_ok_weaken; [|exact Hc]. set_solver. }
  destruct (callAdapter _ _ _ _ _) as [[usage err] w].
  destruct err as [err|]; cbn [fst snd].
  2: { eexists [_]. split; [reflexivity|]. split; [simpl; lia|].
       split; [constructor; [by eexists|constructor]|]. by constructor. }
  destruct (bool_decide (Classify (Some err) = Fail) || _) eqn:Estop.
  { eexists [_]. split; [reflexivity|]. split; [simpl; lia|].
    split; [constructor; [by eexists|constructor]|]. by constructor. }
  destruct (Sleep _ _ _) as [e'|].
  { eexists [_]. split; [reflexivity|]. split; [simpl; lia|].
    split; [constructor; [by eexists|constructor]|]. by constructor. }
  match goal with |- context [forwardLoop g env req user rid n ?a ?x ?l ?s] =>
    destruct (IH a x l s) as (es & Hes & Hlen & HF & Hc) end.
  eexists (_ :: es). split; [rewrite Hes; cbn; by rewrite <- app_assoc|].
  split; [simpl; lia|]. split; [constructor; [by eexists|done]|]. cbn [omap list_omap called].
  apply orb_false_iff in Estop as [Estop _]. apply bool_decide_eq_false in Estop.
  constructor; [done|done|]. eapply calls_ok_weaken; [|exact Hc]. set_solver.
Qed.

Lemma omap_all {B C} (f : B -> option C) l :
  Forall (fun x => is_Some (f x)) l -> length (omap f l) = length l.
Proof.
  induction 1 as [|x l [y Hy] _ IH]; [done|]. cbn [omap list_omap length].
  rewrite Hy. cbn [length]. by rewrite IH.
Qed.

(** C3. The calls of one request, whatever the upstreams answer and other goroutines do:
    at most [MaxAttempts] of them, each logged, no endpoint called twice, every call
    but the last one a failure that is worth another attempt, and the request succeeds
    exactly when its last call did. *)
Theorem forward_calls g (env : nat -> Attempt (A := A)) req user rid s :
  0 <= MaxAttempts (retry g) ->
  let r := forward g env req user rid s in
  exists es, let cs := omap called es in
    fLog r.2 = fLog s ++ es /\ length cs = length es /\
    Z.of_nat (length cs) <= MaxAttempts (retry g) /\
    NoDup cs.*1 /\
    (forall i c, cs !! i = Some c -> (S i < length cs)%nat ->
       exists e, c.2 = Some e /\ Classify (Some e) <> Fail) /\
    (r.1.2 = None <-> exists id, last cs = Some (id, None)).
Proof.
  intros Hm. cbn zeta. unfold forward.
  destruct (forwardLoop_calls g env req user rid (Z.to_nat (MaxAttempts (retry g))) O ∅ None s)
    as (es & Hes & Hlen & HF & Hc).
  exists es. rewrite (omap_all called es HF). split_and!; [done|done|lia| | |].
  - by apply (calls_ok_fresh _ _ _ Hc).
  - rewrite <- (omap_all called es HF). by apply (calls_ok_retried _ _ _ Hc).
  - by apply (calls_ok_last _ _ _ Hc).
Qed.

(** ** The wrapped writer *)

(** The wrapper knows what was sent. *)
Definition sw_ok (w : statusWriter) : Prop :=
  if wrote w then status (inner w) = Some (code w)
  else status (inner w) = None /\ code w = 200.

Lemma sw_ok_header w k v : sw_ok w -> sw_ok (w_SetHeader k v w).
Proof. done. Qed.

Lemma sw_ok_WriteHeader w c : sw_ok w -> sw_ok (w_WriteHeader c w) /\ wrote (w_WriteHeader c w) = true.
Proof.
  unfold sw_ok. simpl. unfold sw_WriteHeader. destruct (wrote w) eqn:E; [by rewrite E|].
  intros [Hs _]. simpl. unfold resp_WriteHeader. by rewrite Hs.
Qed.

Lemma sw_ok_Write w p : sw_ok w -> sw_ok (w_Write p w) /\ wrote (w_Write p w) = true.
Proof.
  intros Hw. simpl. unfold sw_Write. destruct (wrote w) eqn:E; cbn [negb].
  - unfold sw_ok in *. rewrite E in Hw. simpl. rewrite E. split; [|done].
    unfold resp_Write, resp_WriteHeader. by rewrite Hw.
  - destruct (sw_ok_WriteHeader w 200 Hw) as [Hs Ht]. cbn in Hs, Ht.
    unfold sw_ok in *. rewrite Ht in Hs. simpl. rewrite Ht. split; [|done].
    unfold resp_Write, resp_WriteHeader. by rewrite Hs.
Qed.

Lemma sw_ok_ops os : forall w, sw_ok w ->
  sw_ok (apply_ops os w) /\ (wrote w = true -> wrote (apply_ops os w) = true).
Proof.
  induction os as [|o os IH]; intros w Hw; [done|]. unfold apply_ops in *. cbn [foldl].
  destruct o as [k v|c|p|]; cbn [apply_op].
  - exact (IH _ (sw_ok_header w k v Hw)).
  - destruct (sw_ok_WriteHeader w c Hw) as [H1' H2']. destruct (IH _ H1') as [H3' H4'].
    split; [done|]. intros _. by apply H4'.
  - destruct (sw_ok_Write w p Hw) as [H1' H2']. destruct (IH _ H1') as [H3' H4'].
    split; [done|]. intros _. by apply H4'.
  - by apply IH.
Qed.

(** An operation that sends something. *)
Definition sends (o : WriterOp) : bool :=
  match o with OpWriteHeader _ | OpWrite _ => true | _ => false end.

Lemma sends_wrote os : forall w, sw_ok w -> existsb sends os = true ->
  wrote (apply_ops os w) = true.
Proof.
  induction os as [|o os IH]; intros w Hw Hs; [done|]. unfold apply_ops in *. cbn [foldl].
  destruct o as [k v|c|p|]; cbn [apply_op]; cbn in Hs;
    [exact (IH _ (sw_ok_header w k v Hw) Hs)| | |by apply IH].
  - destruct (sw_ok_WriteHeader w c Hw) as [H1' H2']. by apply (sw_ok_ops os).
  - destruct (sw_ok_Write w p Hw) as [H1' H2']. by apply (sw_ok_ops os).
Qed.

Lemma writeAPIError_ok w st m t c : sw_ok w ->
  sw_ok (writeAPIError st m t c w) /\ wrote (writeAPIError st m t c w) = true /\
  (wrote w = false -> code (writeAPIError st m t c w) = st).
Proof.
  intros Hw. unfold writeAPIError. change (w_wrote w) with (wrote w).
  destruct (wrote w) eqn:E; [done|].
  set (w1 := w_SetHeader "Content-Type" "application/json" w).
  assert (Hw1 : sw_ok w1) by done. assert (E1 : wrote w1 = false) by done.
  destruct (sw_ok_WriteHeader w1 st Hw1) as [H1' H2'].
  destruct (sw_ok_Write (w_WriteHeader st w1) (EncodeAPIError m t c) H1') as [H3' H4'].
  split_and!; [done|done|]. intros _.
  assert (Hc : code (w_WriteHeader st w1) = st) by (change (code (sw_WriteHeader st w1) = st);
      unfold sw_WriteHeader; by rewrite E1).
  revert H2' Hc. generalize (w_WriteHeader st w1). intros w2 H2' Hc.
  change (code (sw_Write (EncodeAPIError m t c) w2) = st). unfold sw_Write. by rewrite H2'.
Qed.

Lemma writeProviderError_ok w err : sw_ok w ->
  sw_ok (writeProviderError err w) /\ wrote (writeProviderError err w) = true.
Proof.
  intros Hw. unfold writeProviderError. change (w_wrote w) with (wrote w).
  destruct (wrote w) eqn:E; [done|]. destruct (providerStatus err) as [st m].
  by destruct (writeAPIError_ok w st m "api_error" "" Hw) as (? & ? & _).
Qed.

(** A stream that succeeds has sent something. *)
Definition streams_send (env : nat -> Attempt (A := A)) : Prop := forall i a u,
  match aChatStream (env i) a u with
  | (ops, _, None) => existsb sends ops = true
  | _ => True
  end.

Lemma callAdapter_ok (env : nat -> Attempt (A := A)) i adapter req up w :
  streams_send env -> sw_ok w ->
  let r := callAdapter (env i) adapter req up w in
  sw_ok r.2 /\ (r.1.2 = None -> wrote r.2 = true).
Proof.
  intros Hst Hw. unfold callAdapter. destruct (Stream req).
  - specialize (Hst i adapter up). destruct (aChatStream _ _ _) as [[ops usage] err].
    cbn [fst snd]. split; [by apply sw_ok_ops|]. intros ->. by apply sends_wrote.
  - destruct (aChat _ _ _) as [resp|err]; [|done].
    destruct (EncodeChatCompletion _ _ _) as [resp' bytes]. cbn [fst snd].
    destruct (sw_ok_Write (w_SetHeader "Content-Type" "application/json" w) bytes) as [? ?];
      [by apply sw_ok_header|]. done.
Qed.

Lemma forwardLoop_answers g (env : nat -> Attempt (A := A)) req user rid n :
  streams_send env -> forall attempt ex last s, sw_ok (fWriter s) ->
  let r := forwardLoop g env req user rid n attempt ex last s in
  sw_ok (fWriter r.2) /\ wrote (fWriter r.2) = true.
Proof.
  intros Hst. induction n as [|n IH]; intros attempt ex last s Hw; cbn [forwardLoop].
  { destruct last; cbn [snd fWriter set_fWriter]; [by apply writeProviderError_ok|].
    by edestruct writeAPIError_ok as (? & ? & _). }
  destruct (Pick _ _ _ _) as [[[err|ep] ex'] p].
  { destruct last; cbn [snd fWriter set_fWriter set_fPool];
      by edestruct writeAPIError_ok as (? & ? & _). }
  destruct (For ep _) as [[adapter|err] rg]; [|by apply IH].
  pose proof (callAdapter_ok env attempt adapter req (withUpstreamModel req ep) (fWriter s)
                Hst Hw) as [Hc Hd].
  cbn [fWriter set_fProviders set_fPool].
  destruct (callAdapter _ _ _ _ _) as [[usage [err|]] w]; cbn [fst snd] in *;
    [|cbn [fWriter log set_fPool set_fWriter]; auto].
  destruct (bool_decide _ || _); [by apply writeProviderError_ok|].
  destruct (Sleep _ _ _); [by apply writeProviderError_ok|].
  by apply IH.
Qed.
End Forward.

(** ** A request *)
Definition request_record (e : LogEntry) : option Z :=
  match e with LogRequest _ _ _ _ st _ _ => Some st | _ => None end.

Definition chat_request (r : Request) : Prop :=
  path r = "/v1/chat/completions" /\ method r = "POST".

Section Serve.
Context `{Float32} `{JsonError} `{Unicode} `{Printable} `{KeyHash}.
Context {A K D T : Type} `{KeyStore K} `{Redis D} `{RadixTree T}.

Abbreviation World := (World (A := A) (K := K) (D := D) (T := T)).
Abbreviation Env := (Env (A := A) (D := D)).

(** Every request record among [es] has the status [st]. *)
Definition records (es : list LogEntry) (st : Z) : Prop :=
  forall e st', e ∈ es -> request_record e = Some st' -> st' = st.

Lemma records_calls es st : Forall (fun e => is_Some (called e)) es -> records es st.
Proof.
  intros HF e st' He Hr. rewrite Forall_forall in HF. destruct (HF e He) as [c Hc].
  by destruct e.
Qed.

Lemma records_app es es' st : records es st -> records es' st -> records (es ++ es') st.
Proof. intros H1' H2' e st' [He|He]%elem_of_app Hr; eauto. Qed.

Lemma records_one e st : match request_record e with Some st' => st' = st | None => True end ->
  records [e] st.
Proof. intros He e' st' ->%list_elem_of_singleton Hr. by rewrite Hr in He. Qed.

Lemma records_nil st : records [] st.
Proof. intros e st' He. by apply elem_of_nil in He. Qed.

Lemma serveAdmitted_answers g (env : Env) req user rid pre (w : World) sw :
  streams_send (eForward env) -> sw_ok sw ->
  let r := serveAdmitted g env req user rid pre w sw in
  exists st es, status (inner r.2) = Some st /\ wLog r.1 = wLog w ++ es /\ records es st.
Proof.
  intros Hst Hsw. unfold serveAdmitted.
  set (s0 := mkFState (wPool w) (wProviders w) sw (wMetrics w) (wLog w)).
  destruct (forwardLoop_calls g (eForward env) req user rid
              (Z.to_nat (MaxAttempts (retry g))) O ∅ None s0) as (es & Hes & _ & HF & _).
  destruct (forwardLoop_answers g (eForward env) req user rid
              (Z.to_nat (MaxAttempts (retry g))) Hst O ∅ None s0 Hsw) as [Hok Hwr].
  unfold forward. destruct (forwardLoop _ _ _ _ _ _ _ _ _ _) as [[usage ferr] s].
  cbn [fst snd] in *. unfold sw_ok in Hok. rewrite Hwr in Hok.
  destruct (if hasLimiter g then _ else _) as [db logs] eqn:El. cbn [snd fst wLog].
  assert (Hl : exists es', logs = wLog w ++ es' /\ records es' (code (fWriter s))).
  { cbn [fLog s0] in Hes. destruct (hasLimiter g).
    - destruct (SettleQuota _ _ _ _ _) as [[e|] db']; simplify_eq; rewrite Hes.
      + exists (es ++ [LogSettle rid (uID user) e]). rewrite app_assoc. split; [done|].
        apply records_app; [by apply records_calls|by apply records_one].
      + exists es. split; [done|by apply records_calls].
    - simplify_eq. exists es. split; [done|by apply records_calls]. }
  destruct Hl as (es' & -> & Hr). eexists _, (es' ++ [_]). split; [exact Hok|].
  split; [by rewrite app_assoc|]. apply records_app; [done|]. by apply records_one.
Qed.

Lemma maybePrefixCache_ok g r req sw (p : PrefixIndexer (T := T)) logs :
  sw_ok sw ->
  let s := (maybePrefixCache g r req (sw, p, logs)).2 in
  sw_ok s.1.1 /\ wrote s.1.1 = wrote sw /\
  exists es, s.2 = logs ++ es /\ forall st, records es st.
Proof.
  intros Hsw. unfold maybePrefixCache.
  destruct (negb (hasPrefix g)); cbn [fst snd].
  { split_and!; [done|done|]. exists []. rewrite app_nil_r. auto using records_nil. }
  destruct (_ =s ""); cbn [fst snd].
  { split_and!; [done|done|]. exists []. rewrite app_nil_r. auto using records_nil. }
  destruct (MatchPrefix _ _) as [[] n]; cbn [fst snd].
  - split_and!; [done|done|]. eexists. split; [done|]. intros st. by apply records_one.
  - split_and!; [done|done|]. exists []. rewrite app_nil_r. auto using records_nil.
Qed.

Lemma writeLimiterError_ok err sw m logs :
  sw_ok sw -> wrote sw = false ->
  let s := writeLimiterError err (sw, m, logs) in
  sw_ok s.1.1 /\ wrote s.1.1 = true /\ exists es, s.2 = logs ++ es /\ forall st, records es st.
Proof.
  intros Hsw Hw. unfold writeLimiterError.
  assert (Hh : sw_ok (w_SetHeader "Retry-After" "1" sw)) by done.
  destruct (match err with Some e => is_sentinel e ErrRateLimitExceeded | None => false end);
    [|destruct (match err with Some e => is_sentinel e ErrInsufficientBalance | None => false end)];
    cbn [fst snd].
  - destruct (writeAPIError_ok _ 429 "rate limited" "rate_limit_error" "rate_limit_exceeded" Hh)
      as (? & ? & _). split_and!; [done|done|]. exists []. rewrite app_nil_r.
    auto using records_nil.
  - destruct (writeAPIError_ok sw 402 "insufficient balance" "insufficient_quota"
      "insufficient_quota" Hsw) as (? & ? & _). split_and!; [done|done|]. exists [].
    rewrite app_nil_r. auto using records_nil.
  - destruct (writeAPIError_ok sw 503 "limiter unavailable" "api_error" "" Hsw) as (? & ? & _).
    split_and!; [done|done|]. eexists. split; [done|]. intros st. by apply records_one.
Qed.

Lemma authError_status err sw : sw_ok sw -> wrote sw = false ->
  exists st, status (inner (writeAuthError err sw)) = Some st /\ (st = 401 \/ st = 503).
Proof.
  intros Hsw Hw. unfold writeAuthError.
  assert (Hgo : forall st m t c, (st = 401 \/ st = 503) ->
    exists st', status (inner (writeAPIError st m t c sw)) = Some st' /\ (st' = 401 \/ st' = 503)).
  { intros st m t c Hst. destruct (writeAPIError_ok sw st m t c Hsw) as (Hok & Hwr & Hc).
    unfold sw_ok in Hok. rewrite Hwr in Hok. exists st. rewrite Hok, Hc; auto. }
  repeat dcase; apply Hgo; auto.
Qed.

(** The answer of a chat request on the wrapper. *)
Lemma serveChat_answers g (env : Env) r rid (w : World) sw :
  streams_send (eForward env) -> sw_ok sw -> wrote sw = false -> code sw = 200 ->
  let out := serveChat g env r rid w sw in
  exists st es, status (inner out.2) = Some st /\ wLog out.1 = wLog w ++ es /\
    match (authenticate g r (wKeys w)).1 with
    | inl _ => records es st
    | inr err => (st = 401 \/ st = 503) /\
        es = [LogRequest rid "" "" "" 200 (milliseconds (eElapsed env)) (Some err)]
    end.
Proof.
  intros Hst Hsw Hwr Hcode. unfold serveChat.
  destruct (authenticate g r (wKeys w)) as [[user|err] k]; cbn [fst snd].
  2: { destruct (authError_status err sw Hsw Hwr) as (st & Hs & Ho).
       rewrite Hcode. eauto 8. }
  assert (Hbad : forall m, exists st es,
    status (inner (writeAPIError 400 m "invalid_request_error" "" sw)) = Some st /\
    wLog (world_of w k (wMetrics w) (wLog w)) = wLog w ++ es /\ records es st).
  { intros m. destruct (writeAPIError_ok sw 400 m "invalid_request_error" "" Hsw) as (Hok & Hw' & _).
    unfold sw_ok in Hok. rewrite Hw' in Hok. eexists _, []. split; [exact Hok|].
    rewrite app_nil_r. auto using records_nil. }
  destruct (readBody r) as [body|e]; [|apply Hbad].
  destruct (ParseChatRequest body) as [req|e]; [|apply Hbad].
  pose proof (maybePrefixCache_ok g r req sw (wPrefix (world_of w k (wMetrics w) (wLog w)))
    (wLog (world_of w k (wMetrics w) (wLog w))) Hsw) as (Hsw' & Hwr' & es & Hes & Hrec).
  destruct (maybePrefixCache _ _ _ _) as [r' [[sw' prefix] logs]]. cbn [fst snd] in *.
  rewrite Hwr in Hwr'.
  assert (Hadm : forall w1 : World, wLog w1 = logs -> forall pre, exists st es,
    status (inner (serveAdmitted g env req user rid pre w1 sw').2) = Some st /\
    wLog (serveAdmitted g env req user rid pre w1 sw').1 = wLog w ++ es /\ records es st).
  { intros w1 Hl pre. destruct (serveAdmitted_answers g env req user rid pre w1 sw' Hst Hsw')
      as (st & es' & ? & He & ?). exists st, (es ++ es'). split; [done|].
    rewrite He, Hl, Hes. cbn [wLog world_of]. rewrite app_assoc.
    split; [done|]. by apply records_app. }
  destruct (negb (hasLimiter g)); [by apply Hadm|].
  destruct (PreDeduct _ _ _ _ _) as [[[ok err] l] db].
  destruct (bool_decide (is_Some err) || negb ok); [|by apply Hadm].
  pose proof (writeLimiterError_ok err sw' (wMetrics w) logs Hsw' Hwr')
    as (Hok & Hw' & es' & Hes' & Hrec').
  cbn [wMetrics wLog wKeys world_of] in *.
  destruct (writeLimiterError _ _) as [[sw2 m2] logs2]. cbn [fst snd wLog world_of] in *.
  unfold sw_ok in Hok. rewrite Hw' in Hok. eexists _, (es ++ es' ++ [_]). split; [exact Hok|].
  split; [by rewrite Hes', Hes, !app_assoc|].
  apply records_app; [apply Hrec|]. apply records_app; [apply Hrec'|]. by apply records_one.
Qed.

Lemma str_neq a b : a <> b -> (a =s b) = false.
Proof. by rewrite str_eqb_neq. Qed.

Lemma ServeHTTP_chat g (env : Env) r (w : World) resp :
  chat_request r ->
  ServeHTTP g env r w resp =
    let requestID := incomingRequestID r (eRandom env) (eNanos env) in
    let sw := mkStatusWriter (w_SetHeader requestIDHeader requestID resp) 200 false in
    let '(w, sw) := serveChat g env r requestID (set_metrics (add_active 1 (wMetrics w)) w) sw in
    (set_metrics (add_active (-1) (wMetrics w)) w, inner sw).
Proof.
  intros [Hp Hm]. unfold ServeHTTP. rewrite Hp, Hm.
  rewrite (str_neq _ "/healthz"), (str_neq _ "/readyz"), (str_neq _ "/metrics"),
    (str_neq _ "/model-status"), (str_neq _ "/node-status"), !str_eqb_refl by discriminate.
  reflexivity.
Qed.

(** C26. Every chat request is answered, and the request record tells the truth about it:
    whatever the upstreams, the limiter and other goroutines do, as long as a stream that
    succeeds sends something, the response has a status when the handler returns, and
    every request record written for it carries that status. The exception is a rejected
    authentication: its record is written before the answer and says 200, while the
    client gets 401 or 503. *)
Theorem answered_and_logged g (env : Env) r (w : World) resp :
  chat_request r -> streams_send (eForward env) -> status resp = None ->
  let out := ServeHTTP g env r w resp in
  exists st es, status out.2 = Some st /\ wLog out.1 = wLog w ++ es /\
    match (authenticate g r (wKeys w)).1 with
    | inl _ => forall e st', e ∈ es -> request_record e = Some st' -> st' = st
    | inr err => (st = 401 \/ st = 503) /\ map request_record es = [Some 200]
    end.
Proof.
  intros Hr Hst Hs. rewrite ServeHTTP_chat by done.
  cbn zeta. set (rid := incomingRequestID r (eRandom env) (eNanos env)).
  set (resp' := w_SetHeader requestIDHeader rid resp).
  assert (Hsw : sw_ok (mkStatusWriter resp' 200 false)) by done.
  set (w1 := set_metrics (add_active 1 (wMetrics w)) w).
  destruct (serveChat_answers g env r rid w1
              _ Hst Hsw eq_refl eq_refl) as (st & es & Hstat & Hlog & Hrec).
  destruct (serveChat g env r rid w1 _) as [w2 sw2]. cbn [fst snd] in *.
  exists st, es. split; [done|]. split; [done|].
  change (wKeys w1) with (wKeys w) in Hrec.
  destruct (authenticate g r (wKeys w)).1; [done|]. destruct Hrec as [? ->]. done.
Qed.

(** ** Admission and billing *)

Lemma maybePrefix_log g r req sw (p : PrefixIndexer (T := T)) logs :
  exists es, (maybePrefixCache g r req (sw : statusWriter, p, logs)).2.2 = logs ++ es /\
    Forall (fun e => called e = None) es.
Proof.
  unfold maybePrefixCache.
  destruct (negb (hasPrefix g)); [exists []; by rewrite app_nil_r|].
  destruct (_ =s ""); [exists []; by rewrite app_nil_r|].
  destruct (MatchPrefix _ _) as [[] n]; cbn [fst snd].
  - eexists. split; [done|]. by repeat constructor.
  - exists []. by rewrite app_nil_r.
Qed.

Lemma limiterError_log err (sw : statusWriter) m logs :
  exists es, (writeLimiterError err (sw, m, logs)).2 = logs ++ es /\
    Forall (fun e => called e = None) es.
Proof.
  unfold writeLimiterError.
  destruct (match err with Some e => is_sentinel e ErrRateLimitExceeded | None => false end);
    [exists []; by rewrite app_nil_r|].
  destruct (match err with Some e => is_sentinel e ErrInsufficientBalance | None => false end);
    [exists []; by rewrite app_nil_r|].
  eexists. split; [done|]. by repeat constructor.
Qed.


(** The request of a known user with a well-formed body, whose estimated tokens the
    limiter, if there is one, has granted; [l] and [db] are the limiter and the
    database after that. *)
Definition admitted (g : Gateway) (env : Env) (r : Request) (w : World) (user : User)
    (req : ChatRequest) (l : Limiter D) (db : D) : Prop :=
  (authenticate g r (wKeys w)).1 = inl user /\
  (exists body, readBody r = inl body /\ ParseChatRequest body = inl req) /\
  if hasLimiter g
  then PreDeduct (wLimiter w) (uID user) (estimateTokens g req) (eLimiter env) (wDb w) =
         (true, None, l, db)
  else l = wLimiter w /\ db = wDb w.

(** What an admitted request leaves behind: the forward loop ran once on the pool as it
    was, and its usage was settled once against the granted tokens. *)
Definition served (g : Gateway) (env : Env) (rid : string) (w w' : World) (user : User)
    (req : ChatRequest) (db : D) : Prop :=
  exists s0, fPool s0 = wPool w /\ fProviders s0 = wProviders w /\
    let fr := forward g (eForward env) req user rid s0 in
    wPool w' = fPool fr.2 /\ wProviders w' = fProviders fr.2 /\
    wDb w' = if hasLimiter g
             then (SettleQuota (uID user) (estimateTokens g req) (actualTokens fr.1.1)
                     (eSettle env) (eBilling env db)).2
             else db.

(** A request that is not admitted: no endpoint was touched; at most a refused
    pre-deduction happened to the database. *)
Definition turned_away (g : Gateway) (env : Env) (w w' : World) : Prop :=
  wPool w' = wPool w /\ wProviders w' = wProviders w /\
  (exists es, wLog w' = wLog w ++ es /\ Forall (fun e => called e = None) es) /\
  (wDb w' = wDb w \/ exists user req r l db,
     PreDeduct (wLimiter w) user (estimateTokens g req) (eLimiter env) (wDb w) = (r, l, db) /\
     r <> (true, None) /\ wDb w' = db).

Lemma serveAdmitted_served g (env : Env) req user rid (w : World) sw :
  let w' := (serveAdmitted g env req user rid (estimateTokens g req) w sw).1 in
  served g env rid w w' user req (wDb w).
Proof.
  unfold serveAdmitted, served.
  exists (mkFState (wPool w) (wProviders w) sw (wMetrics w) (wLog w)). split; [done|]. split; [done|].
  destruct (forward _ _ _ _ _ _) as [[usage ferr] s]. cbn [fst snd].
  destruct (hasLimiter g); [|done].
  by destruct (SettleQuota _ _ _ _ _) as [o db'].
Qed.

Lemma serveChat_cases g (env : Env) r rid (w : World) sw :
  let w' := (serveChat g env r rid w sw).1 in
  (exists user req l db, admitted g env r w user req l db /\ served g env rid w w' user req db) \/
  turned_away g env w w'.
Proof.
  unfold serveChat, admitted.
  destruct (authenticate g r (wKeys w)) as [[user|err] k]; cbn [fst snd].
  2: { right. split_and!; [done..| |by left]. eexists. split; [done|]. by repeat constructor. }
  assert (Hno : forall sw', turned_away g env w (world_of w k (wMetrics w) (wLog w), sw' : statusWriter).1).
  { intros sw'. split_and!; [done..| |by left]. exists []. by rewrite app_nil_r. }
  destruct (readBody r) as [body|e] eqn:Eb; [|right; apply (Hno _)].
  destruct (ParseChatRequest body) as [req|e] eqn:Ep; [|right; apply (Hno _)].
  pose proof (maybePrefix_log g r req sw (wPrefix w) (wLog w)) as (es & Hes & Hcs).
  cbn [wPrefix wLog world_of].
  destruct (maybePrefixCache _ _ _ _) as [r' [[sw' prefix] logs]]. cbn [fst snd] in *.
  cbn [wPool wProviders wKeys wLimiter wDb wPrefix wMetrics wLog world_of].
  destruct (hasLimiter g) eqn:Eg; cbn [negb].
  - destruct (PreDeduct _ _ _ _ _) as [[[ok err] l] db] eqn:EP.
    destruct (bool_decide (is_Some err) || negb ok) eqn:Er.
    + right. pose proof (limiterError_log err sw' (wMetrics w) logs) as (es' & Hes' & Hcs').
      destruct (writeLimiterError _ _) as [[sw2 m2] logs2]. cbn [fst snd] in *.
      split_and!; [done..| |].
      * exists (es ++ es' ++ [LogRequest rid (uID user) (Types.Model req) "" (code sw2)
                  (milliseconds (eElapsed env)) err]).
        split; [cbn; by rewrite Hes', Hes, !app_assoc|]. rewrite !Forall_app.
        split_and!; [done|done|by repeat constructor].
      * right. exists (uID user), req, (ok, err), l, db. split_and!; [done| |done].
        intros [= -> ->]. done.
    + left. exists user, req, l, db. split; [split_and!; [done|by eexists|]|].
      * destruct err; [done|]. by destruct ok.
      * set (w1 := mkWorld _ _ _ _ _ _ _ _).
        pose proof (serveAdmitted_served g env req user rid w1 sw') as Hsv. exact Hsv.
  - left. exists user, req, (wLimiter w), (wDb w).
    split; [split_and!; [done|by eexists|done|done]|].
    set (w1 := mkWorld _ _ _ _ _ _ _ _).
    pose proof (serveAdmitted_served g env req user rid w1 sw') as Hsv. exact Hsv.
Qed.

Lemma serveChat_granted g (env : Env) r rid (w : World) sw user req body l db :
  hasLimiter g = true -> (authenticate g r (wKeys w)).1 = inl user ->
  readBody r = inl body -> ParseChatRequest body = inl req ->
  PreDeduct (wLimiter w) (uID user) (estimateTokens g req) (eLimiter env) (wDb w) =
    (true, None, l, db) ->
  served g env rid w (serveChat g env r rid w sw).1 user req db.
Proof.
  intros Hg Ha Hb Hp Hpre. unfold serveChat.
  destruct (authenticate g r (wKeys w)) as [who k]. cbn [fst] in Ha. subst who.
  rewrite Hb, Hp. cbn [wPrefix wLog world_of].
  destruct (maybePrefixCache _ _ _ _) as [r' [[sw' prefix] logs]].
  rewrite Hg. cbn [wPool wProviders wKeys wLimiter wDb wPrefix wMetrics wLog world_of negb].
  rewrite Hpre. rewrite bool_decide_eq_false_2 by (intros [? [=]]). cbn [orb negb].
  set (w1 := mkWorld _ _ _ _ _ _ _ _).
  pose proof (serveAdmitted_served g env req user rid w1 sw') as Hsv. exact Hsv.
Qed.

(** C11. Only admitted requests reach an endpoint, and each of them once. A chat request
    either comes from a known user, has a well-formed body and was granted its estimated
    tokens, and then the forward loop runs once on the pool as it was and its usage is
    settled once against that estimate; or it is turned away: the pool and the registry are
    as before, no call is logged, and the database changed by a refused pre-deduction at
    most. *)
Theorem admission g (env : Env) r (w : World) resp :
  chat_request r ->
  let w' := (ServeHTTP g env r w resp).1 in
  let rid := incomingRequestID r (eRandom env) (eNanos env) in
  (exists user req l db, admitted g env r w user req l db /\ served g env rid w w' user req db) \/
  turned_away g env w w'.
Proof.
  intros Hr. rewrite ServeHTTP_chat by done. cbn zeta.
  set (rid := incomingRequestID r (eRandom env) (eNanos env)).
  set (sw := mkStatusWriter _ 200 false).
  set (w1 := set_metrics (add_active 1 (wMetrics w)) w).
  pose proof (serveChat_cases g env r rid w1 sw) as Hc.
  destruct (serveChat g env r rid w1 sw) as [w2 sw2]. exact Hc.
Qed.

(** C2. What a request costs its user. When the limiter's commands arrive, a request whose
    tokens were granted leaves the user's balance at what it was, plus whatever others
    did meanwhile, minus the tokens the upstream reported; nothing when every endpoint
    failed without usage; and a lost settlement leaves the estimate charged. *)
Theorem request_billing `{!RedisLaws D} g (env : Env) r (w : World) resp user req l db b0 b1 x :
  chat_request r -> hasLimiter g = true -> admitted g env r w user req l db ->
  script (wLimiter w) = rate_limit_prededuct -> onSeed (eLimiter env) = NetOk ->
  let est := estimateTokens g req in
  let s1 := gap (eLimiter env) (seed (wLimiter w) (uID user) NetOk (wDb w)).2 in
  exact_args (sent_now (wLimiter w) (eLimiter env)) (windowMicros (window (wLimiter w)))
    (limit (wLimiter w)) est ->
  sane s1 -> bal (uID user) s1 = Some b0 -> bal (uID user) db = Some b1 ->
  bal (uID user) (eBilling env db) = Some (b1 + x) ->
  let w' := (ServeHTTP g env r w resp).1 in
  exists s0 rid, fPool s0 = wPool w /\
    let fr := forward g (eForward env) req user rid s0 in
    let used := Z.max 0 (actualTokens fr.1.1) in
    wPool w' = fPool fr.2 /\
    (fr.1.1 = None -> used = 0) /\
    (in_int64 (est - used) -> in_int64 (used - est) -> in_int64 (b0 + x - used) ->
     bal (uID user) (wDb w') =
       Some (b0 + x - match eSettle env with NetLost _ => est | _ => used end)).
Proof.
  intros Hr Hg (Ha & (body & Hb & Hp) & Hpre) Hsc Hn est s1 Hex Hsane Hb0 Hb1 Hb2 w'.
  rewrite Hg in Hpre.
  assert (Hserved : served g env (incomingRequestID r (eRandom env) (eNanos env)) w w' user req db).
  { unfold w'. rewrite ServeHTTP_chat by done. cbn zeta.
    set (sw := mkStatusWriter _ 200 false).
    set (w1 := set_metrics (add_active 1 (wMetrics w)) w).
    pose proof (serveChat_granted g env r (incomingRequestID r (eRandom env) (eNanos env)) w1 sw
      user req body l db Hg Ha Hb Hp Hpre) as Hs.
    destruct (serveChat g env r _ w1 sw) as [w2 sw2]. exact Hs. }
  destruct Hserved as (s0 & Hs0 & _ & Hfr). exists s0, (incomingRequestID r (eRandom env) (eNanos env)).
  split; [done|]. destruct Hfr as (Hpool & _ & Hdb). rewrite Hg in Hdb.
  set (fr := forward _ _ _ _ _ _) in *. cbn zeta. split_and!; [done|by intros ->|].
  intros H1' H2' H3'. rewrite Hdb.
  destruct (grant_then_settle (wLimiter w) (uID user) est (eLimiter env) (wDb w) db l b0 b1 x
    (eBilling env db) (actualTokens fr.1.1) (eSettle env) Hsc Hn Hex Hsane Hb0 Hpre Hb1 Hb2
    H1' H2' H3') as (Hbal & _).
  etrans; [exact Hbal|]. by destruct (eSettle env).
Qed.
End Serve.
