(* ===== verification/GatewayRuns.v ===== *)
(** * Runs of the gateway

    Concrete worlds on the servers of the other files: the witnesses of the gateway's
    theorems, and the runs that show what the modelling found. *)

From Stdlib Require Import ZArith Lia Ascii.
From stdpp Require Import prelude gmap list strings.
From S2P Require Import Prelude GoInt GoText GoErr Breaker Endpoint Wrr Pool PoolSpec Provider.
From S2P Require Import Retry Redis Limiter LimiterSpec Json Types Auth PrefixCache Http Gateway GatewaySpec.

Local Open Scope Z_scope.

#[export] Instance run_f32 : Float32 := {
  float32 := Z; f32_zero := 0; f32_parse := fun _ => Some 1;
  f32_is_zero := fun z => z =? 0; f32_print := int_string
}.
#[export] Instance run_json : JsonError := fun _ => "unexpected end of JSON input".
#[export] Instance run_lower : Unicode := fun r => r.
#[export] Instance run_print : Printable := fun _ => true.
#[export] Instance run_hash : KeyHash := fun s => s.

Definition ep1 : Endpoint := mkEndpoint "e1" "openai" "gpt" "" "http://one" "" "" 1 0 "".
Definition ep2 : Endpoint := mkEndpoint "e2" "openai" "gpt" "" "http://two" "" "" 1 0 "".

Definition pool_of (es : list Endpoint) (c : Breaker.Config) : Pool :=
  match NewPool es c with inr p => p | inl _ => emptyPool c end.

(** Adapters are the endpoints they were built for. *)
Definition run_registry : Registry (Adapter := Endpoint) :=
  Register "openai" (fun ep => ep) NewRegistry.

Definition at_time (t : Z) : Pool.Env := fun _ => mkGap [] t.

(** A turn at time [t] whose call answers as given. *)
Definition turn (t : Z) (chat : Endpoint -> ChatResponse + error)
    (stream : Endpoint -> list WriterOp * option Usage * option error)
    : Attempt (A := Endpoint) :=
  mkAttempt (fun p => p) (at_time t) (fun r => r) (fun a _ => chat a) (fun a _ => stream a)
    (fun p => p) Millisecond t 7 7 None None None.

Definition run_gateway : Gateway :=
  mkGateway None true false None None 256 (Retry.mkConfig 3 (100 * Millisecond)).

Definition run_request (stream : bool) : ChatRequest :=
  mkChatRequest _ "gpt" [mkMessage "user" "hello"] 0 0 stream.

Definition start (p : Pool) : FState (A := Endpoint) :=
  mkFState p run_registry (mkStatusWriter emptyResponse 200 false) newMetrics [].

(** ** A stream that breaks in the middle *)

(** The first endpoint sends part of its answer and then fails without a status; the
    second one answers. *)
Definition broken_stream (ep : Endpoint) : list WriterOp * option Usage * option error :=
  if ID ep =s "e1"
  then ([OpWriteHeader 200; OpWrite "partial "], Some (mkUsage 3 4 7),
        Some [EProvider (mkProviderError 0 "unexpected EOF" 0)])
  else ([OpWriteHeader 200; OpWrite "answer"], Some (mkUsage 3 5 8), None).

(** A stream that breaks after its first bytes is tried again on another endpoint
    although the client has received part of an answer: the client gets the first half
    of one stream followed by the whole of another under one status 200, the request
    counts as a success, and only the second stream's tokens are settled. *)
Theorem broken_stream_is_spliced :
  let r := forward run_gateway (fun i => turn (Z.of_nat i) (fun _ => inr []) broken_stream)
             (run_request true) anonymous "r" (start (pool_of [ep1; ep2] (Breaker.mkConfig 0 0))) in
  body (inner (fWriter r.2)) = "partial answer" /\
  status (inner (fWriter r.2)) = Some 200 /\
  omap called (fLog r.2) =
    [("e1", Some [EProvider (mkProviderError 0 "unexpected EOF" 0)]); ("e2", None)] /\
  r.1 = (Some (mkUsage 3 5 8), None) /\ actualTokens r.1.1 = 8.
Proof. vm_compute. repeat split. Qed.

(** ** A probe that is never given back *)

(** One failure opens the breaker of [e1]; while it is open a reload misspells the
    provider, which validation accepts; a request after the cooldown gets the half-open
    probe and finds no adapter; then a second reload repairs the endpoint. *)
Definition typo_story : Pool :=
  let c := Breaker.mkConfig 1 Second in
  let p := pool_of [ep1] c in
  let p := Report 0 "e1" (mkResult false 500 0 true) p in
  let p := (Replace [set_Provider "opena1" ep1] p).2 in
  let s := (forward run_gateway (fun i => turn (2 * Second) (fun _ => inr []) broken_stream)
             (run_request false) anonymous "r" (start p)).2 in
  (Replace [ep1] (fPool s)).2.

(** An endpoint that is picked but has no adapter is never reported on, so the
    half-open probe that its breaker granted stays out: after the endpoint is repaired
    no request can pick it again, at any later time, and trying does not change that. *)
Theorem missing_adapter_leaks_probe :
  (exists m b l, byID typo_story !! "e1" = Some l /\ members typo_story !! l = Some m /\
     ep m = ep1 /\ health m = Healthy /\ breakers typo_story !! breaker m = Some b /\
     state b = HalfOpen /\ halfOpenInFlight b = true) /\
  (forall t, Pick (at_time t) "gpt" (Some ∅) typo_story =
     (inl (sentinel_error ErrNoEndpoint), Some ∅, typo_story)).
Proof.
  split.
  - do 3 eexists. split_and!; vm_compute; reflexivity.
  - intros t. vm_compute. reflexivity.
Qed.

(** ** Witnesses *)
Definition answer (ep : Endpoint) : ChatResponse + error :=
  if ID ep =s "e1" then inr [EProvider (mkProviderError 503 "busy" 0)]
  else inl (mkChatResponse "c1" "" "hi" (mkUsage 3 4 7)).

Definition two_turns (i : nat) : Attempt (A := Endpoint) :=
  turn (Z.of_nat i) answer broken_stream.

Definition run_pool : Pool := pool_of [ep1; ep2] (Breaker.mkConfig 0 0).

Lemma forward_calls_witness :
  exists es, let cs := omap called es in
    fLog (forward run_gateway two_turns (run_request false) anonymous "r" (start run_pool)).2 = es /\
    NoDup cs.*1 /\ Z.of_nat (length cs) <= 3.
Proof.
  destruct (forward_calls run_gateway two_turns
    (run_request false) anonymous "r" (start run_pool)) as (es & Hes & _ & Hlen & Hnd & _);
    [done|].
  exists es. split_and!; [exact Hes|exact Hnd|exact Hlen].
Defined.

Definition run_body : string :=
  Marshal (obj [("messages", JArr [obj [("content", JStr "hello"); ("role", JStr "user")]]);
                ("model", JStr "gpt")]).

Definition run_http : Request :=
  mkRequest "/v1/chat/completions" "POST" ∅ (inl run_body).

Definition run_env : Env (A := Endpoint) (D := db) :=
  mkEnv (Some "abcdefgh") 0 (demo_at noon) two_turns (fun s => s) NetOk Millisecond 0
    (fun _ => "") "host".

Definition run_world : World (A := Endpoint) (K := Memory) (D := db) (T := list string) :=
  mkWorld run_pool run_registry NewMemory (mkLimiter rate_limit_prededuct 2 Second 1000 0)
    emptyDb (PrefixCache.New 0 float64_zero) newMetrics [].

Lemma answered_and_logged_witness :
  exists st es, status (ServeHTTP run_gateway run_env run_http run_world emptyResponse).2 = Some st /\
    wLog (ServeHTTP run_gateway run_env run_http run_world emptyResponse).1 = es /\
    forall e st', e ∈ es -> request_record e = Some st' -> st' = st.
Proof.
  destruct (answered_and_logged run_gateway run_env run_http run_world emptyResponse)
    as (st & es & Hst & Hes & Hr); [done| |done|].
  - intros i a u. simpl. unfold broken_stream. by destruct (ID a =s "e1").
  - exists st, es. split_and!; [exact Hst|exact Hes|exact Hr].
Defined.

Lemma admission_witness :
  wPool (ServeHTTP run_gateway run_env (mkRequest "/v1/chat/completions" "POST" ∅ (inl "x"))
           run_world emptyResponse).1 = run_pool.
Proof.
  destruct (admission run_gateway run_env
    (mkRequest "/v1/chat/completions" "POST" ∅ (inl "x")) run_world emptyResponse)
    as [(user & req & l & db & (_ & (body & Hb & Hp) & _) & _)|(Hp & _)].
  - done.
  - vm_compute in Hb. injection Hb as <-. by vm_compute in Hp.
  - exact Hp.
Defined.

(** The pre-deduction of the request below. *)
Definition run_granted : (bool * option error) * Limiter db * db :=
  PreDeduct (wLimiter run_world) "anonymous" 258 (demo_at noon) emptyDb.

Lemma run_admitted :
  admitted run_gateway run_env run_http run_world anonymous (run_request false)
    run_granted.1.2 run_granted.2.
Proof.
  split; [done|]. split; [exists run_body; split; by vm_compute|].
  change (hasLimiter run_gateway) with true. cbn match.
  change (estimateTokens run_gateway (run_request false)) with 258.
  assert (Hv : run_granted.1.1 = (true, None)) by by vm_compute.
  rewrite <- Hv. unfold run_granted. by destruct (PreDeduct _ _ _ _ _) as [[??]?].
Qed.

Lemma run_sane : sane (seed (wLimiter run_world) "anonymous" NetOk emptyDb).2.
Proof.
  assert (Hr : steps (db_step 2) emptyDb
                 (seed (wLimiter run_world) "anonymous" NetOk emptyDb).2).
  { apply seed_steps. unfold in_int64, min_int64, max_int64. simpl. lia. }
  apply (DbInv_steps _ _ _ (DbInv_empty 2 ltac:(lia)) Hr).
Qed.

Lemma request_billing_witness :
  exists s0 rid, fPool s0 = run_pool /\
    let fr := forward run_gateway two_turns (run_request false) anonymous rid s0 in
    let used := Z.max 0 (actualTokens fr.1.1) in
    in_int64 (258 - used) -> in_int64 (used - 258) -> in_int64 (1000 + 0 - used) ->
    bal "anonymous" (wDb (ServeHTTP run_gateway run_env run_http run_world emptyResponse).1)
      = Some (1000 + 0 - used).
Proof.
  destruct (request_billing run_gateway run_env run_http run_world emptyResponse anonymous
    (run_request false) run_granted.1.2 run_granted.2 1000 742 0)
    as (s0 & rid & Hs & _ & _ & Hb).
  - done.
  - done.
  - apply run_admitted.
  - done.
  - done.
  - vm_compute. repeat split; discriminate.
  - apply run_sane.
  - by vm_compute.
  - by vm_compute.
  - by vm_compute.
  - exists s0, rid. split; [exact Hs|exact Hb].
Defined.
