(* ===== verification/Scheduler.v ===== *)
(** * The priority scheduler ([pkg/scheduler/scheduler.go])

    Submitters, the dispatcher and the workers run concurrently. The state holds the
    two channels, the semaphore, the stop flag, where each goroutine stands, and
    the job requests; an [action] is one atomic step of one goroutine, a poll or a case
    of a [select] that is ready. [exec] is executable, and the reachable states
    are those some sequence of actions leads to. *)

From Stdlib Require Import ZArith Lia.
From stdpp Require Import prelude gmap list.
From S2P Require Import Prelude.

Local Open Scope nat_scope.

Inductive Priority := PriorityLow | PriorityHigh.

#[export] Instance Priority_eq_dec : EqDecision Priority.
Proof. solve_decision. Defined.

(** What [Submit] returns. *)
Inductive Outcome := RNil | RCtxErr | RStopped.

(** Where [Submit] stands: at its first select, at the second one, about to store the
    cancellation, or back. *)
Inductive SubmitPC := SQueue | SWait | SCancel | SReturned (r : Outcome).

#[export] Instance Outcome_eq_dec : EqDecision Outcome.
Proof. solve_decision. Defined.
#[export] Instance SubmitPC_eq_dec : EqDecision SubmitPC.
Proof. solve_decision. Defined.

(** [jobRequest], with its submitter, and what became of the job: how often it was
    started and whether it returned. *)
Record jobRequest := mkJob {
  priority : Priority;
  ctxDone : bool;
  done : bool;
  canceled : bool;
  submit : SubmitPC;
  runs : nat;
  finished : bool
}.

(** Where the dispatcher stands: reserving a slot, the two polls of [tryDequeue], giving
    the slot back, the two selects of [dequeue], acquiring a slot for a job, checking a
    job while it holds a slot, the two steps of dropping one, and gone. *)
Inductive DispatchPC :=
| DReserve | DTry1 | DTry2 | DRelease | DDeq1 | DDeq2
| DAcquire (j : nat) | DCheck (j : nat) | DDrop (j : nat) | DClose (j : nat) | DGone.

(** A worker: checking its job, running it, closing [done], releasing the slot. *)
Inductive WorkerPC := WCheck | WRun | WClose | WRelease.

#[export] Instance WorkerPC_eq_dec : EqDecision WorkerPC.
Proof. solve_decision. Defined.

Record Scheduler := mkScheduler {
  maxConcurrency : nat;
  queueSize : nat;
  highPriorityChan : list nat;
  lowPriorityChan : list nat;
  workerSem : nat;
  stop : bool;
  dispatcher : DispatchPC;
  workers : gmap nat WorkerPC;
  jobs : gmap nat jobRequest
}.

(** [New]. *)
Definition New (maxConcurrency queueSize : nat) : option Scheduler :=
  if bool_decide (maxConcurrency < 1) then None
  else if bool_decide (queueSize < 1) then None
  else Some (mkScheduler maxConcurrency queueSize [] [] 0 false DReserve ∅ ∅).

Definition set_high q s := mkScheduler (maxConcurrency s) (queueSize s) q
  (lowPriorityChan s) (workerSem s) (stop s) (dispatcher s) (workers s) (jobs s).
Definition set_low q s := mkScheduler (maxConcurrency s) (queueSize s)
  (highPriorityChan s) q (workerSem s) (stop s) (dispatcher s) (workers s) (jobs s).
Definition set_sem n s := mkScheduler (maxConcurrency s) (queueSize s)
  (highPriorityChan s) (lowPriorityChan s) n (stop s) (dispatcher s) (workers s) (jobs s).
Definition set_stop s := mkScheduler (maxConcurrency s) (queueSize s)
  (highPriorityChan s) (lowPriorityChan s) (workerSem s) true (dispatcher s) (workers s) (jobs s).
Definition set_pc pc s := mkScheduler (maxConcurrency s) (queueSize s)
  (highPriorityChan s) (lowPriorityChan s) (workerSem s) (stop s) pc (workers s) (jobs s).
Definition set_workers ws s := mkScheduler (maxConcurrency s) (queueSize s)
  (highPriorityChan s) (lowPriorityChan s) (workerSem s) (stop s) (dispatcher s) ws (jobs s).
Definition set_jobs js s := mkScheduler (maxConcurrency s) (queueSize s)
  (highPriorityChan s) (lowPriorityChan s) (workerSem s) (stop s) (dispatcher s) (workers s) js.

Definition update (j : nat) (f : jobRequest -> jobRequest) (s : Scheduler) : Scheduler :=
  set_jobs (alter f j (jobs s)) s.

Definition j_ctxDone x := mkJob (priority x) true (done x) (canceled x) (submit x) (runs x) (finished x).
Definition j_done x := mkJob (priority x) (ctxDone x) true (canceled x) (submit x) (runs x) (finished x).
Definition j_canceled x := mkJob (priority x) (ctxDone x) (done x) true (submit x) (runs x) (finished x).
Definition j_submit pc x := mkJob (priority x) (ctxDone x) (done x) (canceled x) pc (runs x) (finished x).
Definition j_start x := mkJob (priority x) (ctxDone x) (done x) (canceled x) (submit x) (S (runs x)) (finished x).
Definition j_finish x := mkJob (priority x) (ctxDone x) (done x) (canceled x) (submit x) (runs x) true.

(** [jr.canceled.Load() || jr.ctx.Err() != nil]; both flags only ever go up. *)
Definition given_up (x : jobRequest) : bool := canceled x || ctxDone x.

Inductive action :=
| ASubmit (j : nat) (p : Priority)
| ACtxDone (j : nat)
| AEnqueue (j : nat) | ACtxBeforeQueue (j : nat) | AStopBeforeQueue (j : nat)
| AReturnDone (j : nat) | ACtxWhileWaiting (j : nat) | AStoreCanceled (j : nat)
| AStopWhileWaiting (j : nat)
| AStop
| DoReserve | DoReserveStop
| DoTry1 | DoTry2High | DoTry2Low | DoTry2None
| DoRelease
| DoDeq1High | DoDeq1None | DoDeq1Stop
| DoDeq2High | DoDeq2Low | DoDeq2Stop
| DoAcquire | DoAcquireStop
| DoCheck | DoDropRelease | DoDropClose
| WorkCheck (j : nat) | WorkReturn (j : nat) | WorkClose (j : nat) | WorkRelease (j : nat).

Definition guard_opt {A} (b : bool) (x : option A) : option A := if b then x else None.

(** The first select of [Submit] sends to the queue of its priority, if there is
    room. *)
Definition enqueue (j : nat) (x : jobRequest) (s : Scheduler) : option Scheduler :=
  match priority x with
  | PriorityHigh =>
      guard_opt (bool_decide (length (highPriorityChan s) < queueSize s))
        (Some (update j (j_submit SWait) (set_high (highPriorityChan s ++ [j]) s)))
  | PriorityLow =>
      guard_opt (bool_decide (length (lowPriorityChan s) < queueSize s))
        (Some (update j (j_submit SWait) (set_low (lowPriorityChan s ++ [j]) s)))
  end.

Definition at_submit (pc : SubmitPC) (j : nat) (s : Scheduler)
    (f : jobRequest -> option Scheduler) : option Scheduler :=
  match jobs s !! j with
  | Some x => if bool_decide (submit x = pc) then f x else None
  | None => None
  end.

Definition return_ (j : nat) (r : Outcome) (s : Scheduler) : Scheduler :=
  update j (j_submit (SReturned r)) s.

(** A receive from the high or the low channel, the job going to [k]. *)
Definition pop_high (s : Scheduler) (k : nat -> DispatchPC) : option Scheduler :=
  match highPriorityChan s with
  | j :: q => Some (set_pc (k j) (set_high q s))
  | [] => None
  end.
Definition pop_low (s : Scheduler) (k : nat -> DispatchPC) : option Scheduler :=
  match lowPriorityChan s with
  | j :: q => Some (set_pc (k j) (set_low q s))
  | [] => None
  end.

Definition at_worker (pc : WorkerPC) (j : nat) (s : Scheduler) (r : option Scheduler)
    : option Scheduler :=
  match workers s !! j with
  | Some pc' => if bool_decide (pc' = pc) then r else None
  | None => None
  end.

Definition exec_submit (a : action) (s : Scheduler) : option Scheduler :=
  match a with
  | ASubmit j p =>
      match jobs s !! j with
      | Some _ => None
      | None => Some (set_jobs (<[j := mkJob p false false false SQueue 0 false]> (jobs s)) s)
      end
  | ACtxDone j => Some (update j j_ctxDone s)
  | AEnqueue j => at_submit SQueue j s (fun x => enqueue j x s)
  | ACtxBeforeQueue j =>
      at_submit SQueue j s (fun x => guard_opt (ctxDone x) (Some (return_ j RCtxErr s)))
  | AStopBeforeQueue j =>
      at_submit SQueue j s (fun x => guard_opt (stop s) (Some (return_ j RStopped s)))
  | AReturnDone j =>
      at_submit SWait j s (fun x => guard_opt (done x) (Some (return_ j RNil s)))
  | ACtxWhileWaiting j =>
      at_submit SWait j s (fun x => guard_opt (ctxDone x) (Some (update j (j_submit SCancel) s)))
  | AStoreCanceled j =>
      at_submit SCancel j s (fun x => Some (return_ j RCtxErr (update j j_canceled s)))
  | AStopWhileWaiting j =>
      at_submit SWait j s (fun x => guard_opt (stop s) (Some (return_ j RStopped s)))
  | AStop => Some (set_stop s)
  | _ => None
  end.

(** Lines 99-144. *)
Definition exec_dispatch (a : action) (s : Scheduler) : option Scheduler :=
  match a, dispatcher s with
  | DoReserveStop, DReserve => guard_opt (stop s) (Some (set_pc DGone s))
  | DoReserve, DReserve =>
      guard_opt (bool_decide (workerSem s < maxConcurrency s))
        (Some (set_pc DTry1 (set_sem (S (workerSem s)) s)))
  | DoTry1, DTry1 =>
      match highPriorityChan s with
      | [] => Some (set_pc DTry2 s)
      | _ => pop_high s DCheck
      end
  | DoTry2High, DTry2 => pop_high s DCheck
  | DoTry2Low, DTry2 => pop_low s DCheck
  | DoTry2None, DTry2 =>
      match highPriorityChan s, lowPriorityChan s with
      | [], [] => Some (set_pc DRelease s)
      | _, _ => None
      end
  | DoRelease, DRelease =>
      guard_opt (bool_decide (0 < workerSem s)) (Some (set_pc DDeq1 (set_sem (pred (workerSem s)) s)))
  | DoDeq1Stop, DDeq1 => guard_opt (stop s) (Some (set_pc DGone s))
  | DoDeq1High, DDeq1 => pop_high s DAcquire
  | DoDeq1None, DDeq1 =>
      match stop s, highPriorityChan s with
      | false, [] => Some (set_pc DDeq2 s)
      | _, _ => None
      end
  | DoDeq2Stop, DDeq2 => guard_opt (stop s) (Some (set_pc DGone s))
  | DoDeq2High, DDeq2 => pop_high s DAcquire
  | DoDeq2Low, DDeq2 => pop_low s DAcquire
  | DoAcquireStop, DAcquire j => guard_opt (stop s) (Some (set_pc DGone (update j j_done s)))
  | DoAcquire, DAcquire j =>
      guard_opt (bool_decide (workerSem s < maxConcurrency s))
        (Some (set_pc (DCheck j) (set_sem (S (workerSem s)) s)))
  | DoCheck, DCheck j =>
      match jobs s !! j with
      | Some x =>
          if given_up x then Some (set_pc (DDrop j) s)
          else Some (set_pc DReserve (set_workers (<[j := WCheck]> (workers s)) s))
      | None => None
      end
  | DoDropRelease, DDrop j =>
      guard_opt (bool_decide (0 < workerSem s))
        (Some (set_pc (DClose j) (set_sem (pred (workerSem s)) s)))
  | DoDropClose, DClose j => Some (set_pc DReserve (update j j_done s))
  | _, _ => None
  end.

(** [run]; its defers close [done] and then release the slot. *)
Definition exec_worker (a : action) (s : Scheduler) : option Scheduler :=
  match a with
  | WorkCheck j =>
      at_worker WCheck j s
        match jobs s !! j with
        | Some x =>
            if given_up x then Some (set_workers (<[j := WClose]> (workers s)) s)
            else Some (update j j_start (set_workers (<[j := WRun]> (workers s)) s))
        | None => None
        end
  | WorkReturn j =>
      at_worker WRun j s (Some (update j j_finish (set_workers (<[j := WClose]> (workers s)) s)))
  | WorkClose j =>
      at_worker WClose j s (Some (update j j_done (set_workers (<[j := WRelease]> (workers s)) s)))
  | WorkRelease j =>
      at_worker WRelease j s
        (guard_opt (bool_decide (0 < workerSem s))
           (Some (set_sem (pred (workerSem s)) (set_workers (delete j (workers s)) s))))
  | _ => None
  end.

Definition exec (a : action) (s : Scheduler) : option Scheduler :=
  match exec_submit a s with
  | Some s' => Some s'
  | None =>
    match exec_dispatch a s with
    | Some s' => Some s'
    | None => exec_worker a s
    end
  end.

Definition step (s t : Scheduler) : Prop := exists a, exec a s = Some t.

Fixpoint run (l : list action) (s : Scheduler) : option Scheduler :=
  match l with
  | [] => Some s
  | a :: l => s ← exec a s; run l s
  end.
