(* ===== verification/SchedulerSpec.v ===== *)
(** * What the scheduler promises *)

From Stdlib Require Import ZArith Lia.
From stdpp Require Import prelude gmap list.
From S2P Require Import Prelude Scheduler.

Local Open Scope nat_scope.

(** The job the dispatcher has in hand, and the slots it holds. *)
Definition in_hand (pc : DispatchPC) : list nat :=
  match pc with
  | DAcquire j | DCheck j | DDrop j | DClose j => [j]
  | _ => []
  end.

Definition holding (pc : DispatchPC) : nat :=
  match pc with
  | DTry1 | DTry2 | DRelease | DCheck _ | DDrop _ => 1
  | _ => 0
  end.

(** The job requests that wait: in a channel or in the dispatcher's hand. *)
Definition waiting (s : Scheduler) : list nat :=
  highPriorityChan s ++ lowPriorityChan s ++ in_hand (dispatcher s).

(** Why [done] may be closed. *)
Definition settled_job (s : Scheduler) (x : jobRequest) : Prop :=
  (finished x = true /\ runs x = 1) \/ ctxDone x = true.

Definition worker_ok (pc : WorkerPC) (x : jobRequest) : Prop :=
  match pc with
  | WCheck => runs x = 0
  | WRun => runs x = 1
  | WClose | WRelease => (finished x = true /\ runs x = 1) \/ ctxDone x = true
  end.

Record JobInv (s : Scheduler) (j : nat) (x : jobRequest) : Prop := {
  ji_queue : submit x = SQueue -> j ∉ waiting s /\ workers s !! j = None /\ runs x = 0;
  ji_waiting : j ∈ waiting s -> runs x = 0 /\ workers s !! j = None;
  ji_worker : forall pc, workers s !! j = Some pc -> worker_ok pc x;
  ji_runs : runs x <= 1;
  ji_canceled : canceled x = true -> ctxDone x = true;
  ji_cancel : submit x = SCancel -> ctxDone x = true;
  ji_done : done x = true -> settled_job s x \/ stop s = true;
  ji_nil : submit x = SReturned RNil -> done x = true;
  ji_ctx : submit x = SReturned RCtxErr -> ctxDone x = true;
  ji_stopped : submit x = SReturned RStopped -> stop s = true;
  ji_drop : (dispatcher s = DDrop j \/ dispatcher s = DClose j) -> ctxDone x = true
}.

Record Inv (s : Scheduler) : Prop := {
  i_nodup : NoDup (waiting s);
  i_known : forall j, j ∈ waiting s \/ is_Some (workers s !! j) -> is_Some (jobs s !! j);
  i_sem : workerSem s = size (workers s) + holding (dispatcher s);
  i_max : workerSem s <= maxConcurrency s;
  i_slow : match dispatcher s with
           | DDeq1 | DDeq2 | DAcquire _ => size (workers s) < maxConcurrency s
           | _ => True
           end;
  i_gone : dispatcher s = DGone -> stop s = true;
  i_high : length (highPriorityChan s) <= queueSize s;
  i_low : length (lowPriorityChan s) <= queueSize s;
  i_job : forall j x, jobs s !! j = Some x -> JobInv s j x
}.

Lemma sched_New_Inv m q s : New m q = Some s -> Inv s.
Proof.
  unfold New. repeat case_bool_decide; intros; simplify_eq.
  split; simpl; rewrite ?map_size_empty; try done; try lia; try apply NoDup_nil_2.
  intros j [Hj|[x Hx]]; [by apply not_elem_of_nil in Hj|by rewrite lookup_empty in Hx].
Qed.

(** ** Shapes of a step *)

(** Only the record of one job changes. *)
Lemma Inv_job s j x x' :
  Inv s -> jobs s !! j = Some x -> JobInv s j x' ->
  Inv (set_jobs (<[j := x']> (jobs s)) s).
Proof.
  intros [Hnd Hk Hs Hm Hsl Hg Hh Hl Hj] Hx Hx'.
  split; try assumption.
  - intros k Hin. simpl. apply lookup_insert_is_Some'. right. by apply Hk.
  - intros k y. simpl. destruct (decide (k = j)) as [->|Hne].
    + rewrite lookup_insert_eq. intros [= <-]. by destruct Hx'; constructor.
    + rewrite lookup_insert_ne by done. intros Hy. by destruct (Hj k y Hy); constructor.
Qed.

Lemma alter_lookup {A} (m : gmap nat A) j x f :
  m !! j = Some x -> alter f j m = <[j := f x]> m.
Proof.
  intros Hx. apply map_eq. intros k. destruct (decide (k = j)) as [->|Hne].
  - by rewrite lookup_alter_eq, lookup_insert_eq, Hx.
  - by rewrite lookup_alter_ne, lookup_insert_ne by done.
Qed.

Lemma Inv_update s j x f :
  Inv s -> jobs s !! j = Some x -> JobInv s j (f x) -> Inv (update j f s).
Proof.
  intros HI Hx Hf. unfold update. rewrite (alter_lookup _ _ _ _ Hx). by eapply Inv_job.
Qed.

(** The dispatcher moves: the channels may shrink, a job may go out of its hand. *)
Lemma Inv_dispatch s h l n pc :
  Inv s ->
  (h ++ l ++ in_hand pc) ⊆+ waiting s ->
  n = size (workers s) + holding pc -> n <= maxConcurrency s ->
  match pc with
  | DDeq1 | DDeq2 | DAcquire _ => size (workers s) < maxConcurrency s
  | _ => True
  end ->
  (pc = DGone -> stop s = true) ->
  length h <= queueSize s -> length l <= queueSize s ->
  (forall j x, pc = DDrop j \/ pc = DClose j -> jobs s !! j = Some x -> ctxDone x = true) ->
  Inv (mkScheduler (maxConcurrency s) (queueSize s) h l n (stop s) pc (workers s) (jobs s)).
Proof.
  intros [Hnd Hk Hs Hm Hsl Hg Hh Hl Hj] Hw Hn Hmax Hslow Hgone Hlh Hll Hdrop.
  assert (Hin : forall j, j ∈ h ++ l ++ in_hand pc -> j ∈ waiting s).
  { intros j Hj'. by eapply elem_of_submseteq. }
  split; simpl; try assumption.
  - apply submseteq_Permutation in Hw as [k Hw]. rewrite Hw in Hnd.
    by apply NoDup_app in Hnd as (?&_).
  - intros j [Hj'|Hj']; apply Hk; [left; by apply Hin|by right].
  - intros j x Hx. destruct (Hj j x Hx). constructor; auto; simpl.
    + intros HQ. destruct (ji_queue0 HQ) as (?&?&?). split; [|done].
      intros HI. by apply Hin in HI.
    + intros HD. by eapply Hdrop.
Qed.

(** A worker and its job move together. *)
Lemma Inv_worker s j pc pc' x x' :
  Inv s -> workers s !! j = Some pc -> jobs s !! j = Some x ->
  JobInv (set_workers (<[j := pc']> (workers s)) s) j x' ->
  Inv (set_jobs (<[j := x']> (jobs s)) (set_workers (<[j := pc']> (workers s)) s)).
Proof.
  intros [Hnd Hk Hs Hm Hsl Hg Hh Hl Hj] Hw Hx Hx'.
  assert (Hsz : size (<[j := pc']> (workers s)) = size (workers s)).
  { by rewrite map_size_insert, Hw. }
  split; simpl; rewrite ?Hsz; try assumption.
  - intros k Hin. apply lookup_insert_is_Some'. destruct (decide (k = j)) as [->|Hne]; [by left|].
    right. apply Hk. rewrite lookup_insert_ne in Hin by done. done.
  - intros k y. destruct (decide (k = j)) as [->|Hne].
    + rewrite lookup_insert_eq. intros [= <-]. by destruct Hx'; constructor.
    + rewrite lookup_insert_ne by done. intros Hy. destruct (Hj k y Hy).
      constructor; simpl; rewrite ?lookup_insert_ne by done; done.
Qed.

(** The dispatcher hands its job to a fresh worker. *)
Lemma Inv_spawn s j x :
  Inv s -> dispatcher s = DCheck j -> jobs s !! j = Some x ->
  Inv (set_pc DReserve (set_workers (<[j := WCheck]> (workers s)) s)).
Proof.
  intros [Hnd Hk Hs Hm Hsl Hg Hh Hl Hj] Hpc Hx.
  unfold waiting in *. rewrite Hpc in *. simpl in *.
  assert (Hin : j ∈ highPriorityChan s ++ lowPriorityChan s ++ [j]) by set_solver.
  destruct (ji_waiting _ _ _ (Hj j x Hx)) as [Hr Hn]; [unfold waiting; by rewrite Hpc|].
  assert (Hni : j ∉ highPriorityChan s ++ lowPriorityChan s).
  { rewrite app_assoc in Hnd. apply NoDup_app in Hnd as (_&Hd&_). intros H. apply (Hd j H). set_solver. }
  split; unfold waiting; simpl; rewrite ?app_nil_r.
  - rewrite app_assoc in Hnd. by apply NoDup_app in Hnd as (?&_).
  - intros k [Hk'|Hk']; [apply Hk; left; set_solver|].
    destruct (decide (k = j)) as [->|Hne]; [by exists x|].
    rewrite lookup_insert_ne in Hk' by done. apply Hk. by right.
  - rewrite map_size_insert, Hn. lia.
  - done.
  - done.
  - done.
  - done.
  - done.
  - intros k y Hy. destruct (Hj k y Hy) as [a1 a2 a3 a4 a5 a6 a7 a8 b1 b2 a9].
    unfold waiting in *. rewrite Hpc in *. simpl in *.
    destruct (decide (k = j)) as [->|Hne].
    + constructor; unfold waiting; simpl; rewrite ?app_nil_r; try done.
      * intros HQ. by destruct (a1 HQ) as (HQ'&_&_).
      * intros pc. rewrite lookup_insert_eq. intros [= <-]. simpl. congruence.
      * intros [?|?]; done.
    + constructor; unfold waiting; simpl; rewrite ?app_nil_r, ?lookup_insert_ne by done; try done.
      * intros HQ. destruct (a1 HQ) as (?&?&?). split; [set_solver|done].
      * intros HI. apply a2. set_solver.
      * intros [?|?]; done.
Qed.

Lemma Inv_enqueue s j x h l :
  Inv s -> jobs s !! j = Some x -> submit x = SQueue ->
  (h ++ l ++ in_hand (dispatcher s)) ≡ₚ j :: waiting s ->
  length h <= queueSize s -> length l <= queueSize s ->
  Inv (update j (j_submit SWait) (set_high h (set_low l s))).
Proof.
  intros [Hnd Hk Hs Hm Hsl Hg Hh Hl Hj] Hx HQ Hw Hlh Hll.
  destruct (ji_queue _ _ _ (Hj j x Hx) HQ) as (Hni&Hnw&Hr).
  assert (Hin : forall k, k ∈ h ++ l ++ in_hand (dispatcher s) <-> k = j \/ k ∈ waiting s).
  { intros k. by rewrite Hw, elem_of_cons. }
  unfold update. simpl. rewrite (alter_lookup _ _ _ _ Hx).
  split; unfold waiting; simpl; try done.
  - rewrite Hw. by constructor.
  - intros k. rewrite Hin. intros H. apply lookup_insert_is_Some'.
    destruct H as [[->|H]|H]; [by left|right; apply Hk; by left|right; apply Hk; by right].
  - intros k y. destruct (decide (k = j)) as [->|Hne].
    + rewrite lookup_insert_eq. intros [= <-]. destruct (Hj j x Hx).
      constructor; unfold waiting; simpl; done.
    + rewrite lookup_insert_ne by done. intros Hy. destruct (Hj k y Hy).
      constructor; unfold waiting; simpl; try done; rewrite Hin.
      * intros Hq. destruct (ji_queue0 Hq) as (?&?&?). split; [|done]. by intros [?|?].
      * intros [?|?]; [done|]. by apply ji_waiting0.
Qed.

Lemma Inv_submit s j p :
  Inv s -> jobs s !! j = None ->
  Inv (set_jobs (<[j := mkJob p false false false SQueue 0 false]> (jobs s)) s).
Proof.
  intros [Hnd Hk Hs Hm Hsl Hg Hh Hl Hj] Hx.
  assert (Hnew : j ∉ waiting s /\ workers s !! j = None).
  { split; [intros H|apply eq_None_not_Some; intros H];
      [destruct (Hk j (or_introl H)) as [? ?]|destruct (Hk j (or_intror H)) as [? ?]]; congruence. }
  destruct Hnew as [Hni Hnw].
  assert (Hnd' : forall k, dispatcher s = DDrop k \/ dispatcher s = DClose k -> k ∈ waiting s).
  { unfold waiting. intros k [->| ->]; simpl; set_solver. }
  split; simpl; try done.
  - intros k H. apply lookup_insert_is_Some'. right. by apply Hk.
  - intros k y. destruct (decide (k = j)) as [->|Hne].
    + rewrite lookup_insert_eq. intros [= <-]. constructor; simpl; try done; try lia.
      * intros pc H. congruence.
      * intros H. destruct Hni. by apply Hnd'.
    + rewrite lookup_insert_ne by done. intros Hy. by destruct (Hj k y Hy); constructor.
Qed.

Lemma Inv_release s j :
  Inv s -> workers s !! j = Some WRelease ->
  Inv (set_sem (pred (workerSem s)) (set_workers (delete j (workers s)) s)).
Proof.
  intros [Hnd Hk Hs Hm Hsl Hg Hh Hl Hj] Hw.
  assert (Hsz : size (workers s) = S (size (delete j (workers s)))).
  { rewrite map_size_delete, Hw. assert (size (workers s) <> 0); [|lia].
    intros H%map_size_empty_inv. by rewrite H, lookup_empty in Hw. }
  split; simpl; try done; try lia.
  - intros k [H|H]; apply Hk; [by left|right]. by apply lookup_delete_is_Some in H as [_ ?].
  - destruct (dispatcher s); try done; lia.
  - intros k y Hy. destruct (Hj k y Hy). destruct (decide (k = j)) as [->|Hne].
    + constructor; simpl; rewrite ?lookup_delete_eq; try done.
      * intros H. destruct (ji_queue0 H) as (?&?&?). done.
      * intros H. by destruct (ji_waiting0 H).
    + constructor; simpl; rewrite ?lookup_delete_ne by done; try done.
Qed.

(** ** Every step keeps the invariant *)

Lemma guard_opt_Some {A} b (x : option A) y : guard_opt b x = Some y -> b = true /\ x = Some y.
Proof. by destruct b. Qed.

Lemma at_submit_Some pc j s f t :
  at_submit pc j s f = Some t -> exists x, jobs s !! j = Some x /\ submit x = pc /\ f x = Some t.
Proof.
  unfold at_submit. destruct (jobs s !! j) as [x|] eqn:E; [|done].
  case_bool_decide; [|done]. eauto.
Qed.

Lemma at_worker_Some pc j s r t :
  at_worker pc j s r = Some t -> workers s !! j = Some pc /\ r = Some t.
Proof.
  unfold at_worker. destruct (workers s !! j) as [x|] eqn:E; [|done].
  case_bool_decide; [|done]. by subst.
Qed.

Ltac unguard :=
  repeat match goal with
  | H : guard_opt _ _ = Some _ |- _ => apply guard_opt_Some in H as [? H]
  | H : at_submit _ _ _ _ = Some _ |- _ => apply at_submit_Some in H as (?&?&?&H)
  | H : at_worker _ _ _ _ = Some _ |- _ => apply at_worker_Some in H as [? H]
  end; breflect.

Lemma exec_submit_Inv a s t : Inv s -> exec_submit a s = Some t -> Inv t.
Proof.
  intros HI H. pose proof (i_job s HI) as HJ.
  destruct a; simpl in H; try done; unguard.
  - destruct (jobs s !! j) eqn:E; [done|]. injection H as <-. by apply Inv_submit.
  - injection H as <-. destruct (jobs s !! j) as [x|] eqn:E.
    + eapply Inv_update; [done..|]. destruct (HJ j x E). constructor; simpl; auto.
      * intros pc Hp. specialize (ji_worker0 pc Hp). destruct pc; simpl in *; auto.
      * intros _. left. by right.
    + unfold update. rewrite (alter_id _ _ j), ?E; [by destruct s|]. intros x. by rewrite E.
  - unfold enqueue in H. destruct (priority x); unguard; injection H as <-.
    + apply (Inv_enqueue s j x (highPriorityChan s) (lowPriorityChan s ++ [j]));
        rewrite ?length_app; simpl; try done; try lia; try apply HI.
      unfold waiting. by rewrite <- !app_assoc, (Permutation_app_comm [j]), !app_assoc, Permutation_app_comm.
    + apply (Inv_enqueue s j x (highPriorityChan s ++ [j]) (lowPriorityChan s));
        rewrite ?length_app; simpl; try done; try lia; try apply HI.
      unfold waiting. by rewrite <- app_assoc, Permutation_middle.
  - injection H as <-. eapply Inv_update; [done..|]. by destruct (HJ _ _ H0); constructor.
  - injection H as <-. eapply Inv_update; [done..|]. by destruct (HJ _ _ H0); constructor.
  - injection H as <-. eapply Inv_update; [done..|]. by destruct (HJ _ _ H0); constructor.
  - injection H as <-. eapply Inv_update; [done..|]. by destruct (HJ _ _ H0); constructor.
  - injection H as <-. destruct (HJ _ _ H0).
    assert (HI' : Inv (update j j_canceled s)).
    { eapply Inv_update; [done..|]. constructor; simpl; auto; done. }
    eapply Inv_update; [done|by simpl; rewrite lookup_alter_eq, H0|].
    constructor; simpl; auto; done.
  - injection H as <-. eapply Inv_update; [done..|]. by destruct (HJ _ _ H0); constructor.
  - injection H as <-. destruct HI as [Hnd Hk Hs Hm Hsl Hg Hh Hl Hj]. split; try assumption; try done.
    intros j x Hx. destruct (Hj j x Hx). constructor; simpl; auto.
Qed.

Lemma worker_at s j pc :
  Inv s -> workers s !! j = Some pc ->
  exists x, jobs s !! j = Some x /\ worker_ok pc x /\ j ∉ waiting s /\ submit x <> SQueue.
Proof.
  intros HI Hw. destruct (i_known s HI j) as [x Hx]; [right; by exists pc|].
  exists x. destruct (i_job s HI j x Hx). repeat split; auto.
  - intros H. destruct (ji_waiting0 H). congruence.
  - intros H. destruct (ji_queue0 H) as (?&?&?). congruence.
Qed.

(** A worker's move changes how often its job ran and whether it finished or its
    channel is closed. *)
Lemma Inv_work s j pc pc' x x' :
  Inv s -> workers s !! j = Some pc -> jobs s !! j = Some x ->
  submit x' = submit x -> ctxDone x' = ctxDone x -> canceled x' = canceled x ->
  worker_ok pc' x' -> runs x' <= 1 ->
  (done x' = true -> settled_job s x' \/ stop s = true) -> (done x = true -> done x' = true) ->
  Inv (set_jobs (<[j := x']> (jobs s)) (set_workers (<[j := pc']> (workers s)) s)).
Proof.
  intros HI Hw Hx e1 e2 e3 Hok Hr Hd Hm.
  destruct (worker_at s j pc HI Hw) as (y&Hy&_&Hnw&Hq). simplify_eq.
  eapply Inv_worker; [done..|]. destruct (i_job s HI j x Hx).
  constructor; simpl; rewrite ?e1, ?e2, ?e3; auto; try done.
  intros pc0. rewrite lookup_insert_eq. by intros [= <-].
Qed.

Lemma exec_worker_Inv a s t : Inv s -> exec_worker a s = Some t -> Inv t.
Proof.
  intros HI H. pose proof (i_job s HI) as HJ.
  destruct a; simpl in H; try done; unguard;
    match goal with Hw : workers s !! _ = Some _ |- _ =>
      destruct (worker_at _ _ _ HI Hw) as (x&Hx&Hok&Hnw&Hq); simpl in Hok end;
    destruct (HJ _ _ Hx); try rewrite Hx in H.
  - destruct (given_up x) eqn:G; injection H as <-; breflect.
    + replace (set_workers (<[j := WClose]> (workers s)) s)
        with (set_jobs (<[j := x]> (jobs s)) (set_workers (<[j := WClose]> (workers s)) s))
        by (by rewrite insert_id).
      apply (Inv_work s j WCheck WClose x x); auto; [].
      right. apply orb_true_iff in G as [G|G]; auto.
    + unfold update. simpl. rewrite (alter_lookup _ _ _ _ Hx).
      apply (Inv_work s j WCheck WRun x (j_start x)); simpl; auto; [lia..|].
      intros Hd. destruct (ji_done0 Hd) as [[[_ ?]|?]|?]; [lia|left; by right|by right].
  - injection H as <-. unfold update. simpl. rewrite (alter_lookup _ _ _ _ Hx).
    eapply Inv_work; simpl; eauto; [].
    intros Hd. left. by left.
  - injection H as <-. unfold update. simpl. rewrite (alter_lookup _ _ _ _ Hx).
    eapply Inv_work; simpl; eauto.
  - injection H as <-. by apply Inv_release.
Qed.

Lemma pop_high_Some s k t :
  pop_high s k = Some t ->
  exists j q, highPriorityChan s = j :: q /\ t = set_pc (k j) (set_high q s).
Proof. unfold pop_high. destruct (highPriorityChan s) as [|j q]; [done|]. intros [= <-]. eauto. Qed.

Lemma pop_low_Some s k t :
  pop_low s k = Some t ->
  exists j q, lowPriorityChan s = j :: q /\ t = set_pc (k j) (set_low q s).
Proof. unfold pop_low. destruct (lowPriorityChan s) as [|j q]; [done|]. intros [= <-]. eauto. Qed.

(** Close a dispatcher move by its shape. *)
Ltac dispatcher_moves HI Hpc :=
  lazymatch type of HI with Inv ?s => apply (Inv_dispatch s); [exact HI|..] end; destruct HI as [Hnd Hk Hs Hm Hsl Hg Hh Hl Hj];
  unfold waiting in *; simpl in *; rewrite ?Hpc in *; simpl in *;
  repeat match goal with
  | E : highPriorityChan _ = _ |- _ => rewrite ?E in *; simpl in *
  | E : lowPriorityChan _ = _ |- _ => rewrite ?E in *; simpl in *
  end;
  [try solve_submseteq|try lia; try done..|];
  try (by intros ? ? [?|?]).

(** The dispatcher closes the channel of the job in its hand. *)
Lemma Inv_close s j :
  Inv s -> j ∈ waiting s ->
  (forall x, jobs s !! j = Some x -> ctxDone x = true \/ stop s = true) ->
  Inv (update j j_done s).
Proof.
  intros HI Hj Hx. destruct (i_known s HI j (or_introl Hj)) as [x E].
  eapply Inv_update; [done..|]. specialize (Hx x E).
  destruct (i_job s HI j x E). constructor; simpl; auto.
  intros _. destruct Hx; [left; by right|by right].
Qed.

Lemma exec_dispatch_Inv a s t : Inv s -> exec_dispatch a s = Some t -> Inv t.
Proof.
  intros HI H. pose proof (i_job s HI) as HJ.
  destruct (dispatcher s) eqn:Hpc; destruct a; simpl in H; rewrite ?Hpc in H; try done; unguard.
  all: try (repeat match type of H with context [match ?c with _ => _ end] =>
              match c with highPriorityChan _ => idtac | lowPriorityChan _ => idtac | stop _ => idtac end;
              destruct c eqn:? end; [..]).
  all: try done.
  all: try (apply pop_high_Some in H as (?&?&?&H)); try (apply pop_low_Some in H as (?&?&?&H));
    simplify_eq/=.
  all: try (solve [dispatcher_moves HI Hpc]).
  - assert (HI' : Inv (update j j_done s)).
    { apply Inv_close; [done| |by right]. unfold waiting. rewrite Hpc. simpl. set_solver. }
    clear HI. dispatcher_moves HI' Hpc.
  - destruct (jobs s !! j) as [x|] eqn:Hx; [|done].
    destruct (given_up x) eqn:G; simplify_eq; [|by eapply Inv_spawn].
    assert (Hc : ctxDone x = true).
    { destruct (HJ j x Hx). apply orb_true_iff in G as [G|G]; auto. }
    dispatcher_moves HI Hpc. intros k y [[= ->]|?]; [|done]. congruence.
  - dispatcher_moves HI Hpc. intros k y [?|[= ->]]; [done|]. intros Hy.
    destruct (HJ k y Hy). auto.
  - assert (HI' : Inv (update j j_done s)).
    { apply Inv_close; [done| |].
      - unfold waiting. rewrite Hpc. simpl. set_solver.
      - intros x Hx. left. destruct (HJ j x Hx). auto. }
    clear HI. dispatcher_moves HI' Hpc.
Qed.

Lemma sched_exec_Inv a s t : Inv s -> exec a s = Some t -> Inv t.
Proof.
  intros HI. unfold exec.
  destruct (exec_submit a s) eqn:E1; [intros [= <-]; by eapply exec_submit_Inv|].
  destruct (exec_dispatch a s) eqn:E2; [intros [= <-]; by eapply exec_dispatch_Inv|].
  by apply exec_worker_Inv.
Qed.

(** ** Reachability *)

Definition reachable (m q : nat) (s : Scheduler) : Prop :=
  exists s0, New m q = Some s0 /\ steps step s0 s.

Lemma steps_Inv s t : Inv s -> steps step s t -> Inv t.
Proof. intros HI. apply steps_invariant; [done|]. intros x y Hx [a Ha]. by eapply sched_exec_Inv. Qed.

Lemma reachable_Inv m q s : reachable m q s -> Inv s.
Proof. intros (s0&H&Hs). eapply steps_Inv; [by eapply sched_New_Inv|done]. Qed.

Lemma run_steps l s t : run l s = Some t -> steps step s t.
Proof.
  revert s. induction l as [|a l IH]; intros s; simpl; [intros [= ->]; constructor|].
  destruct (exec a s) as [u|] eqn:E; simpl; [|done]. intros H.
  eapply steps_cons; [by exists a|by apply IH].
Qed.

(** ** What a step does to a job request *)

(** Flags only go up, and a job is started only while nobody gave it up. *)
Record later (x y : jobRequest) : Prop := {
  l_priority : priority y = priority x;
  l_ctx : ctxDone x = true -> ctxDone y = true;
  l_canceled : canceled x = true -> canceled y = true;
  l_done : done x = true -> done y = true;
  l_runs : runs x <= runs y;
  l_start : given_up x = true -> runs y = runs x
}.

Lemma later_refl x : later x x.
Proof. by constructor. Qed.

Definition jobs_later (s t : Scheduler) : Prop :=
  forall j x, jobs s !! j = Some x -> exists y, jobs t !! j = Some y /\ later x y.

Lemma jobs_later_same s t : jobs t = jobs s -> jobs_later s t.
Proof. intros E j x Hx. exists x. rewrite E. split; [done|apply later_refl]. Qed.

Lemma jobs_later_alter s t j f :
  jobs t = alter f j (jobs s) -> (forall x, jobs s !! j = Some x -> later x (f x)) -> jobs_later s t.
Proof.
  intros E Hf k x Hx. rewrite E. destruct (decide (k = j)) as [->|Hne].
  - exists (f x). rewrite lookup_alter_eq, Hx. auto.
  - exists x. rewrite lookup_alter_ne by done. split; [done|apply later_refl].
Qed.

Ltac later_move :=
  first [ by apply jobs_later_same
        | eapply jobs_later_alter; [reflexivity|];
          intros ? ?; constructor; simpl; unfold given_up; simpl; auto; done ].

Lemma later_trans x y z : later x y -> later y z -> later x z.
Proof.
  intros [a1 a2 a3 a4 a5 a6] [b1 b2 b3 b4 b5 b6]. constructor; try (by eauto); [congruence|lia|].
  intros G. rewrite b6; [auto|]. unfold given_up in *.
  apply orb_true_iff in G as [G|G]; apply orb_true_iff; auto.
Qed.

Lemma jobs_later_trans s t u : jobs_later s t -> jobs_later t u -> jobs_later s u.
Proof.
  intros H1 H2 j x Hx. destruct (H1 j x Hx) as (y&Hy&L1). destruct (H2 j y Hy) as (z&Hz&L2).
  exists z. split; [done|by eapply later_trans].
Qed.

(** What every step keeps. *)
Definition keeps (s t : Scheduler) : Prop :=
  jobs_later s t /\ maxConcurrency t = maxConcurrency s /\ queueSize t = queueSize s /\
  (stop s = true -> stop t = true).

Lemma keeps_trans s t u : keeps s t -> keeps t u -> keeps s u.
Proof.
  intros (a1&a2&a3&a4) (b1&b2&b3&b4). split; [by eapply jobs_later_trans|].
  split; [congruence|]. split; [congruence|auto].
Qed.

Ltac keeps_move :=
  repeat match goal with H : Some _ = Some _ |- _ => injection H as <- end;
  split; [later_move|by repeat split].

Lemma exec_submit_keeps a s t : exec_submit a s = Some t -> keeps s t.
Proof.
  intros H. destruct a; simpl in H; try done; unguard; try (by keeps_move).
  - destruct (jobs s !! j) as [x|] eqn:Hj; simplify_eq/=. repeat split; [|done].
    intros k x Hx. exists x. simpl. split; [|apply later_refl].
    rewrite lookup_insert_ne; congruence.
  - unfold enqueue in H. destruct (priority _); unguard; by keeps_move.
  - injection H as <-. apply (keeps_trans _ (update j j_canceled s)); by keeps_move.
Qed.

Lemma exec_dispatch_keeps a s t : exec_dispatch a s = Some t -> keeps s t.
Proof.
  intros H. destruct (dispatcher s) eqn:Hpc; destruct a; simpl in H; rewrite ?Hpc in H; try done; unguard;
    repeat match type of H with context [match ?c with _ => _ end] => destruct c eqn:? end; try done;
    try (apply pop_high_Some in H as (?&?&?&->)); try (apply pop_low_Some in H as (?&?&?&->));
    by keeps_move.
Qed.

Lemma exec_worker_keeps a s t : exec_worker a s = Some t -> keeps s t.
Proof.
  intros H. destruct a; simpl in H; try done; unguard; try (by keeps_move).
  destruct (jobs s !! j) as [x|] eqn:Hx; [|done].
  destruct (given_up x) eqn:G; [by keeps_move|]. injection H as <-. split; [|by repeat split].
  eapply jobs_later_alter; [reflexivity|]. intros y Hy. simplify_eq.
  constructor; simpl; auto; congruence.
Qed.

Lemma exec_keeps a s t : exec a s = Some t -> keeps s t.
Proof.
  unfold exec. destruct (exec_submit a s) eqn:E1; [intros [= <-]; by eapply exec_submit_keeps|].
  destruct (exec_dispatch a s) eqn:E2; [intros [= <-]; by eapply exec_dispatch_keeps|].
  by apply exec_worker_keeps.
Qed.

Lemma steps_keeps s t : steps step s t -> keeps s t.
Proof.
  induction 1 as [|t u _ IH [a Ha]].
  - split; [by apply jobs_later_same|done].
  - eapply keeps_trans; [exact IH|by eapply exec_keeps].
Qed.

(** ** The properties *)

(** The slots, the queues and the jobs stay within their bounds. *)
Definition within_bounds (m q : nat) (s : Scheduler) : Prop :=
  size (workers s) <= m /\ workerSem s <= m /\
  length (highPriorityChan s) <= q /\ length (lowPriorityChan s) <= q /\
  (forall j x, jobs s !! j = Some x -> runs x <= 1) /\
  NoDup (waiting s) /\ (forall j, j ∈ waiting s -> workers s !! j = None).

(** C8. However submitters, the dispatcher and the workers interleave, at most
    [maxConcurrency] workers exist, no queue exceeds its capacity, a job is
    started at most once and is in one place at a time; once the dispatcher has a job
    it dequeued without a slot, a slot is free for it. *)
Theorem sched_bounds m q s :
  reachable m q s ->
  within_bounds m q s /\
  (forall j, dispatcher s = DAcquire j -> workerSem s < m).
Proof.
  intros HR. pose proof (reachable_Inv _ _ _ HR) as HI. destruct HR as (s0&H0&Hs).
  destruct (steps_keeps _ _ Hs) as (_&Hm&Hq&_).
  assert (maxConcurrency s0 = m /\ queueSize s0 = q) as [e1 e2].
  { unfold New in H0. repeat case_bool_decide; by simplify_eq. }
  rewrite e1 in Hm. rewrite e2 in Hq.
  destruct HI as [Hnd Hk Hsem Hmax Hsl Hg Hh Hl Hj]. subst m q. split.
  - repeat split; try done; try lia.
    + intros j x Hx. by destruct (Hj j x Hx).
    + intros j Hin. destruct (Hk j (or_introl Hin)) as [x Hx]. by destruct (ji_waiting _ _ _ (Hj j x Hx) Hin).
  - intros j Hd. rewrite Hd in Hsl, Hsem. simpl in Hsem. lia.
Qed.

Lemma worker_step s j pc :
  Inv s -> workers s !! j = Some pc -> exists a t, exec_worker a s = Some t.
Proof.
  intros HI Hw. destruct (worker_at s j pc HI Hw) as (x&Hx&_).
  assert (Hat : forall r, at_worker pc j s r = r).
  { intros r. unfold at_worker. rewrite Hw. by rewrite bool_decide_eq_true_2. }
  destruct pc; [exists (WorkCheck j)|exists (WorkReturn j)|exists (WorkClose j)|exists (WorkRelease j)];
    simpl; rewrite Hat; [rewrite Hx; destruct (given_up x)|..]; eauto.
  rewrite bool_decide_eq_true_2; [simpl; eauto|].
  rewrite (i_sem s HI). assert (size (workers s) <> 0); [|lia].
  intros H%map_size_empty_inv. by rewrite H, lookup_empty in Hw.
Qed.

Lemma dispatcher_step s :
  Inv s -> stop s = false ->
  (exists a t, exec_dispatch a s = Some t) \/
  (dispatcher s = DReserve /\ size (workers s) = maxConcurrency s) \/
  (dispatcher s = DDeq2 /\ highPriorityChan s = [] /\ lowPriorityChan s = []).
Proof.
  intros HI Hst. destruct HI as [Hnd Hk Hsem Hmax Hsl Hg Hh Hl Hj].
  unfold waiting in *.
  assert (Hmove : forall a t, exec_dispatch a s = Some t -> exists a t, exec_dispatch a s = Some t) by eauto.
  destruct (dispatcher s) eqn:Hpc; simpl in Hsem.
  - destruct (decide (workerSem s < maxConcurrency s)); [left|right; left; split; [done|lia]].
    eapply (Hmove DoReserve). simpl. by rewrite Hpc, bool_decide_eq_true_2.
  - left. destruct (highPriorityChan s) eqn:E; eapply (Hmove DoTry1); simpl; rewrite Hpc; unfold pop_high;
      by rewrite E.
  - left. destruct (highPriorityChan s) eqn:E; [destruct (lowPriorityChan s) eqn:E'|].
    + eapply (Hmove DoTry2None). simpl. by rewrite Hpc, E, E'.
    + eapply (Hmove DoTry2Low). simpl. unfold pop_low. by rewrite Hpc, E'.
    + eapply (Hmove DoTry2High). simpl. unfold pop_high. by rewrite Hpc, E.
  - left. eapply (Hmove DoRelease). simpl. rewrite Hpc, bool_decide_eq_true_2 by lia. done.
  - left. destruct (highPriorityChan s) eqn:E.
    + eapply (Hmove DoDeq1None). simpl. by rewrite Hpc, Hst, E.
    + eapply (Hmove DoDeq1High). simpl. unfold pop_high. by rewrite Hpc, E.
  - destruct (highPriorityChan s) eqn:E; [destruct (lowPriorityChan s) eqn:E'|].
    + by right; right.
    + left. eapply (Hmove DoDeq2Low). simpl. unfold pop_low. by rewrite Hpc, E'.
    + left. eapply (Hmove DoDeq2High). simpl. unfold pop_high. by rewrite Hpc, E.
  - left. eapply (Hmove DoAcquire). simpl. by rewrite Hpc, bool_decide_eq_true_2 by lia.
  - left. destruct (Hk j) as [x Hx]; [left; simpl; set_solver|].
    destruct (given_up x) eqn:G; eapply (Hmove DoCheck); simpl; by rewrite Hpc, Hx, G.
  - left. eapply (Hmove DoDropRelease). simpl. rewrite Hpc, bool_decide_eq_true_2 by lia. done.
  - left. eapply (Hmove DoDropClose). simpl. by rewrite Hpc.
  - by rewrite Hg in Hst.
Qed.

Lemma reachable_sizes m q s :
  reachable m q s -> maxConcurrency s = m /\ 0 < m /\ size (workers s) <= m.
Proof.
  intros HR. pose proof (reachable_Inv _ _ _ HR) as HI. destruct HR as (s0&H0&Hs).
  destruct (steps_keeps _ _ Hs) as (_&Hm&_&_).
  assert (maxConcurrency s0 = m /\ 0 < m) as [e1 e2].
  { unfold New in H0. repeat case_bool_decide; simplify_eq. simpl. lia. }
  pose proof (i_sem s HI). pose proof (i_max s HI). split_and!; [congruence|done|lia].
Qed.

(** Something can step while a request waits: the dispatcher only pauses when every slot is
    taken by a worker or when both queues are empty. *)
Lemma waiting_step m q s :
  reachable m q s -> stop s = false -> waiting s <> [] ->
  exists a t, exec_dispatch a s = Some t \/ exec_worker a s = Some t.
Proof.
  intros HR Hst Hw. pose proof (reachable_Inv _ _ _ HR) as HI.
  destruct (reachable_sizes m q s HR) as (Hm & Hpos & _).
  destruct (dispatcher_step s HI Hst) as [(a&t&H)|[[Hd Hfull]|(Hd&Hh&Hl)]]; [by eauto| |].
  - destruct (map_choose (workers s)) as (j&pc&Hj).
    { intros E. rewrite E, map_size_empty in Hfull. lia. }
    destruct (worker_step s j pc HI Hj) as (a&t&Hat). eauto.
  - unfold waiting in Hw. by rewrite Hd, Hh, Hl in Hw.
Qed.

(** The job a step takes out of a channel. *)
Definition taken (s t : Scheduler) : option nat :=
  match in_hand (dispatcher s), in_hand (dispatcher t) with
  | [], [j] => Some j
  | _, _ => None
  end.

(** A run of steps none of which takes a job. *)
Inductive idle (s : Scheduler) : Scheduler -> Prop :=
| idle_refl : idle s s
| idle_snoc t u : idle s t -> step t u -> taken t u = None -> idle s u.

(** The dispatcher is between the two polls of its queues. *)
Definition between_polls (s : Scheduler) : Prop :=
  dispatcher s = DTry2 \/ dispatcher s = DDeq2.

Lemma exec_high_head a s t h q :
  exec a s = Some t -> highPriorityChan s = h :: q -> ~ between_polls s ->
  match taken s t with
  | Some j => j = h
  | None => (exists q', highPriorityChan t = h :: q') /\ ~ between_polls t
  end.
Proof.
  intros H Hh Hb. unfold exec in H.
  assert (Hsame : forall t, dispatcher t = dispatcher s -> taken s t = None).
  { intros u E. unfold taken. rewrite E. by destruct (dispatcher s). }
  assert (Hkeep : forall t, dispatcher t = dispatcher s -> highPriorityChan t = highPriorityChan s ->
     match taken s t with Some j => j = h
     | None => (exists q', highPriorityChan t = h :: q') /\ ~ between_polls t end).
  { intros u E1 E2. rewrite Hsame by done. rewrite E2. split; [eauto|]. unfold between_polls. by rewrite E1. }
  destruct (exec_submit a s) eqn:E1; [|destruct (exec_dispatch a s) eqn:E2; [|rename H into E3]].
  - injection H as <-. destruct a; simpl in E1; try done; unguard; try (simplify_eq; by apply Hkeep).
    + destruct (jobs s !! j); simplify_eq. by apply Hkeep.
    + unfold enqueue in E1. destruct (priority _); unguard; simplify_eq; [by apply Hkeep|].
      rewrite Hsame by done. rewrite Hh. split; [simpl; eauto|]. exact Hb.
  - injection H as <-. unfold between_polls in Hb.
    destruct (dispatcher s) eqn:Hpc; destruct a; simpl in E2; rewrite ?Hpc in E2; try done; unguard;
      try (destruct Hb; tauto);
      repeat match type of E2 with context [match ?c with _ => _ end] => destruct c eqn:? end; try done;
      try (apply pop_high_Some in E2 as (?&?&?&->)); simplify_eq/=;
      unfold taken, between_polls; simpl; rewrite Hpc; simpl; try congruence;
      (split; [eauto|by intros [?|?]]).
  - destruct a; simpl in E3; try done; unguard; try (simplify_eq; by apply Hkeep).
    destruct (jobs s !! j) as [x|]; [|done]. destruct (given_up x); simplify_eq; by apply Hkeep.
Qed.

(** C31. While a high-priority request is queued and the dispatcher is not
    between its two polls, the next request it takes, whatever happens in the
    meantime, is the oldest high-priority one. *)
Theorem high_first s h q t u j :
  highPriorityChan s = h :: q -> ~ between_polls s ->
  idle s t -> step t u -> taken t u = Some j -> j = h.
Proof.
  intros Hh Hb Hi [a Ha] Hj.
  assert (HI : (exists q', highPriorityChan t = h :: q') /\ ~ between_polls t).
  { clear a Ha Hj u. induction Hi as [|t u _ IH [a Ha] Hn]; [eauto|].
    destruct IH as [[q' Hq'] Hb']. pose proof (exec_high_head _ _ _ _ _ Ha Hq' Hb') as H.
    by rewrite Hn in H. }
  destruct HI as [[q' Hq'] Hb']. pose proof (exec_high_head _ _ _ _ _ Ha Hq' Hb') as H.
  by rewrite Hj in H.
Qed.

(** C32. What [Submit] returned tells what became of the job: [nil] means that the job ran
    to its end exactly once, unless its context ended or the scheduler was stopped; a
    context error means that the context ended; "scheduler stopped" that it was. And a
    job given up before it started is never started. *)
Theorem submit_outcomes m q s j x :
  reachable m q s -> jobs s !! j = Some x ->
  (submit x = SReturned RNil ->
     (finished x = true /\ runs x = 1) \/ ctxDone x = true \/ stop s = true) /\
  (submit x = SReturned RCtxErr -> ctxDone x = true) /\
  (submit x = SReturned RStopped -> stop s = true) /\
  (given_up x = true -> runs x = 0 ->
     forall t, steps step s t -> exists y, jobs t !! j = Some y /\ runs y = 0).
Proof.
  intros HR Hx. destruct (i_job s (reachable_Inv _ _ _ HR) j x Hx).
  repeat split; auto.
  - intros H. destruct (ji_done0 (ji_nil0 H)) as [[?|?]|?]; auto.
  - intros G Hr t Ht. destruct (steps_keeps _ _ Ht) as (Hl&_).
    destruct (Hl j x Hx) as (y&Hy&L). exists y. split; [done|].
    by rewrite (l_start _ _ L G).
Qed.

(** ** Concrete runs *)

Definition after (m q : nat) (l : list action) : option Scheduler :=
  match New m q with Some s => run l s | None => None end.

Lemma after_reachable m q l s : after m q l = Some s -> reachable m q s.
Proof.
  unfold after. destruct (New m q) as [s0|] eqn:E; [|done]. intros H.
  exists s0. split; [done|by eapply run_steps].
Qed.

(** The job [j] of the state a run leads to. *)
Definition job_after (m q : nat) (l : list action) (j : nat) : option jobRequest :=
  match after m q l with Some s => jobs s !! j | None => None end.

Definition run_to_worker : list action :=
  [ASubmit 1 PriorityHigh; AEnqueue 1; DoReserve; DoTry1; DoCheck; WorkCheck 1].

(** A low-priority job is taken while a high-priority one is queued, when the latter
    arrives between the dispatcher's two polls. *)
Definition overtaking : list action :=
  [ASubmit 1 PriorityLow; AEnqueue 1; DoReserve; DoTry1; ASubmit 2 PriorityHigh; AEnqueue 2].

Lemma low_overtakes_high :
  match after 1 2 overtaking, after 1 2 (overtaking ++ [DoTry2Low]) with
  | Some s, Some t =>
      highPriorityChan s = [2] /\ exec DoTry2Low s = Some t /\ taken s t = Some 1
  | _, _ => False
  end.
Proof. vm_compute. done. Qed.

(** [Submit] answers [nil] for a job that never ran: its context ended while it was
    queued, the dispatcher dropped it and closed [done], and of the two ready cases
    the second select picked [done]. *)
Lemma nil_without_run :
  match job_after 1 1 [ASubmit 1 PriorityHigh; AEnqueue 1; ACtxDone 1; DoReserve; DoTry1; DoCheck;
                       DoDropRelease; DoDropClose; AReturnDone 1] 1 with
  | Some x => submit x = SReturned RNil /\ runs x = 0 /\ finished x = false
  | None => False
  end.
Proof. vm_compute. done. Qed.

(** [Submit] answers a context error for a job that is still running. *)
Lemma error_while_running :
  match after 1 1 (run_to_worker ++ [ACtxDone 1; ACtxWhileWaiting 1; AStoreCanceled 1]) with
  | Some s => workers s !! 1 = Some WRun /\ submit <$> jobs s !! 1 = Some (SReturned RCtxErr)
  | None => False
  end.
Proof. vm_compute. done. Qed.

Lemma sched_bounds_witness :
  match after 1 2 run_to_worker with
  | Some s => size (workers s) = 1 /\ within_bounds 1 2 s
  | None => False
  end.
Proof.
  destruct (after 1 2 run_to_worker) as [s|] eqn:E; [|vm_compute in E; discriminate].
  split; [vm_compute in E; by injection E as <-|].
  apply (sched_bounds 1 2 s). by eapply after_reachable.
Defined.

Lemma high_first_witness :
  match after 1 2 [ASubmit 1 PriorityLow; AEnqueue 1; ASubmit 2 PriorityHigh; AEnqueue 2] with
  | Some s =>
      match exec DoReserve s with
      | Some t => forall u j, step t u -> taken t u = Some j -> j = 2
      | None => False
      end
  | None => False
  end.
Proof.
  destruct (after 1 2 _) as [s|] eqn:E; [|vm_compute in E; discriminate].
  destruct (exec DoReserve s) as [t|] eqn:Et.
  - intros u j Hu Hj. eapply (high_first s 2 []); [..|exact Hu|exact Hj].
    + vm_compute in E. by injection E as <-.
    + vm_compute in E. injection E as <-. by intros [?|?].
    + eapply idle_snoc; [constructor|by exists DoReserve|].
      vm_compute in E. injection E as <-. vm_compute in Et. by injection Et as <-.
  - vm_compute in E. injection E as <-. vm_compute in Et. discriminate.
Defined.

Lemma submit_outcomes_witness :
  match after 1 1 (run_to_worker ++ [WorkReturn 1; WorkClose 1; AReturnDone 1]) with
  | Some s =>
      match jobs s !! 1 with
      | Some x => submit x = SReturned RNil /\
                  ((finished x = true /\ runs x = 1) \/ ctxDone x = true \/ stop s = true)
      | None => False
      end
  | None => False
  end.
Proof.
  destruct (after 1 1 _) as [s|] eqn:E; [|vm_compute in E; discriminate].
  destruct (jobs s !! 1) as [x|] eqn:Hx.
  - assert (Hq : submit x = SReturned RNil).
    { vm_compute in E. injection E as <-. vm_compute in Hx. by injection Hx as <-. }
    split; [done|]. apply (submit_outcomes 1 1 s 1 x); [by eapply after_reachable|done|done].
  - vm_compute in E. injection E as <-. vm_compute in Hx. discriminate.
Defined.
