(* ===== verification/SchedulerLive.v ===== *)
(** * Progress of the scheduler

    A measure of the work the scheduler's goroutines still have: every step of the
    dispatcher or a worker lowers it, only a new request raises it. A second measure, for
    one request of the high channel, is raised by nothing. *)

From Stdlib Require Import ZArith Lia.
From stdpp Require Import prelude gmap fin_maps list.
From S2P Require Import Prelude Scheduler SchedulerSpec.

Local Open Scope nat_scope.

(** The steps of the dispatcher and the workers. *)
Definition internal (a : action) : bool :=
  match a with
  | ASubmit _ _ | ACtxDone _ | AEnqueue _ | ACtxBeforeQueue _ | AStopBeforeQueue _
  | AReturnDone _ | ACtxWhileWaiting _ | AStoreCanceled _ | AStopWhileWaiting _ | AStop => false
  | _ => true
  end.

Definition is_enqueue (a : action) : bool :=
  match a with AEnqueue _ => true | _ => false end.

Definition count (P : action -> bool) (l : list action) : nat :=
  length (filter (fun a => P a = true) l).

(** How many steps the dispatcher has before it waits for a request or a slot, and a
    worker before it is gone; a request that is taken costs at most [12]. *)
Definition dispatch_cost (pc : DispatchPC) : nat :=
  match pc with
  | DReserve => 6 | DTry1 => 5 | DTry2 => 4 | DRelease => 3 | DDeq1 => 2 | DDeq2 => 1
  | DAcquire _ => 12 | DCheck _ => 11 | DDrop _ => 8 | DClose _ => 7 | DGone => 0
  end.

Definition worker_cost (pc : WorkerPC) : nat :=
  match pc with WCheck => 4 | WRun => 3 | WClose => 2 | WRelease => 1 end.

Definition workers_cost (ws : gmap nat WorkerPC) : nat :=
  map_fold (fun _ pc n => worker_cost pc + n) 0 ws.

Definition goroutines_cost (s : Scheduler) : nat :=
  dispatch_cost (dispatcher s) + workers_cost (workers s).

Definition energy (s : Scheduler) : nat :=
  12 * (length (highPriorityChan s) + length (lowPriorityChan s)) + goroutines_cost s.

(** The requests in front of [j]. *)
Fixpoint ahead (j : nat) (q : list nat) : nat :=
  match q with
  | [] => 0
  | k :: q => if decide (k = j) then 0 else S (ahead j q)
  end.

Definition at_polls (pc : DispatchPC) : bool :=
  match pc with DTry2 | DDeq2 => true | _ => false end.

Definition energy_high (j : nat) (s : Scheduler) : nat :=
  12 * (ahead j (highPriorityChan s) + Nat.b2n (at_polls (dispatcher s))) + goroutines_cost s.

(** ** Costs of the workers *)
Lemma workers_cost_insert ws j pc :
  ws !! j = None -> workers_cost (<[j := pc]> ws) = worker_cost pc + workers_cost ws.
Proof. intros H. unfold workers_cost. rewrite map_fold_insert_L; [done| |done]. intros; lia. Qed.

Lemma workers_cost_delete ws j pc :
  ws !! j = Some pc -> workers_cost ws = worker_cost pc + workers_cost (delete j ws).
Proof.
  intros H. rewrite <- (workers_cost_insert _ j pc) by apply lookup_delete_eq.
  by rewrite insert_delete_id.
Qed.

Lemma workers_cost_move ws j pc pc' :
  ws !! j = Some pc -> worker_cost pc' < worker_cost pc ->
  workers_cost (<[j := pc']> ws) < workers_cost ws.
Proof.
  intros H Hc. rewrite (workers_cost_delete ws j pc H), <- insert_delete_eq.
  rewrite workers_cost_insert by apply lookup_delete_eq. lia.
Qed.

Lemma workers_cost_bound ws : workers_cost ws <= 4 * size ws.
Proof.
  induction ws as [|j pc ws Hj IH] using map_ind; [done|].
  rewrite workers_cost_insert, map_size_insert_None by done.
  assert (worker_cost pc <= 4) by (destruct pc; simpl; lia). lia.
Qed.

Lemma goroutines_cost_bound m q s :
  reachable m q s -> goroutines_cost s <= 12 + 4 * m.
Proof.
  intros HR. destruct (reachable_sizes m q s HR) as (_&_&Hw).
  pose proof (workers_cost_bound (workers s)). unfold goroutines_cost.
  assert (dispatch_cost (dispatcher s) <= 12) by (destruct (dispatcher s); simpl; lia). lia.
Qed.

(** ** What a step costs *)

(** Every step of the dispatcher and the workers uses energy; of the others only a new
    request brings some. *)
Definition spends (a : action) (e e' : nat) : Prop :=
  if internal a then e' < e else e' <= e + (if is_enqueue a then 12 else 0).

Lemma exec_submit_internal a s t : exec_submit a s = Some t -> internal a = false.
Proof. by destruct a. Qed.

Lemma exec_dispatch_internal a s t : exec_dispatch a s = Some t -> internal a = true.
Proof. by destruct a. Qed.

Lemma exec_worker_internal a s t : exec_worker a s = Some t -> internal a = true.
Proof. by destruct a. Qed.

(** What the steps leave of the dispatcher and the workers. *)
Lemma exec_submit_cost a s t :
  exec_submit a s = Some t ->
  goroutines_cost t = goroutines_cost s /\ dispatcher t = dispatcher s /\
  workers t = workers s /\
  ((highPriorityChan t = highPriorityChan s /\ lowPriorityChan t = lowPriorityChan s) \/
   exists j x, a = AEnqueue j /\ jobs s !! j = Some x /\ submit x = SQueue /\
     ((highPriorityChan t = highPriorityChan s ++ [j] /\ lowPriorityChan t = lowPriorityChan s) \/
      (highPriorityChan t = highPriorityChan s /\ lowPriorityChan t = lowPriorityChan s ++ [j]))).
Proof.
  intros H. destruct a; simpl in H; try done; unguard; try (simplify_eq; split_and!; auto; fail).
  - destruct (jobs s !! j); simplify_eq. split_and!; auto.
  - unfold enqueue in H. destruct (priority x); unguard; simplify_eq; split_and!; auto;
      right; do 2 eexists; split_and!; eauto.
Qed.

Lemma exec_worker_cost a s t :
  exec_worker a s = Some t ->
  workers_cost (workers t) < workers_cost (workers s) /\ dispatcher t = dispatcher s /\
  highPriorityChan t = highPriorityChan s /\ lowPriorityChan t = lowPriorityChan s.
Proof.
  intros H. destruct a; simpl in H; try done; unguard.
  - destruct (jobs s !! j) as [x|]; [|done]. destruct (given_up x); simplify_eq/=;
      (split_and!; [|done..]); apply (workers_cost_move _ j WCheck); simpl; auto; lia.
  - simplify_eq/=. split_and!; [|done..]. apply (workers_cost_move _ j WRun); simpl; auto.
  - simplify_eq/=. split_and!; [|done..]. apply (workers_cost_move _ j WClose); simpl; auto.
  - simplify_eq/=. split_and!; [|done..].
    match goal with Hw : workers s !! j = Some _ |- _ => rewrite (workers_cost_delete _ _ _ Hw) end.
    simpl. lia.
Qed.

(** The dispatcher takes a request of a channel, or none. *)
Inductive dispatch_move (s t : Scheduler) : Prop :=
| move_none :
    highPriorityChan t = highPriorityChan s -> lowPriorityChan t = lowPriorityChan s ->
    goroutines_cost t < goroutines_cost s ->
    (at_polls (dispatcher t) = true -> highPriorityChan s = []) -> dispatch_move s t
| move_high j q :
    highPriorityChan s = j :: q -> highPriorityChan t = q ->
    lowPriorityChan t = lowPriorityChan s -> in_hand (dispatcher t) = [j] ->
    goroutines_cost t < goroutines_cost s + 12 -> dispatch_move s t
| move_low j q :
    lowPriorityChan s = j :: q -> lowPriorityChan t = q ->
    highPriorityChan t = highPriorityChan s -> in_hand (dispatcher t) = [j] ->
    at_polls (dispatcher s) = true ->
    goroutines_cost t < goroutines_cost s + 12 -> dispatch_move s t.

Lemma exec_dispatch_cost a s t :
  Inv s -> exec_dispatch a s = Some t -> dispatch_move s t.
Proof.
  intros HI H. pose proof (i_job s HI) as HJ.
  destruct (dispatcher s) eqn:Hpc; destruct a; simpl in H; rewrite ?Hpc in H; try done; unguard.
  all: try (repeat match type of H with context [match ?c with _ => _ end] =>
              match c with highPriorityChan _ => idtac | lowPriorityChan _ => idtac | stop _ => idtac end;
              destruct c eqn:? end; [..]).
  all: try done.
  all: try (apply pop_high_Some in H as (?&?&?&H)); try (apply pop_low_Some in H as (?&?&?&H));
    simplify_eq/=.
  all: try (eapply move_none; unfold goroutines_cost; simpl; rewrite ?Hpc; simpl; first [done|lia|congruence]).
  all: try (eapply move_high; unfold goroutines_cost; simpl; rewrite ?Hpc; simpl; first [done|eassumption|lia]).
  all: try (eapply move_low; unfold goroutines_cost; simpl; rewrite ?Hpc; simpl; first [done|eassumption|lia]).
  destruct (jobs s !! j) as [x|] eqn:Hx; [|done].
  destruct (given_up x) eqn:G; simplify_eq;
    (eapply move_none; unfold goroutines_cost; simpl; rewrite ?Hpc; simpl; try done; [..]); [lia|].
  destruct (ji_waiting _ _ _ (HJ j x Hx)) as [_ Hn].
  { unfold waiting. rewrite Hpc. simpl. set_solver. }
  rewrite workers_cost_insert by done. simpl. lia.
Qed.

Lemma exec_cases a s t :
  exec a s = Some t ->
  exec_submit a s = Some t \/ exec_dispatch a s = Some t \/ exec_worker a s = Some t.
Proof.
  unfold exec. destruct (exec_submit a s); [intros [= <-]; by left|].
  destruct (exec_dispatch a s); [intros [= <-]; right; by left|]. by right; right.
Qed.

Lemma exec_energy a s t :
  Inv s -> exec a s = Some t -> spends a (energy s) (energy t).
Proof.
  unfold spends, energy.
  intros HI [H|[H|H]]%exec_cases.
  - rewrite (exec_submit_internal _ _ _ H). apply exec_submit_cost in H as (->&_&_&H).
    destruct H as [[-> ->]|(j&x&->&_&_&[[-> ->]|[-> ->]])]; rewrite ?length_app; simpl; lia.
  - rewrite (exec_dispatch_internal _ _ _ H).
    destruct (exec_dispatch_cost _ _ _ HI H) as [-> ->|j q' -> -> ->|j q' -> -> ->]; simpl; lia.
  - rewrite (exec_worker_internal _ _ _ H). apply exec_worker_cost in H as (H&E&->&->).
    unfold goroutines_cost. rewrite E. lia.
Qed.

(** ** The requests of the high channel *)
Lemma ahead_app j q r : j ∈ q -> ahead j (q ++ r) = ahead j q.
Proof.
  induction q as [|k q IH]; [by intros H%not_elem_of_nil|]. simpl. intros H.
  case_decide; [done|]. rewrite IH; [done|]. by apply elem_of_cons in H as [->|H].
Qed.

(** A request that is still in the high channel was there before, unless it had not been
    sent yet. *)
Lemma exec_high_back a s t j x :
  Inv s -> exec a s = Some t -> jobs s !! j = Some x -> submit x <> SQueue ->
  j ∈ highPriorityChan t ->
  j ∈ highPriorityChan s /\ spends a (energy_high j s) (energy_high j t) /\
  (is_enqueue a = true -> energy_high j t = energy_high j s).
Proof.
  unfold spends, energy_high.
  intros HI [H|[H|H]]%exec_cases Hx Hq Hj.
  - rewrite (exec_submit_internal _ _ _ H).
    apply exec_submit_cost in H as (->&->&_&H).
    destruct H as [[E _]|(k&y&->&Hk&Hy&[[E _]|[E _]])]; rewrite E in Hj |- *; [by split_and!; [|lia|]| |by split_and!; [|lia|]].
    apply elem_of_app in Hj as [Hj|Hj]; [rewrite ahead_app by done; by split_and!; [|lia|]|].
    apply list_elem_of_singleton in Hj as ->. congruence.
  - rewrite (exec_dispatch_internal _ _ _ H).
    assert (Hn : is_enqueue a = false) by by destruct a.
    destruct (exec_dispatch_cost _ _ _ HI H) as [E _ Hc Hp|k q' E E' _ Hh Hc|k q' _ _ E Hh Hp Hc];
      rewrite ?Hn.
    + rewrite E in Hj |- *. split_and!; [done| |done].
      destruct (at_polls (dispatcher t)); [rewrite Hp in Hj by done; by apply not_elem_of_nil in Hj|].
      simpl. lia.
    + rewrite E' in Hj |- *. rewrite E. split_and!; [by right| |done].
      pose proof (i_nodup s HI) as Hnd. unfold waiting in Hnd. rewrite E in Hnd. simpl in Hnd.
      apply NoDup_cons in Hnd as [Hni _]. simpl. rewrite decide_False by set_solver.
      assert (at_polls (dispatcher t) = false) as -> by by destruct (dispatcher t). simpl. lia.
    + rewrite E in Hj |- *. split_and!; [done| |done].
      assert (at_polls (dispatcher t) = false) as -> by by destruct (dispatcher t).
      rewrite Hp. simpl. lia.
  - rewrite (exec_worker_internal _ _ _ H).
    assert (Hn : is_enqueue a = false) by by destruct a.
    apply exec_worker_cost in H as (H&E&Eh&_). rewrite Eh in Hj |- *. rewrite E.
    unfold goroutines_cost. rewrite E. split_and!; [done|lia|by rewrite Hn].
Qed.

(** A request that was sent stays sent. *)
Lemma exec_sent a s t j x :
  exec a s = Some t -> jobs s !! j = Some x -> submit x <> SQueue ->
  exists y, jobs t !! j = Some y /\ submit y <> SQueue.
Proof.
  assert (Hsame : forall t, jobs t = jobs s -> jobs s !! j = Some x -> submit x <> SQueue ->
    exists y, jobs t !! j = Some y /\ submit y <> SQueue) by (intros u ->; eauto).
  assert (Halt : forall k f t, jobs t = alter f k (jobs s) ->
    (forall z, submit (f z) = submit z \/ submit (f z) <> SQueue) ->
    jobs s !! j = Some x -> submit x <> SQueue ->
    exists y, jobs t !! j = Some y /\ submit y <> SQueue).
  { intros k f u E Hf Hx Hq. rewrite E. destruct (decide (k = j)) as [->|Hne].
    - rewrite lookup_alter_eq, Hx. eexists; split; [done|]. destruct (Hf x); congruence.
    - rewrite lookup_alter_ne by done. eauto. }
  intros [H|[H|H]]%exec_cases.
  - destruct a; simpl in H; try done; unguard;
      try (simplify_eq; eapply Halt; [reflexivity|]; simpl; auto; intros; by right).
    + destruct (jobs s !! j0) eqn:E; simplify_eq. intros Hx Hq. simpl.
      rewrite lookup_insert_ne by congruence. eauto.
    + unfold enqueue in H. destruct (priority _); unguard; simplify_eq;
        (eapply Halt; [reflexivity|]; intros; by right).
    + simplify_eq. intros Hx Hq. destruct (decide (j0 = j)) as [->|Hne].
      * eexists. simpl. rewrite lookup_alter_eq, lookup_alter_eq, Hx. split; [done|]. done.
      * eexists. simpl. rewrite !lookup_alter_ne by done. eauto.
    + simplify_eq. by apply Hsame.
  - destruct (dispatcher s) eqn:Hpc; destruct a; simpl in H; rewrite ?Hpc in H; try done; unguard;
      repeat match type of H with context [match ?c with _ => _ end] => destruct c eqn:? end; try done;
      try (apply pop_high_Some in H as (?&?&?&->)); try (apply pop_low_Some in H as (?&?&?&->));
      simplify_eq; try (by apply Hsame); (eapply Halt; [reflexivity|]; simpl; auto).
  - destruct a; simpl in H; try done; unguard;
      try (destruct (jobs s !! j0) eqn:?; [|done]; destruct (given_up _));
      simplify_eq; try (by apply Hsame); (eapply Halt; [reflexivity|]; simpl; auto).
Qed.

(** ** What becomes of a request *)

(** A worker has it, or its [done] channel is closed. *)
Definition served (s : Scheduler) (j : nat) : Prop :=
  is_Some (workers s !! j) \/ exists x, jobs s !! j = Some x /\ done x = true.

Lemma done_later s t j :
  keeps s t -> (exists x, jobs s !! j = Some x /\ done x = true) -> served t j.
Proof. intros [HL _] (x&Hx&Hd). destruct (HL j x Hx) as (y&Hy&L). right. exists y. split; [done|by apply L]. Qed.

Lemma update_done s j x : jobs s !! j = Some x -> exists y, jobs (update j j_done s) !! j = Some y /\ done y = true.
Proof. intros Hx. simpl. rewrite lookup_alter_eq, Hx. by eexists. Qed.

(** A worker that gives its slot back has closed [done]. *)
Definition closed (s : Scheduler) : Prop :=
  forall j, workers s !! j = Some WRelease -> exists x, jobs s !! j = Some x /\ done x = true.

Lemma exec_closed a s t : Inv s -> closed s -> exec a s = Some t -> closed t.
Proof.
  intros HI HC H j Hw. destruct (exec_keeps _ _ _ H) as [HL _].
  assert (Hold : workers s !! j = Some WRelease -> exists x, jobs t !! j = Some x /\ done x = true).
  { intros (x&Hx&Hd)%HC. destruct (HL j x Hx) as (y&Hy&L). exists y. split; [done|by apply L]. }
  apply exec_cases in H as [H|[H|H]].
  - apply Hold. apply exec_submit_cost in H as (_&_&E&_). by rewrite <- E.
  - apply Hold. destruct (dispatcher s) eqn:Hpc; destruct a; simpl in H; rewrite ?Hpc in H; try done; unguard;
      repeat match type of H with context [match ?c with _ => _ end] => destruct c eqn:? end; try done;
      try (apply pop_high_Some in H as (?&?&E&->)); try (apply pop_low_Some in H as (?&?&E&->));
      simplify_eq/=; try done.
    by apply lookup_insert_Some in Hw as [[_ ?]|[_ ?]].
  - destruct a; simpl in H; try done; unguard.
    + destruct (jobs s !! j0) as [y|]; [|done].
      destruct (given_up y); simplify_eq/=; apply lookup_insert_Some in Hw as [[_ ?]|[_ ?]]; auto; done.
    + simplify_eq/=. apply lookup_insert_Some in Hw as [[_ ?]|[_ ?]]; auto; done.
    + simplify_eq/=. apply lookup_insert_Some in Hw as [[-> _]|[_ ?]]; [|by auto].
      match goal with Hc : workers _ !! _ = Some WClose |- _ =>
        destruct (worker_at _ _ _ HI Hc) as (x&Hx&_) end. by eapply update_done.
    + simplify_eq/=. apply lookup_delete_Some in Hw as [_ ?]. auto.
Qed.

Lemma exec_fate a s t j :
  Inv s -> closed s -> exec a s = Some t -> j ∈ waiting s \/ served s j -> j ∈ waiting t \/ served t j.
Proof.
  intros HI HC H Hf. pose proof (exec_keeps _ _ _ H) as HK.
  destruct Hf as [Hf|[Hw|Hd]]; [|destruct Hw as [pc Hw]|right; by eapply done_later].
  - destruct (i_known s HI j (or_introl Hf)) as [x Hx]. revert Hf. unfold waiting.
    apply exec_cases in H as [H|[H|H]].
    + apply exec_submit_cost in H as (_&->&_&H). intros Hf. left.
      destruct H as [[-> ->]|(k&y&_&_&_&[[-> ->]|[-> ->]])]; set_solver.
    + destruct (dispatcher s) eqn:Hpc; destruct a; simpl in H; rewrite ?Hpc in H; try done; unguard;
        repeat match type of H with context [match ?c with _ => _ end] => destruct c eqn:? end; try done;
        try (apply pop_high_Some in H as (?&?&E&->)); try (apply pop_low_Some in H as (?&?&E&->));
        simplify_eq/=; rewrite ?app_nil_r; try (rewrite E); try (by left);
        intros Hf; rewrite ?elem_of_app, ?elem_of_cons in Hf |- *.
      all: try (left; set_solver).
      all: try (left; rewrite E in *; simplify_eq/=; set_solver).
      all: match goal with
           | _ : dispatcher _ = DAcquire ?k |- _ => destruct (decide (j = k)) as [->|Hne]
           | _ : dispatcher _ = DCheck ?k |- _ => destruct (decide (j = k)) as [->|Hne]
           | _ : dispatcher _ = DClose ?k |- _ => destruct (decide (j = k)) as [->|Hne]
           end; [right|left; set_solver].
      all: first [left; simpl; rewrite lookup_insert_eq; by eexists|right; by eapply update_done].
    + apply exec_worker_cost in H as (_&->&->&->). auto.
  - apply exec_cases in H as [H|[H|H]].
    + right. left. apply exec_submit_cost in H as (_&_&->&_). by exists pc.
    + right. left. destruct (dispatcher s) eqn:Hpc; destruct a; simpl in H; rewrite ?Hpc in H; try done; unguard;
        repeat match type of H with context [match ?c with _ => _ end] => destruct c eqn:? end; try done;
        try (apply pop_high_Some in H as (?&?&E&->)); try (apply pop_low_Some in H as (?&?&E&->));
        simplify_eq/=; try (by exists pc).
      apply lookup_insert_is_Some'. right. by exists pc.
    + destruct a; simpl in H; try done; unguard.
      * destruct (jobs s !! j0) as [y|]; [|done]. right. left.
        destruct (given_up y); simplify_eq/=; apply lookup_insert_is_Some'; right; by exists pc.
      * simplify_eq. right. left. apply lookup_insert_is_Some'. right. by exists pc.
      * simplify_eq. right. left. apply lookup_insert_is_Some'. right. by exists pc.
      * simplify_eq. right. destruct (decide (j0 = j)) as [->|Hne].
        -- right. simpl. by apply HC.
        -- left. simpl. rewrite lookup_delete_ne by done. by exists pc.
Qed.

(** ** Runs *)
Lemma count_cons P a l : count P (a :: l) = Nat.b2n (P a) + count P l.
Proof. unfold count. rewrite filter_cons. by destruct (P a). Qed.

Lemma run_energy l : forall s t,
  Inv s -> run l s = Some t ->
  count internal l + energy t <= energy s + 12 * count is_enqueue l.
Proof.
  induction l as [|a l IH]; intros s t HI H; [by simplify_eq/=; lia|].
  simpl in H. destruct (exec a s) as [u|] eqn:E; [|done].
  pose proof (exec_energy _ _ _ HI E) as He. unfold spends in He.
  specialize (IH u t (sched_exec_Inv _ _ _ HI E) H). rewrite !count_cons.
  assert (internal a = true -> is_enqueue a = false) by by destruct a.
  destruct (internal a), (is_enqueue a); simpl in *; intuition lia.
Qed.

Lemma run_high l : forall s t j x,
  Inv s -> jobs s !! j = Some x -> submit x <> SQueue -> run l s = Some t ->
  j ∈ highPriorityChan t ->
  j ∈ highPriorityChan s /\ count internal l + energy_high j t <= energy_high j s.
Proof.
  induction l as [|a l IH]; intros s t j x HI Hx Hq H Hj; [by simplify_eq/=|].
  simpl in H. destruct (exec a s) as [u|] eqn:E; [|done].
  destruct (exec_sent _ _ _ _ _ E Hx Hq) as (y&Hy&Hqy).
  destruct (IH u t j y (sched_exec_Inv _ _ _ HI E) Hy Hqy H Hj) as [Hu Hc].
  destruct (exec_high_back _ _ _ _ _ HI E Hx Hq Hu) as (Hs&He&Hk). split; [done|].
  rewrite count_cons. unfold spends in He.
  assert (internal a = true -> is_enqueue a = false) by by destruct a.
  destruct (internal a), (is_enqueue a); simpl in *; intuition lia.
Qed.

Lemma run_fate l : forall s t j,
  Inv s -> closed s -> run l s = Some t -> j ∈ waiting s \/ served s j -> j ∈ waiting t \/ served t j.
Proof.
  induction l as [|a l IH]; intros s t j HI HC H Hf; [by simplify_eq/=|].
  simpl in H. destruct (exec a s) as [u|] eqn:E; [|done].
  eapply (IH u); eauto using sched_exec_Inv, exec_closed, exec_fate.
Qed.

Lemma reachable_closed m q s : reachable m q s -> closed s.
Proof.
  intros (s0&H0&Hs).
  assert (H : Inv s0 /\ closed s0).
  { split; [by eapply sched_New_Inv|]. unfold New in H0. repeat case_bool_decide; simplify_eq.
    intros j. simpl. by rewrite lookup_empty. }
  cut (Inv s /\ closed s); [tauto|]. revert H. induction Hs as [|t u _ IH [a Ha]]; [done|].
  intros [HI HC]%IH. eauto using sched_exec_Inv, exec_closed.
Qed.

Lemma waiting_sent s j :
  Inv s -> j ∈ waiting s -> exists x, jobs s !! j = Some x /\ submit x <> SQueue.
Proof.
  intros HI Hw. destruct (i_known s HI j (or_introl Hw)) as [x Hx]. exists x. split; [done|].
  intros HQ. by destruct (ji_queue _ _ _ (i_job s HI j x Hx) HQ).
Qed.

(** C13. Queued requests get their turn. Along every run of every goroutine, in any order
    and with any arrivals: the dispatcher and the workers take at most twelve steps per
    request that was queued at its start or arrived since, plus a constant, so they never
    spin; and as long as a high-priority request stays in its channel they take at most
    twelve steps per high-priority request in front of it, plus a constant, however many
    requests arrive. While any request waits and the scheduler is not stopped, one of them
    can step (a running job's next step is its return). And a request leaves
    the channels and the dispatcher's hand only to a worker or with its [done] channel
    closed. So where jobs return and goroutines that can run do, every high-priority request
    is served after a bounded number of steps, and every low-priority one once requests stop
    arriving. *)
Theorem sched_progress m q s l t :
  reachable m q s -> run l s = Some t ->
  count internal l <=
    12 * (length (highPriorityChan s) + length (lowPriorityChan s) + count is_enqueue l) + 12 + 4 * m /\
  (forall j, j ∈ highPriorityChan s -> j ∈ highPriorityChan t ->
     count internal l <= 12 * ahead j (highPriorityChan s) + 24 + 4 * m) /\
  (stop t = false -> waiting t <> [] ->
     exists a u, internal a = true /\ exec a t = Some u) /\
  (forall j, j ∈ waiting s -> j ∈ waiting t \/ served t j).
Proof.
  intros HR Hrun. pose proof (reachable_Inv _ _ _ HR) as HI.
  pose proof (goroutines_cost_bound _ _ _ HR) as Hg. split_and!.
  - pose proof (run_energy l s t HI Hrun) as He. unfold energy in He. lia.
  - intros j Hs Ht. destruct (waiting_sent s j HI) as (x&Hx&Hq); [unfold waiting; set_solver|].
    destruct (run_high l s t j x HI Hx Hq Hrun Ht) as [_ He]. unfold energy_high in He.
    destruct (at_polls (dispatcher s)); simpl in He; lia.
  - intros Hst Hw. assert (HT : reachable m q t).
    { destruct HR as (s0&H0&Hs). exists s0. split; [done|].
      eapply steps_trans; [done|by eapply run_steps]. }
    destruct (waiting_step m q t HT Hst Hw) as (a&u&[H|H]); exists a, u; unfold exec.
    + split; [by eapply exec_dispatch_internal|].
      assert (exec_submit a t = None) as -> by by destruct a. by rewrite H.
    + split; [by eapply exec_worker_internal|].
      assert (exec_submit a t = None /\ exec_dispatch a t = None) as [-> ->]; [|done].
      by destruct a.
  - intros j Hj. eapply run_fate; eauto using reachable_closed.
Qed.

Lemma sched_progress_witness :
  match after 1 2 (run_to_worker ++ [ASubmit 2 PriorityHigh; AEnqueue 2]) with
  | Some s =>
      match run [WorkReturn 1; WorkClose 1] s with
      | Some t => 2 ∈ highPriorityChan t /\
          2 <= 12 * ahead 2 (highPriorityChan s) + 24 + 4 /\
          (exists a u, internal a = true /\ exec a t = Some u)
      | None => False
      end
  | None => False
  end.
Proof.
  destruct (after 1 2 _) as [s|] eqn:E; [|vm_compute in E; discriminate].
  destruct (run _ s) as [t|] eqn:Et.
  - assert (Hs : 2 ∈ highPriorityChan s /\ 2 ∈ highPriorityChan t /\ stop t = false).
    { vm_compute in E. injection E as <-. vm_compute in Et. injection Et as <-.
      split_and!; [apply list_elem_of_here..|done]. }
    destruct Hs as (Hs&Ht&Hst).
    destruct (sched_progress 1 2 s _ t (after_reachable _ _ _ _ E) Et) as (_&Hh&Hstep&_).
    split_and!; [done|by apply Hh|]. apply Hstep; [done|].
    intros Hn. assert (Hin : 2 ∈ waiting t) by (unfold waiting; set_solver).
    rewrite Hn in Hin. by apply not_elem_of_nil in Hin.
  - vm_compute in E. injection E as <-. vm_compute in Et. discriminate.
Defined.
