(* ===== verification/Sse.v ===== *)
(** * Streams read line by line, and the lines of the proxy ([pkg/proxy/sse.go])

    [bufio.Reader.ReadBytes] of a newline cuts a stream into [read_lines]. [parseSSELine]
    adds the text of one line and its usage to what was read before; the prompt of a
    request body is the text of all its messages. *)

From Stdlib Require Import ZArith Lia Ascii.
From stdpp Require Import prelude gmap list strings.
From S2P Require Import Prelude GoInt GoText Json Types.

Local Open Scope Z_scope.

(** ** Lines *)

Definition nl : ascii := of_byte 0x0A.

(** The results of [ReadBytes] until the stream ends: every line with its newline, and
    what follows the last newline. *)
Fixpoint read_lines_from (acc l : list ascii) : list string :=
  match l with
  | [] => match acc with [] => [] | _ => [unchars (rev acc)] end
  | a :: l =>
      if bool_decide (a = nl) then unchars (rev (a :: acc)) :: read_lines_from [] l
      else read_lines_from (a :: acc) l
  end.

Definition read_lines (s : string) : list string := read_lines_from [] (chars s).

(** What a line carries: the text after [data:], or all of it; [None] for an empty line
    and for the end mark. *)
Definition sse_payload (line : string) : option string :=
  let trimmed := TrimSpace line in
  if trimmed =s "" then None
  else
    let payload := match cut_prefix "data:" trimmed with Some p => p | None => trimmed end in
    let payload := TrimSpace payload in
    if (payload =s "") || (payload =s "[DONE]") then None else Some payload.

(** ** Writers that may fail *)

(** The other end takes every write, or a number of them. A failed write delivers
    nothing here. *)
Inductive Client := ReadsAll | HangsUp (writes : nat).

Definition try_write (c : Client) : bool * Client :=
  match c with
  | ReadsAll => (true, ReadsAll)
  | HangsUp 0 => (false, HangsUp 0)
  | HangsUp (S n) => (true, HangsUp n)
  end.

(** ** The chunks the proxy reads *)

Record streamUsage := mkStreamUsage {
  PromptTokens : Z;
  CompletionTokens : Z;
  TotalTokens : Z
}.

Definition zeroStreamUsage : streamUsage := mkStreamUsage 0 0 0.

Definition dec_streamUsage : Decoder streamUsage :=
  dec_struct [
    ("prompt_tokens", fld PromptTokens
       (fun x u => mkStreamUsage x (CompletionTokens u) (TotalTokens u)) dec_int);
    ("completion_tokens", fld CompletionTokens
       (fun x u => mkStreamUsage (PromptTokens u) x (TotalTokens u)) dec_int);
    ("total_tokens", fld TotalTokens
       (fun x u => mkStreamUsage (PromptTokens u) (CompletionTokens u) x) dec_int)].

(** A struct whose only field is [content]. *)
Definition dec_content : Decoder string :=
  dec_struct [("content", fld (fun s => s) (fun x _ => x) dec_string)].

Record streamChoice := mkStreamChoice {
  deltaContent : string;
  choiceText : string;
  messageContent : string
}.

Definition zeroChoice : streamChoice := mkStreamChoice "" "" "".

Definition dec_choice : Decoder streamChoice :=
  dec_struct [
    ("delta", fld deltaContent
       (fun x c => mkStreamChoice x (choiceText c) (messageContent c)) dec_content);
    ("text", fld choiceText
       (fun x c => mkStreamChoice (deltaContent c) x (messageContent c)) dec_string);
    ("message", fld messageContent
       (fun x c => mkStreamChoice (deltaContent c) (choiceText c) x) dec_content)].

Record streamChunk := mkStreamChunk {
  Choices : list streamChoice;
  chunkMessage : string;
  chunkResponse : string;
  chunkUsage : streamUsage
}.

Definition zeroChunk : streamChunk := mkStreamChunk [] "" "" zeroStreamUsage.

Definition dec_streamChunk : Decoder streamChunk :=
  dec_struct [
    ("choices", fld Choices (fun x c =>
       mkStreamChunk x (chunkMessage c) (chunkResponse c) (chunkUsage c))
       (dec_list zeroChoice dec_choice));
    ("message", fld chunkMessage (fun x c =>
       mkStreamChunk (Choices c) x (chunkResponse c) (chunkUsage c)) dec_content);
    ("response", fld chunkResponse (fun x c =>
       mkStreamChunk (Choices c) (chunkMessage c) x (chunkUsage c)) dec_string);
    ("usage", fld chunkUsage (fun x c =>
       mkStreamChunk (Choices c) (chunkMessage c) (chunkResponse c) x) dec_streamUsage)].

Definition choice_text (c : streamChoice) : string :=
  deltaContent c +:+ choiceText c +:+ messageContent c.

(** [parseSSELine]: the text generated so far and the last usage. *)
Definition parseSSELine (line : string) (st : string * streamUsage) : string * streamUsage :=
  match (payload ← sse_payload line; j ← Unmarshal payload; dec_streamChunk j zeroChunk) with
  | None => st
  | Some chunk =>
      let '(generated, usage) := st in
      (foldl (fun g c => g +:+ choice_text c) generated (Choices chunk)
         +:+ chunkMessage chunk +:+ chunkResponse chunk,
       if (TotalTokens (chunkUsage chunk) >? 0) || (CompletionTokens (chunkUsage chunk) >? 0)
       then chunkUsage chunk else usage)
  end.

(** ** The prompt of a chat body *)

(** [contentToString] of a value decoded into [any]. *)
Definition contentToString (content : json) : string :=
  match content with
  | JStr v => v
  | JArr v => foldr (fun part acc => part_text part +:+ acc) "" v
  | _ => ""
  end.

(** A value decoded into an [any]. *)
Definition dec_any : Decoder json := fun j _ => if any_ok j then Some j else None.

Definition dec_promptMessage : Decoder json :=
  dec_struct [("content", fld (fun c => c) (fun x _ => x) dec_any)].

Definition dec_promptBody : Decoder (string * list json) :=
  dec_struct [
    ("prompt", fld fst (fun x r => (x, r.2)) dec_string);
    ("messages", fld snd (fun x r => (r.1, x)) (dec_list JNull dec_promptMessage))].

Definition promptFromChatBody (body : string) : string :=
  match (j ← Unmarshal body; dec_promptBody j ("", [])) with
  | None => ""
  | Some (prompt, messages) =>
      TrimSpace (prompt +:+ foldr (fun msg acc => contentToString msg +:+ newline +:+ acc) "" messages)
  end.
