(* ===== verification/OpenAICompat.v ===== *)
(** * The OpenAI wire format ([internal/provider/openaicompat/compat.go])

    Requests and answers of the chat-completions API, and the copy of its stream. What the
    outside does to a stream is in [Feed]: the bytes, the error that ends them, the
    writer, and when the request's context ends. What is written is the list of
    operations on the response writer. *)

From Stdlib Require Import ZArith Lia Ascii.
From stdpp Require Import prelude gmap list strings.
From S2P Require Import Prelude GoInt GoText GoErr GoTime Endpoint Json Types Http Sse.

Local Open Scope Z_scope.

(** ** The HTTP client

    A request as the adapters build it, an answer with its status, headers and body, and
    the error that ends the body ([None] is the end of the file). *)
Record HttpRequest := mkHttpRequest {
  reqURL : string;
  reqHeader : Header;
  reqBody : string
}.

Record HttpResponse := mkHttpResponse {
  respStatusCode : Z;
  respStatus : string;
  respHeader : Header;
  respBody : string;
  respBodyErr : option error
}.

(** [http.NewRequestWithContext] may refuse a URL; [Do] is the round trip. *)
Record HttpClient := mkHttpClient {
  newRequestErr : string -> option error;
  Do : HttpRequest -> HttpResponse + error
}.

(** [io.ReadAll] of an [io.LimitReader]. *)
Definition ReadAllLimit (limit : Z) (resp : HttpResponse) : string * option error :=
  if slen (respBody resp) >=? limit then (sprefix (Z.to_nat limit) (respBody resp), None)
  else (respBody resp, respBodyErr resp).

(** A failed call of an adapter. *)
Definition provider_error (code : Z) (msg : string) (retryAfter : Z) : error :=
  [EProvider (mkProviderError code msg retryAfter)].

Section Wire.
Context `{Float32}.

(** ** Requests *)
Record completionRequest := mkCompletionRequest {
  crModel : string;
  crMessages : list (list (string * json));
  crTemperature : float32;
  crMaxTokens : Z;
  crStream : bool
}.

(** A nil slice is [null]. *)
Definition json_messages (l : list (list (string * json))) : json :=
  match l with [] => JNull | _ => JArr (map obj l) end.

(** A field with [omitempty]. *)
Definition omitempty (empty : bool) (k : string) (v : json) : list (string * json) :=
  if empty then [] else [(k, v)].

Definition completionRequest_json (r : completionRequest) : json :=
  obj (omitempty (crModel r =s "") "model" (JStr (crModel r))
       ++ [("messages", json_messages (crMessages r))]
       ++ omitempty (f32_is_zero (crTemperature r)) "temperature" (JNum (f32_print (crTemperature r)))
       ++ omitempty (crMaxTokens r =? 0) "max_tokens" (JInt (crMaxTokens r))
       ++ omitempty (negb (crStream r)) "stream" (JBool (crStream r))).

(** A [map[string]string] with a role and a content. *)
Definition message_map (role content : string) : list (string * json) :=
  [("content", JStr content); ("role", JStr role)].

Definition MarshalRequest (model : string) (req : ChatRequest) (stream : bool) : string :=
  Marshal (completionRequest_json
    (mkCompletionRequest model
       ((fun m => message_map (Role m) (Types.Content m)) <$> Messages req)
       (Temperature req) (MaxTokens req) stream)).

(** ** Answers *)
Record completionChoice := mkCompletionChoice { ccMessage : string; ccText : string }.

Record completionResponse := mkCompletionResponse {
  cID : string;
  cChoices : list completionChoice;
  cUsage : Usage
}.

Definition dec_completionChoice : Decoder completionChoice :=
  dec_struct [
    ("message", fld ccMessage (fun x c => mkCompletionChoice x (ccText c)) dec_content);
    ("text", fld ccText (fun x c => mkCompletionChoice (ccMessage c) x) dec_string)].

Definition dec_completionResponse : Decoder completionResponse :=
  dec_struct [
    ("id", fld cID (fun x r => mkCompletionResponse x (cChoices r) (cUsage r)) dec_string);
    ("choices", fld cChoices (fun x r => mkCompletionResponse (cID r) x (cUsage r))
       (dec_list (mkCompletionChoice "" "") dec_completionChoice));
    ("usage", fld cUsage (fun x r => mkCompletionResponse (cID r) (cChoices r) x) dec_usage)].

(** [completionResponse.Content]. *)
Definition completion_content (r : completionResponse) : string :=
  foldr (fun c acc => ccMessage c +:+ ccText c +:+ acc) "" (cChoices r).

Definition ParseCompletion `{JsonError} (body : string) : (string * string * Usage) + error :=
  match (j ← Unmarshal body; dec_completionResponse j (mkCompletionResponse "" [] zeroUsage)) with
  | None => inr (errorsNew (json_error body))
  | Some parsed => inl (cID parsed, completion_content parsed, cUsage parsed)
  end.

(** ** Errors *)
Definition dec_errorMessage : Decoder string :=
  dec_struct [("message", fld (fun s => s) (fun x _ => x) dec_string)].
Definition dec_wrappedError : Decoder string :=
  dec_struct [("error", fld (fun s => s) (fun x _ => x) dec_errorMessage)].

(** The message of an error answer. *)
Definition error_message (resp : HttpResponse) (body : string) : string :=
  let msg := match (j ← Unmarshal body; dec_wrappedError j "") with
             | Some m => if negb (m =s "") then m else TrimSpace body
             | None => TrimSpace body
             end in
  if msg =s "" then respStatus resp else msg.

Definition HTTPError (resp : HttpResponse) (body : string) : error :=
  let ra := header_get "Retry-After" (respHeader resp) in
  let d := if negb (ra =s "") then default 0 (ParseDuration (ra +:+ "s")) else 0 in
  provider_error (respStatusCode resp) (error_message resp body) d.

(** ** Streams *)
Record streamChunk := mkStreamChunk { Choices : list streamChoice; chunkUsage : Usage }.

Definition dec_streamChunk : Decoder streamChunk :=
  dec_struct [
    ("choices", fld Choices (fun x c => mkStreamChunk x (chunkUsage c))
       (dec_list zeroChoice dec_choice));
    ("usage", fld chunkUsage (fun x c => mkStreamChunk (Choices c) x) dec_usage)].

Definition ParseSSELine (line : string) (st : string * Usage) : string * Usage :=
  match (payload ← sse_payload line; j ← Unmarshal payload;
         dec_streamChunk j (mkStreamChunk [] zeroUsage)) with
  | None => st
  | Some chunk =>
      let '(generated, usage) := st in
      (foldl (fun g c => g +:+ choice_text c) generated (Choices chunk),
       if (Types.TotalTokens (chunkUsage chunk) >? 0)
          || (Types.CompletionTokens (chunkUsage chunk) >? 0)
       then chunkUsage chunk else usage)
  end.

Definition UsageOrEstimate (usage : Usage) (generated : string) : Usage :=
  if Types.TotalTokens usage >? 0 then usage
  else
    let completion :=
      if (Types.CompletionTokens usage =? 0) && negb (generated =s "")
      then Z.quot (slen generated + 3) 4 else Types.CompletionTokens usage in
    mkUsage (Types.PromptTokens usage) completion (wrap64 (Types.PromptTokens usage + completion)).

(** What the outside does to one stream: the answer's bytes and the error that ends
    them, the client, the type its header holds, and after how many full lines
    the context is over. *)
Record Feed := mkFeed {
  src : string;
  srcErr : option error;
  client : Client;
  contentType : string;
  ctxEnds : option nat
}.

(** Is the context over when a line has been handled? *)
Definition tick (ctx : option nat) : bool * option nat :=
  match ctx with
  | None => (false, None)
  | Some n => (bool_decide (n <= 1)%nat, Some (pred n))
  end.

Definition full_line (line : string) : bool := HasSuffix line newline.

(** The loop of [CopyStream]: what it wrote, the text and usage, and whether it ended with
    the stream. *)
Fixpoint copyLoop (dst : Client) (ctx : option nat) (lines : list string)
    (st : list WriterOp * (string * Usage)) : list WriterOp * (string * Usage) * bool :=
  match lines with
  | [] => (st, true)
  | line :: lines =>
      let '(ops, acc) := st in
      let '(ok, dst) := try_write dst in
      let ops := if ok : bool then ops ++ [OpWrite line; OpFlush] else ops in
      let acc := ParseSSELine line acc in
      if full_line line then
        let '(over, ctx) := tick ctx in
        if over : bool then ((ops, acc), false) else copyLoop dst ctx lines (ops, acc)
      else copyLoop dst ctx lines (ops, acc)
  end.

Definition read_stream_error (err : error) : error :=
  provider_error 0 ("read stream: " +:+ error_text err) 0.

Definition CopyStream (f : Feed) : list WriterOp * option Usage * option error :=
  let head := [OpSetHeader "Cache-Control" "no-cache"]
              ++ (if contentType f =s "" then [OpSetHeader "Content-Type" "text/event-stream"] else [])
              ++ [OpWriteHeader 200] in
  let '(ops, (generated, usage), ended) :=
    copyLoop (client f) (ctxEnds f) (read_lines (src f)) ([], ("", zeroUsage)) in
  (head ++ ops, Some (UsageOrEstimate usage generated),
   if ended : bool then read_stream_error <$> srcErr f else None).

(** ** The events the gateway writes itself *)
Definition sse_data (payload : string) : list string := ["data: "; payload; newline +:+ newline].

Definition delta_json (text : string) : json :=
  obj [("choices", JArr [obj [("delta", obj [("content", JStr text)])]])].

Definition usage_event_json (u : Usage) : json :=
  obj [("usage", obj [("prompt_tokens", JInt (Types.PromptTokens u));
                      ("completion_tokens", JInt (Types.CompletionTokens u));
                      ("total_tokens", JInt (Types.TotalTokens u))])].

(** Write until the first failure: the operations, whether all went well, the writer. *)
Fixpoint write_all (ps : list string) (c : Client) : list WriterOp * bool * Client :=
  match ps with
  | [] => ([], true, c)
  | p :: ps =>
      match try_write c with
      | (true, c) => let '(ops, ok, c) := write_all ps c in (OpWrite p :: ops, ok, c)
      | (false, c) => ([], false, c)
      end
  end.

Definition WriteOpenAIDelta (text : string) (c : Client) : list WriterOp * bool * Client :=
  if text =s "" then ([], true, c) else write_all (sse_data (Marshal (delta_json text))) c.

Definition WriteOpenAIUsage (usage : Usage) (c : Client) : list WriterOp * bool * Client :=
  write_all (sse_data (Marshal (usage_event_json usage))) c.

Definition WriteOpenAIDone (c : Client) : list WriterOp * bool * Client :=
  write_all ["data: [DONE]" +:+ newline +:+ newline] c.
End Wire.
