(* ===== verification/SseSpec.v ===== *)
(** * Lines and events: how a stream reads back

    Cutting a stream into lines loses nothing, an event the gateway writes is two
    lines, and its payload comes back as the object that was encoded. *)

From Stdlib Require Import ZArith Lia Ascii.
From stdpp Require Import prelude gmap list strings.
From S2P Require Import Prelude GoInt GoText GoErr Json JsonSpec Types Http Sse OpenAICompat.

Local Open Scope Z_scope.

(** ** Lines *)

Lemma chars_app s t : chars (s +:+ t) = chars s ++ chars t.
Proof. unfold chars. sapp_induct s. Qed.

Lemma unchars_app l k : unchars (l ++ k) = unchars l +:+ unchars k.
Proof. rewrite <- (chars_unchars l) at 1. rewrite <- (chars_unchars k) at 1.
  rewrite <- chars_app. apply unchars_chars.
Qed.

Definition concat_s (l : list string) : string := foldr String.append "" l.

Lemma concat_s_app l k : concat_s (l ++ k) = concat_s l +:+ concat_s k.
Proof. induction l as [|x l IH]; simpl; [done|]. by rewrite IH, app_assoc_s. Qed.

Lemma read_lines_from_concat l : forall acc,
  concat_s (read_lines_from acc l) = unchars (rev acc ++ l).
Proof.
  induction l as [|a l IH]; intros acc; simpl.
  - rewrite app_nil_r. destruct acc as [|b acc]; [done|]. simpl. by rewrite app_empty_r.
  - case_bool_decide.
    + simpl. rewrite IH. simpl. rewrite <- unchars_app, <- app_assoc. done.
    + rewrite IH. simpl. by rewrite <- app_assoc.
Qed.

(** Nothing is lost. *)
Lemma read_lines_concat s : concat_s (read_lines s) = s.
Proof. unfold read_lines. rewrite read_lines_from_concat. apply unchars_chars. Qed.

Lemma read_lines_from_line l k : forall acc, nl ∉ l ->
  read_lines_from acc (l ++ nl :: k) = unchars (rev acc ++ l ++ [nl]) :: read_lines_from [] k.
Proof.
  induction l as [|a l IH]; intros acc Hl; simpl.
  - done.
  - rewrite bool_decide_eq_false_2 by set_solver. rewrite IH by set_solver. simpl.
    by rewrite <- app_assoc.
Qed.

Lemma read_lines_line l k : nl ∉ l ->
  read_lines (unchars (l ++ nl :: k)) = unchars (l ++ [nl]) :: read_lines (unchars k).
Proof. intros Hl. unfold read_lines. rewrite !chars_unchars. by rewrite read_lines_from_line. Qed.

(** ** White space around a text *)
Definition solid (a : ascii) : Prop := byte_of a < 0x80 /\ ascii_space (byte_of a) = false.
Definition Solid (l : list ascii) : Prop :=
  (exists a m, l = a :: m /\ solid a) /\ (exists m a, l = m ++ [a] /\ solid a).

Lemma trim_left_solid a l : solid a -> trim_left (a :: l) = a :: l.
Proof.
  intros [Ha Hs]. simpl. rewrite Hs. destruct l as [|b l]; [done|].
  unfold space2. rewrite (proj2 (Z.eqb_neq _ _)) by lia. simpl.
  destruct l as [|c l]; [done|].
  unfold space3. rewrite !(proj2 (Z.eqb_neq (byte_of a) _)) by lia. done.
Qed.

Lemma trim_left_rev_solid a l : solid a -> trim_left_rev (a :: l) = a :: l.
Proof.
  intros [Ha Hs]. simpl. rewrite Hs. destruct l as [|b l]; [done|].
  unfold space2. rewrite !(proj2 (Z.eqb_neq (byte_of a) _)) by lia. rewrite andb_false_r.
  destruct l as [|c l]; [done|].
  unfold space3, between. rewrite !(proj2 (Z.eqb_neq (byte_of a) _)) by lia.
  rewrite (proj2 (Z.leb_gt 0x80 (byte_of a))) by lia. simpl. by rewrite !andb_false_r.
Qed.

Definition spaces (l : list ascii) : Prop := Forall (fun a => ascii_space (byte_of a) = true) l.

Lemma trim_left_spaces w l : spaces w -> trim_left (w ++ l) = trim_left l.
Proof. induction 1 as [|a w Ha _ IH]; [done|]. simpl. by rewrite Ha. Qed.
Lemma trim_left_rev_spaces w l : spaces w -> trim_left_rev (w ++ l) = trim_left_rev l.
Proof. induction 1 as [|a w Ha _ IH]; [done|]. simpl. by rewrite Ha. Qed.

Lemma TrimSpace_Solid w1 w2 l : spaces w1 -> spaces w2 -> Solid l ->
  TrimSpace (unchars (w1 ++ l ++ w2)) = unchars l.
Proof.
  intros H1 H2 [(a & m & Hm & Ha) (m' & a' & Hm' & Ha')]. unfold TrimSpace.
  rewrite chars_unchars, trim_left_spaces by done.
  assert (E : trim_left (l ++ w2) = l ++ w2) by (rewrite Hm; by apply trim_left_solid).
  rewrite E, rev_app_distr, trim_left_rev_spaces by by apply Forall_rev.
  assert (E' : trim_left_rev (rev l) = rev l).
  { rewrite Hm', rev_app_distr. simpl. by apply trim_left_rev_solid. }
  by rewrite E', rev_involutive.
Qed.

(** ** Events *)

(** An event on the wire. *)
Definition sse_event (payload : string) : string := concat_s (sse_data payload).

Lemma sse_event_lines payload k :
  nl ∉ chars payload ->
  read_lines (sse_event payload +:+ k) =
    (unchars (chars "data: " ++ chars payload ++ [nl])) :: newline :: read_lines k.
Proof.
  intros Hp.
  assert (E : sse_event payload +:+ k =
    unchars ((chars "data: " ++ chars payload) ++ nl :: [] ++ nl :: chars k)).
  { rewrite <- (unchars_chars (sse_event payload +:+ k)). f_equal.
    unfold sse_event. simpl. rewrite !chars_app. simpl. by rewrite <- app_assoc. }
  rewrite E, read_lines_line.
  - rewrite read_lines_line by set_solver. rewrite unchars_chars, <- app_assoc. done.
  - assert (nl ∉ chars "data: ") by (vm_compute; set_solver). set_solver.
Qed.

Lemma sse_payload_event payload :
  Solid (chars payload) -> payload <> "[DONE]" ->
  sse_payload (unchars (chars "data: " ++ chars payload ++ [nl])) = Some payload.
Proof.
  intros HS Hd. unfold sse_payload.
  assert (HS' : Solid (chars "data: " ++ chars payload)).
  { destruct HS as [_ (m & a & Hm & Ha)]. split.
    - exists "d"%char, (chars "ata: " ++ chars payload). split; [done|by split].
    - exists (chars "data: " ++ m), a. rewrite Hm. by rewrite app_assoc. }
  assert (Hsp : spaces [nl]) by by repeat constructor.
  pose proof (TrimSpace_Solid [] [nl] _ ltac:(constructor) Hsp HS') as E.
  rewrite app_nil_l, <- app_assoc in E. rewrite E.
  rewrite unchars_app, !unchars_chars.
  rewrite (proj2 (str_eqb_neq _ _)) by done.
  change ("data: " +:+ payload) with ("data:" +:+ (" " +:+ payload)).
  rewrite cut_prefix_app.
  assert (Hsp' : spaces [" "%char]) by by repeat constructor.
  pose proof (TrimSpace_Solid [" "%char] [] _ Hsp' ltac:(constructor) HS) as E'.
  rewrite app_nil_r in E'. change (" " +:+ payload) with (String " " payload).
  assert (E2 : String " " payload = unchars ([" "%char] ++ chars payload)).
  { simpl. by rewrite unchars_chars. }
  rewrite E2, E', unchars_chars.
  assert (payload <> "").
  { intros ->. destruct HS as [(a & m & Hm & _) _]. done. }
  by rewrite !(proj2 (str_eqb_neq _ _)).
Qed.

Lemma sse_payload_newline : sse_payload newline = None.
Proof. done. Qed.

Lemma sse_done_lines : read_lines ("data: [DONE]" +:+ newline +:+ newline) =
  ["data: [DONE]" +:+ newline; newline].
Proof. vm_compute. done. Qed.

(** ** Encoded values hold no newline *)
Lemma escape_ascii_nl a : nl ∉ escape_ascii a.
Proof.
  destruct a as [[] [] [] [] [] [] [] []]; vm_compute; set_solver.
Qed.

Lemma escape_fuel_nl n l : ascii_only l -> nl ∉ escape_fuel n l.
Proof.
  intros Hl. revert n. induction Hl as [|a l Ha Hl IH]; intros [|n]; try set_solver.
  rewrite escape_fuel_cons by done. pose proof (escape_ascii_nl a). set_solver.
Qed.

Lemma marshal_string_nl s : ascii_only (chars s) -> nl ∉ marshal_string s.
Proof.
  intros Hs. unfold marshal_string. pose proof (escape_fuel_nl (String.length s) _ Hs).
  assert (nl <> quo) by done. set_solver.
Qed.

Lemma digit_nl l : Forall (fun a => is_digit a = true) l -> nl ∉ l.
Proof. intros HF Hin. rewrite Forall_forall in HF. by specialize (HF _ Hin). Qed.

Lemma int_string_nl z : nl ∉ chars (int_string z).
Proof.
  unfold int_string. destruct (z <? 0) eqn:E; breflect.
  - rewrite chars_app. destruct (nat_string_spec (- z)) as (d & ds & -> & HF & _); [lia|].
    apply digit_nl in HF. assert (nl ∉ chars "-") by (vm_compute; set_solver). set_solver.
  - destruct (nat_string_spec z) as (d & ds & -> & HF & _); [lia|]. by apply digit_nl.
Qed.

Lemma digits_ascii l : Forall (fun a => is_digit a = true) l -> ascii_only l.
Proof.
  intros HF. eapply Forall_impl; [exact HF|]. intros a. unfold is_digit, between.
  intros Hd. breflect. lia.
Qed.

Lemma int_string_ascii z : ascii_only (chars (int_string z)).
Proof.
  unfold int_string. destruct (z <? 0) eqn:E; breflect.
  - destruct (nat_string_spec (- z)) as (d & ds & Hc & HF & _); [lia|].
    change (ascii_only ("-"%char :: chars (nat_string (- z)))). rewrite Hc.
    constructor; [done|by apply digits_ascii].
  - destruct (nat_string_spec z) as (d & ds & -> & HF & _); [lia|]. by apply digits_ascii.
Qed.

(** An object starts and ends with a brace. *)
Lemma Marshal_obj_Solid l : Solid (chars (Marshal (JObj l))).
Proof.
  unfold Marshal. rewrite chars_unchars. cbn [marshal]. split.
  - eexists "{"%char, _. split; [done|by split].
  - eexists ("{"%char :: _), "}"%char. split; [by rewrite <- app_comm_cons|by split].
Qed.

Lemma Marshal_obj_not_done l : Marshal (JObj l) <> "[DONE]".
Proof. unfold Marshal. cbn [marshal]. done. Qed.

Ltac ascii_const := by (repeat constructor).

Ltac newline_free :=
  repeat first [ apply int_string_nl
               | apply marshal_string_nl; first [assumption|ascii_const]
               | apply not_elem_of_app; split
               | apply not_elem_of_cons; split; [by vm_compute|]
               | apply not_elem_of_nil ].

Lemma delta_json_nl text : ascii_only (chars text) -> nl ∉ chars (Marshal (delta_json text)).
Proof.
  intros Ht. unfold Marshal. rewrite chars_unchars.
  cbn [marshal delta_json obj map commas fst snd]. newline_free.
Qed.

Lemma usage_event_nl u : nl ∉ chars (Marshal (usage_event_json u)).
Proof.
  unfold Marshal. rewrite chars_unchars.
  cbn [marshal usage_event_json obj map commas fst snd JInt]. newline_free.
Qed.

Lemma delta_json_canonical text : ascii_only (chars text) -> canonical 0 (delta_json text).
Proof.
  intros Ht. cbn [canonical delta_json obj map foldr fst snd].
  repeat split; try ascii_const; try done; try (by vm_compute).
Qed.

Definition usage_in_range (u : Usage) : Prop :=
  in_int64 (Types.PromptTokens u) /\ in_int64 (Types.CompletionTokens u) /\
  in_int64 (Types.TotalTokens u).

Lemma usage_event_canonical u : usage_in_range u -> canonical 0 (usage_event_json u).
Proof.
  intros (H1 & H2 & H3). cbn [canonical usage_event_json obj map foldr fst snd].
  repeat split; try ascii_const; try (by vm_compute).
  all: by refine (proj1 (JInt_roundtrip _ 0 _)).
Qed.

(** ** Decoding them *)
Lemma dec_delta text :
  dec_streamChunk (delta_json text) (mkStreamChunk [] zeroUsage) =
    Some (mkStreamChunk [mkStreamChoice text "" ""] zeroUsage).
Proof. vm_compute. done. Qed.

Lemma dec_usage_fields ja jb jc a b c z :
  (forall x, dec_int ja x = Some a) -> (forall x, dec_int jb x = Some b) ->
  (forall x, dec_int jc x = Some c) ->
  dec_usage (obj [("prompt_tokens", ja); ("completion_tokens", jb); ("total_tokens", jc)]) z =
    Some (mkUsage a b c).
Proof. intros Ha Hb Hc. lazy -[dec_int Marshal]. by rewrite Ha, Hb, Hc. Qed.

Lemma dec_usage_member j u x :
  dec_usage j x = Some u ->
  dec_streamChunk (obj [("usage", j)]) (mkStreamChunk [] x) = Some (mkStreamChunk [] u).
Proof. intros H. lazy -[dec_usage Marshal]. by rewrite H. Qed.

Lemma dec_usage_event u :
  usage_in_range u ->
  dec_streamChunk (usage_event_json u) (mkStreamChunk [] zeroUsage) = Some (mkStreamChunk [] u).
Proof.
  intros (H1 & H2 & H3). apply dec_usage_member. destruct u.
  apply dec_usage_fields; intros x; by apply JInt_roundtrip.
Qed.

(** ** Reading events back *)
Definition read_all (s : string) (st : string * Usage) : string * Usage :=
  foldl (fun st line => ParseSSELine line st) st (read_lines s).

Lemma read_event j l k st :
  j = JObj l -> nl ∉ chars (Marshal j) -> canonical 0 j ->
  read_all (sse_event (Marshal j) +:+ k) st =
    read_all k (match dec_streamChunk j (mkStreamChunk [] zeroUsage) with
                | None => st
                | Some chunk =>
                    (foldl (fun g c => g +:+ choice_text c) st.1 (Choices chunk),
                     if (Types.TotalTokens (chunkUsage chunk) >? 0)
                        || (Types.CompletionTokens (chunkUsage chunk) >? 0)
                     then chunkUsage chunk else st.2)
                end).
Proof.
  intros -> Hn Hc. unfold read_all. rewrite sse_event_lines by done. cbn [foldl].
  unfold ParseSSELine at 2 3. rewrite sse_payload_newline. cbn [mbind option_bind].
  rewrite sse_payload_event by (apply Marshal_obj_Solid || apply Marshal_obj_not_done).
  cbn [mbind option_bind]. unfold Marshal at 1. rewrite Unmarshal_marshal by done.
  cbn [mbind option_bind]. by destruct st.
Qed.

Lemma read_delta text k st : ascii_only (chars text) ->
  read_all (sse_event (Marshal (delta_json text)) +:+ k) st = read_all k (st.1 +:+ text, st.2).
Proof.
  intros Ht. erewrite read_event;
    [|reflexivity|by apply delta_json_nl|by apply delta_json_canonical].
  rewrite dec_delta. cbn -[read_all].
  unfold choice_text. cbn [deltaContent choiceText messageContent].
  by rewrite !app_empty_r.
Qed.

Lemma read_usage u k st : usage_in_range u ->
  read_all (sse_event (Marshal (usage_event_json u)) +:+ k) st =
    read_all k (st.1, if (Types.TotalTokens u >? 0) || (Types.CompletionTokens u >? 0) then u else st.2).
Proof.
  intros Hu. erewrite read_event;
    [|reflexivity|apply usage_event_nl|by apply usage_event_canonical].
  by rewrite dec_usage_event.
Qed.

Lemma read_done st : read_all ("data: [DONE]" +:+ newline +:+ newline) st = st.
Proof. unfold read_all. rewrite sse_done_lines. by destruct st. Qed.

(** A run of text events. *)
Lemma read_deltas texts : forall k st, Forall (fun t => ascii_only (chars t)) texts ->
  read_all (concat_s ((fun t => sse_event (Marshal (delta_json t))) <$> texts) +:+ k) st =
    read_all k (st.1 +:+ concat_s texts, st.2).
Proof.
  induction texts as [|t texts IH]; intros k st HF; simpl.
  - rewrite app_empty_r. by destruct st.
  - apply Forall_cons in HF as [Ht HF]. rewrite app_assoc_s, read_delta by done.
    rewrite IH by done. simpl. by rewrite app_assoc_s.
Qed.
