(* ===== verification/OpenAI.v ===== *)
(** * The OpenAI and Azure adapters ([internal/provider/openai/adapter.go] and
    [internal/provider/azure/adapter.go])

    An adapter is its settings; the HTTP client it holds, configured by the endpoint's
    timeout, is an argument of its calls. *)

From Stdlib Require Import ZArith Lia Ascii.
From stdpp Require Import prelude gmap list strings.
From S2P Require Import Prelude GoInt GoText GoErr Endpoint Provider Json Types Http Sse OpenAICompat.

Local Open Scope Z_scope.

(** [url.Parse(s)], [Query], [Set] of one key and [String]; [None] if the URL does not
    parse. *)
Class UrlQuery := url_with_query : string -> string -> string -> option string.

Section Adapters.
Context `{Float32} `{JsonError} `{UrlQuery}.

(** What a stream's answer meets on its way: [Feed] without the answer's own part. *)
Record Path := mkPath { pClient : Client; pContentType : string; pCtxEnds : option nat }.

Definition feed (resp : HttpResponse) (ct : string) (path : Path) : Feed :=
  mkFeed (respBody resp) (respBodyErr resp) (pClient path) ct (pCtxEnds path).

(** The part of [Chat] and of [ChatStream] the two adapters share, given what [do]
    answered. *)
Definition chatAnswer (req : ChatRequest) (answer : HttpResponse + error) : ChatResponse + error :=
  match answer with
  | inr err => inr err
  | inl resp =>
    match ReadAllLimit (8 * 2 ^ 20) resp with
    | (_, Some err) => inr (provider_error 0 ("read provider response: " +:+ error_text err) 0)
    | (body, None) =>
      if respStatusCode resp >=? 400 then inr (HTTPError resp body)
      else
        match ParseCompletion body with
        | inr err => inr (provider_error 0 ("decode provider response: " +:+ error_text err) 0)
        | inl (id, content, usage) => inl (mkChatResponse id (Types.Model req) content usage)
        end
    end
  end.

Definition streamAnswer (answer : HttpResponse + error) (path : Path)
    : list WriterOp * option Usage * option error :=
  match answer with
  | inr err => ([], None, Some err)
  | inl resp =>
    if respStatusCode resp >=? 400 then
      ([], None, Some (HTTPError resp (ReadAllLimit (2 ^ 20) resp).1))
    else
      let ct := header_get "Content-Type" (respHeader resp) in
      let set := if negb (ct =s "") then [OpSetHeader "Content-Type" ct] else [] in
      let ct' := if negb (ct =s "") then ct else pContentType path in
      let '(ops, usage, err) := CopyStream (feed resp ct' path) in
      (set ++ ops, usage, err)
  end.

(** Build the request, unless its URL is refused, and send it. Both errors become a
    [provider.Error] that only keeps their text. *)
Definition send (client : HttpClient) (r : HttpRequest) : HttpResponse + error :=
  match newRequestErr client (reqURL r) with
  | Some err => inr (provider_error 0 (error_text err) 0)
  | None =>
    match Do client r with
    | inr err => inr (provider_error 0 (error_text err) 0)
    | inl resp => inl resp
    end
  end.

(** ** OpenAI *)
Record OpenAIAdapter := mkOpenAI {
  oBaseURL : string;
  oAPIKey : string;
  oModelName : string;
  oClient : Transport
}.

Definition OpenAI_New (ep : Endpoint) : OpenAIAdapter :=
  mkOpenAI (TrimRight1 "/"%char (BaseURL ep)) (APIKey ep) (ModelName ep) (NewHTTPClient (Timeout ep)).

Definition OpenAI_upstreamModel (a : OpenAIAdapter) (requested : string) : string :=
  if negb (oModelName a =s "") then oModelName a else requested.

Definition OpenAI_request (a : OpenAIAdapter) (req : ChatRequest) (stream : bool) : HttpRequest :=
  let h := header_set "Content-Type" "application/json" ∅ in
  let h := if negb (oAPIKey a =s "") then header_set "Authorization" ("Bearer " +:+ oAPIKey a) h
           else h in
  mkHttpRequest (oBaseURL a +:+ "/chat/completions") h
    (MarshalRequest (OpenAI_upstreamModel a (Types.Model req)) req stream).

Definition OpenAI_do (a : OpenAIAdapter) (client : HttpClient) (req : ChatRequest) (stream : bool)
    : HttpResponse + error := send client (OpenAI_request a req stream).

Definition OpenAI_Chat (a : OpenAIAdapter) (client : HttpClient) (req : ChatRequest)
    : ChatResponse + error := chatAnswer req (OpenAI_do a client req false).

Definition OpenAI_ChatStream (a : OpenAIAdapter) (client : HttpClient) (path : Path)
    (req : ChatRequest) : list WriterOp * option Usage * option error :=
  streamAnswer (OpenAI_do a client req true) path.

(** ** Azure *)
Record AzureAdapter := mkAzure {
  zBaseURL : string;
  zAPIKey : string;
  zDeployment : string;
  zAPIVersion : string;
  zClient : Transport
}.

Definition Azure_New (ep : Endpoint) : AzureAdapter :=
  mkAzure (TrimRight1 "/"%char (BaseURL ep)) (APIKey ep) (ModelName ep) (AzureAPIVersion ep)
    (NewHTTPClient (Timeout ep)).

(** [url.PathEscape]: the bytes a path segment keeps as they are. *)
Definition path_safe (z : Z) : bool :=
  between 0x61 0x7A z || between 0x41 0x5A z || between 0x30 0x39 z
  || bool_decide (of_byte z ∈ chars "-_.~$&+=:@").

Definition hex_upper (z : Z) : ascii := if z <? 10 then of_byte (0x30 + z) else of_byte (0x37 + z).

Definition escape_byte (a : ascii) : list ascii :=
  let z := byte_of a in
  if path_safe z then [a] else ["%"%char; hex_upper (z / 16); hex_upper (z mod 16)].

Definition PathEscape (s : string) : string := unchars (mjoin (escape_byte <$> chars s)).

Definition Azure_chatURL (a : AzureAdapter) (requested : string) : string :=
  let deploy := if zDeployment a =s "" then requested else zDeployment a in
  let root := if negb (Contains (zBaseURL a) "/openai") then zBaseURL a +:+ "/openai"
              else zBaseURL a in
  match url_with_query (root +:+ "/deployments/" +:+ PathEscape deploy +:+ "/chat/completions")
          "api-version" (zAPIVersion a) with
  | None =>
      root +:+ "/deployments/" +:+ deploy +:+ "/chat/completions?api-version=" +:+ zAPIVersion a
  | Some u => u
  end.

Definition Azure_request (a : AzureAdapter) (req : ChatRequest) (stream : bool) : HttpRequest :=
  let h := header_set "Content-Type" "application/json" ∅ in
  let h := if negb (zAPIKey a =s "") then header_set "api-key" (zAPIKey a) h else h in
  mkHttpRequest (Azure_chatURL a (Types.Model req)) h (MarshalRequest "" req stream).

Definition Azure_do (a : AzureAdapter) (client : HttpClient) (req : ChatRequest) (stream : bool)
    : HttpResponse + error := send client (Azure_request a req stream).

Definition Azure_Chat (a : AzureAdapter) (client : HttpClient) (req : ChatRequest)
    : ChatResponse + error := chatAnswer req (Azure_do a client req false).

Definition Azure_ChatStream (a : AzureAdapter) (client : HttpClient) (path : Path)
    (req : ChatRequest) : list WriterOp * option Usage * option error :=
  streamAnswer (Azure_do a client req true) path.
End Adapters.
