(* ===== verification/Claude.v ===== *)
(** * The Anthropic adapter ([internal/provider/claude/adapter.go])

    Chat requests become Anthropic messages, and the events of its stream are rewritten
    to OpenAI ones. *)

From Stdlib Require Import ZArith Lia Ascii.
From stdpp Require Import prelude gmap list strings.
From S2P Require Import Prelude GoInt GoText GoErr Endpoint Provider Json Types Http Sse OpenAICompat OpenAI.

Local Open Scope Z_scope.

Record ClaudeAdapter := mkClaude {
  kBaseURL : string;
  kAPIKey : string;
  kModelName : string;
  kVersion : string;
  kClient : Transport
}.

Definition Claude_New (ep : Endpoint) : ClaudeAdapter :=
  let base := TrimRight1 "/"%char (BaseURL ep) in
  let base := if negb (HasSuffix base "/v1") then base +:+ "/v1" else base in
  mkClaude base (APIKey ep) (ModelName ep) (AnthropicVersion ep) (NewHTTPClient (Timeout ep)).

Definition Claude_upstreamModel (a : ClaudeAdapter) (requested : string) : string :=
  if negb (kModelName a =s "") then kModelName a else requested.

Section Claude.
Context `{Float32} `{JsonError}.

(** ** Requests *)
Record messageRequest := mkMessageRequest {
  mrModel : string;
  mrMaxTokens : Z;
  mrSystem : string;
  mrMessages : list (list (string * json));
  mrTemperature : float32;
  mrStream : bool
}.

Definition messageRequest_json (r : messageRequest) : json :=
  obj ([("model", JStr (mrModel r)); ("max_tokens", JInt (mrMaxTokens r))]
       ++ omitempty (mrSystem r =s "") "system" (JStr (mrSystem r))
       ++ [("messages", json_messages (mrMessages r))]
       ++ omitempty (f32_is_zero (mrTemperature r)) "temperature" (JNum (f32_print (mrTemperature r)))
       ++ omitempty (negb (mrStream r)) "stream" (JBool (mrStream r))).

(** Lines 186-202: the system texts and the other messages, in order. *)
Fixpoint splitMessages (l : list Message) : list string * list (list (string * json)) :=
  match l with
  | [] => ([], [])
  | msg :: l =>
      let '(system, messages) := splitMessages l in
      if EqualFold_ascii (Role msg) "system" then
        (if negb (Types.Content msg =s "") then Types.Content msg :: system else system, messages)
      else
        let role := if negb (EqualFold_ascii (Role msg) "assistant") then "user" else Role msg in
        (system, message_map role (Types.Content msg) :: messages)
  end.

Definition marshalMessage (model : string) (req : ChatRequest) (stream : bool) : string + error :=
  let maxTokens := if MaxTokens req <? 1 then 1024 else MaxTokens req in
  let '(system, messages) := splitMessages (Messages req) in
  match messages with
  | [] => inr (provider_error 0 "claude requires at least one non-system message" 0)
  | _ =>
      inl (Marshal (messageRequest_json
        (mkMessageRequest model maxTokens (Join system (newline +:+ newline)) messages
           (Temperature req) stream)))
  end.

Definition Claude_request (a : ClaudeAdapter) (payload : string) : HttpRequest :=
  let h := header_set "Content-Type" "application/json" ∅ in
  let h := if negb (kAPIKey a =s "") then header_set "x-api-key" (kAPIKey a) h else h in
  let h := header_set "anthropic-version" (kVersion a) h in
  mkHttpRequest (kBaseURL a +:+ "/messages") h payload.

Definition Claude_do (a : ClaudeAdapter) (client : HttpClient) (req : ChatRequest) (stream : bool)
    : HttpResponse + error :=
  match marshalMessage (Claude_upstreamModel a (Types.Model req)) req stream with
  | inr err => inr (provider_error 0 (error_text err) 0)
  | inl payload => send client (Claude_request a payload)
  end.

(** ** Answers *)
Record tokenUsage := mkTokenUsage { InputTokens : Z; OutputTokens : Z }.

Definition dec_tokenUsage : Decoder tokenUsage :=
  dec_struct [
    ("input_tokens", fld InputTokens (fun x u => mkTokenUsage x (OutputTokens u)) dec_int);
    ("output_tokens", fld OutputTokens (fun x u => mkTokenUsage (InputTokens u) x) dec_int)].

Definition asUsage (u : tokenUsage) : Usage :=
  mkUsage (InputTokens u) (OutputTokens u) (wrap64 (InputTokens u + OutputTokens u)).

(** A typed text: a content block, or the delta of an event. *)
Record textBlock := mkTextBlock { blockType : string; blockText : string }.

Definition dec_textBlock : Decoder textBlock :=
  dec_struct [
    ("type", fld blockType (fun x b => mkTextBlock x (blockText b)) dec_string);
    ("text", fld blockText (fun x b => mkTextBlock (blockType b) x) dec_string)].

Record messageResponse := mkMessageResponse {
  mID : string;
  mContent : list textBlock;
  mUsage : tokenUsage
}.

Definition dec_messageResponse : Decoder messageResponse :=
  dec_struct [
    ("id", fld mID (fun x r => mkMessageResponse x (mContent r) (mUsage r)) dec_string);
    ("content", fld mContent (fun x r => mkMessageResponse (mID r) x (mUsage r))
       (dec_list (mkTextBlock "" "") dec_textBlock));
    ("usage", fld mUsage (fun x r => mkMessageResponse (mID r) (mContent r) x) dec_tokenUsage)].

(** [messageResponse.Text]. *)
Definition message_text (r : messageResponse) : string :=
  foldr (fun b acc => blockText b +:+ acc) "" (mContent r).

(** [httpError]: as [HTTPError], without the delay. *)
Definition httpError (resp : HttpResponse) (body : string) : error :=
  provider_error (respStatusCode resp) (error_message resp body) 0.

Definition Claude_Chat (a : ClaudeAdapter) (client : HttpClient) (req : ChatRequest)
    : ChatResponse + error :=
  match Claude_do a client req false with
  | inr err => inr err
  | inl resp =>
    match ReadAllLimit (8 * 2 ^ 20) resp with
    | (_, Some err) => inr (provider_error 0 ("read provider response: " +:+ error_text err) 0)
    | (body, None) =>
      if respStatusCode resp >=? 400 then inr (httpError resp body)
      else
        match (j ← Unmarshal body;
               dec_messageResponse j (mkMessageResponse "" [] (mkTokenUsage 0 0))) with
        | None => inr (provider_error 0 ("decode provider response: " +:+ json_error body) 0)
        | Some parsed =>
            inl (mkChatResponse (mID parsed) (Types.Model req) (message_text parsed)
                   (asUsage (mUsage parsed)))
        end
    end
  end.

(** ** Streams *)
Record streamEvent := mkStreamEvent {
  evType : string;
  evDelta : textBlock;
  evInputTokens : Z;
  evOutputTokens : Z
}.

Definition zeroEvent : streamEvent := mkStreamEvent "" (mkTextBlock "" "") 0 0.

Definition dec_inputTokens : Decoder Z :=
  dec_struct [("input_tokens", fld (fun z => z) (fun x _ => x) dec_int)].
Definition dec_outputTokens : Decoder Z :=
  dec_struct [("output_tokens", fld (fun z => z) (fun x _ => x) dec_int)].

Definition dec_streamEvent : Decoder streamEvent :=
  dec_struct [
    ("type", fld evType (fun x e =>
       mkStreamEvent x (evDelta e) (evInputTokens e) (evOutputTokens e)) dec_string);
    ("delta", fld evDelta (fun x e =>
       mkStreamEvent (evType e) x (evInputTokens e) (evOutputTokens e)) dec_textBlock);
    ("message", fld evInputTokens (fun x e =>
       mkStreamEvent (evType e) (evDelta e) x (evOutputTokens e))
       (dec_struct [("usage", fld (fun z => z) (fun x _ => x) dec_inputTokens)]));
    ("usage", fld evOutputTokens (fun x e =>
       mkStreamEvent (evType e) (evDelta e) (evInputTokens e) x) dec_outputTokens)].

Definition parseEvent (event payload : string) : string * Usage :=
  match (j ← Unmarshal payload; dec_streamEvent j zeroEvent) with
  | None => ("", zeroUsage)
  | Some ev =>
      let event := if event =s "" then evType ev else event in
      if event =s "content_block_delta" then (blockText (evDelta ev), zeroUsage)
      else if event =s "message_start" then ("", mkUsage (evInputTokens ev) 0 0)
      else if event =s "message_delta" then ("", mkUsage 0 (evOutputTokens ev) 0)
      else ("", zeroUsage)
  end.

(** The variables of the loop: the current event, the text, the usage, the operations,
    and the client while nothing failed. *)
Record Loop := mkLoop {
  lEvent : string;
  lGenerated : string;
  lUsage : Usage;
  lOps : list WriterOp;
  lDst : option Client
}.

Definition merge_usage (usage u : Usage) : Usage :=
  mkUsage
    (if Types.PromptTokens u >? 0 then Types.PromptTokens u else Types.PromptTokens usage)
    (if Types.CompletionTokens u >? 0 then Types.CompletionTokens u else Types.CompletionTokens usage)
    (Types.TotalTokens usage).

(** Lines 106-115. *)
Definition emitText (text : string) (s : Loop) : Loop :=
  if text =s "" then s
  else
    let generated := lGenerated s +:+ text in
    match lDst s with
    | None => mkLoop (lEvent s) generated (lUsage s) (lOps s) None
    | Some c =>
        match WriteOpenAIDelta text c with
        | (ops, true, c) => mkLoop (lEvent s) generated (lUsage s) (lOps s ++ ops ++ [OpFlush]) (Some c)
        | (ops, false, c) => mkLoop (lEvent s) generated (lUsage s) (lOps s ++ ops) None
        end
    end.

(** Lines 93-117. *)
Definition handleLine (line : string) (s : Loop) : Loop :=
  let trimmed := TrimSpace line in
  match cut_prefix "event:" trimmed with
  | Some rest => mkLoop (TrimSpace rest) (lGenerated s) (lUsage s) (lOps s) (lDst s)
  | None =>
    match cut_prefix "data:" trimmed with
    | Some rest =>
        let '(text, u) := parseEvent (lEvent s) (TrimSpace rest) in
        emitText text
          (mkLoop (lEvent s) (lGenerated s) (merge_usage (lUsage s) u) (lOps s) (lDst s))
    | None => s
    end
  end.

(** Lines 90-127, and whether the stream was read to its end. *)
Fixpoint eventLoop (ctx : option nat) (lines : list string) (s : Loop) : Loop * bool :=
  match lines with
  | [] => (s, true)
  | line :: lines =>
      let s := handleLine line s in
      if full_line line then
        let '(over, ctx) := tick ctx in
        if over : bool then (s, false) else eventLoop ctx lines s
      else eventLoop ctx lines s
  end.

(** Lines 129-135; the errors of both writes are ignored. *)
Definition finish (out : Usage) (dst : option Client) : list WriterOp :=
  match dst with
  | None => []
  | Some c =>
      let '(ops1, _, c) := WriteOpenAIUsage out c in
      let '(ops2, _, _) := WriteOpenAIDone c in
      ops1 ++ ops2 ++ [OpFlush]
  end.

Definition stream_head : list WriterOp :=
  [OpSetHeader "Content-Type" "text/event-stream"; OpSetHeader "Cache-Control" "no-cache";
   OpWriteHeader 200].

Definition translateStream (resp : HttpResponse) (path : Path)
    : list WriterOp * option Usage * option error :=
  let '(s, ended) := eventLoop (pCtxEnds path) (read_lines (respBody resp))
                       (mkLoop "" "" zeroUsage [] (Some (pClient path))) in
  let out := UsageOrEstimate (lUsage s) (lGenerated s) in
  match (if ended : bool then respBodyErr resp else None) with
  | Some err => (stream_head ++ lOps s, Some out, Some (read_stream_error err))
  | None => (stream_head ++ lOps s ++ finish out (lDst s), Some out, None)
  end.

Definition Claude_ChatStream (a : ClaudeAdapter) (client : HttpClient) (path : Path)
    (req : ChatRequest) : list WriterOp * option Usage * option error :=
  match Claude_do a client req true with
  | inr err => ([], None, Some err)
  | inl resp =>
    if respStatusCode resp >=? 400 then
      ([], None, Some (httpError resp (ReadAllLimit (2 ^ 20) resp).1))
    else translateStream resp path
  end.
End Claude.
