(* ===== verification/ClaudeSpec.v ===== *)
(** * What the Anthropic adapter's translation keeps *)

From Stdlib Require Import ZArith Lia Ascii.
From stdpp Require Import prelude gmap list strings.
From S2P Require Import Prelude GoInt GoText GoErr Endpoint Json JsonSpec Types Http.
From S2P Require Import Sse OpenAICompat SseSpec OpenAI Claude.

Local Open Scope Z_scope.

(** ** The events of a stream *)

(** The lines handled before the context ends. *)
Fixpoint seen (ctx : option nat) (lines : list string) : list string :=
  match lines with
  | [] => []
  | line :: lines =>
      line :: (if full_line line then
                 let '(over, ctx) := tick ctx in if over : bool then [] else seen ctx lines
               else seen ctx lines)
  end.

(** Each data line with the event it belongs to. *)
Fixpoint sse_events (event : string) (lines : list string) : list (string * string) :=
  match lines with
  | [] => []
  | line :: lines =>
      let trimmed := TrimSpace line in
      match cut_prefix "event:" trimmed with
      | Some rest => sse_events (TrimSpace rest) lines
      | None =>
          match cut_prefix "data:" trimmed with
          | Some rest => (event, TrimSpace rest) :: sse_events event lines
          | None => sse_events event lines
          end
      end
  end.

Definition event_text (e : string * string) : string := (parseEvent e.1 e.2).1.
Definition event_usage (e : string * string) : Usage := (parseEvent e.1 e.2).2.

Definition stream_text (evs : list (string * string)) : string := concat_s (event_text <$> evs).
Definition stream_usage (usage : Usage) (evs : list (string * string)) : Usage :=
  foldl (fun u e => merge_usage u (event_usage e)) usage evs.

Lemma stream_text_cons e evs : stream_text (e :: evs) = event_text e +:+ stream_text evs.
Proof. done. Qed.
Lemma stream_usage_cons u e evs :
  stream_usage u (e :: evs) = stream_usage (merge_usage u (event_usage e)) evs.
Proof. done. Qed.

(** The bytes a list of operations writes. *)
Definition body_of (ops : list WriterOp) : string :=
  concat_s (omap (fun o => match o with OpWrite p => Some p | _ => None end) ops).

Lemma body_of_app a b : body_of (a ++ b) = body_of a +:+ body_of b.
Proof. unfold body_of. by rewrite omap_app, concat_s_app. Qed.

Lemma body_of_write p ops : body_of (OpWrite p :: ops) = p +:+ body_of ops.
Proof. done. Qed.

Lemma write_all_ReadsAll ps :
  exists ops, write_all ps ReadsAll = (ops, true, ReadsAll) /\ body_of ops = concat_s ps.
Proof.
  induction ps as [|p ps (ops & H & E)]; simpl; [by eexists|].
  rewrite H. eexists. split; [done|]. by rewrite body_of_write, E.
Qed.

(** The text events written for a list of texts; the empty ones write nothing. *)
Definition deltas (texts : list string) : string :=
  concat_s ((fun t => sse_event (Marshal (delta_json t))) <$> filter (fun t => t <> "") texts).

Lemma concat_filter texts : concat_s (filter (fun t => t <> "") texts) = concat_s texts.
Proof.
  induction texts as [|t texts IH]; [done|]. rewrite filter_cons. case_decide as Ht; simpl.
  - by rewrite IH.
  - by rewrite Ht, IH.
Qed.

(** ** The loop *)

Lemma emitText_text text s :
  lGenerated (emitText text s) = lGenerated s +:+ text /\
  lUsage (emitText text s) = lUsage s /\ lEvent (emitText text s) = lEvent s.
Proof.
  unfold emitText. destruct (text =s "") eqn:E; breflect.
  - by rewrite E, app_empty_r.
  - destruct (lDst s) as [c|]; [|done].
    by destruct (WriteOpenAIDelta text c) as [[ops []] c'].
Qed.

(** Whatever happens to the client, the adapter reads the same text and usage. *)
Lemma eventLoop_reads lines : forall ctx s,
  let r := (eventLoop ctx lines s).1 in
  let evs := sse_events (lEvent s) (seen ctx lines) in
  lGenerated r = lGenerated s +:+ stream_text evs /\
  lUsage r = stream_usage (lUsage s) evs.
Proof.
  induction lines as [|line lines IH]; intros ctx s; cbn zeta.
  { simpl. by rewrite app_empty_r. }
  assert (Hstep : forall tl,
    lGenerated (handleLine line s) +:+ stream_text (sse_events (lEvent (handleLine line s)) tl) =
      lGenerated s +:+ stream_text (sse_events (lEvent s) (line :: tl)) /\
    stream_usage (lUsage (handleLine line s)) (sse_events (lEvent (handleLine line s)) tl) =
      stream_usage (lUsage s) (sse_events (lEvent s) (line :: tl))).
  { intros tl. unfold handleLine. cbn [sse_events].
    destruct (cut_prefix "event:" (TrimSpace line)); [done|].
    destruct (cut_prefix "data:" (TrimSpace line)) as [rest|]; [|done].
    destruct (parseEvent (lEvent s) (TrimSpace rest)) as [text u] eqn:E.
    destruct (emitText_text text (mkLoop (lEvent s) (lGenerated s) (merge_usage (lUsage s) u)
      (lOps s) (lDst s))) as (-> & -> & ->).
    rewrite stream_text_cons, stream_usage_cons. unfold event_text, event_usage. cbn [fst snd].
    by rewrite E, app_assoc_s. }
  cbn [eventLoop seen]. destruct (full_line line).
  - destruct (tick ctx) as [over ctx'].
    destruct over; cbn [fst].
    + destruct (Hstep []) as [<- <-]. simpl. by rewrite app_empty_r.
    + destruct (IH ctx' (handleLine line s)) as [-> ->]. apply Hstep.
  - destruct (IH ctx (handleLine line s)) as [-> ->]. apply Hstep.
Qed.

(** A client that takes everything gets one event per text. *)
Lemma eventLoop_writes lines : forall ctx s,
  lDst s = Some ReadsAll ->
  let r := (eventLoop ctx lines s).1 in
  lDst r = Some ReadsAll /\
  body_of (lOps r) =
    body_of (lOps s) +:+ deltas (event_text <$> sse_events (lEvent s) (seen ctx lines)).
Proof.
  induction lines as [|line lines IH]; intros ctx s Hd; cbn zeta.
  { simpl. by rewrite app_empty_r. }
  assert (Hstep : lDst (handleLine line s) = Some ReadsAll /\ forall tl,
    body_of (lOps (handleLine line s)) +:+
        deltas (event_text <$> sse_events (lEvent (handleLine line s)) tl) =
      body_of (lOps s) +:+ deltas (event_text <$> sse_events (lEvent s) (line :: tl))).
  { unfold handleLine. cbn [sse_events].
    destruct (cut_prefix "event:" (TrimSpace line)); [done|].
    destruct (cut_prefix "data:" (TrimSpace line)) as [rest|]; [|done].
    destruct (parseEvent (lEvent s) (TrimSpace rest)) as [text u] eqn:E.
    unfold emitText, deltas. cbn [lEvent lGenerated lUsage lOps lDst]. rewrite Hd.
    destruct (text =s "") eqn:Et; breflect.
    - split; [done|]. intros tl. rewrite fmap_cons, filter_cons.
      assert (Ee : event_text (lEvent s, TrimSpace rest) = text) by (unfold event_text; simpl; by rewrite E).
      by rewrite Ee, decide_False by naive_solver.
    - unfold WriteOpenAIDelta. rewrite (proj2 (str_eqb_neq _ _)) by done.
      destruct (write_all_ReadsAll (sse_data (Marshal (delta_json text)))) as (ops & -> & Hb).
      split; [done|]. intros tl. cbn [lEvent lOps]. rewrite !body_of_app, Hb.
      assert (Ee : event_text (lEvent s, TrimSpace rest) = text) by (unfold event_text; simpl; by rewrite E).
      rewrite fmap_cons, filter_cons, Ee, decide_True by done.
      change (body_of [OpFlush]) with "". by rewrite app_empty_r, app_assoc_s. }
  destruct Hstep as [Hd' Hstep]. cbn [eventLoop seen]. destruct (full_line line).
  - destruct (tick ctx) as [over ctx'].
    destruct over; cbn [fst].
    + split; [done|]. rewrite <- (Hstep []). simpl. by rewrite app_empty_r.
    + destruct (IH ctx' (handleLine line s) Hd') as [-> ->]. split; [done|apply Hstep].
  - destruct (IH ctx (handleLine line s) Hd') as [-> ->]. split; [done|apply Hstep].
Qed.

(** ** Token counts fit *)

(** A decoder keeps a property that each of its fields keeps. *)
Lemma dec_struct_keeps {T} (P : T -> Prop) (fs : list (string * FieldDec T)) j t t' :
  Forall (fun f => forall raw v x x', P x -> f.2 raw v x = Some x' -> P x') fs ->
  P t -> dec_struct fs j t = Some t' -> P t'.
Proof.
  intros HF Ht. destruct j as [| | | | |ms]; simpl; try done; [by intros [= <-]|].
  assert (Hnone : forall ms, foldl (fun acc (m : string * string * json) =>
        t ← acc; let '(k, raw, v) := m in
        match find_field fs k with None => Some t | Some f => f raw v t end) None ms = None).
  { induction ms0; simpl; done. }
  revert t Ht. induction ms as [|[[k raw] v] ms IH]; intros t Ht; simpl; [by intros [= <-]|].
  destruct (find_field fs k) as [f|] eqn:E; [|by apply IH].
  destruct (f raw v t) as [x|] eqn:Ef; [|by rewrite Hnone].
  apply IH. unfold find_field in E.
  assert (Hin : exists n, (n, f) ∈ fs).
  { destruct (find (fun f => f.1 =s k) fs) as [[n g]|] eqn:E1.
    - injection E as <-. apply find_some in E1 as [E1 _]. exists n. by apply list_elem_of_In.
    - destruct (find (fun f => same_fold f.1 k) fs) as [[n g]|] eqn:E2; [|done].
      injection E as <-. apply find_some in E2 as [E2 _]. exists n. by apply list_elem_of_In. }
  destruct Hin as [n Hin]. rewrite Forall_forall in HF. by apply (HF _ Hin raw v t x Ht).
Qed.

Lemma dec_int_range j x y : in_int64 x -> dec_int j x = Some y -> in_int64 y.
Proof.
  intros Hx. unfold dec_int, ParseInt. destruct j as [| |d| | |]; try done; [by intros [= <-]|].
  intros H. repeat hcase H; try done;
    repeat match type of H with (?m ≫= _) = _ => destruct m; simpl in H; [|done] end;
    repeat hcase H; try done; injection H as <-; breflect; unfold in_int64; lia.
Qed.

Lemma fld_keeps {T A} (P : T -> Prop) (Q : A -> Prop) (get : T -> A) set (d : Decoder A) :
  (forall t, P t -> Q (get t)) -> (forall j x y, Q x -> d j x = Some y -> Q y) ->
  (forall x t, Q x -> P t -> P (set x t)) ->
  forall raw v x x', P x -> fld get set d raw v x = Some x' -> P x'.
Proof.
  intros Hg Hd Hs raw v x x' Hx. unfold fld. destruct (d v (get x)) as [y|] eqn:E; simpl; [|done].
  intros [= <-]. eauto.
Qed.

Definition event_in_range (e : streamEvent) : Prop :=
  in_int64 (evInputTokens e) /\ in_int64 (evOutputTokens e).

Lemma dec_streamEvent_range j e e' :
  event_in_range e -> dec_streamEvent j e = Some e' -> event_in_range e'.
Proof.
  assert (Hi : forall k j x y, in_int64 x ->
    dec_struct [(k, fld (fun z => z) (fun x _ => x) dec_int)] j x = Some y -> in_int64 y).
  { intros k j' x y. apply dec_struct_keeps. constructor; [|constructor]. cbn [fst snd].
    refine (fld_keeps _ in_int64 _ _ _ _ _ _); auto. apply dec_int_range. }
  apply dec_struct_keeps. unfold event_in_range.
  repeat apply Forall_cons_2; [..|by apply Forall_nil_2]; cbn [fst snd].
  - refine (fld_keeps _ (fun _ => True) _ _ _ _ _ _); auto.
  - refine (fld_keeps _ (fun _ => True) _ _ _ _ _ _); auto.
  - refine (fld_keeps _ in_int64 _ _ _ _ _ _); simpl; [tauto| |tauto].
    intros j' x y. apply dec_struct_keeps. constructor; [|constructor]. cbn [fst snd].
    refine (fld_keeps _ in_int64 _ _ _ _ _ _); auto. apply Hi.
  - refine (fld_keeps _ in_int64 _ _ _ _ _ _); simpl; [tauto|apply Hi|tauto].
Qed.

Lemma zero_in_range : in_int64 0.
Proof. by split. Qed.

Lemma event_usage_range e : usage_in_range (event_usage e).
Proof.
  unfold event_usage, parseEvent, usage_in_range. pose proof zero_in_range.
  destruct (Unmarshal e.2 ≫= _) as [ev|] eqn:E; [|done].
  assert (Hr : event_in_range ev).
  { destruct (Unmarshal e.2) as [j|]; simpl in E; [|done].
    apply (dec_streamEvent_range j zeroEvent); [by repeat split|done]. }
  destruct Hr. repeat dcase; simpl; done.
Qed.

(** The counts read so far: not negative, in range, no total. *)
Lemma stream_usage_range evs : forall u,
  usage_in_range u -> 0 <= Types.PromptTokens u -> 0 <= Types.CompletionTokens u ->
  Types.TotalTokens u = 0 ->
  let u' := stream_usage u evs in
  usage_in_range u' /\ 0 <= Types.PromptTokens u' /\ 0 <= Types.CompletionTokens u' /\
  Types.TotalTokens u' = 0.
Proof.
  induction evs as [|e evs IH]; intros u Hu Hp Hc Ht; cbn zeta; [done|].
  rewrite stream_usage_cons. destruct (event_usage_range e) as (E1 & E2 & E3).
  destruct Hu as (U1 & U2 & U3).
  apply IH; unfold merge_usage, usage_in_range; simpl; repeat dcase; bsolve.
Qed.

Lemma ascii_filter texts :
  ascii_only (chars (concat_s texts)) ->
  Forall (fun t => ascii_only (chars t)) (filter (fun t => t <> "") texts).
Proof.
  induction texts as [|t texts IH]; intros H; [constructor|].
  simpl in H. rewrite chars_app in H. apply Forall_app in H as [Ht H].
  rewrite filter_cons. case_decide; [constructor|]; auto.
Qed.

Lemma finish_body out :
  body_of (finish out (Some ReadsAll)) =
    sse_event (Marshal (usage_event_json out)) +:+ ("data: [DONE]" +:+ newline +:+ newline).
Proof.
  unfold finish, WriteOpenAIUsage, WriteOpenAIDone.
  destruct (write_all_ReadsAll (sse_data (Marshal (usage_event_json out)))) as (ops1 & -> & H1).
  destruct (write_all_ReadsAll ["data: [DONE]" +:+ newline +:+ newline]) as (ops2 & -> & H2).
  rewrite !body_of_app, H1, H2. done.
Qed.

(** The estimate is in range, and the zero usage only for an empty stream. *)
Lemma estimate_range u text :
  usage_in_range u -> 0 <= Types.PromptTokens u -> 0 <= Types.CompletionTokens u ->
  Types.TotalTokens u = 0 -> slen text <= 2 ^ 62 ->
  let out := UsageOrEstimate u text in
  usage_in_range out /\
  (if (Types.TotalTokens out >? 0) || (Types.CompletionTokens out >? 0) then out else zeroUsage) = out.
Proof.
  intros (U1 & U2 & _) Hp Hc Ht Hl. unfold UsageOrEstimate. rewrite Ht. cbn zeta.
  change (0 >? 0) with false. cbv iota.
  set (completion := if _ && _ then _ else _).
  pose proof (slen_nonneg text) as Hnn.
  assert (Hq : 0 <= Z.quot (slen text + 3) 4 <= 2 ^ 62).
  { rewrite Z.quot_div_nonneg by lia.
    split; [apply Z.div_pos; lia|apply Z.div_le_upper_bound; lia]. }
  assert (Hcr : in_int64 completion /\ 0 <= completion).
  { unfold completion, in_int64, min_int64, max_int64 in *. dcase; [lia|done]. }
  destruct Hcr as [Hr1 Hr2]. split; [by repeat split; try apply wrap64_range; try apply U1; apply Hr1|].
  cbn [Types.TotalTokens Types.CompletionTokens].
  destruct (_ || _) eqn:E; [done|]. apply orb_false_iff in E as [E1 E2]. breflect.
  assert (completion = 0) as Hz by lia. rewrite Hz, Z.add_0_r in *.
  rewrite wrap64_small in * by done. unfold zeroUsage. f_equal; lia.
Qed.

(** C9. The Anthropic stream arrives as an OpenAI stream. Whatever the upstream sends and
    however the client behaves, the usage reported for billing is that of the events read.
    And a client that reads the rewritten stream with the rules for OpenAI chunks
    gets exactly the texts of those events and exactly that usage. *)
Theorem claude_stream_translated resp path :
  let evs := sse_events "" (seen (pCtxEnds path) (read_lines (respBody resp))) in
  let text := stream_text evs in
  let usage := UsageOrEstimate (stream_usage zeroUsage evs) text in
  let r := translateStream resp path in
  r.1.2 = Some usage /\
  (pClient path = ReadsAll -> ascii_only (chars text) -> slen text <= 2 ^ 62 -> r.2 = None ->
   read_all (body_of r.1.1) ("", zeroUsage) = (text, usage)).
Proof.
  intros evs text usage r.
  set (s0 := mkLoop "" "" zeroUsage [] (Some (pClient path))).
  pose proof (eventLoop_reads (read_lines (respBody resp)) (pCtxEnds path) s0) as [Hg Hu].
  pose proof (eventLoop_writes (read_lines (respBody resp)) (pCtxEnds path) s0) as Hw.
  unfold r, translateStream. fold s0. cbn zeta in *.
  destruct (eventLoop (pCtxEnds path) (read_lines (respBody resp)) s0) as [s ended].
  cbn [fst snd] in *. unfold s0 in Hg, Hu. cbn [lGenerated lUsage lEvent] in Hg, Hu.
  rewrite sapp_nil in Hg. fold evs in Hg, Hu. fold text in Hg.
  assert (Hout : UsageOrEstimate (lUsage s) (lGenerated s) = usage) by by rewrite Hg, Hu.
  rewrite Hout. set (fin := if ended then respBodyErr resp else None).
  destruct fin as [err|]; [by split|]. cbn [fst snd]. split; [done|].
  intros Hc Ht Hl _. destruct Hw as [Hd Hb]; [by unfold s0; simpl; rewrite Hc|].
  rewrite Hd, !body_of_app, Hb, finish_body.
  change (body_of stream_head) with "". rewrite sapp_nil. unfold s0. cbn [lOps lEvent].
  change (body_of []) with "". rewrite sapp_nil. fold evs. unfold deltas.
  rewrite read_deltas by (apply ascii_filter; exact Ht).
  destruct (stream_usage_range evs zeroUsage) as (R1 & R2 & R3 & R4); [by repeat split|done..|].
  destruct (estimate_range _ text R1 R2 R3 R4 Hl) as [Hr Hz]. fold usage in Hr, Hz.
  rewrite read_usage by done. cbn [fst snd]. rewrite Hz, read_done, sapp_nil, concat_filter. done.
Qed.

(** ** A concrete stream *)
Definition anthropic_event (name : string) (j : json) : string :=
  "event: " +:+ name +:+ newline +:+ "data: " +:+ Marshal j +:+ newline +:+ newline.

Definition demo_stream : string :=
  anthropic_event "message_start"
    (obj [("message", obj [("usage", obj [("input_tokens", JInt 3)])])]) +:+
  anthropic_event "content_block_delta" (obj [("delta", obj [("text", JStr "Hel")])]) +:+
  anthropic_event "content_block_delta" (obj [("delta", obj [("text", JStr "lo")])]) +:+
  anthropic_event "message_delta" (obj [("usage", obj [("output_tokens", JInt 2)])]).

Definition demo_answer : HttpResponse := mkHttpResponse 200 "200 OK" ∅ demo_stream None.
Definition demo_path : Path := mkPath ReadsAll "" None.

Lemma claude_stream_translated_witness :
  read_all (body_of (translateStream demo_answer demo_path).1.1) ("", zeroUsage) =
    ("Hello", mkUsage 3 2 5).
Proof.
  destruct (claude_stream_translated demo_answer demo_path) as [_ Hr].
  rewrite Hr; [by vm_compute|done|repeat constructor|by vm_compute|by vm_compute].
Defined.
