(* ===== verification/OpenAISpec.v ===== *)
(** * What the OpenAI wire format keeps *)

From Stdlib Require Import ZArith Lia Ascii.
From stdpp Require Import prelude gmap list strings.
From S2P Require Import Prelude GoInt GoText GoErr Endpoint Provider Retry Json JsonSpec Types TypesSpec Http.
From S2P Require Import Sse OpenAICompat SseSpec OpenAI Claude ClaudeSpec.

Local Open Scope Z_scope.

(** ** Copies of a stream *)

(** The lines a client takes. *)
Definition accepted (c : Client) (lines : list string) : list string :=
  match c with ReadsAll => lines | HangsUp n => take n lines end.

Lemma try_write_accepted c line lines :
  accepted c (line :: lines) =
    (if (try_write c).1 then [line] else []) ++ accepted (try_write c).2 lines.
Proof. destruct c as [|[|n]]; simpl; [done|by rewrite take_0|done]. Qed.

(** Was the stream read to its end? *)
Fixpoint whole (ctx : option nat) (lines : list string) : bool :=
  match lines with
  | [] => true
  | line :: lines =>
      if full_line line then
        let '(over, ctx) := tick ctx in if over : bool then false else whole ctx lines
      else whole ctx lines
  end.

Lemma copyLoop_spec lines : forall dst ctx ops acc,
  copyLoop dst ctx lines (ops, acc) =
    (ops ++ mjoin ((fun l => [OpWrite l; OpFlush]) <$> accepted dst (seen ctx lines)),
     foldl (fun st l => ParseSSELine l st) acc (seen ctx lines), whole ctx lines).
Proof.
  induction lines as [|line lines IH]; intros dst ctx ops acc.
  { simpl. destruct dst; simpl; by rewrite ?take_nil, ?app_nil_r. }
  cbn [copyLoop seen whole]. pose proof (try_write_accepted dst line) as Ha.
  destruct (try_write dst) as [ok dst']. cbn [fst snd] in Ha.
  destruct (full_line line); [destruct (tick ctx) as [over ctx']; destruct over|].
  - rewrite Ha. destruct ok, dst'; simpl; by rewrite ?take_nil, ?app_nil_r.
  - rewrite IH, Ha. destruct ok; simpl; by rewrite <- ?app_assoc.
  - rewrite IH, Ha. destruct ok; simpl; by rewrite <- ?app_assoc.
Qed.

Lemma body_of_lines lines :
  body_of (mjoin ((fun l => [OpWrite l; OpFlush]) <$> lines)) = concat_s lines.
Proof.
  induction lines as [|l lines IH]; [done|].
  change (body_of ([OpWrite l; OpFlush] ++ mjoin ((fun l => [OpWrite l; OpFlush]) <$> lines)) =
            l +:+ concat_s lines).
  rewrite body_of_app, IH, body_of_write. change (body_of [OpFlush]) with "".
  by rewrite app_empty_r.
Qed.

Lemma seen_None lines : seen None lines = lines.
Proof. induction lines as [|l lines IH]; simpl; [done|]. rewrite IH. by destruct (full_line l). Qed.

Lemma whole_None lines : whole None lines = true.
Proof. induction lines as [|l lines IH]; simpl; [done|]. by destruct (full_line l). Qed.

(** C35. A stream is copied to the client unchanged and the usage read on the way does
    not depend on the client. The bytes written are the lines the client takes, all of
    the stream if it takes all and the context lasts; the usage is that of the lines,
    or an estimate from their text; and the error is the one that ended the stream. *)
Theorem copy_stream_verbatim f :
  let lines := seen (ctxEnds f) (read_lines (src f)) in
  let read := foldl (fun st l => ParseSSELine l st) ("", zeroUsage) lines in
  let r := CopyStream f in
  body_of r.1.1 = concat_s (accepted (client f) lines) /\
  r.1.2 = Some (UsageOrEstimate read.2 read.1) /\
  (ctxEnds f = None -> client f = ReadsAll -> body_of r.1.1 = src f) /\
  (ctxEnds f = None -> r.2 = read_stream_error <$> srcErr f).
Proof.
  intros lines read r. unfold r, CopyStream. rewrite copyLoop_spec. fold lines. fold read.
  destruct read as [generated usage]. cbn [fst snd]. rewrite app_nil_l.
  assert (Hb : body_of (([OpSetHeader "Cache-Control" "no-cache"]
              ++ (if contentType f =s "" then [OpSetHeader "Content-Type" "text/event-stream"] else [])
              ++ [OpWriteHeader 200]) ++
     mjoin ((fun l => [OpWrite l; OpFlush]) <$> accepted (client f) lines)) =
     concat_s (accepted (client f) lines)).
  { rewrite body_of_app, body_of_lines. by destruct (contentType f =s ""). }
  split_and!; [exact Hb|done|..].
  - intros Hc Ha. rewrite Hb, Ha. unfold lines. rewrite Hc, seen_None. apply read_lines_concat.
  - intros Hc. by rewrite Hc, whole_None.
Qed.

(** ** Answers read back *)

Definition chat_ascii (r : ChatResponse) : Prop :=
  ascii_only (chars (rID r)) /\ ascii_only (chars (rModel r)) /\ ascii_only (chars (rContent r)).

Lemma JInt_canonical d z : in_int64 z -> canonical d (JInt z).
Proof. intros Hz. by refine (proj1 (JInt_roundtrip _ 0 _)). Qed.

Lemma completion_canonical created resp :
  chat_ascii resp -> usage_in_range (rUsage resp) -> in_int64 created ->
  canonical 0 (completion_json created resp).
Proof.
  intros (A1 & A2 & A3) (U1 & U2 & U3) Hc.
  cbn [canonical completion_json usage_json obj map foldr fst snd].
  repeat split; try ascii_const; try assumption; try (by vm_compute); apply JInt_canonical; first [done|apply zero_in_range].
Qed.

Lemma dec_completion ju u a b c d e i m o :
  (forall x, dec_usage ju x = Some u) ->
  dec_completionResponse
    (obj [("choices", JArr [obj [("finish_reason", a); ("index", b);
                                 ("message", obj [("content", JStr c); ("role", d)])]]);
          ("created", e); ("id", JStr i); ("model", m); ("object", o); ("usage", ju)])
    (mkCompletionResponse "" [] zeroUsage) =
    Some (mkCompletionResponse i [mkCompletionChoice c ""] u).
Proof. intros Hu. lazy -[dec_usage Marshal]. by rewrite Hu. Qed.

Lemma dec_usage_sorted ja jb jc a b c z :
  (forall x, dec_int ja x = Some a) -> (forall x, dec_int jb x = Some b) ->
  (forall x, dec_int jc x = Some c) ->
  dec_usage (obj [("completion_tokens", jb); ("prompt_tokens", ja); ("total_tokens", jc)]) z =
    Some (mkUsage a b c).
Proof. intros Ha Hb Hc. lazy -[dec_int Marshal]. by rewrite Hb, Ha, Hc. Qed.

Lemma dec_usage_json u x : usage_in_range u -> dec_usage (usage_json u) x = Some u.
Proof.
  intros (U1 & U2 & U3). destruct u.
  apply dec_usage_sorted; intros; by apply JInt_roundtrip.
Qed.

Lemma completion_reads_back `{Float32} `{JsonError} created resp :
  chat_ascii resp -> usage_in_range (rUsage resp) -> in_int64 created ->
  ParseCompletion (Marshal (completion_json created resp)) =
    inl (rID resp, rContent resp, rUsage resp).
Proof.
  intros Ha Hu Hc. unfold ParseCompletion, Marshal.
  rewrite Unmarshal_marshal by by apply completion_canonical.
  cbn [mbind option_bind]. unfold completion_json.
  rewrite (dec_completion _ (rUsage resp)) by (intros; by apply dec_usage_json).
  unfold completion_content. simpl. by rewrite !app_empty_r.
Qed.

(** What the gateway answers, an OpenAI client of the gateway reads. The body of an
    encoded response, parsed with the adapter's decoder, gives back its ID (the one
    filled in if it was missing), its content and its usage. *)
Theorem completion_roundtrip `{Float32} `{JsonError} nanos created resp :
  chat_ascii resp -> usage_in_range (rUsage resp) -> in_int64 created -> in_int64 nanos ->
  let '(resp', body) := EncodeChatCompletion nanos created resp in
  ParseCompletion body = inl (rID resp', rContent resp, rUsage resp) /\ rID resp' <> "".
Proof.
  intros Ha Hu Hc Hn. unfold EncodeChatCompletion.
  set (resp' := if rID resp =s "" then _ else _).
  assert (Ha' : chat_ascii resp' /\ rID resp' <> "" /\ rContent resp' = rContent resp /\
                rUsage resp' = rUsage resp).
  { unfold resp'. destruct (rID resp =s "") eqn:E; breflect; [|done].
    split; [|done]. destruct Ha as (_ & A2 & A3). split; [|done]. simpl.
    change (ascii_only (chars "chatcmpl-" ++ chars (int_string nanos))).
    apply Forall_app. split; [ascii_const|apply int_string_ascii]. }
  destruct Ha' as (Ha' & Hne & Hcont & Husage). split; [|done].
  rewrite completion_reads_back by (rewrite ?Husage; done). by rewrite Hcont, Husage.
Qed.

(** ** Requests read back *)

(** Printing and reading a [float32] agree, and only the zero value counts as
    empty. *)
Class Float32Laws `{Float32} := {
  f32_is_zero_spec t : f32_is_zero t = true -> t = f32_zero;
  f32_print_numeral t : numeral (chars (f32_print t));
  f32_parse_print t : f32_parse (f32_print t) = Some t
}.

Section Requests.
Context `{Float32Laws} `{JsonError}.

Definition message_ascii (m : Message) : Prop :=
  ascii_only (chars (Role m)) /\ ascii_only (chars (Types.Content m)).

Definition message_json (m : Message) : json := obj (message_map (Role m) (Types.Content m)).

Definition messages_json (l : list Message) : json := JArr (message_json <$> l).

(** The message as the parser sees it: a role and the text of the content. *)
Definition api_message (m : Message) : apiMessage :=
  mkApiMessage (Role m) (Marshal (JStr (Types.Content m))).

Lemma messages_canonical l :
  Forall message_ascii l ->
  foldr (fun v P => canonical 2 v /\ P) True (message_json <$> l).
Proof.
  induction 1 as [|m l [Hr Hc] _ IH]; simpl; [done|]. split; [|done].
  repeat split; try ascii_const; try assumption; by vm_compute.
Qed.

Lemma dec_messages l :
  dec_elems (mkApiMessage "" "") dec_apiMessage (message_json <$> l) [] = Some (api_message <$> l).
Proof.
  induction l as [|m l IH]; [done|]. cbn [fmap list_fmap dec_elems head tail default].
  assert (Hd : dec_apiMessage (message_json m) (mkApiMessage "" "") = Some (api_message m)).
  { lazy -[Marshal]. done. }
  cbn [from_option]. change (default (mkApiMessage "" "") None) with (mkApiMessage "" "").
  rewrite Hd. cbn [mbind option_bind]. fold (message_json <$> l). rewrite IH. done.
Qed.

Lemma ContentToString_string s :
  ascii_only (chars s) -> ContentToString (Marshal (JStr s)) = s.
Proof.
  intros Hs. unfold ContentToString, Marshal. rewrite Unmarshal_marshal by done.
  destruct (slen _ =? 0) eqn:E; [|done]. breflect. apply slen_zero in E.
  apply (f_equal chars) in E. by rewrite chars_unchars in E.
Qed.

Definition role_ok (m : Message) : Prop :=
  TrimSpace (Role m) = Role m /\ Role m <> "".

Lemma parseMessages_back i l :
  Forall message_ascii l -> Forall role_ok l -> parseMessages i (api_message <$> l) = inl l.
Proof.
  intros HA HR. revert i. induction l as [|m l IH]; intros i; [done|].
  apply Forall_cons in HA as [[Ha1 Ha2] HA], HR as [[Hr1 Hr2] HR].
  cbn [fmap list_fmap parseMessages api_message aRole aContent].
  rewrite Hr1, (proj2 (str_eqb_neq _ _) Hr2), ContentToString_string by done.
  fold (api_message <$> l). rewrite IH by done. by destruct m.
Qed.

(** The five optional fields, each absent when empty. *)
Lemma dec_request_fields (m t k s : bool) model msgs (temp : float32) jk max stream :
  dec_temperature (JNum (f32_print temp)) None = Some (Some temp) ->
  (forall x, dec_int jk x = Some max) ->
  dec_list (mkApiMessage "" "") dec_apiMessage msgs [] = Some stream ->
  dec_apiRequest
    (obj (omitempty m "model" (JStr model) ++ [("messages", msgs)]
          ++ omitempty t "temperature" (JNum (f32_print temp))
          ++ omitempty k "max_tokens" jk ++ omitempty (negb s) "stream" (JBool s)))
    zeroApiRequest =
  Some (mkApiRequest (if m then "" else model) stream (if t then None else Some temp)
          (if k then 0 else max) s).
Proof.
  intros Ht Hk Hm.
  destruct m, t, k, s;
    lazy -[dec_temperature dec_int dec_list dec_apiMessage Marshal f32_print float32];
    rewrite ?Hm; lazy -[dec_temperature dec_int dec_list dec_apiMessage Marshal f32_print float32];
    rewrite ?Ht; lazy -[dec_temperature dec_int dec_list dec_apiMessage Marshal f32_print float32];
    rewrite ?Hk; reflexivity.
Qed.

(** A request as the gateway's parser produces it (messages with trimmed roles, an [int64]
    limit), whose texts are ASCII. *)
Record ascii_request (req : ChatRequest) : Prop := {
  pr_messages : Messages req <> [];
  pr_ascii : Forall message_ascii (Messages req);
  pr_roles : Forall role_ok (Messages req);
  pr_max : in_int64 (MaxTokens req)
}.

Lemma request_json model req stream :
  Messages req <> [] ->
  completionRequest_json (mkCompletionRequest model
     ((fun m => message_map (Role m) (Types.Content m)) <$> Messages req)
     (Temperature req) (MaxTokens req) stream) =
  obj (omitempty (model =s "") "model" (JStr model) ++ [("messages", messages_json (Messages req))]
       ++ omitempty (f32_is_zero (Temperature req)) "temperature" (JNum (f32_print (Temperature req)))
       ++ omitempty (MaxTokens req =? 0) "max_tokens" (JInt (MaxTokens req))
       ++ omitempty (negb stream) "stream" (JBool stream)).
Proof.
  intros Hne. unfold completionRequest_json. cbn [crModel crMessages crTemperature crMaxTokens crStream].
  assert (E : json_messages ((fun m => message_map (Role m) (Types.Content m)) <$> Messages req) =
              messages_json (Messages req)); [|by rewrite E].
  unfold messages_json, message_json. destruct (Messages req) as [|m l]; [done|].
  unfold json_messages. cbn [fmap list_fmap map]. do 2 f_equal. apply map_map.
Qed.

Lemma request_canonical model req stream :
  ascii_only (chars model) -> ascii_request req ->
  canonical 0 (obj (omitempty (model =s "") "model" (JStr model)
       ++ [("messages", messages_json (Messages req))]
       ++ omitempty (f32_is_zero (Temperature req)) "temperature" (JNum (f32_print (Temperature req)))
       ++ omitempty (MaxTokens req =? 0) "max_tokens" (JInt (MaxTokens req))
       ++ omitempty (negb stream) "stream" (JBool stream))).
Proof.
  intros Hm [Hne Ha Hr Hx]. pose proof (messages_canonical _ Ha) as HC.
  pose proof (f32_print_numeral (Temperature req)) as Hf.
  pose proof (JInt_canonical 1 _ Hx) as Hi.
  unfold omitempty. destruct (model =s ""), (f32_is_zero _), (_ =? 0), stream;
    cbn [canonical obj messages_json map app foldr fst snd negb];
    repeat split; try ascii_const; try assumption; try (by vm_compute).
Qed.

(** What the fields of a marshalled request decode to. *)
Lemma decode_request model req stream :
  ascii_only (chars model) -> ascii_request req ->
  decodeRequest (MarshalRequest model req stream) =
    Some (mkApiRequest model (api_message <$> Messages req)
            (if f32_is_zero (Temperature req) then None else Some (Temperature req))
            (MaxTokens req) stream).
Proof.
  intros Ha HP. unfold decodeRequest, MarshalRequest.
  rewrite request_json by apply HP. unfold Marshal at 1. unfold obj at 1.
  rewrite Unmarshal_marshal by exact (request_canonical model req stream Ha HP).
  fold (obj (omitempty (model =s "") "model" (JStr model)
       ++ [("messages", messages_json (Messages req))]
       ++ omitempty (f32_is_zero (Temperature req)) "temperature" (JNum (f32_print (Temperature req)))
       ++ omitempty (MaxTokens req =? 0) "max_tokens" (JInt (MaxTokens req))
       ++ omitempty (negb stream) "stream" (JBool stream))).
  cbn [mbind option_bind].
  rewrite (dec_request_fields _ _ _ _ _ _ _ _ (MaxTokens req) (api_message <$> Messages req)).
  - destruct (model =s "") eqn:Em, (MaxTokens req =? 0) eqn:Ek; breflect; subst; by rewrite ?Ek.
  - unfold dec_temperature. by rewrite f32_parse_print.
  - intros x. apply JInt_roundtrip. apply HP.
  - apply dec_messages.
Qed.

Lemma parse_marshalled model req stream :
  ascii_only (chars model) -> TrimSpace model = model -> model <> "" -> ascii_request req ->
  ParseChatRequest (MarshalRequest model req stream) =
    inl (mkChatRequest _ model (Messages req) (Temperature req) (MaxTokens req) stream).
Proof.
  intros Ha Ht Hne HP. unfold ParseChatRequest. fold (decodeRequest (MarshalRequest model req stream)).
  rewrite decode_request by done. cbn [aModel aMessages aTemperature aMaxTokens aStream].
  rewrite Ht, (proj2 (str_eqb_neq _ _) Hne).
  destruct HP as [Hmsg HA HR Hmax]. rewrite bool_decide_eq_false_2
    by (intros E; by apply fmap_nil_inv in E).
  rewrite parseMessages_back by done. do 2 f_equal.
  destruct (f32_is_zero (Temperature req)) eqn:Ez; [|done]. simpl. symmetry.
  by apply f32_is_zero_spec.
Qed.

(** C16. One gateway can be the upstream of another through an OpenAI endpoint. The body the
    OpenAI adapter sends, read by the gateway's own request parser, gives back the same
    messages, temperature and limits, under the model name the adapter chose (not empty and
    without blanks around it). The body of the Azure adapter carries the same fields but
    no model, which Azure binds to the URL, and the gateway's parser refuses it for that. The
    texts are ASCII. *)
Theorem request_roundtrip `{UrlQuery} req stream :
  ascii_request req ->
  (forall a : OpenAIAdapter,
     let model := OpenAI_upstreamModel a (Types.Model req) in
     ascii_only (chars model) -> TrimSpace model = model -> model <> "" ->
     ParseChatRequest (reqBody (OpenAI_request a req stream)) =
       inl (mkChatRequest _ model (Messages req) (Temperature req) (MaxTokens req) stream)) /\
  (forall z : AzureAdapter,
     ParseChatRequest (reqBody (Azure_request z req stream)) = inr (errorsNew "model is required") /\
     decodeRequest (reqBody (Azure_request z req stream)) =
       Some (mkApiRequest "" (api_message <$> Messages req)
               (if f32_is_zero (Temperature req) then None else Some (Temperature req))
               (MaxTokens req) stream)).
Proof.
  intros HP. split.
  - intros a model Ha Ht Hne. by apply parse_marshalled.
  - intros z. cbn [Azure_request reqBody].
    assert (Hd := decode_request "" req stream (Forall_nil_2 _) HP). split; [|exact Hd].
    unfold ParseChatRequest. fold (decodeRequest (MarshalRequest "" req stream)). by rewrite Hd.
Qed.
End Requests.

(** ** Concrete values *)

(** Two floating-point numbers, zero and a half, stand for the type. *)
#[local] Instance demo_float : Float32 := {
  float32 := bool; f32_zero := false; f32_parse := fun s => Some (s =s "0.5");
  f32_is_zero := negb; f32_print := fun b : bool => if b then "0.5" else "0"
}.

#[local] Instance demo_float_laws : Float32Laws.
Proof. split; intros []; done. Qed.

#[local] Instance demo_json_error : JsonError := fun _ => "invalid".

#[local] Instance demo_query : UrlQuery := fun u k v => Some (u +:+ "?" +:+ k +:+ "=" +:+ v).

Definition demo_request : ChatRequest :=
  mkChatRequest demo_float "m" [mkMessage "user" "hi"] true 7 false.

Lemma request_roundtrip_witness :
  ParseChatRequest (reqBody (OpenAI_request (mkOpenAI "http://up" "" "gpt" (NewHTTPClient 0)) demo_request true)) =
    inl (mkChatRequest demo_float "gpt" [mkMessage "user" "hi"] true 7 true) /\
  ParseChatRequest (reqBody (Azure_request (mkAzure "http://up" "" "gpt" "v1" (NewHTTPClient 0)) demo_request true)) =
    inr (errorsNew "model is required").
Proof.
  destruct (request_roundtrip demo_request true) as [Ho Hz].
  - split; simpl; [done|repeat constructor..|by split].
    all: by vm_compute.
  - split; [|apply Hz].
    apply (Ho (mkOpenAI "http://up" "" "gpt" (NewHTTPClient 0))); [repeat constructor|by vm_compute|done].
Defined.

Lemma completion_roundtrip_witness :
  exists id, ParseCompletion (EncodeChatCompletion 5 9 (mkChatResponse "" "m" "hello" (mkUsage 1 2 3))).2 =
    inl (id, "hello", mkUsage 1 2 3).
Proof.
  eexists. apply (completion_roundtrip 5 9 (mkChatResponse "" "m" "hello" (mkUsage 1 2 3))).
  - repeat split; repeat constructor.
  - repeat split; by vm_compute.
  - by split.
  - by split.
Defined.

Definition demo_feed : Feed :=
  mkFeed (sse_event (Marshal (delta_json "Hello")) +:+ "data: [DONE]" +:+ newline) None ReadsAll "" None.

Lemma copy_stream_verbatim_witness :
  body_of (CopyStream demo_feed).1.1 = src demo_feed /\
  (CopyStream demo_feed).1.2 = Some (mkUsage 0 2 2).
Proof.
  destruct (copy_stream_verbatim demo_feed) as (_ & Hu & Hb & _). split.
  - by apply Hb.
  - rewrite Hu. by vm_compute.
Defined.
