(* ===== verification/Adapters.v ===== *)
(** * The adapters behind the registry ([openai], [azure], [claude] and the registrations
    of [cmd/main.go])

    The registry of the gateway holds adapters of three kinds. Every adapter
    answers [Chat] and [ChatStream]; what its errors look like decides how the gateway
    retries and how the breakers count. *)

From Stdlib Require Import ZArith Lia Ascii.
From stdpp Require Import prelude gmap list strings.
From S2P Require Import Prelude GoInt GoText GoErr Endpoint Provider Retry Json Types Http.
From S2P Require Import Sse OpenAICompat OpenAI Claude.

Local Open Scope Z_scope.

Section Adapters.
Context `{Unicode} `{Printable} `{Float32} `{JsonError} `{UrlQuery}.

Inductive Adapter :=
| AOpenAI (a : OpenAIAdapter)
| AAzure (a : AzureAdapter)
| AClaude (a : ClaudeAdapter).

Definition OpenAI_Register (reg : Registry (Adapter := Adapter)) : Registry :=
  Register "ollama" (fun ep => AOpenAI (OpenAI_New ep))
    (Register "openai" (fun ep => AOpenAI (OpenAI_New ep)) reg).

Definition Azure_Register (reg : Registry (Adapter := Adapter)) : Registry :=
  Register "azure" (fun ep => AAzure (Azure_New ep)) reg.

Definition Claude_Register (reg : Registry (Adapter := Adapter)) : Registry :=
  Register "anthropic" (fun ep => AClaude (Claude_New ep))
    (Register "claude" (fun ep => AClaude (Claude_New ep)) reg).

(** Lines 104-107 of [cmd/main.go]. *)
Definition registered : Registry := Claude_Register (Azure_Register (OpenAI_Register NewRegistry)).

(** The calls through the interface [ModelProvider]. *)
Definition Chat (a : Adapter) (client : HttpClient) (req : ChatRequest) : ChatResponse + error :=
  match a with
  | AOpenAI a => OpenAI_Chat a client req
  | AAzure a => Azure_Chat a client req
  | AClaude a => Claude_Chat a client req
  end.

Definition ChatStream (a : Adapter) (client : HttpClient) (path : Path) (req : ChatRequest)
    : list WriterOp * option Usage * option error :=
  match a with
  | AOpenAI a => OpenAI_ChatStream a client path req
  | AAzure a => Azure_ChatStream a client path req
  | AClaude a => Claude_ChatStream a client path req
  end.

(** The round trip of a call. *)
Definition do_ (a : Adapter) (client : HttpClient) (req : ChatRequest) (stream : bool)
    : HttpResponse + error :=
  match a with
  | AOpenAI a => OpenAI_do a client req stream
  | AAzure a => Azure_do a client req stream
  | AClaude a => Claude_do a client req stream
  end.

(** ** Which adapter serves an endpoint *)

Definition expected_adapter (ep : Endpoint) : option Adapter :=
  let name := providerName ep in
  if (name =s "openai") || (name =s "ollama") then Some (AOpenAI (OpenAI_New ep))
  else if name =s "azure" then Some (AAzure (Azure_New ep))
  else if (name =s "claude") || (name =s "anthropic") then Some (AClaude (Claude_New ep))
  else None.

Lemma factories_registered name :
  factories registered !! name =
    if (name =s "openai") || (name =s "ollama") then Some (fun ep => AOpenAI (OpenAI_New ep))
    else if name =s "azure" then Some (fun ep => AAzure (Azure_New ep))
    else if (name =s "claude") || (name =s "anthropic") then Some (fun ep => AClaude (Claude_New ep))
    else None.
Proof.
  unfold registered, Claude_Register, Azure_Register, OpenAI_Register, Register, NewRegistry.
  cbn [factories].
  assert (E : ToLower "anthropic" = "anthropic" /\ ToLower "claude" = "claude" /\
              ToLower "azure" = "azure" /\ ToLower "ollama" = "ollama" /\
              ToLower "openai" = "openai") by by vm_compute.
  destruct E as (-> & -> & -> & -> & ->).
  repeat (match goal with |- context [?n =s ?k] => destruct (n =s k) eqn:?; breflect; subst end;
          cbn [orb]);
    rewrite ?lookup_insert_ne by done; rewrite ?lookup_insert_eq; try done.
  all: rewrite ?lookup_insert_ne by done; by rewrite ?lookup_empty.
Qed.
End Adapters.
