(* ===== verification/AdaptersSpec.v ===== *)
(** * What the gateway may rely on from an adapter *)

From Stdlib Require Import ZArith Lia Ascii.
From stdpp Require Import prelude gmap list strings.
From S2P Require Import Prelude GoInt GoText GoErr Endpoint Provider Retry Json Types Http.
From S2P Require Import Sse SseSpec OpenAICompat OpenAI Claude ClaudeSpec Adapters.
From S2P Require Import Pool Gateway.

Local Open Scope Z_scope.

Section Spec.
Context `{Unicode} `{Printable} `{Float32} `{JsonError} `{UrlQuery}.

(** The adapter of an endpoint. The registry the program builds serves exactly the
    five provider names, in any case and with blanks around, the empty name being
    openai; the adapter is built from this endpoint; any other name is an error and
    leaves the registry as it is. *)
Theorem registered_adapter ep :
  let r := For ep registered in
  match expected_adapter ep with
  | Some a => r.1 = inl a /\ (For ep r.2).1 = inl a
  | None => r = (inr (errorsNew ("unknown provider " +:+ Quote (Endpoint.Provider ep))), registered)
  end.
Proof.
  cbn zeta. unfold For at 1 3 4. rewrite factories_registered.
  assert (Ec : cache registered !! cacheKey ep = None) by done.
  rewrite Ec. unfold expected_adapter.
  repeat match goal with |- context [if ?b then _ else _] => destruct b end; try done;
    cbn [fst snd]; (split; [done|]); unfold For; cbn [cache]; by rewrite lookup_insert_eq.
Qed.

(** ** Errors *)
















(** A call that fails because the client went away keeps nothing of that: it looks like a
    failure of the endpoint, is retried, and counts against its breaker. *)
Lemma canceled_call_blames_endpoint a client req latency err :
  newRequestErr client (reqURL (OpenAI_request a req false)) = None ->
  Do client (OpenAI_request a req false) = inr err -> is_canceled err = true ->
  exists e, Chat (AOpenAI a) client req = inr e /\ is_canceled e = false /\
    Classify (Some e) = Retry /\ failureResult e latency = mkResult false 0 latency true.
Proof.
  intros Hn Hd Hc. simpl. unfold OpenAI_Chat, OpenAI_do, send. rewrite Hn, Hd. simpl.
  eexists. split_and!; done.
Qed.

(** ** Probes and calls *)

Definition auth_header (a : Adapter) : string :=
  match a with AOpenAI _ => "Authorization" | AAzure _ => "api-key" | AClaude _ => "x-api-key" end.

Definition sent_request (a : Adapter) (req : ChatRequest) (stream : bool) : option HttpRequest :=
  match a with
  | AOpenAI a => Some (OpenAI_request a req stream)
  | AAzure a => Some (Azure_request a req stream)
  | AClaude a =>
      match marshalMessage (Claude_upstreamModel a (Types.Model req)) req stream with
      | inr _ => None
      | inl payload => Some (Claude_request a payload)
      end
  end.

(** The request is what the call sends. *)
Lemma do_sends a client req stream r :
  sent_request a req stream = Some r -> do_ a client req stream = send client r.
Proof.
  destruct a as [a|a|a]; simpl; [by intros [= <-]..|]. unfold Claude_do.
  destruct (marshalMessage _ _ _); [by intros [= <-]|done].
Qed.

(** *** URLs of Azure calls

    The call's URL goes through [url.Parse], [Query], [Set], [Encode] and [String]. On a URL
    of plain bytes without a query, with an escaped path, these append the parameter. *)
Definition word_byte (z : Z) : bool :=
  between 0x61 0x7A z || between 0x41 0x5A z || between 0x30 0x39 z
  || bool_decide (of_byte z ∈ chars "-_.~").

Definition clean_word (s : string) : bool := forallb (fun a => word_byte (byte_of a)) (chars s).

Definition clean_base (s : string) : bool :=
  match cut_prefix "http://" s, cut_prefix "https://" s with
  | Some rest, _ | None, Some rest =>
      forallb (fun a => word_byte (byte_of a) || bool_decide (a ∈ chars ":/")) (chars rest)
  | None, None => false
  end.

Definition hex_digit (a : ascii) : bool :=
  between 0x30 0x39 (byte_of a) || between 0x41 0x46 (byte_of a).

Fixpoint escaped_path (l : list ascii) : bool :=
  match l with
  | [] => true
  | a :: l =>
      if bool_decide (a = "%"%char) then
        match l with
        | b :: c :: l => hex_digit b && hex_digit c && escaped_path l
        | _ => false
        end
      else (path_safe (byte_of a) || bool_decide (a = "/"%char)) && escaped_path l
  end.

Class UrlQueryLaws `{UrlQuery} := url_with_query_spec base path k v u :
  clean_base base = true -> escaped_path (chars path) = true ->
  clean_word k = true -> clean_word v = true ->
  url_with_query (base +:+ path) k v = Some u ->
  u = base +:+ path +:+ "?" +:+ k +:+ "=" +:+ v.

Lemma escaped_path_app l k : escaped_path l = true -> escaped_path k = true -> escaped_path (l ++ k) = true.
Proof.
  intros Hl Hk. remember (length l) as n eqn:En. revert l En Hl.
  induction n as [n IH] using lt_wf_ind. intros l -> Hl. destruct l as [|a l]; [done|].
  cbn [escaped_path app] in *. case_bool_decide.
  - destruct l as [|b [|c l]]; [done..|]. simpl in Hl |- *.
    apply andb_true_iff in Hl as [-> Hl]. simpl. apply (IH (length l)); simpl; auto; lia.
  - apply andb_true_iff in Hl as [-> Hl]. simpl. apply (IH (length l)); simpl; auto; lia.
Qed.

Lemma escape_byte_path a : escaped_path (escape_byte a) = true.
Proof. destruct a as [[] [] [] [] [] [] [] []]; vm_compute; reflexivity. Qed.

Lemma PathEscape_path s : escaped_path (chars (PathEscape s)) = true.
Proof.
  unfold PathEscape. rewrite chars_unchars.
  induction (chars s) as [|a l IH]; [done|]. cbn [fmap list_fmap mjoin list_join].
  apply escaped_path_app; [apply escape_byte_path|exact IH].
Qed.

Lemma Kind_of_name ep :
  providerName ep = Kind ep \/ (Kind ep = "" /\ providerName ep = "openai").
Proof.
  unfold providerName, Kind. destruct (ToLower (TrimSpace (Endpoint.Provider ep)) =s "") eqn:E;
    breflect; auto.
Qed.

Lemma auth_absent k v :
  CanonicalHeaderKey k <> "Content-Type" ->
  header_get k (header_set "Content-Type" v ∅) = "".
Proof. intros Hk. unfold header_get, header_set. by rewrite lookup_insert_ne. Qed.

Lemma expected_kind ep a :
  expected_adapter ep = Some a ->
  ((Kind ep = "openai" \/ Kind ep = "ollama" \/ Kind ep = "") /\ a = AOpenAI (OpenAI_New ep)) \/
  (Kind ep = "azure" /\ a = AAzure (Azure_New ep)) \/
  ((Kind ep = "claude" \/ Kind ep = "anthropic") /\ a = AClaude (Claude_New ep)).
Proof.
  unfold expected_adapter. intros Ha. destruct (Kind_of_name ep) as [E|[E E']].
  - rewrite E in Ha. repeat hcase Ha; simplify_eq; breflect; tauto.
  - rewrite E' in Ha. injection Ha as <-. auto.
Qed.

Lemma x_api_key_other v (h : Header) :
  header_get "x-api-key" (header_set "anthropic-version" v h) = header_get "x-api-key" h.
Proof. by rewrite header_get_set_ne by (vm_compute; done). Qed.

Lemma SetAuth_bearer ep h :
  (APIKey ep =s "") = false -> Kind ep = "openai" \/ Kind ep = "ollama" \/ Kind ep = "" ->
  SetAuth ep (Some h) = Some (header_set "Authorization" ("Bearer " +:+ APIKey ep) h).
Proof. intros E Hk. unfold SetAuth. rewrite E. by destruct Hk as [-> | [-> | ->]]. Qed.

Lemma SetAuth_azure ep h :
  (APIKey ep =s "") = false -> Kind ep = "azure" ->
  SetAuth ep (Some h) = Some (header_set "api-key" (APIKey ep) h).
Proof. intros E Hk. unfold SetAuth. by rewrite E, Hk. Qed.

Lemma SetAuth_claude ep h :
  (APIKey ep =s "") = false -> Kind ep = "claude" \/ Kind ep = "anthropic" ->
  SetAuth ep (Some h) =
    Some (header_set "anthropic-version" (AnthropicVersion ep) (header_set "x-api-key" (APIKey ep) h)).
Proof. intros E Hk. unfold SetAuth. rewrite E. by destruct Hk as [-> | ->]. Qed.

Lemma SetAuth_none ep h : (APIKey ep =s "") = true -> SetAuth ep (Some h) = Some h.
Proof. intros E. unfold SetAuth. by rewrite E. Qed.

Lemma Azure_chatURL_clean `{!UrlQueryLaws} ep requested :
  let base := TrimRight1 "/"%char (BaseURL ep) in
  let deploy := if ModelName ep =s "" then requested else ModelName ep in
  clean_base base = true -> clean_word (AzureAPIVersion ep) = true ->
  exists d, (d = PathEscape deploy \/ d = deploy) /\
    Azure_chatURL (Azure_New ep) requested =
      base +:+ (if Contains base "/openai" then "" else "/openai") +:+ "/deployments/" +:+ d
        +:+ "/chat/completions?api-version=" +:+ AzureAPIVersion ep.
Proof.
  intros base deploy Hb Hv. unfold Azure_chatURL, Azure_New.
  cbn [zBaseURL zDeployment zAPIVersion]. fold base. fold deploy.
  set (root := if negb (Contains base "/openai") then _ else _).
  assert (Hroot : root = base +:+ (if Contains base "/openai" then "" else "/openai")).
  { unfold root. destruct (Contains base "/openai"); simpl; [by rewrite app_empty_r|done]. }
  clearbody root. subst root. set (pre := if Contains base "/openai" then "" else "/openai").
  destruct (url_with_query _ _ _) as [u|] eqn:E.
  - exists (PathEscape deploy). split; [by left|].
    assert (Hp : escaped_path (chars (pre +:+ "/deployments/" +:+ PathEscape deploy +:+ "/chat/completions")) = true).
    { rewrite !chars_app. repeat apply escaped_path_app; try apply PathEscape_path; [|done..].
      unfold pre. by destruct (Contains base "/openai"). }
    rewrite !app_assoc_s in E.
    pose proof (url_with_query_spec _ _ "api-version" _ _ Hb Hp eq_refl Hv E) as ->.
    rewrite !app_assoc_s. done.
  - exists deploy. split; [by right|]. by rewrite !app_assoc_s.
Qed.

(** C37. The health prober and the adapter of an endpoint mean the same server: the URL
    of every call and the URL of the probe are these. For OpenAI and Anthropic endpoints
    they have the same root. For Azure ones (when the base URL and the API version are of plain
    characters; the deployment is escaped, unless its URL does not parse) the call goes to
    [/openai] under the base URL, like the probe, unless that URL already holds [/openai]:
    then the probe doubles it and the call does not. And every call carries the same
    credentials header as the probe. *)
Theorem probe_matches_adapter `{!UrlQueryLaws} ep a req stream r :
  expected_adapter ep = Some a -> sent_request a req stream = Some r ->
  let base := TrimRight1 "/"%char (BaseURL ep) in
  (forall client, do_ a client req stream = send client r) /\
  match a with
  | AOpenAI _ => ProbeURL ep = base +:+ "/models" /\ reqURL r = base +:+ "/chat/completions"
  | AClaude _ =>
      let root := if HasSuffix base "/v1" then base else base +:+ "/v1" in
      ProbeURL ep = root +:+ "/models" /\ reqURL r = root +:+ "/messages"
  | AAzure _ =>
      let deploy := if ModelName ep =s "" then Types.Model req else ModelName ep in
      ProbeURL ep = base +:+ "/openai/models?api-version=" +:+ AzureAPIVersion ep /\
      (clean_base base = true -> clean_word (AzureAPIVersion ep) = true ->
       exists d, (d = PathEscape deploy \/ d = deploy) /\
         reqURL r =
           base +:+ (if Contains base "/openai" then "" else "/openai") +:+ "/deployments/" +:+ d
             +:+ "/chat/completions?api-version=" +:+ AzureAPIVersion ep)
  end /\
  match SetAuth ep (Some ∅) with
  | Some h => header_get (auth_header a) (reqHeader r) = header_get (auth_header a) h
  | None => False
  end.
Proof.
  intros Ha Hr base. split; [intros client; by apply do_sends|].
  destruct (expected_kind ep a Ha) as [[Hk ->]|[[Hk ->]|[Hk ->]]].
  - injection Hr as <-. split.
    + unfold ProbeURL. by destruct Hk as [->|[->| ->]].
    + unfold OpenAI_request, OpenAI_New, auth_header. cbn [oAPIKey reqHeader].
      destruct (APIKey ep =s "") eqn:E; cbn [negb].
      * rewrite SetAuth_none by done. rewrite auth_absent by (vm_compute; done); done.
      * rewrite (SetAuth_bearer _ _ E Hk). by rewrite !header_get_set.
  - injection Hr as <-. split; [split|].
    + unfold ProbeURL. by rewrite Hk.
    + apply Azure_chatURL_clean.
    + unfold Azure_request, Azure_New, auth_header. cbn [zAPIKey reqHeader].
      destruct (APIKey ep =s "") eqn:E; cbn [negb].
      * rewrite SetAuth_none by done. rewrite auth_absent by (vm_compute; done); done.
      * rewrite (SetAuth_azure _ _ E Hk). by rewrite !header_get_set.
  - cbn [sent_request] in Hr. destruct (marshalMessage _ _ _) as [payload|]; [|done].
    injection Hr as <-. split.
    + unfold ProbeURL, Claude_request, Claude_New. cbn [kBaseURL reqURL]. fold base.
      destruct Hk as [-> | ->]; simpl; destruct (HasSuffix base "/v1"); simpl; by rewrite ?app_assoc_s.
    + unfold Claude_request, Claude_New, auth_header. cbn [kAPIKey kBaseURL kVersion reqHeader].
      destruct (APIKey ep =s "") eqn:E; cbn [negb]; rewrite x_api_key_other.
      * rewrite SetAuth_none by done. rewrite auth_absent by (vm_compute; done); done.
      * rewrite (SetAuth_claude _ _ E Hk). by rewrite x_api_key_other, !header_get_set.
Qed.
End Spec.

(** ** Concrete values *)
Section Demo.
#[local] Instance demo_lower : Unicode := fun r => r.
#[local] Instance demo_quote : Printable := fun _ => true.
#[local] Instance demo_float : Float32 := {
  float32 := bool; f32_zero := false; f32_parse := fun s => Some (s =s "0.5");
  f32_is_zero := negb; f32_print := fun b : bool => if b then "0.5" else "0"
}.
#[local] Instance demo_json_error : JsonError := fun _ => "invalid".
#[local] Instance demo_query : UrlQuery := fun u k v => Some (u +:+ "?" +:+ k +:+ "=" +:+ v).


Definition demo_request : ChatRequest := mkChatRequest demo_float "fast" [mkMessage "user" "hi"] false 7 false.




Definition demo_azure : Endpoint :=
  mkEndpoint "z" "azure" "fast" "gpt 4" "https://x.openai.azure.com/" "secret" "" 1 0 "2024-06-01".

#[local] Instance demo_query_laws : UrlQueryLaws.
Proof. intros base path k v u _ _ _ _ [= <-]. by rewrite app_assoc_s. Qed.

Lemma probe_matches_adapter_witness :
  exists r, sent_request (AAzure (Azure_New demo_azure)) demo_request false = Some r /\
    ProbeURL demo_azure = "https://x.openai.azure.com/openai/models?api-version=2024-06-01" /\
    (exists d, (d = "gpt%204" \/ d = "gpt 4") /\
      reqURL r = "https://x.openai.azure.com/openai/deployments/" +:+ d
        +:+ "/chat/completions?api-version=2024-06-01") /\
    header_get "api-key" (reqHeader r) = "secret".
Proof.
  eexists. split; [reflexivity|].
  destruct (probe_matches_adapter demo_azure (AAzure (Azure_New demo_azure)) demo_request false _
    eq_refl eq_refl) as (_ & [Hp Hu] & Hk).
  split; [by rewrite Hp|]. split; [|exact Hk].
  destruct (Hu eq_refl eq_refl) as (d & Hd & Hr). exists d. split; [exact Hd|]. exact Hr.
Defined.
End Demo.
