(* ===== verification/Proxy.v ===== *)
(** * The streaming proxy ([pkg/proxy/proxy.go])

    A request is admitted ([admitRequest]: lines 112-167) or answered at once; an admitted one
    is given to the scheduler, and from then on three goroutines share its account: the
    handler, which waits for [Submit] and refunds when it fails, the job, which runs the
    reverse proxy, and the goroutine of [modifyResponse], which settles when the upstream's
    answer ends. What they do is a sequence of [event]s, in any order the
    guards of [exec] allow. *)

From Stdlib Require Import ZArith Lia Ascii.
From stdpp Require Import prelude gmap list strings.
From S2P Require Import Prelude GoInt GoText GoErr Endpoint Redis Limiter Json Types.
From S2P Require Import PrefixCache Http Scheduler Sse.

Local Open Scope Z_scope.

Definition prefixCacheHeader : string := "X-Prefix-Cache-Hit".

(** ** Addresses: the host of [net.SplitHostPort] *)

Definition split_last (c : ascii) (l : list ascii) : option (list ascii * list ascii) :=
  match find (fun i => bool_decide (l !! i = Some c)) (rev (List.seq 0 (length l))) with
  | Some i => Some (take i l, drop (S i) l)
  | None => None
  end.

Definition has_byte (c : ascii) (l : list ascii) : bool := bool_decide (c ∈ l).

(** The host, or [None] for an address error. *)
Definition SplitHost (hostport : string) : option string :=
  let l := chars hostport in
  '(before_, after) ← split_last ":"%char l;
  match l with
  | a :: l' =>
      if bool_decide (a = "["%char) then
        let '(host, tl, found) := Cut1 "]"%char (unchars l') in
        if negb found then None
        else if negb (bool_decide (chars tl = ":"%char :: after)) then None
        else if has_byte "["%char (chars host) || has_byte "["%char after then None
        else if has_byte "]"%char after then None
        else Some host
      else if has_byte ":"%char before_ then None
      else if has_byte "["%char l || has_byte "]"%char l then None
      else Some (unchars before_)
  | [] => None
  end.

(** ** Requests *)
Record Request := mkRequest {
  urlPath : string;
  header : Header;
  remoteAddr : string;
  bodyBytes : string + error
}.

Definition set_header (h : Header) (r : Request) : Request :=
  mkRequest (urlPath r) h (remoteAddr r) (bodyBytes r).

Definition clientKey (r : Request) : string :=
  let id := TrimSpace (header_get "X-User-ID" (header r)) in
  if negb (id =s "") then id
  else
    let xff := header_get "X-Forwarded-For" (header r) in
    if negb (xff =s "") then
      let '(ip, _, _) := Cut1 ","%char xff in TrimSpace ip
    else
      match SplitHost (remoteAddr r) with
      | None => remoteAddr r
      | Some ip => ip
      end.

Definition isHighPriority `{Unicode} (r : Request) (promptTokens shortTextTokens : Z) : bool :=
  let tier := ToLower (TrimSpace (header_get "X-User-Tier" (header r))) in
  let priority := ToLower (TrimSpace (header_get "X-Priority" (header r))) in
  if (tier =s "vip") || (priority =s "high") then true
  else (promptTokens >? 0) && (promptTokens <=? shortTextTokens).

Definition maxPrefix : nat := 128.

Definition systemPrefix (prompt : string) : string :=
  let rs := runes (TrimSpace prompt) in
  match rs with
  | [] => ""
  | _ => if bool_decide (maxPrefix < length rs)%nat then of_runes (take maxPrefix rs)
         else of_runes rs
  end.

(** ** The proxy *)

(** [encoder] counts the tokens of a text, when tiktoken is available. *)
Record Proxy := mkProxy {
  hasPrefix : bool;
  encoder : option (string -> Z);
  shortTextTokens : Z;
  completionReserve : Z
}.

Record Config := mkConfig {
  cUpstream : bool;
  cLimiter : bool;
  cScheduler : bool;
  cPrefix : bool;
  cEncoder : option (string -> Z);
  ShortTextTokens : Z;
  CompletionReserve : Z
}.

(** [New]; the flags tell which pointers are not nil. *)
Definition New (cfg : Config) : Proxy + error :=
  if negb (cUpstream cfg) then inr (errorsNew "upstream URL is required")
  else if negb (cLimiter cfg) then inr (errorsNew "limiter is required")
  else if negb (cScheduler cfg) then inr (errorsNew "scheduler is required")
  else
    inl (mkProxy (cPrefix cfg) (cEncoder cfg)
      (if ShortTextTokens cfg <? 1 then 128 else ShortTextTokens cfg)
      (if CompletionReserve cfg <? 1 then 256 else CompletionReserve cfg)).

Definition countTokens (p : Proxy) (text : string) : Z :=
  if text =s "" then 0
  else
    match encoder p with
    | Some count => count text
    | None =>
        let n := Z.quot (slen text + 3) 4 in
        if n <? 1 then 1 else n
    end.

Definition dec_maxTokens : Decoder Z :=
  dec_struct [("max_tokens", fld (fun z => z) (fun x _ => x) dec_int)].

Definition completionReserveFrom (p : Proxy) (body : string) : Z :=
  match (j ← Unmarshal body; dec_maxTokens j 0) with
  | Some m => if m >? 0 then m else completionReserve p
  | None => completionReserve p
  end.

Inductive LogEntry :=
| LogPrefixHit (user : string) (matchedLen promptLen : Z)
| LogRefundFailed (err : error)
| LogSettleFailed (err : error)
| LogSettled (user : string) (preDeducted actual : Z)
| LogReadStream (err : error)
| LogUpstreamFailed (path : string) (err : error)
| LogPreDeductFailed (err : option error).

(** ** The answer of the upstream as it passes through *)

(** The loop of [teeAndCount]: what was written, the text and the usage. *)
Fixpoint teeLoop (dst : Client) (lines : list string) (st : string * (string * streamUsage))
    : string * (string * streamUsage) :=
  match lines with
  | [] => st
  | line :: lines =>
      let '(out, acc) := st in
      let '(ok, dst) := try_write dst in
      teeLoop dst lines (if ok : bool then out +:+ line else out, parseSSELine line acc)
  end.

(** The tokens of a finished stream. *)
Definition actualTokens (p : Proxy) (promptTokens : Z) (generated : string) (usage : streamUsage)
    : Z :=
  if TotalTokens usage >? 0 then TotalTokens usage
  else
    let completion := if CompletionTokens usage >? 0 then CompletionTokens usage
                      else countTokens p generated in
    let prompt := if PromptTokens usage >? 0 then PromptTokens usage else promptTokens in
    wrap64 (prompt + completion).

(** [teeAndCount]: the bytes the client gets, the tokens, and the log; [readErr] is [None] for
    [io.EOF]. *)
Definition teeAndCount (p : Proxy) (src : string) (readErr : option error) (dst : Client)
    (promptTokens : Z) : string * Z * list LogEntry :=
  let '(out, (generated, usage)) := teeLoop dst (read_lines src) ("", ("", zeroStreamUsage)) in
  (out, actualTokens p promptTokens generated usage,
   match readErr with
   | Some err => if is_sentinel err ErrClosedPipe then [] else [LogReadStream err]
   | None => []
   end).

Definition writeDeductError (err : option error) (w : Response) : Response * list LogEntry :=
  if from_option (fun e => is_sentinel e ErrRateLimitExceeded) false err then
    (http_Error "rate limited" 429 (w_SetHeader "Retry-After" "1" w), [])
  else if from_option (fun e => is_sentinel e ErrInsufficientBalance) false err then
    (http_Error "insufficient balance" 402 w, [])
  else (http_Error "limiter unavailable" 503 w, [LogPreDeductFailed err]).

Section Requests.
Context `{Unicode} `{Printable} {St : Type} `{Redis St} {T : Type} `{RadixTree T}.

Record World := mkWorld {
  wLimiter : Limiter St;
  wDb : St;
  wPrefix : PrefixIndexer (T := T);
  wErrors : Z;
  wLog : list LogEntry
}.

Definition set_db (db : St) (w : World) : World :=
  mkWorld (wLimiter w) db (wPrefix w) (wErrors w) (wLog w).
Definition add_log (l : list LogEntry) (w : World) : World :=
  mkWorld (wLimiter w) (wDb w) (wPrefix w) (wErrors w) (wLog w ++ l).
Definition add_error (w : World) : World :=
  mkWorld (wLimiter w) (wDb w) (wPrefix w) (wrapU64 (wErrors w + 1)) (wLog w).

(** The values a request carries in its context. *)
Record ReqCtx := mkReqCtx { ctxUserID : string; ctxPreDeducted : Z; ctxPromptTokens : Z }.

(** Lines 136-151. *)
Definition lookupPrefix (p : Proxy) (user prompt : string)
    (s : Request * Response * PrefixIndexer (T := T))
    : Request * Response * PrefixIndexer (T := T) * list LogEntry :=
  let '(r, w, ix) := s in
  if hasPrefix p && negb (prompt =s "") then
    let '(hit, matchedLen) := MatchPrefix prompt ix in
    let r := if hit then set_header (header_set prefixCacheHeader "true" (header r)) r else r in
    let w := if hit then w_SetHeader prefixCacheHeader "true" w else w in
    let logs := if hit then [LogPrefixHit user matchedLen (slen prompt)] else [] in
    let sys := systemPrefix prompt in
    (r, w, if negb (sys =s "") then PrefixCache.Insert sys ix else ix, logs)
  else (r, w, ix, []).

(** What becomes of a request before it reaches the scheduler. *)
Inductive Admission :=
| Answered
| Submitted (r : Request) (c : ReqCtx) (pr : Priority).

(** Lines 112-167. *)
Definition admitRequest (p : Proxy) (r : Request) (env : Env St) (w : World) (rw : Response)
    : Admission * World * Response :=
  if urlPath r =s "/healthz" then
    (Answered, w, w_Write ("ok" +:+ newline) (w_WriteHeader 200 rw))
  else
    match bodyBytes r with
    | inr _ => (Answered, w, http_Error "read body" 400 rw)
    | inl body =>
      let userID := clientKey r in
      let prompt := promptFromChatBody body in
      let promptTokens := countTokens p prompt in
      let preDeducted := wrap64 (promptTokens + completionReserveFrom p body) in
      let '(r, rw, ix, logs) := lookupPrefix p userID prompt (r, rw, wPrefix w) in
      let '(allowed, err, l, db) := PreDeduct (wLimiter w) userID preDeducted env (wDb w) in
      let w := mkWorld l db ix (wErrors w) (wLog w ++ logs) in
      if bool_decide (is_Some err) || negb allowed then
        let '(rw, logs) := writeDeductError err rw in
        (Answered, add_log logs w, rw)
      else
        (Submitted r (mkReqCtx userID preDeducted promptTokens)
           (if isHighPriority r promptTokens (shortTextTokens p) then PriorityHigh else PriorityLow),
         w, rw)
    end.

(** ** An admitted request *)

(** How the reverse proxy's round trip ends: with an error, or with an answer, of which
    it copies the head ([ops]) and then the body. *)
Inductive Upstream :=
| UpError (err : error)
| UpAnswer (ops : list WriterOp) (src : string) (readErr : option error) (dst : Client).

Inductive event :=
| EJob (u : Upstream) (n : Net)
| ESettle (n : Net)
| EReturn (r : Outcome) (n : Net)
| EOther (f : St -> St).

(** The goroutines of the request: did the job run, which count is left to settle, what
    did [Submit] return. *)
Record Flight := mkFlight {
  fWorld : World;
  fWriter : Response;
  fJob : option Upstream;
  fToSettle : option Z;
  fReturned : option Outcome
}.

Definition with_world (w : World) (f : Flight) : Flight :=
  mkFlight w (fWriter f) (fJob f) (fToSettle f) (fReturned f).

(** [errorHandler]. *)
Definition errorHandler (path : string) (c : ReqCtx) (err : error) (n : Net) (w : World)
    (rw : Response) : World * Response :=
  let w := add_log [LogUpstreamFailed path err] (add_error w) in
  let w :=
    if negb (ctxUserID c =s "") && (ctxPreDeducted c >? 0) then
      let '(err, db) := SettleQuota (ctxUserID c) (ctxPreDeducted c) 0 n (wDb w) in
      add_log (match err with Some e => [LogRefundFailed e] | None => [] end) (set_db db w)
    else w in
  (w, http_Error "bad gateway" 502 rw).

(** [modifyResponse] up to the end of the copy: the writer, and the count left to
    settle. *)
Definition modifyResponse (p : Proxy) (c : ReqCtx) (ops : list WriterOp) (src : string)
    (readErr : option error) (dst : Client) (w : World) (rw : Response)
    : World * Response * option Z :=
  let rw := apply_ops ops rw in
  if ctxUserID c =s "" then (w, w_Write src rw, None)
  else
    let '(out, actual, logs) := teeAndCount p src readErr dst (ctxPromptTokens c) in
    (add_log logs w, w_Write out rw, Some actual).

(** Lines 199-208. *)
Definition settle (c : ReqCtx) (actual : Z) (n : Net) (w : World) : World :=
  let '(err, db) := SettleQuota (ctxUserID c) (ctxPreDeducted c) actual n (wDb w) in
  add_log [match err with
           | Some e => LogSettleFailed e
           | None => LogSettled (ctxUserID c) (ctxPreDeducted c) actual
           end] (set_db db w).

(** Lines 172-182. *)
Definition afterSubmit (c : ReqCtx) (r : Outcome) (n : Net) (w : World)
    (rw : Response) : World * Response :=
  match r with
  | RNil => (w, rw)
  | _ =>
      let '(err, db) := SettleQuota (ctxUserID c) (ctxPreDeducted c) 0 n (wDb w) in
      let w := add_log (match err with Some e => [LogRefundFailed e] | None => [] end) (set_db db w) in
      (w, if bool_decide (r = RCtxErr) then http_Error "request canceled" 504 rw
          else http_Error "scheduler unavailable" 503 rw)
  end.

(** The scheduler runs the job at most once; [Submit] returns once. *)
Definition exec (p : Proxy) (path : string) (c : ReqCtx) (e : event) (f : Flight)
    : option Flight :=
  match e with
  | EJob u n =>
      match fJob f with
      | Some _ => None
      | None =>
          match u with
          | UpError err =>
              let '(w, rw) := errorHandler path c err n (fWorld f) (fWriter f) in
              Some (mkFlight w rw (Some u) None (fReturned f))
          | UpAnswer ops src readErr dst =>
              let '(w, rw, pending) := modifyResponse p c ops src readErr dst (fWorld f) (fWriter f) in
              Some (mkFlight w rw (Some u) pending (fReturned f))
          end
      end
  | ESettle n =>
      match fToSettle f with
      | None => None
      | Some actual =>
          Some (mkFlight (settle c actual n (fWorld f)) (fWriter f) (fJob f) None (fReturned f))
      end
  | EReturn r n =>
      match fReturned f with
      | Some _ => None
      | None =>
          let '(w, rw) := afterSubmit c r n (fWorld f) (fWriter f) in
          Some (mkFlight w rw (fJob f) (fToSettle f) (Some r))
      end
  | EOther g => Some (with_world (set_db (g (wDb (fWorld f))) (fWorld f)) f)
  end.

Fixpoint exec_all (p : Proxy) (path : string) (c : ReqCtx) (es : list event) (f : Flight)
    : option Flight :=
  match es with
  | [] => Some f
  | e :: es => f ← exec p path c e f; exec_all p path c es f
  end.

(** The whole request: its admission, and the events of its goroutines. *)
Definition ServeHTTP (p : Proxy) (r : Request) (env : Env St) (es : list event) (w : World)
    (rw : Response) : option Flight :=
  let '(a, w, rw) := admitRequest p r env w rw in
  let f := mkFlight w rw None None None in
  match a with
  | Answered => Some f
  | Submitted r c _ => exec_all p (urlPath r) c es f
  end.
End Requests.
