(* ===== verification/ProxySpec.v ===== *)
(** * What the streaming proxy promises *)

From Stdlib Require Import ZArith Lia Ascii.
From stdpp Require Import prelude gmap list strings.
From S2P Require Import Prelude GoInt GoText GoErr Endpoint Redis Limiter LimiterSpec.
From S2P Require Import Json JsonSpec Types PrefixCache Http Scheduler Sse OpenAICompat SseSpec.
From S2P Require Import OpenAI Claude ClaudeSpec OpenAISpec Proxy.

Local Open Scope Z_scope.

(** ** The stream *)

Definition read_stream (s : string) : string * streamUsage :=
  foldl (fun st line => parseSSELine line st) ("", zeroStreamUsage) (read_lines s).

Lemma teeLoop_spec lines : forall dst out acc,
  teeLoop dst lines (out, acc) =
    (out +:+ concat_s (accepted dst lines), foldl (fun st l => parseSSELine l st) acc lines).
Proof.
  induction lines as [|line lines IH]; intros dst out acc.
  { simpl. destruct dst; simpl; by rewrite ?take_nil, app_empty_r. }
  cbn [teeLoop]. rewrite try_write_accepted, concat_s_app.
  destruct (try_write dst) as [ok dst']. rewrite IH. cbn [fst snd].
  destruct ok; simpl; by rewrite ?app_empty_r, ?app_assoc_s.
Qed.

(** The lines of one event of the gateway, for the proxy's parser. *)
Definition proxy_read (s : string) (st : string * streamUsage) : string * streamUsage :=
  foldl (fun st line => parseSSELine line st) st (read_lines s).

Lemma proxy_event j l k st chunk :
  j = JObj l -> nl ∉ chars (Marshal j) -> canonical 0 j ->
  Sse.dec_streamChunk j zeroChunk = Some chunk ->
  proxy_read (sse_event (Marshal j) +:+ k) st =
    proxy_read k
      (foldl (fun g c => g +:+ choice_text c) st.1 (Sse.Choices chunk)
         +:+ chunkMessage chunk +:+ chunkResponse chunk,
       if (TotalTokens (Sse.chunkUsage chunk) >? 0) || (CompletionTokens (Sse.chunkUsage chunk) >? 0)
       then Sse.chunkUsage chunk else st.2).
Proof.
  intros -> Hn Hc Hd. unfold proxy_read. rewrite sse_event_lines by done. cbn [foldl].
  unfold parseSSELine at 2 3. rewrite sse_payload_newline. cbn [mbind option_bind].
  rewrite sse_payload_event by (apply Marshal_obj_Solid || apply Marshal_obj_not_done).
  cbn [mbind option_bind]. unfold Marshal at 1. rewrite Unmarshal_marshal by done.
  cbn [mbind option_bind]. rewrite Hd. by destruct st.
Qed.

Lemma proxy_deltas texts : forall k st, Forall (fun t => ascii_only (chars t)) texts ->
  proxy_read (concat_s ((fun t => sse_event (Marshal (delta_json t))) <$> texts) +:+ k) st =
    proxy_read k (st.1 +:+ concat_s texts, st.2).
Proof.
  induction texts as [|t texts IH]; intros k st HF; simpl.
  - rewrite app_empty_r. by destruct st.
  - apply Forall_cons in HF as [Ht HF]. rewrite app_assoc_s.
    erewrite proxy_event; [|reflexivity|by apply delta_json_nl|by apply delta_json_canonical|].
    2: { assert (E : Sse.dec_streamChunk (delta_json t) zeroChunk =
                     Some (Sse.mkStreamChunk [mkStreamChoice t "" ""] "" "" zeroStreamUsage))
           by (vm_compute; done). exact E. }
    cbn [Sse.Choices chunkMessage chunkResponse Sse.chunkUsage foldl].
    rewrite IH by done. unfold choice_text. cbn [deltaContent choiceText messageContent fst snd].
    rewrite !app_empty_r, app_assoc_s. done.
Qed.

Lemma dec_stream_usage ja jb jc a b c z :
  (forall x, dec_int ja x = Some a) -> (forall x, dec_int jb x = Some b) ->
  (forall x, dec_int jc x = Some c) ->
  dec_streamUsage (obj [("prompt_tokens", ja); ("completion_tokens", jb); ("total_tokens", jc)]) z =
    Some (mkStreamUsage a b c).
Proof. intros Ha Hb Hc. lazy -[dec_int Marshal]. by rewrite Ha, Hb, Hc. Qed.

Lemma dec_stream_member j u :
  (forall x, dec_streamUsage j x = Some u) ->
  Sse.dec_streamChunk (obj [("usage", j)]) zeroChunk = Some (Sse.mkStreamChunk [] "" "" u).
Proof. intros H. lazy -[dec_streamUsage Marshal]. by rewrite H. Qed.

Definition of_usage (u : Usage) : streamUsage :=
  mkStreamUsage (Types.PromptTokens u) (Types.CompletionTokens u) (Types.TotalTokens u).

Lemma proxy_usage u k st : usage_in_range u ->
  proxy_read (sse_event (Marshal (usage_event_json u)) +:+ k) st =
    proxy_read k (st.1, if (Types.TotalTokens u >? 0) || (Types.CompletionTokens u >? 0)
                        then of_usage u else st.2).
Proof.
  intros Hu. erewrite proxy_event;
    [|reflexivity|apply usage_event_nl|by apply usage_event_canonical|].
  2: { apply (dec_stream_member _ (of_usage u)). destruct Hu as (U1 & U2 & U3). intros x.
       apply dec_stream_usage; intros; by apply JInt_roundtrip. }
  cbn [Sse.Choices chunkMessage chunkResponse Sse.chunkUsage foldl]. by rewrite !app_empty_r.
Qed.

Lemma proxy_done st : proxy_read ("data: [DONE]" +:+ newline +:+ newline) st = st.
Proof. unfold proxy_read. rewrite sse_done_lines. by destruct st. Qed.

(** A stream as the gateway's Anthropic adapter writes it. *)
Definition gateway_stream (texts : list string) (usage : option Usage) : string :=
  concat_s ((fun t => sse_event (Marshal (delta_json t))) <$> texts) +:+
  match usage with Some u => sse_event (Marshal (usage_event_json u)) | None => "" end +:+
  ("data: [DONE]" +:+ newline +:+ newline).

(** C33. The proxy passes a stream on and counts it. The client gets the lines it
    takes, all of the stream if it takes all; the count does not depend on the client; and
    of a stream of text events it is the total of a usage event that has one, or
    else the prompt's tokens and those of the whole text. *)
Theorem proxy_stream_count p src readErr dst promptTokens :
  let r := teeAndCount p src readErr dst promptTokens in
  r.1.1 = concat_s (accepted dst (read_lines src)) /\
  (dst = ReadsAll -> r.1.1 = src) /\
  r.1.2 = (teeAndCount p src None ReadsAll promptTokens).1.2 /\
  (forall texts usage, src = gateway_stream texts usage ->
     Forall (fun t => ascii_only (chars t)) texts ->
     match usage with
     | Some u => usage_in_range u -> 0 < Types.TotalTokens u -> r.1.2 = Types.TotalTokens u
     | None => r.1.2 = wrap64 (promptTokens + countTokens p (concat_s texts))
     end).
Proof.
  intros r. unfold r, teeAndCount. rewrite !teeLoop_spec, sapp_nil.
  fold (proxy_read src ("", zeroStreamUsage)).
  destruct (proxy_read src ("", zeroStreamUsage)) as [generated usage] eqn:E. cbn [fst snd].
  split_and!; [done|intros ->; apply read_lines_concat|done|].
  intros texts ou -> HF. unfold gateway_stream in E. rewrite proxy_deltas in E by done.
  destruct ou as [u|].
  - intros Hu Hpos. rewrite proxy_usage, proxy_done in E by done. cbn [fst snd] in E.
    rewrite (proj2 (gtb_true _ _)) in E by done. injection E as <- <-.
    unfold actualTokens. simpl. by rewrite (proj2 (gtb_true _ _)).
  - rewrite sapp_nil, proxy_done in E. cbn [fst snd] in E. injection E as <- <-.
    by rewrite sapp_nil.
Qed.

Lemma proxy_stream_count_witness :
  let p := mkProxy false None 128 256 in
  (teeAndCount p (gateway_stream ["Hel"; "lo"] (Some (mkUsage 3 2 5))) None (HangsUp 1) 9).1.2 = 5.
Proof.
  intros p.
  destruct (proxy_stream_count p (gateway_stream ["Hel"; "lo"] (Some (mkUsage 3 2 5))) None
    (HangsUp 1) 9) as (_ & _ & _ & Hc).
  apply (Hc ["Hel"; "lo"] (Some (mkUsage 3 2 5)) eq_refl).
  - repeat constructor.
  - repeat split; by vm_compute.
  - done.
Defined.

Section Billing.
Context `{Unicode} `{Printable} {St : Type} `{RedisLaws St} {T : Type} `{RadixTree T}.
Implicit Types (f : Flight (St := St) (T := T)).

(** The tokens of an answer. *)
Definition answer_tokens (p : Proxy) (c : ReqCtx) (u : Upstream) : Z :=
  match u with
  | UpError _ => 0
  | UpAnswer _ src readErr dst => (teeAndCount p src readErr dst (ctxPromptTokens c)).1.2
  end.

(** What the goroutines have given back so far. *)
Definition given_back (p : Proxy) (c : ReqCtx) f : Z :=
  match fJob f with
  | Some (UpError _) => ctxPreDeducted c
  | Some u =>
      match fToSettle f with
      | None => ctxPreDeducted c - Z.max 0 (answer_tokens p c u)
      | Some _ => 0
      end
  | None => 0
  end +
  match fReturned f with
  | Some RNil | None => 0
  | Some _ => ctxPreDeducted c
  end.

(** The commands arrive; other goroutines add [xs] to the balance. *)
Definition arrives (n : Net) : Prop := match n with NetLost _ => False | _ => True end.

Fixpoint others (u : string) (es : list (event (St := St))) (xs : list Z) : Prop :=
  match es with
  | [] => xs = []
  | EOther g :: es =>
      match xs with
      | x :: xs => (forall s b, bal u s = Some b -> bal u (g s) = Some (b + x)) /\ others u es xs
      | [] => False
      end
  | EJob _ n :: es | ESettle n :: es | EReturn _ n :: es => arrives n /\ others u es xs
  end.

(** Amounts far from the edge of 64 bits. *)
Definition small (z : Z) : Prop := Z.abs z <= 2 ^ 60.

Definition abs_sum (xs : list Z) : Z := zsum (Z.abs <$> xs).

(** The state of an admitted request. *)
Record FlightOk (p : Proxy) (c : ReqCtx) f : Prop := {
  fo_pending : forall a, fToSettle f = Some a ->
    exists ops src e d, fJob f = Some (UpAnswer ops src e d) /\ a = answer_tokens p c (UpAnswer ops src e d);
  fo_tokens : forall u, fJob f = Some u -> small (answer_tokens p c u)
}.

Lemma given_back_bounds p c f :
  FlightOk p c f -> 0 < ctxPreDeducted c -> small (ctxPreDeducted c) ->
  - 2 ^ 60 <= given_back p c f <= 2 * 2 ^ 60.
Proof.
  intros [_ Ht] Hp Hs. unfold given_back, small in *.
  destruct (fJob f) as [[e|ops src e d]|] eqn:Ej; destruct (fReturned f) as [[]|];
    try (specialize (Ht _ eq_refl)); try destruct (fToSettle f); lia.
Qed.

(** One refund or settlement. *)
Lemma settle_moves u pre actual n s b :
  u <> "" -> bal u s = Some b -> arrives n -> 0 < pre -> small pre -> small actual ->
  - 2 ^ 62 <= b <= 2 ^ 62 ->
  bal u (SettleQuota u pre actual n s).2 = Some (b + (pre - Z.max 0 actual)).
Proof.
  intros Hu Hb Hn Hp Hs Ha Hr. unfold small in *.
  destruct (settle_charges u pre actual n s b Hu Hb) as (Hbal & _);
    try (unfold in_int64, min_int64, max_int64; lia).
  rewrite Hbal. destruct n; [|done|]; f_equal; lia.
Qed.

Definition event_small (p : Proxy) (c : ReqCtx) (e : event (St := St)) : Prop :=
  match e with EJob u _ => small (answer_tokens p c u) | _ => True end.

(** The balance [b] the request left, what others added and what the goroutines gave
    back. *)
Definition balanced (p : Proxy) (c : ReqCtx) (b : Z) f : Prop :=
  bal (ctxUserID c) (wDb (fWorld f)) = Some (b + given_back p c f) /\ FlightOk p c f.

Lemma exec_balanced p path c e f f' b :
  ctxUserID c <> "" -> 0 < ctxPreDeducted c -> small (ctxPreDeducted c) ->
  event_small p c e -> - 2 ^ 61 <= b <= 2 ^ 61 ->
  match e with EJob _ n | ESettle n | EReturn _ n => arrives n | EOther _ => False end ->
  balanced p c b f -> exec p path c e f = Some f' -> balanced p c b f'.
Proof.
  intros Hu Hp Hs He Hb Hn [HB HF] Hx. pose proof (given_back_bounds p c f HF Hp Hs) as Hg.
  assert (Hz : small 0) by (unfold small; lia).
  assert (Hmv : forall actual n, arrives n -> small actual ->
            bal (ctxUserID c) (SettleQuota (ctxUserID c) (ctxPreDeducted c) actual n (wDb (fWorld f))).2 =
              Some (b + (given_back p c f + (ctxPreDeducted c - Z.max 0 actual)))).
  { intros actual n Hn' Ha. rewrite Z.add_assoc. apply settle_moves; try done; lia. }
  clear Hg. destruct f as [w rw job pend ret], HF as [Hpend Htok]. simpl in *.
  destruct e as [u n|n|r n|g]; simpl in *; [| | |done].
  - destruct job; [done|]. destruct u as [err|ops src re d].
    + unfold errorHandler in Hx. rewrite (proj2 (str_eqb_neq _ _) Hu) in Hx.
      rewrite (proj2 (gtb_true _ _)) in Hx by lia. cbn -[SettleQuota http_Error] in Hx.
      specialize (Hmv 0 n Hn Hz). destruct (SettleQuota _ _ _ _ _) as [o db].
      injection Hx as <-. split; [|by split; naive_solver].
      cbn [fst snd] in Hmv. simpl. rewrite Hmv. unfold given_back. simpl. f_equal. lia.
    + unfold modifyResponse in Hx. rewrite (proj2 (str_eqb_neq _ _) Hu) in Hx.
      simpl in He. destruct (teeAndCount _ _ _ _ _) as [[out actual] logs] eqn:Et.
      injection Hx as <-. split; [|split; simpl].
      * simpl. rewrite HB. unfold given_back. done.
      * intros a [= <-]. do 4 eexists. split; [done|]. simpl. by rewrite Et.
      * intros u [= <-]. simpl. by rewrite Et.
  - destruct pend as [actual|]; [|done]. destruct (Hpend _ eq_refl) as (ops&src&re&d&->&->).
    injection Hx as <-. unfold settle.
    specialize (Hmv _ n Hn (Htok _ eq_refl)). destruct (SettleQuota _ _ _ _ _) as [o db].
    split; [|by split; naive_solver]. cbn [fst snd] in Hmv. simpl. rewrite Hmv.
    unfold given_back. simpl. f_equal. lia.
  - destruct ret; [done|]. unfold afterSubmit in Hx.
    specialize (Hmv 0 n Hn Hz). destruct r; [injection Hx as <-; by split|..];
      destruct (SettleQuota _ _ _ _ _) as [o db]; injection Hx as <-;
      (split; [|by split; naive_solver]); cbn [fst snd] in Hmv; simpl; rewrite Hmv;
      unfold given_back; simpl; f_equal; lia.
Qed.

Lemma exec_all_balanced p path c es : forall f f' xs b,
  ctxUserID c <> "" -> 0 < ctxPreDeducted c -> small (ctxPreDeducted c) ->
  others (ctxUserID c) es xs -> Forall (event_small p c) es ->
  Z.abs b + abs_sum xs <= 2 ^ 61 ->
  balanced p c b f -> exec_all p path c es f = Some f' -> balanced p c (b + zsum xs) f'.
Proof.
  induction es as [|e es IH]; intros f f' xs b Hu Hp Hs Ho Hes Hb HB Hx; simpl in Hx.
  { simpl in Ho. subst xs. injection Hx as <-. by rewrite Z.add_0_r. }
  apply Forall_cons in Hes as [He Hes].
  destruct (exec p path c e f) as [f1|] eqn:E; simpl in Hx; [|done].
  assert (Hnn : 0 <= abs_sum xs) by (apply zsum_nonneg, Forall_fmap, Forall_true; intros ?; unfold compose; lia).
  destruct e as [u n|n|r n|g].
  4: { simpl in E, Ho. destruct xs as [|x xs]; [done|]. destruct Ho as [Hg Ho].
       unfold abs_sum in *. simpl in *. injection E as <-.
       replace (b + (x + zsum xs)) with (b + x + zsum xs) by lia.
       eapply (IH _ f' xs); try done.
       - fold zsum in *. unfold fmap. lia.
       - destruct HB as [HB HF]. split; [|destruct HF as [H1' H2']; split; auto].
         simpl. rewrite (Hg _ _ HB). unfold given_back. simpl. f_equal. lia. }
  all: destruct Ho as [Hn Ho]; apply (IH f1 f' xs b); try done;
    apply (exec_balanced p path c _ f f1 b Hu Hp Hs He); try done; lia.
Qed.

(** C12. What a request through the streaming proxy costs. Whatever the order of the
    handler, the job and the settling goroutine, and whatever others add meanwhile
    ([xs]), the balance is what it was, less the pre-deduction, plus what was given back. So when
    [Submit] returns [nil] and the answer was settled the user paid exactly its tokens;
    when the upstream failed, nothing; when [Submit] failed and the job never ran,
    nothing. When [Submit] failed although the job runs, the pre-deduction is given back
    twice. *)
Theorem proxy_billing p (r : Request) env es (w : World (T := T)) rw f r1 c pr w1 rw1 b0 xs :
  admitRequest p r env w rw = (Submitted r1 c pr, w1, rw1) ->
  script (wLimiter w) = rate_limit_prededuct -> onSeed env = NetOk ->
  let u := ctxUserID c in
  let s1 := gap env (seed (wLimiter w) u NetOk (wDb w)).2 in
  exact_args (sent_now (wLimiter w) env) (windowMicros (window (wLimiter w)))
    (limit (wLimiter w)) (ctxPreDeducted c) ->
  sane s1 -> bal u s1 = Some b0 ->
  others u es xs -> Forall (event_small p c) es ->
  b0 + abs_sum xs <= 2 ^ 60 ->
  ServeHTTP p r env es w rw = Some f ->
  let balance := bal u (wDb (fWorld f)) in
  balance = Some (b0 - ctxPreDeducted c + zsum xs + given_back p c f) /\
  (forall up, fReturned f = Some RNil -> fJob f = Some up -> fToSettle f = None ->
     balance = Some (b0 + zsum xs - Z.max 0 (answer_tokens p c up))) /\
  (forall o, fReturned f = Some o -> o <> RNil -> fJob f = None -> balance = Some (b0 + zsum xs)) /\
  (forall o err, fReturned f = Some o -> o <> RNil -> fJob f = Some (UpError err) ->
     balance = Some (b0 + zsum xs + ctxPreDeducted c)).
Proof.
  intros Ha Hsc Hn u s1 Hex Hsane Hb0 Ho Hes Hb Hx balance.
  assert (Hpre : exists l', PreDeduct (wLimiter w) u (ctxPreDeducted c) env (wDb w) =
            (true, None, l', wDb w1)).
  { clear -Ha. unfold admitRequest in Ha. destruct (urlPath r =s "/healthz"); [done|].
    destruct (bodyBytes r) as [body|]; [|done].
    destruct (lookupPrefix _ _ _ _) as [[[r2 rw2] ix] logs].
    destruct (PreDeduct _ _ _ _ _) as [[[ok err] l'] db] eqn:Ep.
    destruct (bool_decide (is_Some err) || negb ok) eqn:Eb; [by destruct (writeDeductError _ _)|].
    injection Ha as <- <- _ <- _. exists l'. unfold u. simpl. rewrite Ep. breflect.
    destruct Eb as [He ->]. destruct err; [|done]. destruct He. by eexists. }
  destruct Hpre as [l' Hpre].
  destruct (granted_balance _ _ _ _ _ _ _ _ Hsc Hn Hex Hsane Hb0 Hpre) as (Hu & Hle & Hb1).
  assert (Hpos : 1 <= ctxPreDeducted c) by apply Hex.
  unfold ServeHTTP in Hx. rewrite Ha in Hx.
  set (f0 := mkFlight w1 rw1 None None None) in Hx.
  assert (Hnn : 0 <= abs_sum xs).
  { apply zsum_nonneg, Forall_fmap, Forall_true; intros ?; unfold compose; lia. }
  assert (HB : balanced p c (b0 - ctxPreDeducted c) f0).
  { split; [|by split]. unfold given_back. simpl. fold u. rewrite Hb1. f_equal. lia. }
  destruct (exec_all_balanced p (urlPath r1) c es f0 f xs (b0 - ctxPreDeducted c) Hu) as [HF _];
    try done; try (unfold small); try lia.
  split; [exact HF|]. unfold balance, u. rewrite HF. unfold given_back. split_and!.
  - intros up -> -> ->. destruct up; simpl; f_equal; lia.
  - intros o -> Hne ->. destruct o; [done|f_equal; lia..].
  - intros o err -> Hne ->. destruct o; [done|f_equal; lia..].
Qed.

(** ** Admission *)

Lemma lookupPrefix_keeps p u prompt r rw (ix : PrefixIndexer (T := T)) :
  status rw = None ->
  let x := lookupPrefix p u prompt (r, rw, ix) in
  status x.1.1.2 = None /\ sent x.1.1.2 = sent rw /\
  (forall n m, isHighPriority x.1.1.1 n m = isHighPriority r n m).
Proof.
  intros Hs. unfold lookupPrefix. destruct (hasPrefix p && _); [|done].
  destruct (MatchPrefix prompt ix) as [[] n]; cbn [fst snd]; [|done].
  split_and!; [done|done|]. intros a b. unfold isHighPriority, header_get. cbn [set_header header].
  unfold header_set. by rewrite !lookup_insert_ne by (vm_compute; done).
Qed.

(** What the client of a refused request is told: 429 with a delay of a second, 402, and 503
    for every error of the limiter that is not one of its verdicts. *)
Definition refused (err : option error) (rw : Response) : Prop :=
  if from_option (fun e => is_sentinel e ErrRateLimitExceeded) false err
  then status rw = Some 429 /\ header_get "Retry-After" (sent rw) = "1"
  else if from_option (fun e => is_sentinel e ErrInsufficientBalance) false err
  then status rw = Some 402
  else status rw = Some 503.

Lemma writeDeductError_refused err rw :
  status rw = None -> refused err (writeDeductError err rw).1.
Proof.
  intros Hs. unfold refused, writeDeductError. destruct (from_option _ _ err).
  - simpl. unfold resp_Write, resp_WriteHeader. simpl. rewrite Hs. simpl.
    split; [done|]. unfold header_get, header_set.
    rewrite !lookup_insert_ne by (vm_compute; done). by rewrite lookup_insert_eq.
  - destruct (from_option _ _ err); simpl; unfold resp_Write, resp_WriteHeader; simpl; by rewrite Hs.
Qed.

Lemma admit_body p r env (w : World (T := T)) rw body :
  urlPath r <> "/healthz" -> bodyBytes r = inl body ->
  admitRequest p r env w rw =
    let prompt := promptFromChatBody body in
    let tokens := wrap64 (countTokens p prompt + completionReserveFrom p body) in
    let '(r', rw, ix, logs) := lookupPrefix p (clientKey r) prompt (r, rw, wPrefix w) in
    let '(allowed, err, l, db) := PreDeduct (wLimiter w) (clientKey r) tokens env (wDb w) in
    let w := mkWorld l db ix (wErrors w) (wLog w ++ logs) in
    if bool_decide (is_Some err) || negb allowed then
      let '(rw, logs) := writeDeductError err rw in (Answered, add_log logs w, rw)
    else
      (Submitted r' (mkReqCtx (clientKey r) tokens (countTokens p prompt))
         (if isHighPriority r' (countTokens p prompt) (shortTextTokens p)
          then PriorityHigh else PriorityLow), w, rw).
Proof. intros Hne Hb. unfold admitRequest. by rewrite (proj2 (str_eqb_neq _ _) Hne), Hb. Qed.

(** A request with a body is let through exactly when its pre-deduction answers so. *)
Lemma admit_prededuct p (r : Request) env (w : World (T := T)) body :
  urlPath r <> "/healthz" -> bodyBytes r = inl body ->
  let u := clientKey r in
  let prompt := promptFromChatBody body in
  let tokens := wrap64 (countTokens p prompt + completionReserveFrom p body) in
  let d := PreDeduct (wLimiter w) u tokens env (wDb w) in
  let a := admitRequest p r env w emptyResponse in
  wDb a.1.2 = d.2 /\ wLimiter a.1.2 = d.1.2 /\
  match d.1.1 with
  | (true, None) =>
      exists r', a.1.1 = Submitted r' (mkReqCtx u tokens (countTokens p prompt))
        (if isHighPriority r (countTokens p prompt) (shortTextTokens p)
         then PriorityHigh else PriorityLow) /\ status a.2 = None
  | (_, err) => a.1.1 = Answered /\ refused err a.2
  end.
Proof.
  intros Hne Hb u prompt tokens d a. unfold a. rewrite (admit_body p r env w emptyResponse body Hne Hb).
  cbv zeta. fold u. fold prompt. fold tokens. fold d.
  pose proof (lookupPrefix_keeps p u prompt r emptyResponse (wPrefix w) eq_refl) as (Hst & _ & Hpr).
  destruct (lookupPrefix _ _ _ _) as [[[r' rw'] ix] logs]. cbn [fst snd] in Hst, Hpr.
  destruct d as [[[ok err] l] db]. cbn [fst snd].
  pose proof (writeDeductError_refused err rw' Hst) as Href.
  destruct (bool_decide (is_Some err) || negb ok) eqn:E; breflect.
  - destruct (writeDeductError err rw') as [rw2 logs2]. cbn [fst snd wDb wLimiter add_log] in *.
    destruct ok, err; try done. by destruct E as [[? ?]|?].
  - destruct E as [He ->].
    destruct err; [by destruct He|]. cbn [fst snd wDb wLimiter].
    split_and!; [done..|]. exists r'. by rewrite Hpr.
Qed.

(** C34. Who gets through the proxy. A probe of the health path is answered at once, and
    so is a body that cannot be read. Any other request is charged its prompt's tokens and
    the reserve for the answer by one pre-deduction, whatever the network does to its
    commands: the request is given to the scheduler, with nothing written yet and the priority
    its headers or its length ask for, exactly when that answers yes without an error. It
    is answered 429 with a delay of a second for a full window, 402 for a small balance, and
    503 for any other error. When the commands arrive, the answer is the verdict of the
    transition of the client's account. The proxy fails closed: a client without
    a name, a count below one, a seeding or a script whose request or reply is lost mean 503
    and no job (an error of the network is not one of the limiter's verdicts). *)
Theorem proxy_admission p (r : Request) env (w : World (T := T)) body :
  let a := admitRequest p r env w emptyResponse in
  (urlPath r = "/healthz" -> a = (Answered, w, a.2) /\ status a.2 = Some 200) /\
  (urlPath r <> "/healthz" -> forall err, bodyBytes r = inr err ->
     a = (Answered, w, a.2) /\ status a.2 = Some 400) /\
  (urlPath r <> "/healthz" -> bodyBytes r = inl body ->
   let u := clientKey r in
   let prompt := promptFromChatBody body in
   let tokens := wrap64 (countTokens p prompt + completionReserveFrom p body) in
   let d := PreDeduct (wLimiter w) u tokens env (wDb w) in
   (wDb a.1.2 = d.2 /\ wLimiter a.1.2 = d.1.2 /\
    match d.1.1 with
    | (true, None) =>
        exists r', a.1.1 = Submitted r' (mkReqCtx u tokens (countTokens p prompt))
          (if isHighPriority r (countTokens p prompt) (shortTextTokens p)
           then PriorityHigh else PriorityLow) /\ status a.2 = None
    | (_, err) => a.1.1 = Answered /\ refused err a.2
    end) /\
   (script (wLimiter w) = rate_limit_prededuct -> onSeed env = NetOk -> onScript env = NetOk ->
    u <> "" ->
    let s1 := gap env (seed (wLimiter w) u NetOk (wDb w)).2 in
    let W := windowMicros (window (wLimiter w)) in
    exact_args (sent_now (wLimiter w) env) W (limit (wLimiter w)) tokens -> sane s1 ->
    let v := account_step (limit (wLimiter w)) W (sent_now (wLimiter w) env) tokens (account u s1) in
    d.1.1 = verdict_result v.1 /\ account u d.2 = v.2 /\
    (forall u', u' <> u -> account u' d.2 = account u' s1)) /\
   (forall e, is_sentinel e ErrRateLimitExceeded = false ->
    is_sentinel e ErrInsufficientBalance = false ->
    u = "" \/ tokens < 1 \/ network_error (wLimiter w) env = Some e ->
    a.1.1 = Answered /\ status a.2 = Some 503)).
Proof.
  intros a. split; [|split].
  - intros Hh. unfold a, admitRequest. by rewrite Hh.
  - intros Hne err Hb. unfold a, admitRequest. by rewrite (proj2 (str_eqb_neq _ _) Hne), Hb.
  - intros Hne Hb u prompt tokens d.
    pose proof (admit_prededuct p r env w body Hne Hb) as Hadm. cbv zeta in Hadm.
    fold u prompt tokens in Hadm. fold d in Hadm. fold a in Hadm. split; [exact Hadm|]. split.
    + intros Hsc Hn Hn' Hu s1 W Hex Hsane v.
      destruct (PreDeduct_transition (wLimiter w) u tokens env (wDb w) Hsc Hn Hex Hsane) as (_ & Hok).
      destruct (Hok Hu) as (s' & Hp & Ha & Ho). unfold d. rewrite Hp, Hn' in *. by split_and!.
    + intros e He1 He2 Hcase. destruct Hadm as (_ & _ & Hm).
      assert (Hd : exists e', d.1.1 = (false, Some e') /\ is_sentinel e' ErrRateLimitExceeded = false /\
                 is_sentinel e' ErrInsufficientBalance = false).
      { unfold d. by apply PreDeduct_fails with e. }
      destruct Hd as (e' & Hd & E1 & E2). rewrite Hd in Hm. unfold refused in Hm. simpl in Hm.
      by rewrite E1, E2 in Hm.
Qed.
End Billing.

(** ** Concrete requests *)
#[local] Instance demo_unicode : Unicode := fun z => z.
#[local] Instance demo_printable : Printable := fun _ => true.

Definition demo_proxy : Proxy := mkProxy true None 128 256.
Definition demo_world : World (St := db) (T := list string) :=
  mkWorld demo_limiter emptyDb (PrefixCache.New 16 float64_half) 0 [].
Definition demo_body : string := Marshal (obj [("max_tokens", JInt 5); ("prompt", JStr "hello")]).
Definition demo_request : Request :=
  mkRequest "/v1/chat/completions" (header_set "X-User-ID" "alice" ∅) "10.0.0.1:80" (inl demo_body).

(** A successful answer of three tokens. *)
Definition demo_answer : Upstream :=
  UpAnswer [OpWriteHeader 200] (gateway_stream ["hi"] (Some (mkUsage 1 2 3))) None ReadsAll.

Definition served (es : list (event (St := db))) : option Flight :=
  ServeHTTP demo_proxy demo_request (demo_at noon) es demo_world emptyResponse.

Definition balance_after (es : list (event (St := db))) : option Z :=
  f ← served es; bal "alice" (wDb (fWorld f)).

(** The client goes away while its job runs: the handler refunds, the round trip fails
    because the context ended, and the error handler refunds again. The user ends
    with more than it had. [error_while_running] is a run of the scheduler that leads
    there. *)
Lemma double_refund :
  balance_after [] = Some 93 /\
  balance_after [EReturn RCtxErr NetOk; EJob (UpError [ECanceled]) NetOk] = Some 107.
Proof. vm_compute. done. Qed.

(** [Submit] answers [nil] for a job that never ran, as in [nil_without_run]: the reserve stays
    charged and nothing is written. *)
Lemma charged_without_answer :
  balance_after [EReturn RNil NetOk] = Some 93 /\
  (status <$> (fWriter <$> served [EReturn RNil NetOk])) = Some None.
Proof. vm_compute. done. Qed.

Definition demo_ctx : ReqCtx := mkReqCtx "alice" 7 2.

Definition demo_events : list (event (St := db)) :=
  [EJob demo_answer NetOk; EReturn RNil NetOk; ESettle NetOk].

(** What is left of the request when all is done. *)
Definition outcome_of (f : Flight (St := db) (T := list string)) :=
  (fReturned f, fJob f, fToSettle f).

Definition submitted_of (a : Admission) : option (ReqCtx * Priority) :=
  match a with Submitted _ c pr => Some (c, pr) | Answered => None end.

Lemma proxy_billing_witness : balance_after demo_events = Some 97.
Proof.
  assert (Hs : (outcome_of <$> served demo_events) = Some (Some RNil, Some demo_answer, None))
    by (vm_compute; done).
  unfold balance_after. destruct (served demo_events) as [f|] eqn:E; [|discriminate Hs].
  injection Hs as H1 H2 H3.
  assert (Hx : submitted_of (admitRequest demo_proxy demo_request (demo_at noon) demo_world emptyResponse).1.1 =
            Some (demo_ctx, PriorityHigh)) by (vm_compute; done).
  destruct (admitRequest demo_proxy demo_request (demo_at noon) demo_world emptyResponse)
    as [[a w1] rw1] eqn:Ea.
  destruct a as [|r c pr]; [discriminate Hx|]. injection Hx as -> ->.
  destruct (proxy_billing demo_proxy demo_request (demo_at noon) demo_events demo_world emptyResponse f
    r demo_ctx PriorityHigh w1 rw1 100 [] Ea eq_refl eq_refl) as (_ & Hb & _).
  - vm_compute. repeat split; discriminate.
  - apply demo_sane.
  - by vm_compute.
  - by repeat split.
  - repeat constructor. vm_compute. discriminate.
  - vm_compute. discriminate.
  - exact E.
  - change (bal (ctxUserID demo_ctx) (wDb (fWorld f)) = Some 97).
    rewrite (Hb _ H1 H2 H3). by vm_compute.
Defined.

Lemma proxy_admission_witness :
  (let a := admitRequest demo_proxy demo_request (demo_at noon) demo_world emptyResponse in
   exists r, a.1.1 = Submitted r demo_ctx PriorityHigh /\ status a.2 = None) /\
  (let a := admitRequest demo_proxy demo_request
      (mkEnv NetOk noon (fun s => s) (NetLost (errorsNew "timeout"))) demo_world emptyResponse in
   a.1.1 = Answered /\ status a.2 = Some 503).
Proof.
  split.
  - intros a.
    destruct (proxy_admission demo_proxy demo_request (demo_at noon) demo_world demo_body)
      as (_ & _ & Ha).
    destruct (Ha ltac:(done) eq_refl) as ((_ & _ & Hm) & _).
    assert (Hd : (PreDeduct (wLimiter demo_world) "alice" 7 (demo_at noon) (wDb demo_world)).1.1 =
              (true, None)) by (vm_compute; done).
    change (clientKey demo_request) with "alice" in Hm.
    assert (Ht : wrap64 (countTokens demo_proxy (promptFromChatBody demo_body) +
              completionReserveFrom demo_proxy demo_body) = 7) by by vm_compute.
    rewrite Ht, Hd in Hm. exact Hm.
  - intros a.
    destruct (proxy_admission demo_proxy demo_request
      (mkEnv NetOk noon (fun s => s) (NetLost (errorsNew "timeout"))) demo_world demo_body)
      as (_ & _ & Ha).
    destruct (Ha ltac:(done) eq_refl) as (_ & _ & Hc).
    apply (Hc (errorsNew "timeout")); [done|done|by right; right].
Defined.
