(* ===== verification/MockProvider.v ===== *)
(** * The mock provider ([cmd/mockprovider/main.go])

    The handlers of the stand-in for an OpenAI server that the cluster runs. Their mux and
    the [http.Server] around them belong to the standard library; [hostname] is what
    [os.Hostname] answers, [None] for an error, and [created] the clock in seconds. *)

From Stdlib Require Import ZArith Lia Ascii.
From stdpp Require Import prelude gmap list strings.
From S2P Require Import Prelude GoInt GoText GoOs Json Endpoint Types Http Sse.

Local Open Scope Z_scope.

(** ** The decoder of a request body *)

(** [json.Decoder.Decode]: the first value of the text; what follows it is not read. A
    [http.MaxBytesReader] cuts the text off with an error, so a value that ends where the
    text is cut only counts if its own last byte closes it. *)
Definition Decode (limit : Z) (body : string) : option json :=
  let l := skip_ws (chars (sprefix (Z.to_nat limit) body)) in
  '(v, r) ← parse_value (2 * length l + 1) 0 l;
  if (slen body <=? limit) || negb (bool_decide (r = []))
     || match v with JArr _ | JObj _ => true | _ => false end
  then Some v else None.

Record chatMessage := mkChatMessage { mRole : string; mContent : json }.

Record chatRequest := mkChatRequest_ {
  qModel : string;
  qMessages : list chatMessage;
  qStream : bool
}.

Definition dec_chatMessage : Decoder chatMessage :=
  dec_struct [
    ("role", fld mRole (fun x m => mkChatMessage x (mContent m)) dec_string);
    ("content", fld mContent (fun x m => mkChatMessage (mRole m) x) dec_any)].

Definition dec_chatRequest : Decoder chatRequest :=
  dec_struct [
    ("model", fld qModel (fun x q => mkChatRequest_ x (qMessages q) (qStream q)) dec_string);
    ("messages", fld qMessages (fun x q => mkChatRequest_ (qModel q) x (qStream q))
       (dec_list (mkChatMessage "" JNull) dec_chatMessage));
    ("stream", fld qStream (fun x q => mkChatRequest_ (qModel q) (qMessages q) x) dec_bool)].

(** ** Answers *)
Record Request := mkRequest { qMethod : string; qHeader : Header; qBody : string }.

Record provider := mkProvider {
  name : string;
  apiKey : string;
  failStatus : Z;
  delay : Z
}.

Section Handlers.
Context {W : Type} `{ResponseWriter W}.

(** [json.Encoder.Encode] ends the value with a newline. *)
Definition writeJSON (status : Z) (value : json) (w : W) : W :=
  w_Write (Marshal value +:+ newline)
    (w_WriteHeader status (w_SetHeader "Content-Type" "application/json" w)).

Definition error_json (message : string) : json :=
  obj [("error", obj [("message", JStr message); ("type", JStr "mock_provider_error")])].

Definition writeError (status : Z) (message : string) (w : W) : W :=
  writeJSON status (error_json message) w.

Definition health (w : W) : W := w_Write ("ok" +:+ newline) (w_WriteHeader 200 w).

Definition authorize (p : provider) (r : Request) (w : W) : bool * W :=
  if (apiKey p =s "") || (header_get "Authorization" (qHeader r) =s "Bearer " +:+ apiKey p)
  then (true, w)
  else (false, writeError 401 "invalid API key" w).

Definition models (p : provider) (r : Request) (w : W) : W :=
  let '(ok, w) := authorize p r w in
  if negb ok then w
  else
    writeJSON 200
      (obj [("data", JArr [obj [("id", JStr "mock-model"); ("object", JStr "model");
                                ("owned_by", JStr (name p))]]);
            ("object", JStr "list")]) w.

Definition mock_usage : json :=
  obj [("completion_tokens", JInt 4); ("prompt_tokens", JInt 4); ("total_tokens", JInt 8)].

Definition chunk_json (p : provider) (created : Z) (model : string) (choice : json)
    (usage : list (string * json)) : json :=
  obj ([("choices", JArr [choice]); ("created", JInt created);
        ("id", JStr ("chatcmpl-" +:+ name p)); ("model", JStr model);
        ("object", JStr "chat.completion.chunk")] ++ usage).

Definition chunks (p : provider) (created : Z) (model content : string) : list json :=
  [chunk_json p created model
     (obj [("delta", obj [("role", JStr "assistant")]); ("index", JInt 0)]) [];
   chunk_json p created model
     (obj [("delta", obj [("content", JStr content)]); ("finish_reason", JStr "stop");
           ("index", JInt 0)]) [("usage", mock_usage)]].

Definition stream (p : provider) (created : Z) (model content : string) (w : W) : W :=
  let w := w_SetHeader "Content-Type" "text/event-stream" w in
  let w := w_SetHeader "Cache-Control" "no-cache" w in
  let w := w_WriteHeader 200 w in
  let w := foldl (fun w chunk => w_Write ("data: " +:+ Marshal chunk +:+ newline +:+ newline) w) w
             (chunks p created model content) in
  w_Write ("data: [DONE]" +:+ newline +:+ newline) w.

Definition completion (p : provider) (created : Z) (model content instance_ node : string) : json :=
  obj [("choices",
          JArr [obj [("finish_reason", JStr "stop"); ("index", JInt 0);
                     ("message", obj [("content", JStr content); ("role", JStr "assistant")])]]);
       ("created", JInt created); ("id", JStr ("chatcmpl-" +:+ name p));
       ("instance", JStr instance_); ("model", JStr model); ("node", JStr node);
       ("object", JStr "chat.completion"); ("output", JStr content); ("usage", mock_usage)].

Context (getenv : Getenv) (hostname : option string).

Definition env (key fallback : string) : string :=
  let value := getenv key in if negb (value =s "") then value else fallback.

Definition envInt (key : string) (fallback : Z) : Z := default fallback (Atoi (getenv key)).

Definition identity : string * string :=
  let instance_ :=
    match hostname with
    | Some h => if h =s "" then env "POD_NAME" "unknown" else h
    | None => env "POD_NAME" "unknown"
    end in
  let pod := getenv "POD_NAME" in
  let instance_ := if negb (pod =s "") then pod else instance_ in
  (instance_, env "NODE_NAME" "unknown").

(** What the answer says. *)
Definition content_of (p : provider) : string :=
  "response from " +:+ name p +:+ " instance=" +:+ identity.1 +:+ " node=" +:+ identity.2.

(** [chat]; the delay only takes time. A configured status of 1000 or more makes
    [WriteHeader] panic, which ends the connection; it is not modelled. *)
Definition chat (p : provider) (created : Z) (r : Request) (w : W) : W :=
  if negb (qMethod r =s "POST") then writeError 405 "method not allowed" w
  else
    let '(ok, w) := authorize p r w in
    if negb ok then w
    else if failStatus p >=? 400 then writeError (failStatus p) (name p +:+ " configured failure") w
    else
      match (j ← Decode (2 ^ 20) (qBody r); dec_chatRequest j (mkChatRequest_ "" [] false)) with
      | None => writeError 400 "invalid request" w
      | Some req =>
          if (TrimSpace (qModel req) =s "") || bool_decide (qMessages req = []) then
            writeError 400 "model and messages are required" w
          else
            let content := content_of p in
            if qStream req then stream p created (qModel req) content w
            else writeJSON 200 (completion p created (qModel req) content identity.1 identity.2) w
      end.

(** [main]: the provider its environment describes, unless it is told to crash. *)
Definition start : option provider :=
  if getenv "CRASH_ON_START" =s "1" then None
  else
    Some (mkProvider (env "PROVIDER_NAME" "mock-provider") (getenv "MOCK_API_KEY")
            (envInt "FAIL_STATUS" 0) (wrap64 (envInt "DELAY_MS" 0 * Millisecond))).
End Handlers.
