(* ===== verification/MockSpec.v ===== *)
(** * The OpenAI adapter against the mock provider

    Two programs of the repository talk to each other: what the adapter sends, the mock
    provider reads, and what that answers, the adapter reads back. *)

From Stdlib Require Import ZArith Lia Ascii.
From stdpp Require Import prelude gmap list strings.
From S2P Require Import Prelude GoInt GoText GoErr GoOs Endpoint Provider Retry Json JsonSpec Types Http.
From S2P Require Import Sse OpenAICompat SseSpec OpenAI Claude ClaudeSpec OpenAISpec MockProvider.

Local Open Scope Z_scope.

(** ** Reading the request *)

Lemma sprefix_all n s : slen s <= Z.of_nat n -> sprefix n s = s.
Proof.
  intros Hn. unfold sprefix. rewrite take_ge; [apply unchars_chars|].
  rewrite chars_length. unfold slen in Hn. lia.
Qed.

Lemma Decode_Marshal limit j :
  canonical 0 j -> 0 <= limit -> slen (Marshal j) <= limit -> Decode limit (Marshal j) = Some j.
Proof.
  intros Hc Hl Hs. unfold Decode. rewrite sprefix_all by lia.
  assert (E : chars (Marshal j) = marshal j) by apply chars_unchars. rewrite E.
  destruct (skip_ws_value 0 j [] Hc) as (Hsk & _ & _). rewrite app_nil_r in Hsk. rewrite Hsk.
  pose proof (reads_all j (2 * length (marshal j) + 1)%nat 0 [] Hc I ltac:(lia)) as Hr.
  rewrite app_nil_r in Hr. rewrite Hr. cbn [mbind option_bind].
  by rewrite (proj2 (Z.leb_le _ _) Hs).
Qed.

Definition mock_message (m : Message) : chatMessage :=
  mkChatMessage (Role m) (JStr (Types.Content m)).

Lemma dec_mock_messages l :
  dec_elems (mkChatMessage "" JNull) dec_chatMessage (message_json <$> l) [] =
    Some (mock_message <$> l).
Proof.
  induction l as [|m l IH]; [done|]. cbn [fmap list_fmap dec_elems head tail default].
  assert (Hd : dec_chatMessage (message_json m) (mkChatMessage "" JNull) = Some (mock_message m)).
  { lazy -[Marshal]. done. }
  cbn [from_option]. change (default (mkChatMessage "" JNull) None) with (mkChatMessage "" JNull).
  rewrite Hd. cbn [mbind option_bind]. fold (message_json <$> l). rewrite IH. done.
Qed.

Section Mock.
Context `{Float32Laws} `{JsonError}.

Lemma dec_mock_request (m t k s : bool) model msgs (temp : float32) jk l :
  dec_list (mkChatMessage "" JNull) dec_chatMessage msgs [] = Some l ->
  dec_chatRequest
    (obj (omitempty m "model" (JStr model) ++ [("messages", msgs)]
          ++ omitempty t "temperature" (JNum (f32_print temp))
          ++ omitempty k "max_tokens" jk ++ omitempty (negb s) "stream" (JBool s)))
    (mkChatRequest_ "" [] false) =
  Some (mkChatRequest_ (if m then "" else model) l s).
Proof.
  intros Hm.
  destruct m, t, k, s; lazy -[dec_list dec_chatMessage Marshal f32_print float32];
    rewrite ?Hm; reflexivity.
Qed.

(** The mock reads an adapter's request as it was meant. *)
Lemma mock_reads model req stream :
  ascii_only (chars model) -> ascii_request req ->
  slen (MarshalRequest model req stream) <= 2 ^ 20 ->
  (j ← Decode (2 ^ 20) (MarshalRequest model req stream);
   dec_chatRequest j (mkChatRequest_ "" [] false)) =
    Some (mkChatRequest_ model (mock_message <$> Messages req) stream).
Proof.
  intros Ha HP Hs. unfold MarshalRequest in *. rewrite request_json in * by apply HP.
  rewrite Decode_Marshal; [|exact (request_canonical model req stream Ha HP)|lia|exact Hs].
  cbn [mbind option_bind].
  rewrite (dec_mock_request _ _ _ _ _ _ _ _ (mock_message <$> Messages req)); [|apply dec_mock_messages].
  destruct (model =s "") eqn:E; breflect; by rewrite ?E.
Qed.

(** ** Reading the answer *)

(** The answer on the wire, as the transport hands it to a client. *)
Definition respond (text : Z -> string) (w : Http.Response) : HttpResponse :=
  let code := default 200 (Http.status w) in
  mkHttpResponse code (text code) (Http.sent w) (Http.body w) None.

Lemma respond_json text code v :
  respond text (writeJSON code v emptyResponse) =
    mkHttpResponse code (text code) (header_set "Content-Type" "application/json" ∅)
      (Marshal v +:+ newline) None.
Proof. unfold respond, writeJSON. cbn -[Marshal header_set]. done. Qed.

Lemma Unmarshal_line j : canonical 0 j -> Unmarshal (Marshal j +:+ newline) = Some j.
Proof.
  intros Hc. rewrite <- (unchars_chars (Marshal j +:+ newline)), chars_app.
  pose proof (Unmarshal_Marshal j [] (chars newline) Hc ltac:(constructor)) as Hu.
  rewrite app_nil_l in Hu. assert (E : chars (Marshal j) = marshal j) by apply chars_unchars.
  rewrite E. apply Hu. by repeat constructor.
Qed.

Lemma read_whole text code v limit :
  slen (Marshal v +:+ newline) < limit ->
  ReadAllLimit limit (respond text (writeJSON code v emptyResponse)) = (Marshal v +:+ newline, None).
Proof.
  intros Hl. rewrite respond_json. unfold ReadAllLimit. cbn [respBody respBodyErr].
  destruct (_ >=? limit) eqn:E; breflect; [lia|done].
Qed.

Ltac canonical_object :=
  repeat split; try ascii_const; try assumption; try (by vm_compute);
  try apply JInt_canonical; try assumption; try (by vm_compute).

Lemma error_json_canonical message :
  ascii_only (chars message) -> canonical 0 (error_json message).
Proof.
  intros Hm. cbn [canonical error_json obj map foldr fst snd]. canonical_object.
Qed.

(** An error answer of the mock becomes the adapter's error, status and message kept. *)
Lemma mock_error text code message :
  ascii_only (chars message) -> message <> "" ->
  HTTPError (respond text (writeError code message emptyResponse))
    (Marshal (error_json message) +:+ newline) = provider_error code message 0.
Proof.
  intros Ha Hne. unfold HTTPError, writeError. rewrite respond_json. cbn [respHeader respStatusCode].
  unfold error_message. rewrite Unmarshal_line by by apply error_json_canonical.
  cbn [mbind option_bind].
  assert (Hd : dec_wrappedError (error_json message) "" = Some message) by done. rewrite Hd.
  rewrite (proj2 (str_eqb_neq _ _) Hne). cbn [negb]. rewrite (proj2 (str_eqb_neq _ _) Hne).
  assert (Hh : header_get "Retry-After" (header_set "Content-Type" "application/json" ∅) = "").
  { rewrite header_get_set_ne by (vm_compute; done). done. }
  by rewrite Hh.
Qed.

Lemma usage_4_4_8 x : dec_usage mock_usage x = Some (mkUsage 4 4 8).
Proof. by vm_compute. Qed.

Lemma completion_reads p created model content i node :
  ascii_only (chars (name p)) -> ascii_only (chars model) -> ascii_only (chars content) ->
  ascii_only (chars i) -> ascii_only (chars node) -> in_int64 created ->
  ParseCompletion (Marshal (completion p created model content i node) +:+ newline) =
    inl ("chatcmpl-" +:+ name p, content, mkUsage 4 4 8).
Proof.
  intros A1 A2 A3 A4 A5 Hc. unfold ParseCompletion.
  assert (Hid : ascii_only (chars ("chatcmpl-" +:+ name p))).
  { rewrite chars_app. apply Forall_app. split; [ascii_const|done]. }
  rewrite Unmarshal_line.
  - cbn [mbind option_bind].
    assert (Hd : dec_completionResponse (completion p created model content i node)
               (mkCompletionResponse "" [] zeroUsage) =
             Some (mkCompletionResponse ("chatcmpl-" +:+ name p) [mkCompletionChoice content ""]
                     (mkUsage 4 4 8))).
    { unfold completion. generalize ("chatcmpl-" +:+ name p). intros id.
      lazy -[dec_usage mock_usage Marshal]. by rewrite usage_4_4_8. }
    rewrite Hd. unfold completion_content. cbn [cChoices foldr ccMessage ccText cID cUsage].
    change ("" +:+ "") with "". by rewrite app_empty_r.
  - cbn [canonical completion mock_usage obj map foldr fst snd]. canonical_object.
Qed.

(** ** Reading the stream *)

Lemma write_more p (r : Http.Response) c :
  Http.status r = Some c ->
  w_Write p r = mkResponse (Http.hdr r) (Some c) (Http.sent r) (Http.body r +:+ p).
Proof. intros Hs. unfold w_Write. simpl. unfold resp_Write, resp_WriteHeader. by rewrite !Hs. Qed.

Lemma write_events c l : forall r : Http.Response, Http.status r = Some c ->
  foldl (fun w chunk => w_Write ("data: " +:+ Marshal chunk +:+ newline +:+ newline) w) r l =
    mkResponse (Http.hdr r) (Some c) (Http.sent r)
      (Http.body r +:+ concat_s ((fun chunk => sse_event (Marshal chunk)) <$> l)).
Proof.
  induction l as [|x l IH]; intros r Hr.
  - cbn [foldl fmap list_fmap concat_s foldr]. rewrite app_empty_r, <- Hr. by destruct r.
  - cbn [foldl fmap list_fmap]. rewrite (write_more _ r c Hr), IH by done.
    cbn [Http.hdr Http.sent Http.body].
    change (concat_s (sse_event (Marshal x) :: ?l)) with (sse_event (Marshal x) +:+ concat_s l).
    unfold sse_event, sse_data. cbn [concat_s foldr]. by rewrite !app_empty_r, !app_assoc_s.
Qed.

Lemma respond_stream text p created model content :
  respond text (stream p created model content emptyResponse) =
    mkHttpResponse 200 (text 200)
      (header_set "Cache-Control" "no-cache" (header_set "Content-Type" "text/event-stream" ∅))
      (concat_s ((fun c => sse_event (Marshal c)) <$> chunks p created model content) +:+
         "data: [DONE]" +:+ newline +:+ newline) None.
Proof.
  unfold respond, stream. rewrite (write_events 200) by done.
  by rewrite (write_more _ _ 200) by done.
Qed.

Lemma chunk_canonical p created model choice :
  ascii_only (chars (name p)) -> ascii_only (chars model) -> in_int64 created ->
  canonical 2 choice ->
  canonical 0 (chunk_json p created model choice []) /\
  canonical 0 (chunk_json p created model choice [("usage", mock_usage)]).
Proof.
  intros A1 A2 Hc Hch.
  assert (Hid : ascii_only (chars ("chatcmpl-" +:+ name p))).
  { rewrite chars_app. apply Forall_app. split; [ascii_const|done]. }
  cbn [canonical chunk_json mock_usage obj map app foldr fst snd]. canonical_object.
Qed.

Lemma chunks_read p created model content :
  ascii_only (chars (name p)) -> ascii_only (chars model) -> ascii_only (chars content) ->
  in_int64 created ->
  read_all (concat_s ((fun c => sse_event (Marshal c)) <$> chunks p created model content) +:+
              "data: [DONE]" +:+ newline +:+ newline) ("", zeroUsage) = (content, mkUsage 4 4 8).
Proof.
  intros A1 A2 A3 Hc.
  assert (Hid : ascii_only (chars ("chatcmpl-" +:+ name p))).
  { rewrite chars_app. apply Forall_app. split; [ascii_const|done]. }
  cbn [chunks fmap list_fmap concat_s foldr]. rewrite !app_assoc_s.
  erewrite read_event; [|reflexivity| |].
  2:{ unfold Marshal. rewrite chars_unchars. cbn [marshal chunk_json obj map app commas fst snd].
      newline_free. }
  2:{ apply (chunk_canonical p created model _ A1 A2 Hc). cbn [canonical obj map foldr fst snd].
      canonical_object. }
  erewrite read_event; [|reflexivity| |].
  2:{ unfold Marshal. rewrite chars_unchars. cbn [marshal chunk_json mock_usage obj map app commas fst snd].
      newline_free. }
  2:{ apply (chunk_canonical p created model _ A1 A2 Hc). cbn [canonical obj map foldr fst snd].
      canonical_object. }
  rewrite sapp_nil, read_done.
  unfold chunk_json. generalize ("chatcmpl-" +:+ name p). intros id.
  lazy -[Marshal String.append]. by rewrite !app_empty_r.
Qed.

(** ** The two programs together *)
Section Together.
Context (getenv : Getenv) (hostname : option string) (created : Z) (text : Z -> string).

(** A client whose requests the mock provider serves. *)
Definition mock_client (p : provider) : HttpClient :=
  mkHttpClient (fun _ => None)
    (fun r => inl (respond text
       (chat getenv hostname p created (mkRequest "POST" (reqHeader r) (reqBody r)) emptyResponse))).

(** The texts that travel are ASCII. *)
Record plain (p : provider) : Prop := {
  pl_name : ascii_only (chars (name p));
  pl_instance : ascii_only (chars (identity getenv hostname).1);
  pl_node : ascii_only (chars (identity getenv hostname).2);
  pl_created : in_int64 created
}.

Lemma plain_content p : plain p -> ascii_only (chars (content_of getenv hostname p)).
Proof.
  intros [A1 A2 A3 _]. unfold content_of. rewrite !chars_app. unfold ascii_only in *. rewrite !Forall_app.
  split_and!; (ascii_const || done).
Qed.

(** The key the adapter sends is the one the mock wants. *)
Definition same_key (a : OpenAIAdapter) (p : provider) : Prop :=
  apiKey p = "" \/ apiKey p = oAPIKey a.

Lemma authorized a p req strm w :
  same_key a p ->
  authorize p (mkRequest "POST" (reqHeader (OpenAI_request a req strm))
                 (reqBody (OpenAI_request a req strm))) w = (true, w).
Proof.
  intros Hk. unfold authorize. destruct (apiKey p =s "") eqn:E; [done|].
  destruct Hk as [Hk|Hk]; breflect; [congruence|].
  unfold OpenAI_request. cbn [reqHeader qHeader]. rewrite <- Hk.
  rewrite (proj2 (str_eqb_neq _ _) E). cbn [negb]. by rewrite header_get_set, str_eqb_refl.
Qed.

(** A request both programs can handle. *)
Record sendable (a : OpenAIAdapter) (req : ChatRequest) : Prop := {
  sd_parsed : ascii_request req;
  sd_ascii : ascii_only (chars (OpenAI_upstreamModel a (Types.Model req)));
  sd_model : TrimSpace (OpenAI_upstreamModel a (Types.Model req)) <> "";
  sd_small : forall strm,
    slen (MarshalRequest (OpenAI_upstreamModel a (Types.Model req)) req strm) <= 2 ^ 20
}.

Lemma chat_serves a p req strm :
  same_key a p -> failStatus p < 400 -> sendable a req ->
  let m := OpenAI_upstreamModel a (Types.Model req) in
  let c := content_of getenv hostname p in
  Do (mock_client p) (OpenAI_request a req strm) =
    inl (respond text
      (if strm then stream p created m c emptyResponse
       else writeJSON 200 (completion p created m c (identity getenv hostname).1
                             (identity getenv hostname).2) emptyResponse)).
Proof.
  intros Hk Hf [HP Ha Hm Hs]. cbn zeta. cbn [mock_client Do]. unfold chat.
  rewrite str_eqb_refl. cbn [negb]. rewrite authorized by done. cbn [negb].
  destruct (failStatus p >=? 400) eqn:E; breflect; [lia|].
  cbn [qBody OpenAI_request reqBody]. rewrite mock_reads by done.
  cbn [qModel qMessages qStream]. rewrite (proj2 (str_eqb_neq _ _) Hm).
  rewrite bool_decide_eq_false_2; [by destruct strm|].
  intros E'%fmap_nil_inv. by apply (pr_messages _ HP).
Qed.

Lemma chat_fails a p req strm :
  same_key a p -> 400 <= failStatus p ->
  Do (mock_client p) (OpenAI_request a req strm) =
    inl (respond text (writeError (failStatus p) (name p +:+ " configured failure") emptyResponse)).
Proof.
  intros Hk Hf. cbn [mock_client Do]. unfold chat.
  rewrite str_eqb_refl. cbn [negb]. rewrite authorized by done. cbn [negb].
  destruct (failStatus p >=? 400) eqn:E; breflect; [done|lia].
Qed.

Lemma chat_rejects a p req strm :
  ~ same_key a p ->
  Do (mock_client p) (OpenAI_request a req strm) =
    inl (respond text (writeError 401 "invalid API key" emptyResponse)).
Proof.
  intros Hk. cbn [mock_client Do]. unfold chat. rewrite str_eqb_refl. cbn [negb].
  assert (Hauth : forall w : Http.Response, authorize p (mkRequest "POST" (reqHeader (OpenAI_request a req strm))
                 (reqBody (OpenAI_request a req strm))) w = (false, writeError 401 "invalid API key" w)).
  { intros w. unfold authorize. rewrite (proj2 (str_eqb_neq (apiKey p) "")) by (intros E; apply Hk; by left).
    cbn [orb]. rewrite (proj2 (str_eqb_neq _ _)); [done|].
    unfold OpenAI_request. cbn [reqHeader qHeader].
    destruct (oAPIKey a =s "") eqn:E; breflect; cbn [negb].
    - rewrite header_get_set_ne by (vm_compute; done). done.
    - rewrite header_get_set. intros Heq%app_inj_l. apply Hk. by right. }
  by rewrite Hauth.
Qed.

(** What an adapter makes of an error answer of the mock. *)
Lemma answers_error a req path code message :
  ascii_only (chars message) -> message <> "" -> 400 <= code ->
  slen (Marshal (error_json message) +:+ newline) < 2 ^ 20 ->
  (forall client, (forall strm, Do client (OpenAI_request a req strm) =
      inl (respond text (writeError code message emptyResponse))) ->
    newRequestErr client (reqURL (OpenAI_request a req false)) = None ->
    OpenAI_Chat a client req = inr (provider_error code message 0) /\
    OpenAI_ChatStream a client path req = ([], None, Some (provider_error code message 0))).
Proof.
  intros Ha Hne Hcode Hsize client Hdo Hnew.
  assert (E : forall strm, OpenAI_do a client req strm =
            inl (respond text (writeError code message emptyResponse))).
  { intros strm. unfold OpenAI_do, send.
    change (reqURL (OpenAI_request a req strm)) with (reqURL (OpenAI_request a req false)).
    by rewrite Hnew, Hdo. }
  assert (Hst : respStatusCode (respond text (writeError code message emptyResponse)) = code).
  { unfold writeError. by rewrite respond_json. }
  unfold OpenAI_Chat, OpenAI_ChatStream, chatAnswer, streamAnswer. rewrite !E, Hst.
  assert (Hr : forall limit, 2 ^ 20 <= limit ->
    ReadAllLimit limit (respond text (writeError code message emptyResponse)) =
      (Marshal (error_json message) +:+ newline, None)) by (intros; apply read_whole; lia).
  rewrite !Hr by lia. destruct (code >=? 400) eqn:Ec; breflect; [|lia].
  cbn [fst]. rewrite mock_error by done. done.
Qed.
Lemma CopyStream_whole f :
  OpenAICompat.client f = ReadsAll -> ctxEnds f = None -> srcErr f = None ->
  let r := CopyStream f in
  let read := read_all (OpenAICompat.src f) ("", zeroUsage) in
  body_of r.1.1 = OpenAICompat.src f /\ r.1.2 = Some (UsageOrEstimate read.2 read.1) /\ r.2 = None.
Proof.
  intros Hc Hx He. cbn zeta. unfold CopyStream. rewrite copyLoop_spec, Hx, seen_None, whole_None, He, Hc.
  fold (read_all (OpenAICompat.src f) ("", zeroUsage)).
  destruct (read_all _ _) as [g u]. cbn [fst snd accepted fmap option_fmap option_map].
  rewrite app_nil_l. split_and!; [|done|done]. rewrite body_of_app, body_of_lines, read_lines_concat.
  by destruct (contentType f =s "").
Qed.

(** An answer of the mock is small enough for the adapter's limit. *)
Definition small_answer (a : OpenAIAdapter) (p : provider) (req : ChatRequest) : Prop :=
  slen (Marshal (completion p created (OpenAI_upstreamModel a (Types.Model req))
          (content_of getenv hostname p) (identity getenv hostname).1
          (identity getenv hostname).2) +:+ newline) < 8 * 2 ^ 20 /\
  slen (Marshal (error_json (name p +:+ " configured failure")) +:+ newline) < 2 ^ 20.

Lemma chat_success a p req :
  plain p -> sendable a req -> small_answer a p req -> same_key a p -> failStatus p < 400 ->
  OpenAI_Chat a (mock_client p) req =
    inl (mkChatResponse ("chatcmpl-" +:+ name p) (Types.Model req)
           (content_of getenv hostname p) (mkUsage 4 4 8)).
Proof.
  intros HP HS [Hsm _] Hk Hf. pose proof (plain_content p HP) as Hcont. destruct HP as [A1 A2 A3 Hc].
  unfold OpenAI_Chat, OpenAI_do, send. rewrite chat_serves by done. cbn [newRequestErr mock_client].
  unfold chatAnswer. rewrite read_whole by done. rewrite respond_json. cbn [respStatusCode].
  change (200 >=? 400) with false. cbn iota.
  rewrite completion_reads by (done || apply HS). done.
Qed.

Lemma stream_success a p req path :
  plain p -> sendable a req -> same_key a p -> failStatus p < 400 ->
  pClient path = ReadsAll -> pCtxEnds path = None ->
  let r := OpenAI_ChatStream a (mock_client p) path req in
  read_all (body_of r.1.1) ("", zeroUsage) = (content_of getenv hostname p, mkUsage 4 4 8) /\
  r.1.2 = Some (mkUsage 4 4 8) /\ r.2 = None.
Proof.
  intros HP HS Hk Hf Hp1 Hp2. pose proof (plain_content p HP) as Hcont. destruct HP as [A1 A2 A3 Hc].
  cbn zeta. unfold OpenAI_ChatStream, OpenAI_do, send. rewrite chat_serves by done.
  cbn [newRequestErr mock_client]. unfold streamAnswer. rewrite respond_stream.
  cbn [respStatusCode respHeader]. change (200 >=? 400) with false. cbn iota.
  rewrite header_get_set_ne, header_get_set by (vm_compute; done).
  change (negb ("text/event-stream" =s "")) with true. cbn iota.
  set (f := feed _ _ path).
  destruct (CopyStream_whole f Hp1 Hp2 eq_refl) as (Hb & Hu & He).
  destruct (CopyStream f) as [[ops usage] err]. cbn [fst snd] in *.
  change (body_of ([OpSetHeader "Content-Type" "text/event-stream"] ++ ops)) with (body_of ops).
  rewrite Hb, Hu, He. unfold f, feed. cbn [OpenAICompat.src respBody].
  rewrite chunks_read by (done || apply HS). done.
Qed.

(** C15. The adapter and the mock provider understand each other. With the key the mock
    wants, a call answers with the mock's text, the model that was asked for and a usage
    of four and four tokens; a stream reaches the client as text that reads back to the same
    content and reports the same usage. A configured failure and a wrong key come out as a
    [provider.Error] with the mock's status and message, and nothing is written. *)
Theorem mock_answers_adapter a p req path :
  plain p -> sendable a req -> small_answer a p req ->
  pClient path = ReadsAll -> pCtxEnds path = None ->
  let chat := OpenAI_Chat a (mock_client p) req in
  let stream := OpenAI_ChatStream a (mock_client p) path req in
  let content := content_of getenv hostname p in
  let fails code message :=
    chat = inr (provider_error code message 0) /\
    stream = ([], None, Some (provider_error code message 0)) in
  (same_key a p -> failStatus p < 400 ->
     chat = inl (mkChatResponse ("chatcmpl-" +:+ name p) (Types.Model req) content (mkUsage 4 4 8)) /\
     read_all (body_of stream.1.1) ("", zeroUsage) = (content, mkUsage 4 4 8) /\
     stream.1.2 = Some (mkUsage 4 4 8) /\ stream.2 = None) /\
  (same_key a p -> 400 <= failStatus p < 1000 -> fails (failStatus p) (name p +:+ " configured failure")) /\
  (~ same_key a p -> fails 401 "invalid API key").
Proof.
  intros HP HS Hsm Hp1 Hp2. cbn zeta. split_and!.
  - intros Hk Hf. split; [by apply chat_success|by apply stream_success].
  - intros Hk Hf. apply answers_error; [| |lia|apply Hsm|intros; apply chat_fails; (done || lia)|done].
    + destruct HP as [A1 _ _ _]. rewrite chars_app. apply Forall_app. split; [done|ascii_const].
    + destruct (name p); discriminate.
  - intros Hk. apply answers_error; [ascii_const|done|lia|by vm_compute|intros; by apply chat_rejects|done].
Qed.
End Together.
End Mock.

(** ** Concrete values *)
Section Demo.
#[local] Existing Instance demo_float.
#[local] Existing Instance demo_float_laws.
#[local] Existing Instance demo_json_error.

Definition demo_mock : provider := mkProvider "east" "k1" 0 0.
Definition demo_os : Getenv := fun k => if k =s "NODE_NAME" then "n1" else "".
Definition demo_adapter : OpenAIAdapter := mkOpenAI "http://mock/v1" "k1" "" (NewHTTPClient 0).
Definition demo_question : ChatRequest :=
  mkChatRequest demo_float "gpt" [mkMessage "user" "hi"] true 7 false.

Lemma mock_answers_adapter_witness :
  let client := mock_client demo_os (Some "pod-1") 1700000000 (fun _ => "") demo_mock in
  OpenAI_Chat demo_adapter client demo_question =
    inl (mkChatResponse "chatcmpl-east" "gpt" "response from east instance=pod-1 node=n1" (mkUsage 4 4 8)).
Proof.
  destruct (mock_answers_adapter demo_os (Some "pod-1") 1700000000 (fun _ => "") demo_adapter demo_mock
    demo_question (mkPath ReadsAll "" None)) as (Hok & _).
  - split; first [ascii_const|by vm_compute].
  - split; [|ascii_const|by vm_compute|by intros []; vm_compute].
    split; simpl; [done|repeat constructor..|by split]; by vm_compute.
  - split; by vm_compute.
  - done.
  - done.
  - apply Hok; [by right|done].
Defined.
End Demo.
