(* ===== verification/Main.v ===== *)
(** * The gateway process ([cmd/main.go])

    Configuration from the environment, the start of the process as one function that ends
    either in the fatal error the process exits with or in the running system, and the
    goroutine that reloads the endpoints. Signals, the HTTP server and the logger belong to
    the standard library. *)

From Stdlib Require Import ZArith Lia Ascii.
From stdpp Require Import prelude gmap list strings.
From S2P Require Import Prelude GoInt GoText GoErr GoTime GoOs Breaker Endpoint Wrr Pool PoolSpec Config.
From S2P Require Import Provider Retry Redis Limiter Json Types Auth Store PrefixCache HealthChecker.
From S2P Require Import Http Gateway OpenAICompat OpenAI Claude Adapters.

Local Open Scope Z_scope.

(** ** Settings *)
Section Settings.
Context (getenv : Getenv).

Definition env (key fallback : string) : string :=
  let value := getenv key in if negb (value =s "") then value else fallback.

Definition envInt (key : string) (fallback : Z) : Z :=
  let raw := getenv key in if raw =s "" then fallback else default fallback (Atoi raw).

Definition envDuration (key : string) (fallback : Z) : Z :=
  let raw := getenv key in if raw =s "" then fallback else default fallback (ParseDuration raw).

(** The files: the content of one or the error of reading it, and whether one exists. *)
Record Files := mkFiles { readFile : string -> string + error; exists_ : string -> bool }.

Definition loadEndpoints `{Yaml} `{DurationError} (fs : Files) (order : list string)
    : list Endpoint + error :=
  let path := getenv "ENDPOINTS_FILE" in
  if negb (path =s "") then LoadYAML getenv (readFile fs path) order
  else if exists_ fs "config/endpoints.yaml" then
    LoadYAML getenv (readFile fs "config/endpoints.yaml") order
  else
    let upstream := env "UPSTREAM" "http://localhost:11434/v1" in
    let model := env "DEFAULT_MODEL" "gpt-5" in
    inl [Single "default" model upstream (getenv "UPSTREAM_API_KEY")].
End Settings.

(** ** [waitForRedis] *)

(** One round: what the ping answers, and whether the context is over before the next tick. *)
Record Round := mkRound { ping : option error; over : bool }.

(** [None]: still waiting when the rounds given are used up. *)
Fixpoint waitForRedis (rounds : list Round) : option (option error) :=
  match rounds with
  | [] => None
  | r :: rounds =>
      match ping r with
      | None => Some None
      | Some err => if over r then Some (Some (errorWrap "wait for redis: " err)) else waitForRedis rounds
      end
  end.

(** ** [buildAuth] *)
Inductive KeyBackend :=
| KeysInMySQL (cache : CachedKeys)
| KeysInMemory (cache : CachedKeys) (keys : StoreMemory)
| NoKeys.

Definition buildAuth `{KeyHash} `{Printable} (getenv : Getenv) (mysql : bool)
    : (Authenticator * KeyBackend) + error :=
  let cached := NewCachedKeys (30 * Minute) (5 * Minute) in
  if mysql then inl (Auth.New true, KeysInMySQL cached)
  else
    let raw := getenv "GATEWAY_API_KEYS" in
    if negb (raw =s "") then
      match ParseKeyList raw with
      | inr err => inr err
      | inl mem => inl (Auth.New true, KeysInMemory cached (NewStoreMemory (Some mem) []))
      end
    else inl (NewPassthrough, NoKeys).

(** ** [refreshEndpoints] *)

(** A tick with what the store lists; and what others do to the pool in between. *)
Inductive refresh_event := RTick (rows : list Endpoint + error) | ROther (f : Pool -> Pool).

Definition refreshTick (rows : list Endpoint + error) (p : Pool) : option error * Pool :=
  match rows with
  | inr err => (Some err, p)
  | inl [] => (None, p)
  | inl rows => Replace rows p
  end.

Definition refreshEndpoints (es : list refresh_event) (p : Pool) : Pool :=
  foldl (fun p e => match e with RTick rows => (refreshTick rows p).2 | ROther f => f p end) p es.

(** [tiktokenCounter.Count]. *)
Definition Count (encode : string -> Z) (text : string) : Z :=
  if text =s "" then 0 else encode text.

(** ** [main] *)
Section Start.
Context `{Yaml} `{DurationError} `{KeyHash} `{Printable} `{Unicode}.
Context {D T : Type} `{Redis D} `{RadixTree T}.

Inductive fatal :=
| FRedis (err : error) | FEndpoints (err : error) | FMySQL (err : error) | FList (err : error)
| FPool (err : error) | FAuth (err : error) | FWindow (raw : string) | FLimiter (err : error)
| FGateway (err : error).

(** What the process finds outside: Redis, files, the database behind a DSN with the
    endpoints it lists, the limiter's script, the tokenizer, the readiness of Redis. *)
Record Outside := mkOutside {
  oRedis : option error;
  oFiles : Files;
  oOrder : list string;
  oMySQL : string -> (list Endpoint + error) + error;
  oScript : Script D + error;
  oEncoder : option (string -> Z);
  oPing : option error
}.

Record System := mkSystem {
  sysPool : Pool;
  sysAuth : Authenticator;
  sysKeys : KeyBackend;
  sysLimiter : Limiter D;
  sysRegistry : Registry (Adapter := Adapter);
  sysPrefix : PrefixIndexer (T := T);
  sysGateway : Gateway;
  sysChecker : Checker;
  sysAddr : string
}.

(** Lines 51-72: the endpoints to start with. *)
Definition startEndpoints (getenv : Getenv) (o : Outside) : (list Endpoint * bool) + fatal :=
  match loadEndpoints getenv (oFiles o) (oOrder o) with
  | inr err => inr (FEndpoints err)
  | inl endpoints =>
      let dsn := getenv "MYSQL_DSN" in
      if negb (dsn =s "") then
        match oMySQL o dsn with
        | inr err => inr (FMySQL err)
        | inl (inr err) => inr (FList err)
        | inl (inl []) => inl (endpoints, true)
        | inl (inl rows) => inl (rows, true)
        end
      else inl (endpoints, false)
  end.

Definition seedPrefixes (ix : PrefixIndexer (T := T)) : PrefixIndexer :=
  foldl (fun ix p => PrefixCache.Insert p ix) ix
    ["You are a helpful assistant"; "You are a helpful AI assistant"; "You are an expert"].

Definition gatewayConfig (getenv : Getenv) (o : Outside) (a : Authenticator) : Gateway.Config :=
  Gateway.mkConfig (Some a) true true true true (Count <$> oEncoder o) (Some (oPing o))
    (envInt getenv "COMPLETION_RESERVE" 256)
    (Retry.mkConfig (envInt getenv "RETRY_MAX_ATTEMPTS" 3)
       (envDuration getenv "RETRY_BASE_DELAY" (100 * Millisecond))).

Definition main (getenv : Getenv) (o : Outside) : System + fatal :=
  match oRedis o with
  | Some err => inr (FRedis err)
  | None =>
  match startEndpoints getenv o with
  | inr f => inr f
  | inl (endpoints, mysql) =>
  match NewPool endpoints (Breaker.mkConfig (envInt getenv "BREAKER_THRESHOLD" 5)
                             (envDuration getenv "BREAKER_COOLDOWN" (10 * Second))) with
  | inl err => inr (FPool err)
  | inr pool =>
  match buildAuth getenv mysql with
  | inr err => inr (FAuth err)
  | inl (a, keys) =>
  match ParseDuration (env getenv "RATE_LIMIT_WINDOW" "1s") with
  | None => inr (FWindow (env getenv "RATE_LIMIT_WINDOW" "1s"))
  | Some window =>
  match Limiter.New false (oScript o)
          (Limiter.mkConfig (envInt getenv "RATE_LIMIT" 20) window
             (envInt getenv "DEFAULT_BALANCE" 100000) None) with
  | inr err => inr (FLimiter err)
  | inl lim =>
  let ix := seedPrefixes
              (PrefixCache.New (envInt getenv "PREFIX_MIN_MATCH" 16)
                 (float64_div (float64_of 1) (float64_of 5))) in
  match Gateway.New (gatewayConfig getenv o a) with
  | inr err => inr (FGateway err)
  | inl g =>
  let checker := HealthChecker.New (envDuration getenv "HEALTH_INTERVAL" (10 * Second))
                   (envDuration getenv "HEALTH_TIMEOUT" (2 * Second)) in
  inl (mkSystem pool a keys lim registered ix g checker (":" +:+ env getenv "PORT" "8080"))
  end end end end end end end.
End Start.
