(* ===== verification/MainSpec.v ===== *)
(** * What a started process guarantees to its handlers *)

From Stdlib Require Import ZArith Lia Ascii.
From stdpp Require Import prelude gmap list strings.
From S2P Require Import Prelude GoInt GoText GoErr GoTime GoOs Breaker Endpoint Wrr Pool PoolSpec Config.
From S2P Require Import Provider Retry Redis Limiter Json Types Auth Store PrefixCache HealthChecker.
From S2P Require Import Http Gateway OpenAICompat OpenAI Claude Adapters Main.

Local Open Scope Z_scope.

(** A pool that serves something. *)
Definition serves (p : Pool) : Prop := exists id, is_Some (byID p !! id).

Lemma Replace_serves es p :
  WF p -> es <> [] -> match Replace es p with (None, p') => serves p' | (Some _, p') => p' = p end.
Proof.
  intros HW Hne. pose proof (Replace_built p es HW) as HB.
  destruct (Replace es p) as [[err|] p']; [apply HB|].
  destruct HB as (_ & st & HB & ->). destruct es as [|e es]; [done|].
  exists (ID e). apply (bu_dom _ _ _ HB). by left.
Qed.

Lemma NewPool_serves es c p : NewPool es c = inr p -> es <> [] -> WF p /\ serves p.
Proof.
  intros HN Hne. split; [by eapply NewPool_WF|]. unfold NewPool in HN.
  pose proof (Replace_serves es (emptyPool c) (emptyPool_WF c) Hne) as HR.
  destruct (Replace es (emptyPool c)) as [[err|] p']; [done|]. by injection HN as <-.
Qed.

Lemma framed_serves p p' : framed p p' -> serves p -> serves p'.
Proof. intros HF [id Hid]. exists id. by rewrite (fr_id _ _ HF). Qed.

(** ** Reloads *)

(** What other goroutines may do: any method of the pool qualifies. *)
Definition pool_safe (f : Pool -> Pool) : Prop := forall p,
  WF p -> serves p -> WF (f p) /\ serves (f p).

Lemma framed_safe f : (forall p, WF p -> framed p (f p)) -> pool_safe f.
Proof. intros Hf p HW HS. specialize (Hf p HW). split; [by eapply framed_WF|by eapply framed_serves]. Qed.

Definition safe_event (e : refresh_event) : Prop :=
  match e with RTick _ => True | ROther f => pool_safe f end.

Lemma refreshTick_safe rows : pool_safe (fun p => (refreshTick rows p).2).
Proof.
  intros p HW HS. unfold refreshTick. destruct rows as [[|e rows]|err]; [done| |done].
  pose proof (Replace_serves (e :: rows) p HW ltac:(done)) as HR.
  pose proof (Replace_preserves_WF p (e :: rows)) as HWF.
  destruct (Replace (e :: rows) p) as [err p'] eqn:E. cbn [snd].
  destruct err; [by subst|]. split; [by apply (HWF p')|done].
Qed.

(** C40. Reloading never takes the gateway out of service. Whatever the store lists at each
    tick (an error, nothing, invalid endpoints) and whatever the other goroutines do in
    between, the pool stays well formed and keeps serving endpoints; a tick whose list is
    unusable leaves it exactly as it was. *)
Theorem refresh_keeps_serving es p :
  WF p -> serves p -> Forall safe_event es ->
  (WF (refreshEndpoints es p) /\ serves (refreshEndpoints es p)) /\
  (forall rows q, WF q ->
     match rows with
     | inl rows => rows = [] \/ exists e, e ∈ rows /\ Validate e <> None
     | inr _ => True
     end -> (refreshTick rows q).2 = q).
Proof.
  intros HW HS HF. split.
  - revert p HW HS. induction HF as [|e es He HF IH]; intros p HW HS; [done|].
    cbn [refreshEndpoints foldl]. destruct e as [rows|f].
    + destruct (refreshTick_safe rows p HW HS) as [HW' HS']. by apply IH.
    + destruct (He p HW HS) as [HW' HS']. by apply IH.
  - intros rows q HWq Hbad. unfold refreshTick. destruct rows as [[|e rows]|err]; [done| |done].
    destruct Hbad as [|(x & Hx & HV)]; [done|].
    pose proof (Replace_built q (e :: rows) HWq) as HB.
    destruct (Replace (e :: rows) q) as [[err|] q']; [apply HB|].
    destruct HB as [HF' _]. rewrite Forall_forall in HF'. by rewrite HF' in HV.
Qed.

(** ** Start *)
Lemma checker_periods i t :
  0 < HealthChecker.interval (HealthChecker.New i t) /\
  0 < HealthChecker.timeout (HealthChecker.New i t).
Proof.
  unfold HealthChecker.New, Second. cbn [HealthChecker.interval HealthChecker.timeout].
  split; dcase; breflect; lia.
Qed.

Section Start.
Context `{Yaml} `{DurationError} `{KeyHash} `{Printable} `{Unicode}.
Context {D T : Type} `{Redis D} `{RadixTree T}.

Lemma LoadYAML_nonempty getenv file order es :
  LoadYAML getenv file order = inl es -> es <> [].
Proof.
  unfold LoadYAML, ParseYAML. destruct file as [body|]; [|done].
  destruct (yaml_unmarshal body) as [cfg|]; [|done].
  destruct (configLoop getenv cfg order []) as [[|e out]|]; [done| |done]. by intros [= <-].
Qed.

Lemma startEndpoints_nonempty getenv (o : Outside (D := D)) es mysql :
  startEndpoints getenv o = inl (es, mysql) -> es <> [] /\ mysql = negb (getenv "MYSQL_DSN" =s "").
Proof.
  unfold startEndpoints. destruct (loadEndpoints _ _ _) as [loaded|] eqn:El; [|done].
  assert (Hl : loaded <> []).
  { unfold loadEndpoints in El. repeat hcase El; [..|by injection El as <-];
      by eapply LoadYAML_nonempty. }
  destruct (getenv "MYSQL_DSN" =s ""); cbn [negb].
  - intros [= <- <-]. done.
  - destruct (oMySQL o (getenv "MYSQL_DSN")) as [[[|e rows]|]|]; try done; by intros [= <- <-].
Qed.

(** C17. A process that starts is fit to serve. If [main] gets as far as listening, then the
    pool is well formed and serves at least one endpoint, the registry is that of the three
    adapters, the limiter has a positive limit and window and runs the script that was
    loaded, the gateway uses all of them, tries each request at least once and reserves at
    least one token, the checker's periods are positive, and any Bearer token is accepted
    only if neither a database nor a key list is configured. *)
Theorem startup_sound getenv (o : Outside (D := D)) (sys : System (D := D) (T := T)) :
  main getenv o = inl sys ->
  WF (sysPool sys) /\ serves (sysPool sys) /\ sysRegistry sys = registered /\
  (0 < limit (sysLimiter sys) /\ 0 < window (sysLimiter sys) /\ seq (sysLimiter sys) = 0 /\
   oScript o = inl (script (sysLimiter sys))) /\
  (auth (sysGateway sys) = Some (sysAuth sys) /\ hasLimiter (sysGateway sys) = true /\
   hasPrefix (sysGateway sys) = true /\
   1 <= MaxAttempts (retry (sysGateway sys)) /\ 0 < BaseDelay (retry (sysGateway sys)) /\
   1 <= completionReserve (sysGateway sys)) /\
  0 < HealthChecker.interval (sysChecker sys) /\ 0 < HealthChecker.timeout (sysChecker sys) /\
  (passthrough (sysAuth sys) = true <-> getenv "MYSQL_DSN" = "" /\ getenv "GATEWAY_API_KEYS" = "").
Proof.
  unfold main. destruct (oRedis o); [done|].
  destruct (startEndpoints getenv o) as [[es mysql]|] eqn:Ees; [|done].
  destruct (startEndpoints_nonempty _ _ _ _ Ees) as [Hne Hmy].
  destruct (NewPool es _) as [err|pool] eqn:Ep; [done|].
  destruct (NewPool_serves _ _ _ Ep Hne) as [HW HS].
  destruct (buildAuth getenv mysql) as [[a keys]|] eqn:Ea; [|done].
  destruct (ParseDuration _) as [window|]; [|done].
  destruct (Limiter.New _ _ _) as [lim|] eqn:El; [|done].
  destruct (Gateway.New _) as [g|] eqn:Eg; [|done].
  intros [= <-]. cbn [sysPool sysRegistry sysLimiter sysGateway sysAuth sysChecker].
  split; [done|]. split; [done|]. split; [done|]. split.
  { unfold Limiter.New in El. cbn [Limit Window LuaScript DefaultBalance] in El.
    repeat hcase El; try done. injection El as <-. cbn. breflect. split_and!; (lia || done || congruence). }
  split.
  { unfold Gateway.New, gatewayConfig in Eg. cbn -[envInt envDuration Z.mul] in Eg. injection Eg as <-.
    cbn [auth hasLimiter hasPrefix retry MaxAttempts BaseDelay completionReserve].
    split_and!; try done; repeat dcase; breflect; first [lia|unfold Millisecond; lia]. }
  split; [apply checker_periods|]. split; [apply checker_periods|].
  unfold buildAuth in Ea. rewrite Hmy in Ea. destruct (getenv "MYSQL_DSN" =s "") eqn:E1; cbn [negb] in Ea.
  - breflect. destruct (getenv "GATEWAY_API_KEYS" =s "") eqn:E2; cbn [negb] in Ea; breflect.
    + injection Ea as <- <-. done.
    + destruct (ParseKeyList _); [|done]. injection Ea as <- <-. simpl. intuition congruence.
  - injection Ea as <- <-. breflect. simpl. intuition congruence.
Qed.
End Start.

(** ** Concrete values *)
Section Demo.
#[local] Instance demo_yaml : Yaml := fun _ => inr (errorsNew "no file").
#[local] Instance demo_duration : DurationError := fun s => errorsNew ("invalid duration " +:+ s).
#[local] Instance demo_hash : KeyHash := fun s => s.
#[local] Instance demo_quote : Printable := fun _ => true.
#[local] Instance demo_lower : Unicode := fun r => r.

(** Nothing set, no files, Redis up. *)
Definition demo_outside : Outside (D := db) :=
  mkOutside None (mkFiles (fun _ => inr (errorsNew "no file")) (fun _ => false)) []
    (fun _ => inr (errorsNew "no database")) (inl rate_limit_prededuct) None None.

Definition demo_main : System (D := db) (T := list string) + fatal := main (fun _ => "") demo_outside.

Lemma startup_sound_witness :
  match demo_main with
  | inl sys => WF (sysPool sys) /\ serves (sysPool sys) /\ 1 <= MaxAttempts (retry (sysGateway sys))
  | inr _ => False
  end.
Proof.
  assert (Hok : match demo_main with inl _ => true | inr _ => false end = true) by (vm_compute; reflexivity).
  destruct demo_main as [sys|] eqn:E; [|done].
  destruct (startup_sound (fun _ => "") demo_outside sys E) as (H1 & H2 & _ & _ & (_ & _ & _ & H3 & _) & _).
  done.
Defined.

Lemma refresh_keeps_serving_witness :
  let p := refreshEndpoints
    [RTick (inr (errorsNew "connection refused")); ROther (SetHealth "b" Unhealthy);
     RTick (inl [PoolSpec.demo_ep "z" 1]); RTick (inl [])] PoolSpec.demo_pool in
  WF p /\ serves p.
Proof.
  apply (refresh_keeps_serving
    [RTick (inr (errorsNew "connection refused")); ROther (SetHealth "b" Unhealthy);
     RTick (inl [PoolSpec.demo_ep "z" 1]); RTick (inl [])] PoolSpec.demo_pool).
  - apply (NewPool_WF PoolSpec.demo_eps PoolSpec.demo_bcfg). by vm_compute.
  - exists "a". eexists. by vm_compute.
  - assert (Hs : pool_safe (SetHealth "b" Unhealthy)).
    { apply framed_safe. intros p _. apply SetHealth_framed. }
    by repeat (apply Forall_cons; split).
Defined.
End Demo.
