(* ===== verification/System.v ===== *)
(** * The whole path of a request: gateway, adapter and provider

    The gateway of [Gateway.v] with the adapters of [Adapters.v], whose calls a mock
    provider of [MockProvider.v] serves. *)

From Stdlib Require Import ZArith Lia Ascii.
From stdpp Require Import prelude gmap list strings.
From S2P Require Import Prelude GoInt GoText GoErr GoOs Breaker Endpoint Pool Provider Retry Redis Limiter.
From S2P Require Import Json JsonSpec Types Auth PrefixCache Http Gateway GatewaySpec.
From S2P Require Import Sse OpenAICompat SseSpec OpenAI Claude ClaudeSpec OpenAISpec Adapters.
From S2P Require Import LimiterSpec GatewayRuns MockProvider MockSpec.

Local Open Scope Z_scope.

(** ** What operations leave on the response *)

(** The status the first sending operation fixes. *)
Fixpoint first_status (ops : list WriterOp) : option Z :=
  match ops with
  | [] => None
  | OpWriteHeader c :: _ => Some c
  | OpWrite _ :: _ => Some 200
  | _ :: ops => first_status ops
  end.

Lemma body_Write p (w : statusWriter) : Http.body (inner (w_Write p w)) = Http.body (inner w) +:+ p.
Proof.
  simpl. unfold sw_Write, sw_WriteHeader. destruct (wrote w); simpl;
    unfold resp_Write, resp_WriteHeader; destruct (Http.status (inner w)) eqn:E; simpl; by rewrite ?E.
Qed.

Lemma body_WriteHeader c (w : statusWriter) :
  Http.body (inner (w_WriteHeader c w)) = Http.body (inner w).
Proof.
  simpl. unfold sw_WriteHeader. destruct (wrote w); [done|]. simpl.
  unfold resp_WriteHeader. by destruct (Http.status (inner w)).
Qed.

Lemma body_ops ops : forall w : statusWriter,
  Http.body (inner (apply_ops ops w)) = Http.body (inner w) +:+ body_of ops.
Proof.
  induction ops as [|o ops IH]; intros w; [by rewrite app_empty_r|].
  unfold apply_ops in *. cbn [foldl]. rewrite IH. destruct o as [k v|c|p|]; cbn [apply_op].
  - done.
  - by rewrite body_WriteHeader.
  - rewrite body_Write, body_of_write. by rewrite app_assoc_s.
  - done.
Qed.

Lemma code_kept ops : forall w : statusWriter,
  wrote w = true -> code (apply_ops ops w) = code w /\ wrote (apply_ops ops w) = true.
Proof.
  induction ops as [|o ops IH]; intros w Hw; [done|]. unfold apply_ops in *. cbn [foldl].
  destruct o as [k v|c|p|]; cbn [apply_op].
  - exact (IH (w_SetHeader k v w) Hw).
  - simpl. unfold sw_WriteHeader. rewrite Hw. by apply IH.
  - simpl. unfold sw_Write. rewrite Hw. cbn [negb].
    exact (IH (mkStatusWriter _ (code w) (wrote w)) Hw).
  - by apply IH.
Qed.

Lemma written_first p (w : statusWriter) :
  wrote w = false -> code (w_Write p w) = 200 /\ wrote (w_Write p w) = true.
Proof. intros Hw. simpl. unfold sw_Write, sw_WriteHeader. rewrite Hw. by split. Qed.

Lemma first_status_code ops c : forall w : statusWriter,
  wrote w = false -> first_status ops = Some c ->
  code (apply_ops ops w) = c /\ wrote (apply_ops ops w) = true.
Proof.
  induction ops as [|o ops IH]; intros w Hw Hf; [done|]. unfold apply_ops in *. cbn [foldl].
  destruct o as [k v|c'|p|]; cbn [apply_op]; cbn [first_status] in Hf.
  - exact (IH (w_SetHeader k v w) Hw Hf).
  - injection Hf as ->. destruct (code_kept ops (w_WriteHeader c w)) as [Hc Hr];
      [simpl; unfold sw_WriteHeader; by rewrite Hw|].
    split; [|exact Hr]. etrans; [exact Hc|]. simpl. unfold sw_WriteHeader. by rewrite Hw.
  - injection Hf as <-. destruct (written_first p w Hw) as [H1 H2].
    destruct (code_kept ops (w_Write p w) H2) as [Hc Hr].
    split; [|exact Hr]. etrans; [exact Hc|exact H1].
  - by apply IH.
Qed.

(** Nothing was sent yet. *)
Definition blank (w : statusWriter) : Prop :=
  sw_ok w /\ wrote w = false /\ Http.body (inner w) = "".

Lemma blank_ops ops c (w : statusWriter) :
  blank w -> first_status ops = Some c ->
  Http.status (inner (apply_ops ops w)) = Some c /\ Http.body (inner (apply_ops ops w)) = body_of ops.
Proof.
  intros (Hok & Hw & Hb) Hf. destruct (first_status_code ops c w Hw Hf) as [Hc Hr].
  destruct (sw_ok_ops ops w Hok) as [Hok' _]. unfold sw_ok in Hok'. rewrite Hr in Hok'.
  split; [by rewrite Hok', Hc|]. by rewrite body_ops, Hb.
Qed.

Lemma blank_header k v (w : statusWriter) : blank w -> blank (w_SetHeader k v w).
Proof. intros (H1 & H2 & H3). split; [by apply sw_ok_header|done]. Qed.

Lemma blank_write p (w : statusWriter) :
  blank w -> Http.status (inner (w_Write p w)) = Some 200 /\ Http.body (inner (w_Write p w)) = p.
Proof.
  intros HB. destruct (blank_ops [OpWrite p] 200 w HB eq_refl) as [H1 H2].
  split; [exact H1|]. etrans; [exact H2|]. by rewrite body_of_write, app_empty_r.
Qed.

Section EndToEnd.
Context `{Float32Laws} `{JsonError} `{Unicode} `{Printable} `{KeyHash} `{UrlQuery}.
Context {K D T : Type} `{KeyStore K} `{Redis D} `{RadixTree T}.

Abbreviation Env := (Gateway.Env (A := Adapter) (D := D)).
Abbreviation World := (Gateway.World (A := Adapter) (K := K) (D := D) (T := T)).

(** The answer of an admitted request is what the forward loop left on a fresh writer. *)
Lemma admitted_response (g : Gateway) (env : Env) r (w : World) user req l db :
  chat_request r -> admitted g env r w user req l db ->
  exists s0, fPool s0 = wPool w /\ fProviders s0 = wProviders w /\ blank (fWriter s0) /\
    let fr := forward g (eForward env) req user (incomingRequestID r (eRandom env) (eNanos env)) s0 in
    let out := ServeHTTP g env r w emptyResponse in
    out.2 = inner (fWriter fr.2) /\
    wDb out.1 = if hasLimiter g
                then (SettleQuota (uID user) (estimateTokens g req) (actualTokens fr.1.1)
                        (eSettle env) (eBilling env db)).2
                else db.
Proof.
  intros Hr (Ha & (body & Hb & Hp) & Hpre). rewrite ServeHTTP_chat by done. cbn zeta.
  set (rid := incomingRequestID r (eRandom env) (eNanos env)).
  set (sw := mkStatusWriter _ 200 false).
  assert (Hsw : blank sw) by done.
  set (w1 := set_metrics (add_active 1 (wMetrics w)) w).
  unfold serveChat. change (wKeys w1) with (wKeys w).
  destruct (authenticate g r (wKeys w)) as [who k]. cbn [fst] in Ha. subst who.
  rewrite Hb, Hp. cbn [wPrefix wLog world_of].
  pose proof (maybePrefixCache_ok g r req sw (wPrefix w1) (wLog w1) ltac:(done)) as (H1' & H2' & _).
  assert (Hbody : Http.body (inner (maybePrefixCache g r req (sw, wPrefix w1, wLog w1)).2.1.1) = "").
  { unfold maybePrefixCache. repeat dcase; done. }
  destruct (maybePrefixCache _ _ _ _) as [r' [[sw' prefix] logs]]. cbn [fst snd] in *.
  cbn [wPool wProviders wKeys wLimiter wDb wPrefix wMetrics wLog world_of].
  exists (mkFState (wPool w) (wProviders w) sw' (wMetrics w1) logs).
  split; [done|]. split; [done|]. split; [exact (conj H1' (conj H2' Hbody))|].
  destruct (hasLimiter g) eqn:Eg; cbn [negb].
  - change (wLimiter w1) with (wLimiter w). change (wDb w1) with (wDb w). rewrite Hpre.
    rewrite bool_decide_eq_false_2 by (intros [? [=]]). cbn [orb negb].
    unfold serveAdmitted. cbn [wPool wProviders wMetrics wLog wDb].
    change (wPool w1) with (wPool w). change (wProviders w1) with (wProviders w).
    destruct (forward _ _ _ _ _ _) as [[usage ferr] s]. rewrite Eg.
    cbn [fst snd]. by destruct (SettleQuota _ _ _ _ _) as [o db'].
  - destruct Hpre as [-> ->]. unfold serveAdmitted. cbn [wPool wProviders wMetrics wLog wDb].
    change (wPool w1) with (wPool w). change (wProviders w1) with (wProviders w).
    destruct (forward _ _ _ _ _ _) as [[usage ferr] s]. rewrite Eg. done.
Qed.

(** A first call that succeeds ends the loop. *)
Lemma forward_first g (env : nat -> Attempt (A := Adapter)) req user rid s0 ep ex p a usage w1 :
  1 <= MaxAttempts (retry g) ->
  Pick (aPick (env O)) (Types.Model req) (Some ∅) (aOthers (env O) (fPool s0)) = (inr ep, ex, p) ->
  (For ep (aProviders (env O) (fProviders s0))).1 = inl a ->
  callAdapter (env O) a req (withUpstreamModel req ep) (fWriter s0) = ((usage, None), w1) ->
  (forward g env req user rid s0).1 = (usage, None) /\
  fWriter (forward g env req user rid s0).2 = w1.
Proof.
  intros Hm Hp Hf Hc. unfold forward.
  destruct (Z.to_nat (MaxAttempts (retry g))) as [|n] eqn:En; [lia|]. cbn [forwardLoop].
  rewrite Hp. cbn [fProviders set_fPool].
  destruct (For ep (aProviders (env O) (fProviders s0))) as [found reg]. cbn [fst] in Hf. subst found.
  cbn [fWriter set_fProviders set_fPool]. rewrite Hc. by split.
Qed.

(** *** With a mock provider behind the endpoint *)
Section Served.
Context (getenv : Getenv) (hostname : option string) (created : Z) (text : Z -> string).
Context (mock : provider) (path : Path).

(** The first turn of the request: endpoint [ep] is picked, its adapter is the OpenAI one,
    and its calls go to the mock provider, which is fit to serve them. *)
Record first_turn (g : Gateway) (env : Env) (w : World) (req : ChatRequest) (ep : Endpoint) : Prop := {
  ft_attempts : 1 <= MaxAttempts (retry g);
  ft_pick : exists ex p, Pick (aPick (eForward env O)) (Types.Model req) (Some ∅)
      (aOthers (eForward env O) (wPool w)) = (inr ep, ex, p);
  ft_adapter : (For ep (aProviders (eForward env O) (wProviders w))).1 = inl (AOpenAI (OpenAI_New ep));
  ft_chat : forall q, aChat (eForward env O) (AOpenAI (OpenAI_New ep)) q =
      Chat (AOpenAI (OpenAI_New ep)) (mock_client getenv hostname created text mock) q;
  ft_stream : forall q, aChatStream (eForward env O) (AOpenAI (OpenAI_New ep)) q =
      ChatStream (AOpenAI (OpenAI_New ep)) (mock_client getenv hostname created text mock) path q;
  ft_clock : in_int64 (aCreated (eForward env O));
  ft_model : ascii_only (chars (Types.Model req));
  ft_client : pClient path = ReadsAll /\ pCtxEnds path = None;
  ft_plain : plain getenv hostname created mock;
  ft_request : sendable (OpenAI_New ep) (withUpstreamModel req ep);
  ft_small : small_answer getenv hostname created (OpenAI_New ep) mock (withUpstreamModel req ep);
  ft_key : same_key (OpenAI_New ep) mock;
  ft_works : failStatus mock < 400
}.

Lemma stream_ops_status a client q :
  (exists e, (OpenAI_ChatStream a client path q).2 = Some e) \/
  first_status (OpenAI_ChatStream a client path q).1.1 = Some 200.
Proof.
  unfold OpenAI_ChatStream, streamAnswer. destruct (OpenAI_do a client q true) as [resp|e];
    [|left; by eexists].
  destruct (_ >=? 400); [left; by eexists|]. right. unfold CopyStream.
  destruct (copyLoop _ _ _ _) as [[ops [gen u]] ended]. cbn [fst].
  by destruct (negb (_ =s "")), (_ =s "").
Qed.

Lemma callAdapter_mock g (env : Env) (w : World) req ep sw :
  first_turn g env w req ep -> blank sw ->
  exists w1, callAdapter (eForward env O) (AOpenAI (OpenAI_New ep)) req (withUpstreamModel req ep) sw =
      ((Some (mkUsage 4 4 8), None), w1) /\
    Http.status (inner w1) = Some 200 /\
    if Stream req
    then read_all (Http.body (inner w1)) ("", zeroUsage) =
           (content_of getenv hostname mock, mkUsage 4 4 8)
    else ParseCompletion (Http.body (inner w1)) =
           inl ("chatcmpl-" +:+ name mock, content_of getenv hostname mock, mkUsage 4 4 8).
Proof.
  intros [_ _ _ Hchat Hstr Hclock Hmodel [Hp1 Hp2] HP HS Hsm Hk Hf] HB.
  unfold callAdapter. destruct (Stream req).
  - rewrite Hstr. cbn [ChatStream].
    destruct (stream_success getenv hostname created text _ _ _ path HP HS Hk Hf Hp1 Hp2) as (Hr & Hu & He).
    destruct (stream_ops_status (OpenAI_New ep) (mock_client getenv hostname created text mock)
                (withUpstreamModel req ep)) as [[e Hbad]|Hst]; [congruence|].
    destruct (OpenAI_ChatStream _ _ path _) as [[ops usage] err]. cbn [fst snd] in *. subst usage err.
    destruct (blank_ops ops 200 sw HB Hst) as [H1' H2'].
    eexists. split; [done|]. split; [done|]. by rewrite H2'.
  - rewrite Hchat. cbn [Chat]. rewrite (chat_success getenv hostname created text) by done.
    set (resp := set_rModel _ _).
    assert (Hid : "chatcmpl-" +:+ name mock <> "") by discriminate.
    unfold EncodeChatCompletion. change (rID resp) with ("chatcmpl-" +:+ name mock).
    rewrite (proj2 (str_eqb_neq _ _) Hid). eexists. split; [reflexivity|].
    destruct (blank_write (Marshal (completion_json (aCreated (eForward env O)) resp))
                (w_SetHeader "Content-Type" "application/json" sw)) as [H1' H2'];
      [by apply blank_header|].
    split; [exact H1'|]. rewrite H2'. apply (completion_reads_back _ resp).
    + split_and!; [|exact Hmodel|by apply (plain_content getenv hostname created)].
      destruct HP as [A1 _ _ _]. change (rID resp) with ("chatcmpl-" +:+ name mock).
      rewrite chars_app. apply Forall_app. split; [ascii_const|done].
    + by vm_compute.
    + exact Hclock.
Qed.

(** C1. A request through the whole system. An admitted chat request whose first endpoint
    is served by a working mock provider is answered with status 200 and a body that an
    OpenAI client reads back as the provider's text and usage (as one completion, or as
    the events of a stream), and its user is charged the eight tokens used: the settlement
    of the pre-deduction is for exactly those. *)
Theorem end_to_end (g : Gateway) (env : Env) r (w : World) user req l db ep :
  chat_request r -> admitted g env r w user req l db -> first_turn g env w req ep ->
  let out := ServeHTTP g env r w emptyResponse in
  Http.status out.2 = Some 200 /\
  (if Stream req
   then read_all (Http.body out.2) ("", zeroUsage) =
          (content_of getenv hostname mock, mkUsage 4 4 8)
   else ParseCompletion (Http.body out.2) =
          inl ("chatcmpl-" +:+ name mock, content_of getenv hostname mock, mkUsage 4 4 8)) /\
  wDb out.1 = if hasLimiter g
              then (SettleQuota (uID user) (estimateTokens g req) 8
                      (eSettle env) (eBilling env db)).2
              else db.
Proof.
  intros Hr Ha HF. destruct (admitted_response g env r w user req l db Hr Ha) as (s0 & Hp & Hreg & HB & Hout).
  destruct (callAdapter_mock g env w req ep (fWriter s0) HF HB) as (w1 & Hcall & Hst & Hbody).
  destruct (ft_pick _ _ _ _ _ HF) as (ex & p & Hpick).
  destruct (forward_first g (eForward env) req user (incomingRequestID r (eRandom env) (eNanos env))
              s0 ep ex p (AOpenAI (OpenAI_New ep)) (Some (mkUsage 4 4 8)) w1 (ft_attempts _ _ _ _ _ HF)) as [Hres Hw].
  - by rewrite Hp.
  - rewrite Hreg. apply HF.
  - exact Hcall.
  - cbn zeta in *. destruct Hout as [-> Hdb]. rewrite Hw. rewrite Hres in Hdb. done.
Qed.
End Served.
End EndToEnd.

(** ** A concrete system *)
Section Demo.
#[local] Existing Instance demo_float.
#[local] Existing Instance demo_float_laws.
#[local] Existing Instance demo_json_error.
#[local] Instance demo_query : UrlQuery := fun u k v => Some (u +:+ "?" +:+ k +:+ "=" +:+ v).

Definition all_path : Path := mkPath ReadsAll "" None.

Definition demo_turn (i : nat) : Attempt (A := Adapter) :=
  let client := mock_client demo_os (Some "pod-1") 1700000000 (fun _ => "") (mkProvider "east" "" 0 0) in
  mkAttempt (fun p => p) (at_time 0) (fun r => r) (fun a q => Chat a client q)
    (fun a q => ChatStream a client all_path q) (fun p => p) Millisecond 0 7 7 None None None.

Definition demo_system_env : Gateway.Env (A := Adapter) (D := db) :=
  Gateway.mkEnv (Some "abcdefgh") 0 (demo_at noon) demo_turn (fun s => s) NetOk Millisecond 0
    (fun _ => "") "host".

Definition demo_system_world : Gateway.World (A := Adapter) (K := Memory) (D := db) (T := list string) :=
  Gateway.mkWorld (pool_of [ep1] (Breaker.mkConfig 0 0)) registered NewMemory
    (mkLimiter rate_limit_prededuct 2 Second 1000 0) emptyDb (PrefixCache.New 0 float64_zero) newMetrics [].

Definition demo_chat : ChatRequest :=
  mkChatRequest demo_float "gpt" [mkMessage "user" "hello"] false 0 false.

Lemma demo_admitted :
  admitted run_gateway demo_system_env run_http demo_system_world anonymous demo_chat
    run_granted.1.2 run_granted.2.
Proof.
  split; [done|]. split; [exists run_body; split; by vm_compute|].
  change (hasLimiter run_gateway) with true. cbn match.
  change (estimateTokens run_gateway demo_chat) with 258.
  assert (Hv : run_granted.1.1 = (true, None)) by by vm_compute.
  rewrite <- Hv. unfold run_granted. by destruct (PreDeduct _ _ _ _ _) as [[??]?].
Qed.

Lemma demo_first_turn :
  exists ep, ID ep = "e1" /\
  first_turn demo_os (Some "pod-1") 1700000000 (fun _ => "") (mkProvider "east" "" 0 0) all_path
    run_gateway demo_system_env demo_system_world demo_chat ep.
Proof.
  exists ep1. split; [done|]. split.
  - by vm_compute.
  - eexists _, _. vm_compute. reflexivity.
  - by vm_compute.
  - done.
  - done.
  - by vm_compute.
  - ascii_const.
  - done.
  - split; first [ascii_const|by vm_compute].
  - split; [|ascii_const|by vm_compute|by intros []; vm_compute].
    split; simpl; [done|repeat constructor..|by split]; by vm_compute.
  - split; by vm_compute.
  - by left.
  - done.
Qed.

Lemma end_to_end_witness :
  let out := ServeHTTP run_gateway demo_system_env run_http demo_system_world emptyResponse in
  Http.status out.2 = Some 200 /\
  ParseCompletion (Http.body out.2) =
    inl ("chatcmpl-east", "response from east instance=pod-1 node=n1", mkUsage 4 4 8).
Proof.
  destruct demo_first_turn as (ep & _ & HF).
  destruct (end_to_end demo_os (Some "pod-1") 1700000000 (fun _ => "") (mkProvider "east" "" 0 0) all_path
    run_gateway demo_system_env run_http demo_system_world anonymous demo_chat _ _ ep
    ltac:(done) demo_admitted HF) as (Hs & Hb & _).
  split; [exact Hs|exact Hb].
Defined.
End Demo.
