(* ===== verification/Termination.v ===== *)
(** * The fuel of the recursive readers is enough

    The readers of JSON, of runes, of durations and of environment references and the encoders
    of strings recur on what they have not read yet; their definitions count that down with fuel. Here: more fuel never changes an
    answer, so each definition is the total function that the Go code computes. *)

From Stdlib Require Import ZArith Lia Ascii.
From stdpp Require Import prelude gmap list strings.
From S2P Require Import Prelude GoInt GoText GoErr GoTime GoOs Endpoint Json Types Http Sse Config MockProvider.

Local Open Scope Z_scope.
Local Open Scope nat_scope.

(** [r] is a proper rest of [l]. *)
Definition shorter (r l : list ascii) : Prop := length r < length l.

Lemma decode_rune_shorter a l r l' : decode_rune a l = (r, l') -> length l' <= length l.
Proof.
  unfold decode_rune. intros H. repeat hcase H; injection H as _ <-; simpl; lia.
Qed.

Lemma hex4_shorter l r l' : hex4 l = Some (r, l') -> shorter l' l.
Proof.
  unfold hex4, shorter. destruct l as [|a [|b [|c [|d l]]]]; try done. intros H.
  destruct (hex_val a), (hex_val b), (hex_val c), (hex_val d); try done.
  injection H as _ <-. simpl. lia.
Qed.

Lemma unicode_escape_shorter l r l' : unicode_escape l = Some (r, l') -> shorter l' l.
Proof.
  unfold unicode_escape. intros H. destruct (hex4 l) as [[x l1]|] eqn:E; [|done].
  apply hex4_shorter in E. cbn [mbind option_bind] in H. unfold shorter in *.
  destruct (between _ _ x); [|by injection H as _ <-].
  destruct l1 as [|a [|b l2]]; [by injection H as _ <-..|].
  destruct (_ && _); [|by injection H as _ <-].
  destruct (hex4 l2) as [[y l3]|] eqn:E2; [|by injection H as _ <-].
  apply hex4_shorter in E2. unfold shorter in *. simpl in *.
  destruct (_ && _); injection H as _ <-; simpl; lia.
Qed.

Lemma string_body_shorter n : forall l s r, string_body n l = Some (s, r) -> shorter r l.
Proof.
  unfold shorter. induction n as [|n IH]; intros l s r H; [done|]. cbn [string_body] in H.
  destruct l as [|a l]; [done|]. case_bool_decide; [injection H as _ <-; simpl; lia|].
  case_bool_decide.
  - destruct l as [|b l2]; [done|]. case_bool_decide.
    + destruct (unicode_escape l2) as [[x l3]|] eqn:E; [|done]. cbn [mbind option_bind] in H.
      apply unicode_escape_shorter in E. unfold shorter in E.
      destruct (string_body n l3) as [[s' l4]|] eqn:E2; [|done]. cbn [mbind option_bind] in H.
      apply IH in E2. injection H as _ <-. simpl. lia.
    + destruct (simple_escape b); [|done]. cbn [mbind option_bind] in H.
      destruct (string_body n l2) as [[s' l4]|] eqn:E2; [|done]. cbn [mbind option_bind] in H.
      apply IH in E2. injection H as _ <-. simpl. lia.
  - destruct (_ <? 0x20)%Z; [done|]. destruct (decode_rune a l) as [x l2] eqn:E.
    apply decode_rune_shorter in E.
    destruct (string_body n l2) as [[s' l4]|] eqn:E2; [|done]. cbn [mbind option_bind] in H.
    apply IH in E2. injection H as _ <-. simpl. lia.
Qed.

Lemma string_body_fuel n : forall m l, length l <= n -> length l <= m ->
  string_body n l = string_body m l.
Proof.
  induction n as [|n IH]; intros m l Hn Hm; (destruct l as [|a l]; [by destruct m|simpl in Hn, Hm]); [lia|].
  destruct m as [|m]; [lia|]. cbn [string_body]. case_bool_decide; [done|]. case_bool_decide.
  - destruct l as [|b l2]; [done|]. simpl in Hn, Hm. case_bool_decide.
    + destruct (unicode_escape l2) as [[x l3]|] eqn:E; [|done]. cbn [mbind option_bind].
      apply unicode_escape_shorter in E. unfold shorter in E. by rewrite (IH m l3) by lia.
    + destruct (simple_escape b); [|done]. cbn [mbind option_bind]. by rewrite (IH m l2) by lia.
  - destruct (_ <? 0x20)%Z; [done|]. destruct (decode_rune a l) as [x l2] eqn:E.
    apply decode_rune_shorter in E. by rewrite (IH m l2) by lia.
Qed.

Lemma span_digits_length l d r : span_digits l = (d, r) -> length l = length d + length r.
Proof.
  revert d. induction l as [|a l IH]; intros d; simpl; [by intros [= <- <-]|].
  destruct (is_digit a); [|by intros [= <- <-]]. destruct (span_digits l) as [d' r'].
  intros [= <- <-]. simpl. by rewrite (IH d').
Qed.

Lemma int_part_shorter l d r : int_part l = Some (d, r) -> shorter r l.
Proof.
  unfold int_part, shorter. destruct l as [|a l]; [done|]. case_bool_decide; [intros [= _ <-]; simpl; lia|].
  destruct (is_digit a) eqn:E; [|done]. cbn [span_digits]. rewrite E.
  destruct (span_digits l) as [d' r'] eqn:E2. intros [= _ <-].
  apply span_digits_length in E2. simpl. lia.
Qed.

Lemma frac_part_shorter l d r : frac_part l = Some (d, r) -> length r <= length l.
Proof.
  unfold frac_part. destruct l as [|a l]; [by intros [= _ <-]|]. case_bool_decide; [|by intros [= _ <-]].
  destruct (span_digits l) as [[|x d'] r'] eqn:E; [done|]. intros [= _ <-].
  apply span_digits_length in E. simpl in *. lia.
Qed.

Lemma exp_part_shorter l d r : exp_part l = Some (d, r) -> length r <= length l.
Proof.
  unfold exp_part. destruct l as [|a l]; [by intros [= _ <-]|].
  destruct (_ || _); [|by intros [= _ <-]].
  set (sl := match l with [] => _ | _ => _ end).
  assert (Hsl : length sl.2 <= length l).
  { unfold sl. destruct l as [|b l2]; [done|]. destruct (_ || _); simpl; lia. }
  destruct sl as [sign l2]. destruct (span_digits l2) as [[|x d'] r'] eqn:E; [done|].
  intros [= _ <-]. apply span_digits_length in E. simpl in *. lia.
Qed.

Lemma parse_number_shorter l d r : parse_number l = Some (d, r) -> shorter r l.
Proof.
  unfold parse_number, shorter. set (sl := match l with [] => _ | _ => _ end).
  assert (Hsl : length sl.2 <= length l).
  { unfold sl. destruct l as [|b l2]; [done|]. case_bool_decide; simpl; lia. }
  destruct sl as [sign l0]. intros H.
  destruct (int_part l0) as [[i l1]|] eqn:E1; [|done]. cbn [mbind option_bind] in H.
  destruct (frac_part l1) as [[f l2]|] eqn:E2; [|done]. cbn [mbind option_bind] in H.
  destruct (exp_part l2) as [[e l3]|] eqn:E3; [|done]. cbn [mbind option_bind] in H.
  injection H as _ <-. apply int_part_shorter in E1. apply frac_part_shorter in E2.
  apply exp_part_shorter in E3. unfold shorter in E1. simpl in Hsl. lia.
Qed.

Lemma skip_ws_length l : length (skip_ws l) <= length l.
Proof. induction l as [|a l IH]; simpl; [lia|]. destruct (is_ws a); simpl; lia. Qed.

Lemma eat_length c l r : eat c l = Some r -> length l = S (length r).
Proof. destruct l as [|a l]; [done|]. simpl. case_bool_decide; [by intros [= <-]|done]. Qed.

Lemma eat_all_length w : forall l r, eat_all w l = Some r -> length l = length w + length r.
Proof.
  induction w as [|c w IH]; intros l r; simpl; [by intros [= <-]|].
  destruct (eat c l) as [l1|] eqn:E; [|done]. cbn [mbind option_bind]. intros H.
  apply eat_length in E. apply IH in H. lia.
Qed.

(** ** Values *)

(** What a successful reader leaves is shorter. *)
Lemma parse_shorter n :
  (forall d l v r, parse_value n d l = Some (v, r) -> shorter r l) /\
  (forall d l v r, parse_elems n d l = Some (v, r) -> shorter r l) /\
  (forall d l v r, parse_members n d l = Some (v, r) -> shorter r l).
Proof.
  unfold shorter. induction n as [|n (IHv & IHe & IHm)]; [done|]. split_and!; intros d l v r H.
  - destruct l as [|a l]; [done|]. cbn [parse_value] in H.
    pose proof (skip_ws_length l) as Hws. simpl.
    repeat case_bool_decide.
    + destruct (eat_all _ _) eqn:E; [|done]. injection H as _ <-. apply eat_all_length in E. simpl in E. lia.
    + destruct (eat_all _ _) eqn:E; [|done]. injection H as _ <-. apply eat_all_length in E. simpl in E. lia.
    + destruct (eat_all _ _) eqn:E; [|done]. injection H as _ <-. apply eat_all_length in E. simpl in E. lia.
    + destruct (string_body _ _) as [[s r']|] eqn:E; [|done]. injection H as _ <-.
      apply string_body_shorter in E. unfold shorter in E. lia.
    + destruct (_ <? _)%Z; [done|]. destruct (eat _ _) eqn:E.
      * injection H as _ <-. apply eat_length in E. lia.
      * destruct (parse_elems _ _ _) as [[es r']|] eqn:E2; [|done]. injection H as _ <-.
        apply IHe in E2. lia.
    + destruct (_ <? _)%Z; [done|]. destruct (eat _ _) eqn:E.
      * injection H as _ <-. apply eat_length in E. lia.
      * destruct (parse_members _ _ _) as [[es r']|] eqn:E2; [|done]. injection H as _ <-.
        apply IHm in E2. lia.
    + destruct (parse_number _) as [[x r']|] eqn:E; [|done]. injection H as _ <-.
      apply parse_number_shorter in E. unfold shorter in E. simpl in E. lia.
  - cbn [parse_elems] in H. destruct (parse_value n d l) as [[x r1]|] eqn:E; [|done].
    cbn [mbind option_bind] in H. apply IHv in E. pose proof (skip_ws_length r1) as Hws.
    destruct (eat "]"%char _) eqn:E1; [injection H as _ <-; apply eat_length in E1; lia|].
    destruct (eat ","%char _) as [r2|] eqn:E2; [|done]. cbn [mbind option_bind] in H.
    apply eat_length in E2. pose proof (skip_ws_length r2) as Hws2.
    destruct (parse_elems n d _) as [[xs r3]|] eqn:E3; [|done]. injection H as _ <-. apply IHe in E3. lia.
  - cbn [parse_members] in H. destruct (eat quo l) as [l1|] eqn:Eq; [|done].
    cbn [mbind option_bind] in H. apply eat_length in Eq.
    destruct (string_body _ _) as [[k l2]|] eqn:Ek; [|done]. cbn [mbind option_bind] in H.
    apply string_body_shorter in Ek. unfold shorter in Ek. pose proof (skip_ws_length l2) as Hw2.
    destruct (eat ":"%char _) as [l3|] eqn:Ec; [|done]. cbn [mbind option_bind] in H.
    apply eat_length in Ec. pose proof (skip_ws_length l3) as Hw3.
    destruct (parse_value n d _) as [[x r1]|] eqn:E; [|done].
    cbn [mbind option_bind] in H. apply IHv in E. pose proof (skip_ws_length r1) as Hws.
    destruct (eat "}"%char _) eqn:E1; [injection H as _ <-; apply eat_length in E1; lia|].
    destruct (eat ","%char _) as [r2|] eqn:E2; [|done]. cbn [mbind option_bind] in H.
    apply eat_length in E2. pose proof (skip_ws_length r2) as Hws2.
    destruct (parse_members n d _) as [[xs r3]|] eqn:E3; [|done]. injection H as _ <-. apply IHm in E3. lia.
Qed.

(** Twice the length is enough, and one more at the entries of a container. *)
Lemma parse_fuel n :
  (forall m d l, 2 * length l <= n -> 2 * length l <= m -> parse_value n d l = parse_value m d l) /\
  (forall m d l, 2 * length l + 1 <= n -> 2 * length l + 1 <= m -> parse_elems n d l = parse_elems m d l) /\
  (forall m d l, 2 * length l + 1 <= n -> 2 * length l + 1 <= m ->
     parse_members n d l = parse_members m d l).
Proof.
  induction n as [|n (IHv & IHe & IHm)].
  { split_and!; intros m d l Hn Hm; [|lia..]. destruct l; [by destruct m|simpl in Hn; lia]. }
  split_and!; intros m d l Hn Hm.
  - destruct m as [|m]; [destruct l; [done|simpl in Hm; lia]|].
    destruct l as [|a l]; [done|]. simpl in Hn, Hm. cbn [parse_value].
    pose proof (skip_ws_length l) as Hws.
    repeat (case_bool_decide; [done|]). case_bool_decide.
    { destruct (_ <? _)%Z; [done|]. destruct (eat _ _); [done|]. by rewrite (IHe m) by lia. }
    case_bool_decide; [|done].
    destruct (_ <? _)%Z; [done|]. destruct (eat _ _); [done|]. by rewrite (IHm m) by lia.
  - destruct m as [|m]; [lia|]. cbn [parse_elems]. rewrite (IHv m d l) by lia.
    destruct (parse_value m d l) as [[x r1]|] eqn:E; [|done]. cbn [mbind option_bind].
    apply parse_shorter in E. unfold shorter in E. pose proof (skip_ws_length r1) as Hws.
    destruct (eat "]"%char _); [done|]. destruct (eat ","%char _) as [r2|] eqn:E2; [|done].
    cbn [mbind option_bind]. apply eat_length in E2. pose proof (skip_ws_length r2) as Hws2.
    by rewrite (IHe m) by lia.
  - destruct m as [|m]; [lia|]. cbn [parse_members].
    destruct (eat quo l) as [l1|] eqn:Eq; [|done]. cbn [mbind option_bind]. apply eat_length in Eq.
    destruct (string_body _ _) as [[k l2]|] eqn:Ek; [|done]. cbn [mbind option_bind].
    apply string_body_shorter in Ek. unfold shorter in Ek. pose proof (skip_ws_length l2) as Hw2.
    destruct (eat ":"%char _) as [l3|] eqn:Ec; [|done]. cbn [mbind option_bind].
    apply eat_length in Ec. pose proof (skip_ws_length l3) as Hw3. rewrite (IHv m) by lia.
    destruct (parse_value m d _) as [[x r1]|] eqn:E; [|done]. cbn [mbind option_bind].
    apply parse_shorter in E. unfold shorter in E. pose proof (skip_ws_length r1) as Hws.
    destruct (eat "}"%char _); [done|]. destruct (eat ","%char _) as [r2|] eqn:E2; [|done].
    cbn [mbind option_bind]. apply eat_length in E2. pose proof (skip_ws_length r2) as Hws2.
    by rewrite (IHm m) by lia.
Qed.

(** ** Runes and environment references *)
Lemma runes_fuel_enough n : forall m l, length l <= n -> length l <= m -> runes_fuel n l = runes_fuel m l.
Proof.
  induction n as [|n IH]; intros m l Hn Hm; (destruct l as [|a l]; [by destruct m|simpl in Hn, Hm]); [lia|].
  destruct m as [|m]; [lia|]. cbn [runes_fuel]. destruct (decode_rune a l) as [x l2] eqn:E.
  apply decode_rune_shorter in E. by rewrite (IH m) by lia.
Qed.

Lemma expand_fuel_enough f n : forall m l, length l <= n -> length l <= m ->
  expand_fuel f n l = expand_fuel f m l.
Proof.
  induction n as [|n IH]; intros m l Hn Hm; (destruct l as [|a l]; [by destruct m|simpl in Hn, Hm]); [lia|].
  destruct m as [|m]; [lia|]. cbn [expand_fuel]. destruct (_ && _); [|by rewrite (IH m) by lia].
  destruct (getShellName l) as [name w]. rewrite (IH m); [done|..]; rewrite length_drop; lia.
Qed.

(** ** Encoders *)
Lemma escape_fuel_enough n : forall m l, length l <= n -> length l <= m -> escape_fuel n l = escape_fuel m l.
Proof.
  induction n as [|n IH]; intros m l Hn Hm; (destruct l as [|a l]; [by destruct m|simpl in Hn, Hm]); [lia|].
  destruct m as [|m]; [lia|]. cbn [escape_fuel]. rewrite (IH m l) by lia.
  destruct (_ <? _)%Z; [done|]. destruct (decode_rune a l) as [x l2] eqn:E.
  apply decode_rune_shorter in E. by rewrite (IH m) by lia.
Qed.

Lemma quote_fuel_enough `{Printable} n : forall m l, length l <= n -> length l <= m ->
  quote_fuel n l = quote_fuel m l.
Proof.
  induction n as [|n IH]; intros m l Hn Hm; (destruct l as [|a l]; [by destruct m|simpl in Hn, Hm]); [lia|].
  destruct m as [|m]; [lia|]. cbn [quote_fuel]. destruct (decode_rune a l) as [x l2] eqn:E.
  apply decode_rune_shorter in E. by rewrite (IH m) by lia.
Qed.

(** ** Durations *)
Lemma leadingInt_length l : forall x v r, leadingInt x l = Some (v, r) -> length r <= length l.
Proof.
  induction l as [|a l IH]; intros x v r; cbn [leadingInt]; [by intros [= _ <-]|].
  destruct (is_digit a); [|by intros [= _ <-]]. destruct (_ >? _)%gw; [done|].
  destruct (_ >? _)%gw; [done|]. intros H%IH. simpl. lia.
Qed.

Lemma leadingFraction_length l : forall x sc o, length (leadingFraction x sc o l).2 <= length l.
Proof.
  induction l as [|a l IH]; intros x sc o; [done|]. cbn [leadingFraction].
  destruct (is_digit a); [|done]. simpl.
  destruct o; [|destruct (_ >? _)%gw; [|destruct (_ >? _)%gw]]; (etrans; [apply IH|lia]).
Qed.

Lemma span_unit_length l u r : span_unit l = (u, r) -> length l = length u + length r.
Proof.
  revert u. induction l as [|a l IH]; intros u; simpl; [by intros [= <- <-]|].
  destruct (is_unit_char a); [|by intros [= <- <-]]. destruct (span_unit l) as [u' r'].
  intros [= <- <-]. simpl. by rewrite (IH u').
Qed.

Lemma parse_term_shorter l v r : parse_term l = Some (v, r) -> shorter r l.
Proof.
  unfold parse_term, shorter. destruct l as [|a l0]; [done|]. set (l := a :: l0).
  destruct (negb _); [done|]. destruct (leadingInt 0 l) as [[v0 l1]|] eqn:E; [|done].
  cbn [mbind option_bind]. apply leadingInt_length in E.
  set (fr := match l1 with [] => _ | _ => _ end).
  assert (Hfr : length fr.1.2 <= length l1).
  { unfold fr. destruct l1 as [|b l1']; [done|]. case_bool_decide; [|done].
    pose proof (leadingFraction_length l1' 0 (f64_of 1) false) as Hl.
    destruct (leadingFraction _ _ _ l1') as [[f sc] l2]. simpl in *. lia. }
  destruct fr as [[[f sc] l2] post]. simpl in Hfr.
  destruct (_ && _); [done|]. destruct (span_unit l2) as [u l3] eqn:Eu.
  apply span_unit_length in Eu. case_bool_decide as Hu; [done|].
  destruct (unit_of u) as [w|]; [|done]. cbn [mbind option_bind].
  assert (Hne : length u <> 0) by (by destruct u).
  intros Ht. repeat hcase Ht; try done; injection Ht as _ <-; lia.
Qed.

Lemma parse_terms_fuel n : forall m d l, length l <= n -> length l <= m ->
  parse_terms n d l = parse_terms m d l.
Proof.
  induction n as [|n IH]; intros m d l Hn Hm; (destruct l as [|a l]; [by destruct m|]); [simpl in Hn; lia|].
  destruct m as [|m]; [simpl in Hm; lia|]. cbn [parse_terms].
  destruct (parse_term (a :: l)) as [[v r]|] eqn:E; [|done]. cbn [mbind option_bind].
  apply parse_term_shorter in E. unfold shorter in E. by rewrite (IH m) by lia.
Qed.

(** ** The programs *)

(** [Unmarshal], [Decode], [ExpandEnv] and the runes of a text, with [n] more fuel. *)
Definition Unmarshal_with (n : nat) (s : string) : option json :=
  let l := chars s in
  '(v, r) ← parse_value (2 * length l + 1 + n) 0 (skip_ws l);
  match skip_ws r with [] => Some v | _ => None end.

Definition Decode_with (n : nat) (limit : Z) (body : string) : option json :=
  let l := skip_ws (chars (sprefix (Z.to_nat limit) body)) in
  '(v, r) ← parse_value (2 * length l + 1 + n) 0 l;
  if (slen body <=? limit)%Z || negb (bool_decide (r = []))
     || match v with JArr _ | JObj _ => true | _ => false end
  then Some v else None.

Definition ExpandEnv_with (n : nat) (getenv : Getenv) (value : string) : string :=
  let s := TrimSpace value in unchars (expand_fuel getenv (String.length s + n) (chars s)).

Definition runes_with (n : nat) (s : string) : list Z := runes_fuel (String.length s + n) (chars s).

Definition marshal_string_with (n : nat) (s : string) : list ascii :=
  quo :: escape_fuel (String.length s + n) (chars s) ++ [quo].

Definition Quote_with `{Printable} (n : nat) (s : string) : string :=
  unchars (of_byte 0x22 :: quote_fuel (String.length s + n) (chars s) ++ [of_byte 0x22]).

(** The readers and writers of text terminate with the answer of the code: on every
    input the fuel their definitions start with suffices, so that any more of it gives the
    same result. This covers the decoding of request bodies, answers and stream events, the
    first value of a body, the expansion of the endpoint file's references, the terms of a
    duration, the cutting of prompts into runes, and the strings in JSON and in error texts. *)
Theorem readers_terminate `{Printable} n :
  (forall s, Unmarshal_with n s = Unmarshal s) /\
  (forall limit body, Decode_with n limit body = Decode limit body) /\
  (forall getenv value, ExpandEnv_with n getenv value = ExpandEnv getenv value) /\
  (forall d l, parse_terms (length l + n) d l = parse_terms (length l) d l) /\
  (forall s, runes_with n s = runes s) /\
  (forall s, marshal_string_with n s = marshal_string s) /\
  (forall s, Quote_with n s = Quote s).
Proof.
  split_and!.
  - intros s. unfold Unmarshal_with, Unmarshal. pose proof (skip_ws_length (chars s)).
    by rewrite (proj1 (parse_fuel _) (2 * length (chars s) + 1)) by lia.
  - intros limit body. unfold Decode_with, Decode. set (l := skip_ws _).
    by rewrite (proj1 (parse_fuel _) (2 * length l + 1)) by lia.
  - intros getenv value. unfold ExpandEnv_with, ExpandEnv, Expand. f_equal.
    apply expand_fuel_enough; rewrite chars_length; lia.
  - intros d l. apply parse_terms_fuel; lia.
  - intros s. unfold runes_with, runes. apply runes_fuel_enough; rewrite chars_length; lia.
  - intros s. unfold marshal_string_with, marshal_string.
    by rewrite (escape_fuel_enough _ (String.length s)) by (rewrite chars_length; lia).
  - intros s. unfold Quote_with, Quote.
    by rewrite (quote_fuel_enough _ (String.length s)) by (rewrite chars_length; lia).
Qed.
